(* ===== verification/_CoqProject ===== *)
-Q . S2P
Prelude.v
GoStrings.v
Sha256.v
GoTime.v
Migrate.v
Types.v
GoJson.v
GoJsonEnc.v
GoBase64.v
GoUrl.v
GoHttp.v
GoDecode.v
Config.v
Ledger.v
LedgerEncoding.v
LedgerChain.v
LedgerVerify.v
LedgerSpec.v
LedgerConc.v
Mcp.v
Effects.v
Interleave.v
LedgerLog.v
Opa.v
PolicyLog.v
Auth.v
Sso.v
SsoLog.v
ProxyIngress.v
Proxy.v
LedgerHandler.v
QStore.v
QTypes.v
QLog.v
Notify.v
NotifySys.v
NotifyConc.v
QHandler.v
GoMux.v
SlackApp.v
SlackLog.v
PolicyStore.v
Dashboard.v
Server.v
QWorker.v
QPass.v
Deployment.v
World.v
EndToEnd.v
System.v
Lifecycle.v
