(* ===== verification/Prelude.v ===== *)
(** * Elodea: a verification library for the policy-enforcement proxy

    Elodea (repository KiteRail, [backend/]) stands between AI agents and a tool server.
    An agent's JSON-RPC call is parsed once, decided by an OPA policy, written to a
    hash-chained ledger, and then forwarded, denied, or held for a reviewer.  Reviewers
    approve or deny held calls in a console or from Slack; a worker replays approved calls
    once, after asking the policy again; another worker notifies reviewers.  People sign in
    through an identity provider or with a static token.  All state but the readiness flag,
    the sign-in client, the email cache and the prepared policy lives in PostgreSQL, and
    several replicas may run.

    ** How the code is modelled

    Pure Go functions are functions.  A Go [string] or byte slice is a [string] of bytes;
    a [time.Time] is its nanoseconds; machine integers are [Z] with the wrap-around written
    where the code can reach it; Go maps are [gmap]s, and where the code ranges over one
    the order is an argument.  Fallible code returns [result].

    A handler or worker is a [prog] ([Effects]): a finite tree of the calls it makes
    through the program's interfaces, each continuing with the answer.  [runs p tr x] says
    that [p] can make the calls [tr] and return [x]; a theorem about a handler holds for
    every answer of the database, the policy engine, the clock, the random source, the
    identity provider, Slack and the upstream.  [returns] and [safe] state totality and
    what holds before each call.  SQL statements are functions on tables, and the systems
    that share a table ([LedgerConc], [System], [NotifyConc]) interleave single statements
    of any number of programs, with statements that fail or whose acknowledgement is lost,
    and programs that die at any call.

    Many programs on shared state are a log ([Interleave]): entries with the time, the task
    and the call with its answer; [interleaves] says that every task's entries are a run of
    its program, finished or not, and [after step] says what the calls have made of a
    component's state and that it gave the answers.  Each component has its step relation
    ([SsoLog], [LedgerLog], [PolicyLog], [QLog], [SlackLog], the full-scan flag of
    [LedgerHandler], the flags of [Lifecycle]); [Deployment] wires the programs as [main] does,
    its shutdown among them, and [EndToEnd] combines all of them on one log.

    ** Files, in the order they are compiled

    Language and libraries:
    - [Prelude]: automation, Go errors and results, generic lemmas;
    - [GoStrings], [GoTime], [GoJson] (UTF-8, the JSON scanner and tokens), [GoJsonEnc]
      ([json.Marshal]), [GoDecode] (decoding into structs), [GoBase64], [GoUrl], [GoHttp]
      (cookies, redirects), [GoMux] ([http.ServeMux]), [Sha256] (executable FIPS 180-4).

    Components:
    - [Types]: [internal/types/types.go], [internal/db/models.go] and [compat.go];
    - [Migrate]: [internal/db/migrate.go];
    - [Config]: [internal/config/config.go], and [main]'s token table;
    - [Ledger], [LedgerEncoding], [LedgerChain], [LedgerVerify], [LedgerSpec],
      [LedgerConc]: [internal/ledger/ledger.go] over [internal/db/ledger.sql.go];
      [LedgerHandler]: [internal/ledger/handler.go];
    - [Mcp]: [internal/mcp/json.go] and [headers.go];
    - [Effects], [Interleave]: programs, their calls, and logs of many programs;
    - [LedgerLog]: the ledger behind a log;
    - [Opa]: [internal/opaengine/engine.go]; [PolicyLog]: the engine behind a log;
    - [Auth]: [internal/auth/auth.go];
    - [Sso], [SsoLog]: [internal/sso/sso.go] over [internal/db/auth.sql.go];
    - [ProxyIngress], [Proxy]: [internal/proxy/adapter.go] and [proxy.go];
    - [QStore], [QTypes]: [internal/quarantine/store.go] over
      [internal/db/quarantine.sql.go]; [QLog]: the table behind a log, and where each of its
      rows comes from; [QHandler]: [handler.go]; [QWorker]: [worker.go]; [QPass]: its passes
      against a table that serves it;
    - [Notify], [NotifySys], [NotifyConc]: [internal/notify/notify.go] over
      [internal/db/notify.sql.go];
    - [SlackApp], [SlackLog]: [internal/slackapp/slackapp.go], and its email cache under
      concurrent clicks;
    - [PolicyStore]: [internal/policystore/store.go] and [handler.go];
    - [Dashboard]: [internal/dashboard/handler.go];
    - [Server]: [cmd/server/main.go]; [Deployment]: the handlers and workers [main] wires
      from a configuration, and which of them makes which call; [World]: a closed
      deployment, whose state answers every call, with a sample run;
    - [EndToEnd]: what reaches the upstream, traced through all components;
    - [System]: reviewers, agents, recovery and replay workers on one quarantine table;
    - [Lifecycle]: the readiness flag, the workers' context and the discovered provider
      ([cmd/server/main.go], [internal/sso/sso.go]) behind a log that ends in a shutdown.

    Interfaces: [Adapter] (the Go interface, instance [MCPAdapter]), [ChannelOk] (what a
    notification channel promises the worker; the Slack, webhook and Slack-app channels are
    instances), [UuidLib], [UrlLib] and [UnicodeTables] (libraries, below).

    ** What the theorems show

    - The whole process ([EndToEnd]): under any interleaving of requests, workers and loops
      wired from a validated configuration, whatever reaches the upstream is an allowed and
      recorded call of an authenticated agent, or the replay of such an agent's held call
      that an entitled person approved afterwards and policy did not deny again; the
      approver is another identity than the agent, unless a session of the identity
      provider carries the agent's name or a Slack reviewer's configured entry is the
      agent's name with surrounding space; and at that moment the ledger is a verifiable
      chain with a row for exactly that body, whose ruling came from a published bundle.
    - Enforcement ([Proxy], [ProxyIngress], [Mcp], [Opa]): a call reaches the upstream only
      after the policy allowed exactly the forwarded content and the ledger recorded it;
      every other decision and every failure is answered without forwarding; what the
      policy sees is what any JSON reader sees, duplicate members being refused; mirrored
      headers agree with the body; credentials of the agent never go upstream; an engine
      without a valid bundle fails closed, and a watched directory is picked up.
    - Audit ([LedgerSpec], [LedgerConc], [LedgerHandler]): appends, interleaved and failing
      in any way, keep one numbered, linked, hashed chain; verification decides that
      property, and an anchor determines the whole prefix unless the rows exhibit a
      SHA-256 collision; paging visits every entry and ends; one full scan runs at a
      time and the flag is never left set.
    - Held calls ([QStore], [QTypes], [QHandler], [QWorker], [QPass], [System]): the store refines
      the life cycle of an item (pending, approved, denied, replaying, replayed, failed); errors are truthful;
      only an authenticated reviewer or admin decides, under their own name and with a
      ledger entry; a stored request is read back as it came; a replay needs an approval,
      a policy that still allows it and a write-ahead entry, and each approval leads to a
      bounded number of upstream requests whatever crashes, and comes to an end in a bounded
      number of passes whatever the upstream answers.
    - Entry points ([Server], [Auth], [Config], [Sso], [SsoLog],
      [SlackLog], [PolicyStore]): which routes are public; human routes run only for a proven reviewer
      or admin and never for an agent token of an accepted configuration; a session
      authenticates only after a completed sign-in of that browser's attempt, until it is
      revoked, expires or idles; sign-in returns to the console only; a Slack click decides
      only when Slack signed it recently and vouches for a configured reviewer's email;
      validation accepts exactly the configurations its rules describe.
    - Notifications ([NotifySys], [NotifyConc]): a pass against working channels delivers
      what is due; a channel gets at most eight deliveries of an item; no two at once while
      deliveries finish within their lease.
    - Start-up ([Migrate], [Server]): each migration is executed at most once and in order;
      nothing is served before every step of the start-up succeeded.
    - Shutdown ([Lifecycle], [Server]): a listener stops only after readiness was withdrawn,
      the workers were told and the drain delay was waited out; from then on only requests
      let in before and the replay worker act, the worker sending at most the request it
      was at; nobody signs in before the provider was discovered.

    ** Fuel and bounds

    [ledger_chain] needs fewer than 2^63-1 calls in a log, so that sequence numbers do not
    wrap.  [decodeValue] has one unit of fuel per token and one more; each call consumes a token,
    and [decode_object_exact] shows that valid bodies do not run out.  The tree
    reader [build] has fuel for every token, and nesting stops at 10000 as in the package.  Loops
    over a clock ([Run], [WatchForChanges], [reloadOnSignal]) take the number of ticks,
    about which the theorems assume nothing; the retry loops of the ledger and of
    [connectPostgres] take the number of attempts the code allows.

    ** Parameters and what is assumed of them

    [google/uuid] (parsing yields the canonical form, which parses to itself),
    PostgreSQL's [jsonb] text (it denotes the value stored; a hypothesis of the round
    trip), OPA's compiler and evaluator (nothing), [yaml.v3] and [time.ParseDuration]
    (nothing), [url.Parse] (nothing), the Unicode tables of the runtime (nothing beyond
    ASCII), [rate.Limiter] (nothing), the OpenID, OAuth and Slack services (nothing).
    Where a property has a hypothesis, a witness shows that it can hold.

    ** Not modelled

    Logging and Prometheus metrics ([internal/metrics]), which nothing reads back; the
    interfaces [internal/db/db.go] and [querier.go], which have no bodies; the test harness
    [internal/dbtest]; listeners, TLS and the process's command-line flags; time-outs of calls,
    which appear as calls that fail; PostgreSQL's isolation below a single statement, except for
    the ledger's transaction, which is interleaved statement by statement; the separate
    email caches and full-scan flags of several replicas (a log of [Deployment] is one
    process, while the stores it shares with others are covered by [System], [NotifyConc]
    and [LedgerConc]). *)

From stdpp Require Import base tactics strings list gmap pretty sorting.
From Stdlib Require Import ZArith Lia.

(** ** Automation *)

Create HintDb elodea.

(** [split_matches] destructs every scrutinee blocking the goal. *)
Ltac split_matches :=
  repeat match goal with
  | |- context [match ?x with _ => _ end] => destruct x eqn:?; simpl in *; try done
  end.

(** [split_in H] destructs every scrutinee blocking the hypothesis [H]. *)
Ltac split_in H :=
  repeat match type of H with
  | context [match ?x with _ => _ end] => destruct x eqn:?; simpl in *; try done
  end.

(** ** Go errors

    A Go [error] is what [errors.Is]/[errors.As] can tell about it (the sentinel
    at the root of its chain, if the program tests for it) and its text. *)

Inductive sentinel : Type :=
  | SNotFound | SAlreadyResolved | SStaleTransition | SAuditUnavailable
  | SNoRows | SCanceled | SSerialization | SStopStream | SMaxBytes | SEOF.

#[export] Instance sentinel_eq_dec : EqDecision sentinel.
Proof. solve_decision. Defined.

Record error : Type := mkErr { err_root : option sentinel; err_text : string }.

#[export] Instance error_eq_dec : EqDecision error.
Proof. solve_decision. Defined.

(** [errors.New] and [fmt.Errorf] without [%w]. *)
Definition errors_New (msg : string) : error := mkErr None msg.

(** [fmt.Errorf("prefix: %w", e)]: the chain, hence the root, is kept. *)
Definition errorf_w (prefix : string) (e : error) : error :=
  mkErr (err_root e) (prefix +:+ ": " +:+ err_text e).

(** [errors.Is]/[errors.As] against one of the tested sentinels. *)
Definition errors_Is (e : error) (s : sentinel) : bool :=
  bool_decide (err_root e = Some s).

(** ** Results *)

Inductive result (A : Type) : Type :=
  | Ok (a : A)
  | Err (e : error).
Arguments Ok {A} a.
Arguments Err {A} e.

Definition is_ok {A} (r : result A) : bool := match r with Ok _ => true | Err _ => false end.

Definition rbind {A B} (r : result A) (f : A → result B) : result B :=
  match r with Ok a => f a | Err e => Err e end.

Declare Scope go_scope.
Delimit Scope go_scope with go.
Notation "x ←? r ;; k" := (rbind r (λ x, k))
  (at level 60, r at next level, right associativity) : go_scope.

Lemma rbind_ok {A B} (r : result A) (f : A → result B) b :
  rbind r f = Ok b ↔ ∃ a, r = Ok a ∧ f a = Ok b.
Proof. destruct r; simpl; naive_solver. Qed.

(** ** Lists *)

Lemma list_filter_all {A} (P : A → Prop) `{∀ x, Decision (P x)} (l : list A) :
  (∀ x, x ∈ l → P x) → filter P l = l.
Proof.
  induction l as [|x l IH]; intros HP; [done|].
  rewrite filter_cons_True by (apply HP; by left). f_equal. apply IH. intros y Hy. apply HP. by right.
Qed.

Lemma list_filter_ext_in {A} (P Q : A → Prop) `{∀ x, Decision (P x)} `{∀ x, Decision (Q x)} (l : list A) :
  (∀ x, x ∈ l → P x ↔ Q x) → filter P l = filter Q l.
Proof.
  induction l as [|x l IH]; intros E; [done|]. pose proof (E x ltac:(by left)) as Ex.
  rewrite !filter_cons, IH by (intros y I; apply E; by right).
  destruct (decide (P x)), (decide (Q x)); tauto.
Qed.

Lemma list_filter_none {A} (P : A → Prop) `{∀ x, Decision (P x)} (l : list A) :
  (∀ x, x ∈ l → ¬ P x) → filter P l = [].
Proof.
  induction l as [|x l IH]; intros HP; [done|].
  rewrite filter_cons_False by (apply HP; by left). apply IH. intros y Hy. apply HP. by right.
Qed.


(** Filtering keeps a duplicate-free projection duplicate-free. *)
Lemma NoDup_map_filter {A B} (f : A → B) (p : A → bool) (l : list A) :
  NoDup (map f l) → NoDup (map f (List.filter p l)).
Proof.
  induction l as [|x l IH]; simpl; [done|]. intros [N D]%NoDup_cons. destruct (p x); [|by apply IH].
  simpl. apply NoDup_cons. split; [|by apply IH]. intros I. apply N.
  apply list_elem_of_fmap in I as (y & -> & I). apply list_elem_of_In, filter_In in I as [I _].
  apply list_elem_of_fmap_2. by apply list_elem_of_In.
Qed.

(** Distinct elements that an integer in [lo .. hi] tells apart are at most [hi - lo + 1]. *)
Lemma length_bounded {A} (f : A → Z) (l : list A) (lo hi : Z) :
  (lo <= hi + 1)%Z → NoDup l → (∀ x y, x ∈ l → y ∈ l → f x = f y → x = y) →
  (∀ x, x ∈ l → (lo <= f x <= hi)%Z) → (Z.of_nat (length l) <= hi - lo + 1)%Z.
Proof.
  intros G N I B.
  assert (length (f <$> l) ≤ length ((λ n, lo + Z.of_nat n)%Z <$> seq 0 (Z.to_nat (hi - lo + 1))))%nat as L.
  { apply submseteq_length, NoDup_submseteq; [by apply NoDup_fmap_2_strong|]. intros z J.
    apply list_elem_of_fmap in J as (x & -> & J). specialize (B x J). apply list_elem_of_fmap.
    exists (Z.to_nat (f x - lo)). split; [lia|]. apply elem_of_seq. lia. }
  rewrite !length_fmap, length_seq in L. lia.
Qed.

Lemma NoDup_map_filter_lookup {A B} (f : A → B) (p : A → bool) (l : list A) :
  (∀ i j x y, l !! i = Some x → l !! j = Some y → p x = true → p y = true → f x = f y → i = j) →
  NoDup (map f (List.filter p l)).
Proof.
  induction l as [|x l IH]; intros U; simpl; [constructor|].
  assert (NoDup (map f (List.filter p l))) as D.
  { apply IH. intros i j y z I J Y Z E. injection (U (S i) (S j) y z I J Y Z E). done. }
  destruct (p x) eqn:P; [|done]. simpl. apply NoDup_cons. split; [|done]. intros I.
  apply list_elem_of_fmap in I as (y & E & I). apply list_elem_of_In, filter_In in I as [I Y].
  apply list_elem_of_In, list_elem_of_lookup in I as (i & I). by specialize (U O (S i) x y eq_refl I P Y E).
Qed.
