(* ===== verification/GoStrings.v ===== *)
(** * Go strings and bytes

    A Go [string] or [[]byte] is a sequence of bytes: here a [string], whose
    characters are the 256 bytes.  The functions of packages [strings], [strconv],
    [encoding/hex] and [net/http] the program calls, with the lemmas the
    components share.  ASCII behaviour is written out; what the Unicode tables of
    the runtime decide for non-ASCII text is the class [UnicodeTables]. *)

From S2P Require Import Prelude.
From stdpp Require Import base tactics strings list gmap pretty sorting.
From Stdlib Require Import ZArith Lia Ascii.

Local Open Scope Z_scope.

(** ** Bytes *)

Definition byte_val (c : ascii) : Z := Z.of_N (N_of_ascii c).
Definition byte_of (z : Z) : ascii := ascii_of_N (Z.to_N z).

Definition is_ascii_byte (c : ascii) : bool := byte_val c <? 128.

Fixpoint bytes_all (p : ascii → bool) (s : string) : bool :=
  match s with
  | EmptyString => true
  | String c s' => p c && bytes_all p s'
  end.

Fixpoint bytes_map (f : ascii → ascii) (s : string) : string :=
  match s with
  | EmptyString => EmptyString
  | String c s' => String (f c) (bytes_map f s')
  end.

Definition strlen (s : string) : Z := Z.of_nat (String.length s).

(** The slice [s[n:]]. *)
Fixpoint drop_str (n : nat) (s : string) : string :=
  match n, s with
  | O, _ => s
  | S n', String _ s' => drop_str n' s'
  | S _, EmptyString => EmptyString
  end.

(** The slice [s[:n]]. *)
Fixpoint take_str (n : nat) (s : string) : string :=
  match n, s with
  | O, _ => EmptyString
  | S n', String c s' => String c (take_str n' s')
  | S _, EmptyString => EmptyString
  end.

Fixpoint rev_str_app (s acc : string) : string :=
  match s with
  | EmptyString => acc
  | String c s' => rev_str_app s' (String c acc)
  end.
Definition rev_str (s : string) : string := rev_str_app s "".

(** ** Package [strings] *)

Fixpoint has_prefix (s p : string) : bool :=
  match p, s with
  | EmptyString, _ => true
  | String a p', String b s' => Ascii.eqb a b && has_prefix s' p'
  | String _ _, EmptyString => false
  end.

Definition has_suffix (s p : string) : bool := has_prefix (rev_str s) (rev_str p).

Definition trim_prefix (s p : string) : string :=
  if has_prefix s p then drop_str (String.length p) s else s.

Definition trim_suffix (s p : string) : string :=
  if has_suffix s p then take_str (String.length s - String.length p) s else s.

(** [strings.Contains] *)
Fixpoint str_contains (s sub : string) : bool :=
  has_prefix s sub ||
  match s with
  | EmptyString => false
  | String _ s' => str_contains s' sub
  end.

(** [strings.TrimLeft], [strings.TrimRight] and [strings.Trim] for an ASCII cutset. *)
Fixpoint trim_left_set (cut : ascii → bool) (s : string) : string :=
  match s with
  | EmptyString => EmptyString
  | String c s' => if cut c then trim_left_set cut s' else s
  end.
Definition trim_right_set (cut : ascii → bool) (s : string) : string :=
  rev_str (trim_left_set cut (rev_str s)).
Definition trim_set (cut : ascii → bool) (s : string) : string :=
  trim_right_set cut (trim_left_set cut s).

Definition is_blank (c : ascii) : bool := (byte_val c =? 32) || (byte_val c =? 9).
Definition is_dot (c : ascii) : bool := byte_val c =? 46.
Definition is_slash (c : ascii) : bool := byte_val c =? 47.

(** [unicode.IsSpace], as the UTF-8 encodings of its runes: the ASCII spaces, then
    U+0085, U+00A0, U+1680, U+2000-U+200A, U+2028, U+2029, U+202F, U+205F, U+3000. *)
Definition is_ascii_space (c : ascii) : bool :=
  ((9 <=? byte_val c) && (byte_val c <=? 13)) || (byte_val c =? 32).

(** The number of bytes of the space rune a string starts with; 0 when it does not
    start with one. *)
Definition space_len (s : string) : nat :=
  match s with
  | String a s1 =>
      if is_ascii_space a then 1%nat else
      match s1 with
      | String b s2 =>
          let a := byte_val a in let b := byte_val b in
          if (a =? 0xC2) && ((b =? 0x85) || (b =? 0xA0)) then 2%nat else
          match s2 with
          | String c _ =>
              let c := byte_val c in
              if ((a =? 0xE1) && (b =? 0x9A) && (c =? 0x80))
              || ((a =? 0xE2) && (b =? 0x80) &&
                    (((0x80 <=? c) && (c <=? 0x8A)) || (c =? 0xA8) || (c =? 0xA9) || (c =? 0xAF)))
              || ((a =? 0xE2) && (b =? 0x81) && (c =? 0x9F))
              || ((a =? 0xE3) && (b =? 0x80) && (c =? 0x80))
              then 3%nat else 0%nat
          | EmptyString => 0%nat
          end
      | EmptyString => 0%nat
      end
  | EmptyString => 0%nat
  end.

Fixpoint trim_space_left_fuel (fuel : nat) (s : string) : string :=
  match fuel with
  | O => s
  | S f =>
      match space_len s with
      | O => s
      | n => trim_space_left_fuel f (drop_str n s)
      end
  end.
Definition trim_space_left (s : string) : string := trim_space_left_fuel (String.length s) s.

(** The space rune a string ends with, read on the reversed string. *)
Definition space_len_rev (r : string) : nat :=
  let at_end n := bool_decide (space_len (rev_str (take_str n r)) = n) in
  match r with
  | EmptyString => 0%nat
  | _ => if at_end 1%nat then 1%nat
         else if bool_decide (2 ≤ String.length r)%nat && at_end 2%nat then 2%nat
         else if bool_decide (3 ≤ String.length r)%nat && at_end 3%nat then 3%nat else 0%nat
  end.

Fixpoint trim_space_rev_fuel (fuel : nat) (r : string) : string :=
  match fuel with
  | O => r
  | S f =>
      match space_len_rev r with
      | O => r
      | n => trim_space_rev_fuel f (drop_str n r)
      end
  end.

(** [strings.TrimSpace] *)
Definition trim_space (s : string) : string :=
  let l := trim_space_left s in
  rev_str (trim_space_rev_fuel (String.length l) (rev_str l)).

(** What the runtime's Unicode tables decide for text with a byte outside ASCII:
    the rune-wise part of [strings.ToLower], [strings.ToUpper] and [strings.EqualFold],
    which runes [strconv.Quote] prints as they are, and whether a text holds a letter. *)
Class UnicodeTables : Type := {
  lower_unicode : string → string;
  upper_unicode : string → string;
  letter_unicode : string → bool;
  fold_unicode : string → string → bool;
  quote_unicode : string → string
}.

Definition ascii_lower (c : ascii) : ascii :=
  if (65 <=? byte_val c) && (byte_val c <=? 90) then byte_of (byte_val c + 32) else c.
Definition ascii_upper (c : ascii) : ascii :=
  if (97 <=? byte_val c) && (byte_val c <=? 122) then byte_of (byte_val c - 32) else c.

(** [strings.ToLower]: byte-wise for ASCII text. *)
Definition to_lower `{UnicodeTables} (s : string) : string :=
  if bytes_all is_ascii_byte s then bytes_map ascii_lower s else lower_unicode s.

(** [strings.ToUpper] *)
Definition to_upper `{UnicodeTables} (s : string) : string :=
  if bytes_all is_ascii_byte s then bytes_map ascii_upper s else upper_unicode s.

(** [strings.ContainsFunc(s, unicode.IsLetter)] *)
Definition is_ascii_letter (c : ascii) : bool :=
  ((65 <=? byte_val c) && (byte_val c <=? 90)) || ((97 <=? byte_val c) && (byte_val c <=? 122)).
Definition contains_letter `{UnicodeTables} (s : string) : bool :=
  if bytes_all is_ascii_byte s then negb (bytes_all (λ c, negb (is_ascii_letter c)) s) else letter_unicode s.

(** [strings.EqualFold]: the ASCII loop, leaving at the first non-ASCII byte. *)
Fixpoint equal_fold `{UnicodeTables} (s t : string) : bool :=
  match s, t with
  | EmptyString, EmptyString => true
  | String a s', String b t' =>
      if is_ascii_byte a && is_ascii_byte b
      then Ascii.eqb (ascii_lower a) (ascii_lower b) && equal_fold s' t'
      else fold_unicode s t
  | _, _ => false
  end.

(** [strings.Split(s, sep)] for a one-byte separator. *)
Fixpoint split_byte (sep : ascii) (s : string) : list string :=
  match s with
  | EmptyString => [""]
  | String c s' =>
      let rest := split_byte sep s' in
      if Ascii.eqb c sep then "" :: rest
      else match rest with
           | p :: ps => String c p :: ps
           | [] => [String c ""]
           end
  end.

(** ** Package [strconv] *)

Definition is_digit (c : ascii) : bool := (48 <=? byte_val c) && (byte_val c <=? 57).

Fixpoint digits_val (s : string) (acc : Z) : Z :=
  match s with
  | EmptyString => acc
  | String c s' => digits_val s' (10 * acc + (byte_val c - 48))
  end.

Definition max_int64 : Z := 2 ^ 63 - 1.
Definition min_int64 : Z := - 2 ^ 63.

(** Wrap-around of [int64] arithmetic and of the conversion [int32(n)]. *)
Definition wrap64 (z : Z) : Z := (z + 2 ^ 63) mod 2 ^ 64 - 2 ^ 63.
Definition wrap32 (z : Z) : Z := (z + 2 ^ 31) mod 2 ^ 32 - 2 ^ 31.

(** [strconv.ParseInt(s, 10, 64)] (and [strconv.Atoi] on a 64-bit platform):
    an optional sign, at least one digit, no overflow. *)
Definition parse_int64 (s : string) : option Z :=
  let '(neg, body) :=
    match s with
    | String c s' => if byte_val c =? 45 then (true, s')
                     else if byte_val c =? 43 then (false, s') else (false, s)
    | EmptyString => (false, s)
    end in
  match body with
  | EmptyString => None
  | _ =>
      if bytes_all is_digit body then
        let v := digits_val body 0 in
        let v := if neg : bool then - v else v in
        if (min_int64 <=? v) && (v <=? max_int64) then Some v else None
      else None
  end.

(** The double quote, and the JSON error bodies the handlers write as text. *)
Definition dq : string := String (byte_of 34) "".
Definition quoted (s : string) : string := dq +:+ s +:+ dq.
Definition json_error (msg : string) : string := "{" +:+ quoted "error" +:+ ": " +:+ quoted msg +:+ "}".

(** ** Package [encoding/hex] *)

Definition hex_digit (n : Z) : ascii :=
  if n <? 10 then byte_of (48 + n) else byte_of (87 + n).

(** [hex.EncodeToString] *)
Fixpoint hex_encode (s : string) : string :=
  match s with
  | EmptyString => EmptyString
  | String c s' =>
      String (hex_digit (byte_val c / 16)) (String (hex_digit (byte_val c mod 16)) (hex_encode s'))
  end.

(** ** [strconv.Quote], the verb [%q] *)

(** An ASCII byte inside the quotes. *)
Definition quote_byte (c : ascii) : string :=
  let v := byte_val c in
  let esc t := String (byte_of 92) t in
  if (v =? 34) || (v =? 92) then esc (String c "")
  else if v =? 7 then esc "a" else if v =? 8 then esc "b" else if v =? 12 then esc "f"
  else if v =? 10 then esc "n" else if v =? 13 then esc "r" else if v =? 9 then esc "t"
  else if v =? 11 then esc "v"
  else if (v <? 32) || (v =? 127) then esc ("x" +:+ hex_encode (String c ""))
  else String c "".

Fixpoint quote_bytes (s : string) : string :=
  match s with
  | EmptyString => ""
  | String c s' => quote_byte c +:+ quote_bytes s'
  end.

Definition go_quote `{UnicodeTables} (s : string) : string :=
  if bytes_all is_ascii_byte s then quoted (quote_bytes s) else quote_unicode s.

(** Tables that leave non-ASCII text alone, to evaluate the definitions on examples. *)
Definition ascii_tables : UnicodeTables :=
  {| lower_unicode s := s; upper_unicode s := s; letter_unicode _ := true; fold_unicode := String.eqb; quote_unicode := quoted |}.

(** ** Package [net/http]: header names and the [Header] map *)

(** [textproto.validHeaderFieldByte]: RFC 7230 token characters. *)
Definition is_token_byte (c : ascii) : bool :=
  let v := byte_val c in
  ((48 <=? v) && (v <=? 57)) || ((65 <=? v) && (v <=? 90)) || ((97 <=? v) && (v <=? 122))
  || existsb (Z.eqb v) [33; 35; 36; 37; 38; 39; 42; 43; 45; 46; 94; 95; 96; 124; 126].

Fixpoint canonical_loop (upper : bool) (s : string) : string :=
  match s with
  | EmptyString => EmptyString
  | String c s' =>
      String (if upper then ascii_upper c else ascii_lower c) (canonical_loop (byte_val c =? 45) s')
  end.

(** [http.CanonicalHeaderKey] *)
Definition canonical_key (name : string) : string :=
  if bytes_all is_token_byte name then canonical_loop true name else name.

Abbreviation Header := (gmap string (list string)).

(** [Header.Get], [Header.Set], [Header.Add] *)
Definition header_get (h : Header) (name : string) : string :=
  match h !! canonical_key name with
  | Some (v :: _) => v
  | _ => ""
  end.
Definition header_set (name v : string) (h : Header) : Header := <[canonical_key name := [v]]> h.
Definition header_add (name v : string) (h : Header) : Header :=
  <[canonical_key name := default [] (h !! canonical_key name) ++ [v]]> h.

(** ** Lemmas on bytes and strings *)

Lemma byte_val_of n : 0 <= n < 256 → byte_val (byte_of n) = n.
Proof. intros H. unfold byte_val, byte_of. rewrite N_ascii_embedding by lia. lia. Qed.

Lemma byte_val_bounds c : 0 <= byte_val c < 256.
Proof. unfold byte_val. pose proof (N_ascii_bounded c). lia. Qed.

Lemma byte_val_inj c d : byte_val c = byte_val d → c = d.
Proof.
  unfold byte_val. intros E. apply N2Z.inj in E.
  by rewrite <- (ascii_N_embedding c), <- (ascii_N_embedding d), E.
Qed.

Lemma byte_of_val c : byte_of (byte_val c) = c.
Proof. unfold byte_of, byte_val. by rewrite N2Z.id, ascii_N_embedding. Qed.

Lemma app_str_cons c s t : String c s +:+ t = String c (s +:+ t).
Proof. done. Qed.

Lemma length_app_str s t : String.length (s +:+ t) = (String.length s + String.length t)%nat.
Proof. induction s as [|c s IH]; [done|]. rewrite app_str_cons. simpl. by rewrite IH. Qed.

Lemma app_str_nil_l t : "" +:+ t = t.
Proof. done. Qed.

Lemma app_str_nil_r s : s +:+ "" = s.
Proof. induction s as [|c s IH]; [done|]. by rewrite app_str_cons, IH. Qed.

Lemma app_str_assoc s t u : (s +:+ t) +:+ u = s +:+ (t +:+ u).
Proof. induction s as [|c s IH]; [done|]. by rewrite !app_str_cons, IH. Qed.

(** Concatenations that agree, with parts of equal length, agree part by part. *)
Lemma app_str_inj_len s s' t t' :
  s +:+ t = s' +:+ t' → String.length s = String.length s' → s = s' ∧ t = t'.
Proof.
  revert s'. induction s as [|c s IH]; intros [|c' s']; simpl; try done.
  rewrite !app_str_cons. intros E L. simplify_eq. naive_solver.
Qed.

Lemma app_str_inj_len_r s s' t t' :
  s +:+ t = s' +:+ t' → String.length t = String.length t' → s = s' ∧ t = t'.
Proof.
  intros E L. apply app_str_inj_len; [done|].
  apply (f_equal String.length) in E. rewrite !length_app_str in E. lia.
Qed.

Lemma app_str_inj_l s t t' : s +:+ t = s +:+ t' → t = t'.
Proof. intros E. by apply app_str_inj_len in E as [_ E]. Qed.

Lemma has_prefix_drop s p : has_prefix s p = true → s = p +:+ drop_str (String.length p) s.
Proof.
  revert s. induction p as [|a p IH]; intros s; [done|].
  destruct s as [|b s]; [done|]. simpl. intros [E P]%andb_prop.
  apply Ascii.eqb_eq in E as ->. rewrite app_str_cons. f_equal. by apply IH.
Qed.

(** ** Reversal and suffixes *)

Lemma rev_str_app_spec s acc : rev_str_app s acc = rev_str s +:+ acc.
Proof.
  unfold rev_str. revert acc. induction s as [|c s IH]; intros acc; [done|]. simpl.
  rewrite (IH (String c acc)), (IH (String c "")), app_str_assoc. done.
Qed.

Lemma rev_str_cons c s : rev_str (String c s) = rev_str s +:+ String c "".
Proof. unfold rev_str at 1. simpl. apply rev_str_app_spec. Qed.

Lemma rev_str_append s t : rev_str (s +:+ t) = rev_str t +:+ rev_str s.
Proof.
  induction s as [|c s IH]; [rewrite app_str_nil_l; by rewrite app_str_nil_r|].
  by rewrite app_str_cons, !rev_str_cons, IH, app_str_assoc.
Qed.

Lemma rev_str_involutive s : rev_str (rev_str s) = s.
Proof. induction s as [|c s IH]; [done|]. rewrite rev_str_cons, rev_str_append, IH. done. Qed.

Lemma has_prefix_append p r : has_prefix (p +:+ r) p = true.
Proof. induction p as [|c p IH]; [rewrite app_str_nil_l; by destruct r|]. rewrite app_str_cons. simpl. by rewrite Ascii.eqb_refl, IH. Qed.

Lemma drop_str_append p r : drop_str (String.length p) (p +:+ r) = r.
Proof. induction p as [|c p IH]; [done|]. rewrite app_str_cons. apply IH. Qed.

Lemma take_str_append p r : take_str (String.length p) (p +:+ r) = p.
Proof. induction p as [|c p IH]; [done|]. rewrite app_str_cons. simpl. by rewrite IH. Qed.

Lemma has_prefix_iff s p : has_prefix s p = true ↔ ∃ r, s = p +:+ r.
Proof.
  split; [intros E; eexists; by apply has_prefix_drop|]. intros [r ->]. apply has_prefix_append.
Qed.

Lemma has_suffix_iff s p : has_suffix s p = true ↔ ∃ r, s = r +:+ p.
Proof.
  unfold has_suffix. split.
  - intros E. apply has_prefix_drop in E. apply (f_equal rev_str) in E.
    rewrite rev_str_append, !rev_str_involutive in E. eauto.
  - intros [r ->]. rewrite rev_str_append. apply has_prefix_append.
Qed.

Lemma trim_suffix_append r p : trim_suffix (r +:+ p) p = r.
Proof.
  unfold trim_suffix. replace (has_suffix (r +:+ p) p) with true by (symmetry; apply has_suffix_iff; eauto).
  rewrite length_app_str, Nat.add_sub. apply take_str_append.
Qed.

Lemma trim_prefix_append p r : trim_prefix (p +:+ r) p = r.
Proof. unfold trim_prefix. by rewrite has_prefix_append, drop_str_append. Qed.
