(* ===== verification/Sha256.v ===== *)
(** * SHA-256

    [crypto/sha256.Sum256] (FIPS 180-4) on byte strings, on 32-bit words held as
    [Z] with the wrap-around written out.  The ledger, the payload hash, the policy
    fingerprint and the session store all hash with it.  The components' theorems
    use only that it is a function with a 32-byte output: where they need collision
    resistance they exhibit the colliding inputs. *)

From S2P Require Import Prelude GoStrings.
From stdpp Require Import base tactics strings list.
From Stdlib Require Import ZArith Lia Ascii.

Local Open Scope Z_scope.

Module Sha256.

Definition w32 (x : Z) : Z := Z.land x 0xffffffff.
Definition rotr (n x : Z) : Z := Z.lor (Z.shiftr x n) (w32 (Z.shiftl x (32 - n))).
Definition big0 (x : Z) : Z := Z.lxor (Z.lxor (rotr 2 x) (rotr 13 x)) (rotr 22 x).
Definition big1 (x : Z) : Z := Z.lxor (Z.lxor (rotr 6 x) (rotr 11 x)) (rotr 25 x).
Definition small0 (x : Z) : Z := Z.lxor (Z.lxor (rotr 7 x) (rotr 18 x)) (Z.shiftr x 3).
Definition small1 (x : Z) : Z := Z.lxor (Z.lxor (rotr 17 x) (rotr 19 x)) (Z.shiftr x 10).
Definition ch (e f g : Z) : Z := Z.lxor (Z.land e f) (Z.land (Z.lxor e 0xffffffff) g).
Definition maj (a b c : Z) : Z := Z.lxor (Z.lxor (Z.land a b) (Z.land a c)) (Z.land b c).

(** The constants, as FIPS 180-4 defines them: the first 32 bits of the fractional
    parts of the cube roots of the first 64 primes, and of the square roots of the
    first 8.  The roots are computed bit by bit. *)
Fixpoint root_bits (k : Z) (bits : nat) (r n : Z) : Z :=
  match bits with
  | O => r
  | S b =>
      let r' := Z.lor r (Z.shiftl 1 (Z.of_nat b)) in
      root_bits k b (if r' ^ k <=? n then r' else r) n
  end.
Definition is_prime (n : Z) : bool :=
  (2 <=? n) && forallb (λ d, negb (n mod Z.of_nat d =? 0)) (seq 2 (Z.to_nat n - 2)).
Definition primes : list Z :=
  Eval vm_compute in List.filter is_prime (map Z.of_nat (seq 2 310)).
Definition frac32 (k p : Z) : Z := w32 (root_bits k 40 0 (p * 2 ^ (32 * k))).

Definition round_constants : list Z := Eval vm_compute in map (frac32 3) primes.

Record digest : Type := mkDigest { da : Z; db : Z; dc : Z; dd : Z; de : Z; df : Z; dg : Z; dh : Z }.

Definition initial : digest :=
  Eval vm_compute in
  let root i := frac32 2 (nth i primes 0) in
  mkDigest (root 0%nat) (root 1%nat) (root 2%nat) (root 3%nat)
           (root 4%nat) (root 5%nat) (root 6%nat) (root 7%nat).

(** One round on schedule word [w] and constant [k]. *)
Definition round (d : digest) (k w : Z) : digest :=
  let t1 := w32 (dh d + big1 (de d) + ch (de d) (df d) (dg d) + k + w) in
  let t2 := w32 (big0 (da d) + maj (da d) (db d) (dc d)) in
  mkDigest (w32 (t1 + t2)) (da d) (db d) (dc d) (w32 (dd d + t1)) (de d) (df d) (dg d).

(** The message schedule as a sliding window of 16 words. *)
Fixpoint rounds (ks : list Z) (win : list Z) (d : digest) : digest :=
  match ks with
  | [] => d
  | k :: ks' =>
      match win with
      | w0 :: rest =>
          let next := w32 (small1 (nth 13 rest 0) + nth 8 rest 0 + small0 (nth 0 rest 0) + w0) in
          rounds ks' (rest ++ [next]) (round d k w0)
      | [] => d
      end
  end.

Definition compress (d : digest) (block : list Z) : digest :=
  let r := rounds round_constants block d in
  mkDigest (w32 (da d + da r)) (w32 (db d + db r)) (w32 (dc d + dc r)) (w32 (dd d + dd r))
           (w32 (de d + de r)) (w32 (df d + df r)) (w32 (dg d + dg r)) (w32 (dh d + dh r)).

Fixpoint string_bytes (s : string) : list Z :=
  match s with
  | EmptyString => []
  | String c s' => byte_val c :: string_bytes s'
  end.

(** Padding: 0x80, zeros to 56 mod 64, the bit length in eight bytes. *)
Definition be_bytes (n : nat) (x : Z) : list Z :=
  rev (map (λ i, Z.land (Z.shiftr x (8 * Z.of_nat i)) 0xff) (seq 0 n)).
Definition pad (s : string) : list Z :=
  let n := String.length s in
  string_bytes s ++ [0x80]
  ++ replicate ((119 - n mod 64) mod 64) 0
  ++ be_bytes 8 (8 * Z.of_nat n).

Fixpoint words (n : nat) (bs : list Z) : list Z :=
  match n, bs with
  | S n', a :: b :: c :: d :: bs' =>
      (Z.lor (Z.lor (Z.shiftl a 24) (Z.shiftl b 16)) (Z.lor (Z.shiftl c 8) d)) :: words n' bs'
  | _, _ => []
  end.

Fixpoint blocks (n : nat) (bs : list Z) (d : digest) : digest :=
  match n with
  | O => d
  | S n' => blocks n' (drop 64 bs) (compress d (words 16 bs))
  end.

Fixpoint bytes_string (bs : list Z) : string :=
  match bs with
  | [] => EmptyString
  | b :: bs' => String (byte_of b) (bytes_string bs')
  end.

(** [sha256.Sum256] *)
Definition sum256 (s : string) : string :=
  let p := pad s in
  let d := blocks (length p / 64) p initial in
  bytes_string (concat (map (be_bytes 4) [da d; db d; dc d; dd d; de d; df d; dg d; dh d])).

(** [hex.EncodeToString(sum[:])] of a [sha256.Sum256]. *)
Definition hex256 (s : string) : string := hex_encode (sum256 s).

(** [hmac.New(sha256.New, key)] fed with [msg]: a long key is hashed, a short one
    padded with zeros to the block size. *)
Definition hmac_key (key : string) : list Z :=
  let k := if (64 <? String.length key)%nat then sum256 key else key in
  string_bytes k ++ replicate (64 - String.length k) 0.
Definition hmac256 (key msg : string) : string :=
  let mask m := bytes_string (map (Z.lxor m) (hmac_key key)) in
  sum256 (mask 0x5c +:+ sum256 (mask 0x36 +:+ msg)).

(** ** Test vectors of FIPS 180-4 and shape of the output *)

Example sum256_abc :
  hex256 "abc" = "ba7816bf8f01cfea414140de5dae2223b00361a396177a9cb410ff61f20015ad".
Proof. vm_compute. reflexivity. Qed.

(** Test cases 2 and 6 of RFC 4231. *)
Example hmac256_short_key :
  hex_encode (hmac256 "Jefe" "what do ya want for nothing?")
  = "5bdcc146bf60754e6a042426089575c75a003f089d2739839dec58b964ec3843".
Proof. vm_compute. reflexivity. Qed.
Example hmac256_long_key :
  hex_encode (hmac256 (bytes_string (replicate 131 0xaa)) "Test Using Larger Than Block-Size Key - Hash Key First")
  = "60e431591ee0b67f0d8a26aacbf5b77f8e0bc6213728c5140546040f0ee37f54".
Proof. vm_compute. reflexivity. Qed.

Example constants_count : (length round_constants, length primes) = (64, 64)%nat.
Proof. reflexivity. Qed.

Lemma length_bytes_string bs : String.length (bytes_string bs) = length bs.
Proof. induction bs; simpl; auto. Qed.

Lemma length_hex_encode s : String.length (hex_encode s) = (2 * String.length s)%nat.
Proof. induction s; simpl; [done|lia]. Qed.

Lemma length_sum256 s : String.length (sum256 s) = 32%nat.
Proof. unfold sum256. rewrite length_bytes_string. reflexivity. Qed.

Lemma length_hex256 s : String.length (hex256 s) = 64%nat.
Proof. unfold hex256. by rewrite length_hex_encode, length_sum256. Qed.

Lemma hex256_nonempty s : hex256 s ≠ "".
Proof. intros E. pose proof (length_hex256 s) as L. by rewrite E in L. Qed.

End Sha256.
