(* ===== verification/GoTime.v ===== *)
(** * Instants and their printed form

    A Go [time.Time] is an instant: here the number of nanoseconds since the Unix
    epoch (the location and the monotonic reading never reach the code modelled).
    [format_us] is what [Time.Format] prints for the layout the ledger hashes,
    ["2006-01-02T15:04:05.000000Z07:00"] in UTC; it determines the instant to the
    microsecond. *)

From S2P Require Import Prelude GoStrings.
From stdpp Require Import base tactics strings list pretty.
From Stdlib Require Import ZArith Lia Ascii.

Local Open Scope Z_scope.
#[local] Ltac Zify.zify_post_hook ::= Z.to_euclidean_division_equations.

Module GoTime.

Definition second : Z := 1000000000.
Definition minute : Z := 60 * second.
Definition hour : Z := 60 * minute.
Definition millisecond : Z := 1000000.

(** [time.Time{}]: 1 January of year 1, 00:00:00 UTC. *)
Definition zero_time : Z := - 62135596800 * second.
Definition is_zero (t : Z) : bool := t =? zero_time.

(** [Time.Sub], which saturates. *)
Definition sub (t u : Z) : Z := Z.max min_int64 (Z.min max_int64 (t - u)).

(** [t.UTC().Truncate(time.Microsecond)] *)
Definition truncate_us (t : Z) : Z := t / 1000 * 1000.

(** Days since 0000-03-01 to the proleptic Gregorian date, year starting in March:
    400-year, 100-year, 4-year and 1-year cycles, as in [time.absDate]. *)
Definition n400 (d : Z) : Z := d / 146097.
Definition r400 (d : Z) : Z := d mod 146097.
Definition n100 (d : Z) : Z := r400 d / 36524 - r400 d / 36524 / 4.
Definition r100 (d : Z) : Z := r400 d - 36524 * n100 d.
Definition n4 (d : Z) : Z := r100 d / 1461.
Definition r4 (d : Z) : Z := r100 d mod 1461.
Definition n1 (d : Z) : Z := r4 d / 365 - r4 d / 365 / 4.
Definition day_of_year (d : Z) : Z := r4 d - 365 * n1 d.
Definition march_year (d : Z) : Z := 400 * n400 d + 100 * n100 d + 4 * n4 d + n1 d.
Definition march_month (d : Z) : Z := (5 * day_of_year d + 2) / 153.

Definition month (d : Z) : Z := if march_month d <? 10 then march_month d + 3 else march_month d - 9.
Definition day (d : Z) : Z := day_of_year d - (153 * march_month d + 2) / 5 + 1.
Definition year (d : Z) : Z := if month d <=? 2 then march_year d + 1 else march_year d.

Definition epoch_days : Z := 719468.

(** ** Printing *)

Definition digit (n : Z) : ascii := byte_of (48 + n).

(** The low [w] decimal digits of [n]. *)
Fixpoint zpad (w : nat) (n : Z) (acc : string) : string :=
  match w with
  | O => acc
  | S w' => zpad w' (n / 10) (String (digit (n mod 10)) acc)
  end.

(** [appendInt(b, y, 4)] *)
Definition width4 (n : Z) : string := if n <=? 9999 then zpad 4 n "" else pretty (Z.to_N n).
Definition year_str (y : Z) : string := if y <? 0 then "-" +:+ width4 (- y) else width4 y.

Definition clock_str (us : Z) : string :=
  let s := us / 1000000 in
  "T" +:+ zpad 2 (s / 3600) "" +:+ ":" +:+ zpad 2 (s / 60 mod 60) "" +:+ ":" +:+ zpad 2 (s mod 60) ""
  +:+ "." +:+ zpad 6 (us mod 1000000) "" +:+ "Z".

Definition us_per_day : Z := 86400 * 1000000.

(** [Time.Format("2006-01-02T15:04:05.000000Z07:00")] of a UTC instant. *)
Definition format_us (t : Z) : string :=
  let us := t / 1000 in
  let d := us / us_per_day + epoch_days in
  year_str (year d) +:+ "-" +:+ zpad 2 (month d) "" +:+ "-" +:+ zpad 2 (day d) ""
  +:+ clock_str (us mod us_per_day).

(** [Time.UTC().Format("2006-01-02 15:04 MST")] *)
Definition format_minute (t : Z) : string :=
  let s := t / second in
  let d := s / 86400 + epoch_days in
  year_str (year d) +:+ "-" +:+ zpad 2 (month d) "" +:+ "-" +:+ zpad 2 (day d) ""
  +:+ " " +:+ zpad 2 (s mod 86400 / 3600) "" +:+ ":" +:+ zpad 2 (s / 60 mod 60) "" +:+ " UTC".

Example format_minute_leap : format_minute (1709210096123456789) = "2024-02-29 12:34 UTC".
Proof. reflexivity. Qed.
Example format_epoch : format_us 0 = "1970-01-01T00:00:00.000000Z".
Proof. reflexivity. Qed.
Example format_leap : format_us (1709210096123456789) = "2024-02-29T12:34:56.123456Z".
Proof. reflexivity. Qed.
Example format_zero : format_us zero_time = "0001-01-01T00:00:00.000000Z".
Proof. reflexivity. Qed.

(** ** The date determines the day *)

Lemma n100_bounds d : 0 <= n100 d <= 3.
Proof. unfold n100, r400. lia. Qed.
Lemma r100_bounds d : 0 <= r100 d <= 36524.
Proof. unfold r100, n100, r400. lia. Qed.
Lemma n4_bounds d : 0 <= n4 d <= 24.
Proof. unfold n4. pose proof (r100_bounds d). lia. Qed.
Lemma r4_bounds d : 0 <= r4 d <= 1460.
Proof. unfold r4. lia. Qed.
Lemma n1_bounds d : 0 <= n1 d <= 3.
Proof. unfold n1. pose proof (r4_bounds d). lia. Qed.
Lemma day_of_year_bounds d : 0 <= day_of_year d <= 365.
Proof. unfold day_of_year, n1. pose proof (r4_bounds d). lia. Qed.
Lemma march_month_bounds d : 0 <= march_month d <= 11.
Proof. unfold march_month. pose proof (day_of_year_bounds d). lia. Qed.
Lemma month_bounds d : 1 <= month d <= 12.
Proof. unfold month. pose proof (march_month_bounds d). destruct (Z.ltb_spec (march_month d) 10); lia. Qed.
Lemma day_bounds d : 1 <= day d <= 31.
Proof. unfold day, march_month. pose proof (day_of_year_bounds d). lia. Qed.

(** The day number of a March-based year, and the inverse of the conversion. *)
Definition days_before (y : Z) : Z := 365 * y + y / 4 - y / 100 + y / 400.
Definition from_civil (y m dd : Z) : Z :=
  let my := if m <=? 2 then y - 1 else y in
  let mp := if m <=? 2 then m + 9 else m - 3 in
  days_before my + (153 * mp + 2) / 5 + dd - 1.

Lemma days_before_march d : days_before (march_year d) + day_of_year d = d.
Proof.
  unfold days_before, march_year, day_of_year.
  pose proof (n100_bounds d). pose proof (n4_bounds d). pose proof (n1_bounds d).
  replace ((400 * n400 d + 100 * n100 d + 4 * n4 d + n1 d) / 4)
    with (100 * n400 d + 25 * n100 d + n4 d) by lia.
  replace ((400 * n400 d + 100 * n100 d + 4 * n4 d + n1 d) / 100)
    with (4 * n400 d + n100 d) by lia.
  replace ((400 * n400 d + 100 * n100 d + 4 * n4 d + n1 d) / 400) with (n400 d) by lia.
  assert (r100 d = 1461 * n4 d + r4 d) by (unfold n4, r4; lia).
  assert (r400 d = 36524 * n100 d + r100 d) by (unfold r100; lia).
  assert (d = 146097 * n400 d + r400 d) by (unfold n400, r400; lia).
  lia.
Qed.

Lemma from_civil_spec d : from_civil (year d) (month d) (day d) = d.
Proof.
  pose proof (march_month_bounds d). rewrite <- (days_before_march d) at 4.
  unfold from_civil, year, day.
  assert ((if month d <=? 2 then month d + 9 else month d - 3) = march_month d) as ->.
  { unfold month. destruct (Z.ltb_spec (march_month d) 10); destruct (Z.leb_spec (march_month d + 3) 2);
      destruct (Z.leb_spec (march_month d - 9) 2); lia. }
  destruct (month d <=? 2); replace (march_year d + 1 - 1) with (march_year d) by lia; lia.
Qed.

(** ** The printed digits determine the number *)

Lemma byte_val_digit n : 0 <= n < 10 → byte_val (digit n) = 48 + n.
Proof. intros H. unfold digit. apply byte_val_of. lia. Qed.

Lemma digits_val_zpad w n acc a :
  0 <= n → digits_val (zpad w n acc) a = digits_val acc (a * 10 ^ Z.of_nat w + n mod 10 ^ Z.of_nat w).
Proof.
  revert n acc a. induction w as [|w IH]; intros n acc a Hn; simpl zpad.
  - simpl. f_equal. rewrite Z.mod_1_r. lia.
  - rewrite IH by (apply Z.div_pos; lia). cbn [digits_val].
    rewrite byte_val_digit by (apply Z.mod_pos_bound; lia).
    rewrite Nat2Z.inj_succ, Z.pow_succ_r by lia. f_equal.
    rewrite (Z.rem_mul_r n 10 (10 ^ Z.of_nat w)) by lia. ring.
Qed.

Lemma zpad_inj w n m :
  0 <= n < 10 ^ Z.of_nat w → 0 <= m < 10 ^ Z.of_nat w → zpad w n "" = zpad w m "" → n = m.
Proof.
  intros Hn Hm E. apply (f_equal (λ s, digits_val s 0)) in E.
  rewrite !digits_val_zpad in E by lia. simpl in E. rewrite !Z.mod_small in E; lia.
Qed.

Lemma length_zpad w n acc : String.length (zpad w n acc) = (w + String.length acc)%nat.
Proof. revert n acc. induction w as [|w IH]; intros; simpl; [done|]. rewrite IH. simpl. lia. Qed.

Lemma is_digit_digit n : 0 <= n < 10 → is_digit (digit n) = true.
Proof. intros H. unfold is_digit. rewrite byte_val_digit by lia. lia. Qed.

Lemma bytes_all_zpad w n acc :
  0 <= n → bytes_all is_digit acc = true → bytes_all is_digit (zpad w n acc) = true.
Proof.
  revert n acc. induction w as [|w IH]; intros n acc Hn Hacc; simpl; [done|].
  apply IH; [apply Z.div_pos; lia|]. simpl.
  rewrite is_digit_digit by (apply Z.mod_pos_bound; lia). done.
Qed.

Lemma pretty_N_char_digit x : (x < 10)%N → pretty_N_char x = digit (Z.of_N x).
Proof.
  intros H. assert (x = 0 ∨ x = 1 ∨ x = 2 ∨ x = 3 ∨ x = 4 ∨ x = 5 ∨ x = 6 ∨ x = 7 ∨ x = 8 ∨ x = 9)%N
    as Hx by lia.
  destruct_or!; subst; done.
Qed.

Lemma pretty_N_go_digits x s :
  digits_val (pretty_N_go x s) 0 = digits_val s (Z.of_N x)
  ∧ (bytes_all is_digit s = true → bytes_all is_digit (pretty_N_go x s) = true).
Proof.
  revert s. induction (N.lt_wf_0 x) as [x _ IH]; intros s.
  destruct (decide (0 < x)%N) as [Hx|Hx].
  - rewrite pretty_N_go_step by done.
    assert (x mod 10 < 10)%N by (apply N.mod_upper_bound; lia).
    destruct (IH (x / 10)%N ltac:(apply N.div_lt; lia) (String (pretty_N_char (x mod 10)) s)) as [E D].
    rewrite E. cbn [digits_val bytes_all]. cbn [bytes_all] in D.
    rewrite pretty_N_char_digit in * by done.
    rewrite byte_val_digit by lia. rewrite is_digit_digit in D by lia. split; [|done].
    f_equal. pose proof (N.div_mod x 10). lia.
  - assert (x = 0%N) as -> by lia. rewrite pretty_N_go_0. done.
Qed.

Lemma pretty_N_digits n :
  digits_val (pretty n) 0 = Z.of_N n ∧ bytes_all is_digit (pretty n) = true.
Proof.
  unfold pretty, pretty_N. case_decide as Hn; [by subst|].
  destruct (pretty_N_go_digits n "") as [E D]. split; [done|]. by apply D.
Qed.

(** Numbers print and parse back. *)
Lemma pretty_Z_N n : 0 <= n → pretty n = pretty (Z.to_N n).
Proof. by destruct n. Qed.

Lemma pretty_Z_nonempty n : 0 <= n → pretty n ≠ "".
Proof.
  intros B E. rewrite pretty_Z_N in E by lia. destruct (pretty_N_digits (Z.to_N n)) as [V _]. rewrite E in V.
  simpl in V. assert (Z.to_N n = 0%N) as Z0 by lia. by rewrite Z0 in E.
Qed.

Lemma parse_int64_pretty n : 0 <= n <= max_int64 → parse_int64 (pretty n) = Some n.
Proof.
  intros B. pose proof (pretty_Z_nonempty n ltac:(lia)) as N. rewrite pretty_Z_N in * by lia.
  destruct (pretty_N_digits (Z.to_N n)) as [V D]. unfold parse_int64.
  destruct (pretty (Z.to_N n)) as [|c s]; [done|].
  cbn [bytes_all] in D. apply andb_true_iff in D as [D D']. assert (D0 := D).
  unfold is_digit in D0. apply andb_true_iff in D0 as [D1%Z.leb_le D2%Z.leb_le].
  destruct (Z.eqb_spec (byte_val c) 45); [lia|]. destruct (Z.eqb_spec (byte_val c) 43); [lia|].
  cbn [bytes_all]. rewrite D, D', V, Z2N.id by lia. cbn [andb].
  unfold min_int64, max_int64 in *. destruct (Z.leb_spec (- 2 ^ 63) n); [|lia].
  by destruct (Z.leb_spec n (2 ^ 63 - 1)); [|lia].
Qed.

Lemma width4_digits n :
  0 <= n → digits_val (width4 n) 0 = n ∧ bytes_all is_digit (width4 n) = true.
Proof.
  intros Hn. unfold width4. destruct (Z.leb_spec n 9999).
  - split; [|by apply bytes_all_zpad]. rewrite digits_val_zpad by done. simpl. apply Z.mod_small. lia.
  - destruct (pretty_N_digits (Z.to_N n)) as [E D]. split; [|done]. lia.
Qed.

Lemma year_str_inj y z : year_str y = year_str z → y = z.
Proof.
  assert (∀ n m, 0 <= n → 0 <= m → "-" +:+ width4 m ≠ width4 n) as Hne.
  { intros n m Hn Hm E. destruct (width4_digits n Hn) as [_ D]. by rewrite <- E in D. }
  assert (∀ n m, 0 <= n → 0 <= m → width4 n = width4 m → n = m) as Hinj.
  { intros n m Hn Hm E. destruct (width4_digits n Hn) as [<- _]. rewrite E. by apply width4_digits. }
  unfold year_str. destruct (Z.ltb_spec y 0), (Z.ltb_spec z 0); intros E.
  - injection E as E. apply Hinj in E; lia.
  - exfalso. eapply Hne; [| |exact E]; lia.
  - exfalso. symmetry in E. eapply Hne; [| |exact E]; lia.
  - apply Hinj in E; lia.
Qed.

(** ** The printed instant determines the microsecond *)

Lemma clock_str_inj a b :
  0 <= a < us_per_day → 0 <= b < us_per_day → clock_str a = clock_str b → a = b.
Proof.
  unfold us_per_day. intros Ha Hb E. unfold clock_str in E.
  repeat (apply app_str_inj_len in E as [?E E]; [|by rewrite ?length_zpad]).
  repeat match goal with H : zpad _ _ _ = zpad _ _ _ |- _ => apply zpad_inj in H; [|lia|lia] end.
  lia.
Qed.

Lemma length_clock_str us : String.length (clock_str us) = 17%nat.
Proof. unfold clock_str. rewrite !length_app_str, !length_zpad. done. Qed.

(** Two instants printed alike are the same microsecond. *)
Lemma format_us_inj t u : format_us t = format_us u → truncate_us t = truncate_us u.
Proof.
  intros E. unfold format_us in E. apply app_str_inj_len_r in E as [EY E].
  2:{ by rewrite !length_app_str, !length_zpad, !length_clock_str. }
  apply year_str_inj in EY.
  do 4 (apply app_str_inj_len in E as [?E E]; [|by rewrite ?length_zpad]).
  apply clock_str_inj in E; [|unfold us_per_day; lia..].
  set (d := t / 1000 / us_per_day + epoch_days) in *.
  set (e := u / 1000 / us_per_day + epoch_days) in *.
  pose proof (month_bounds d). pose proof (month_bounds e).
  pose proof (day_bounds d). pose proof (day_bounds e).
  repeat match goal with H : zpad _ _ _ = zpad _ _ _ |- _ => apply zpad_inj in H; [|lia|lia] end.
  assert (d = e) as Hde.
  { rewrite <- (from_civil_spec d), <- (from_civil_spec e). congruence. }
  unfold truncate_us. subst d e. unfold us_per_day in *. lia.
Qed.

Lemma truncate_us_idem t : truncate_us (truncate_us t) = truncate_us t.
Proof. unfold truncate_us. lia. Qed.

Lemma format_truncate t : format_us (truncate_us t) = format_us t.
Proof. unfold format_us, truncate_us. rewrite Z.div_mul by lia. done. Qed.

End GoTime.
