(* ===== verification/Migrate.v ===== *)
(** * Schema migrations

    [internal/db/migrate.go].  The schema is the history of the scripts executed on it;
    whether a script fails is a parameter, and so is every other fault.  All the work is
    one transaction under an advisory lock, so concurrent instances run one after the
    other, and a run that fails leaves nothing behind, but for a commit whose
    acknowledgement is lost. *)

From S2P Require Import Prelude GoStrings.
From stdpp Require Import base tactics strings list sets sorting.
From Stdlib Require Import ZArith Lia Ascii.

Local Open Scope Z_scope.

Module Migrate.

(** ** The order of the files *)

(** [migrationNumber]; names without a number, or with one that overflows, come last. *)
Fixpoint leading_digits (s : string) : string :=
  match s with
  | EmptyString => ""
  | String c s' => if is_digit c then String c (leading_digits s') else ""
  end.
Definition migrationNumber (name : string) : Z :=
  match parse_int64 (leading_digits name) with Some n => n | None => max_int64 end.

(** [sortMigrations] *)
Definition mig_le (a b : string) : Prop :=
  migrationNumber a < migrationNumber b ∨ migrationNumber a = migrationNumber b ∧ Is_true (String.leb a b).
#[export] Instance mig_le_dec a b : Decision (mig_le a b).
Proof. unfold mig_le. apply _. Defined.
Definition sortMigrations (names : list string) : list string := merge_sort mig_le names.

(** ** A run *)

(** An entry of the embedded directory. *)
Record File : Type := mkFile { f_name : string; f_dir : bool; f_content : result string }.

(** [path.Ext] of a name without slashes. *)
Fixpoint ext_from (cur s : string) : string :=
  match s with
  | EmptyString => cur
  | String c s' => if is_dot c then ext_from s s' else ext_from cur s'
  end.
Definition migration_names (files : list File) : list string :=
  sortMigrations (map f_name (filter (λ f, f_dir f = false ∧ ext_from "" (f_name f) = ".sql") files)).
Definition content_of (files : list File) (name : string) : result string :=
  match List.find (λ f, String.eqb (f_name f) name) files with
  | Some f => f_content f
  | None => Err (errors_New "file does not exist")
  end.

(** The scripts executed so far, with their names, and table [schema_migrations] once
    there is one. *)
Record database : Type := mkDatabase {
  d_executed : list (string * string);
  d_versions : option (list string)
}.

(** The statements that can fail on their own. *)
Inductive op : Type := OBegin | OLock | OCreateTable | OReadDir | OCheck (name : string) | ORecord (name : string) | OCommit.

Section run.
Variable files : list File.
Variable fault : op → option error.
(** A script's failure on the schema a history leaves. *)
Variable script_fault : list (string * string) → string → option error.
(** Whether a commit that reports an error took effect. *)
Variable commit_lost : bool.

Local Open Scope go_scope.

Definition try (o : op) (what : string) : result unit :=
  match fault o with Some e => Err (errorf_w what e) | None => Ok tt end.

(** The loop's body, on the transaction's view. *)
Definition apply_one (name : string) (tx : database) : result database :=
  _ ←? try (OCheck name) ("failed to check migration status for " +:+ name) ;;
  if bool_decide (name ∈ default [] (d_versions tx)) then Ok tx
  else
    content ←? (match content_of files name with
                | Err e => Err (errorf_w ("failed to read migration " +:+ name) e)
                | Ok c => Ok c
                end) ;;
    _ ←? (match script_fault (d_executed tx) content with
          | Some e => Err (errorf_w ("failed to apply migration " +:+ name) e)
          | None => Ok tt
          end) ;;
    _ ←? try (ORecord name) ("failed to record migration " +:+ name) ;;
    Ok (mkDatabase (d_executed tx ++ [(name, content)]) (Some (default [] (d_versions tx) ++ [name]))).
Fixpoint apply_all (names : list string) (tx : database) : result database :=
  match names with
  | [] => Ok tx
  | name :: rest => tx' ←? apply_one name tx ;; apply_all rest tx'
  end.

Definition transaction (db : database) : result database :=
  _ ←? try OBegin "failed to begin migration transaction" ;;
  _ ←? try OLock "failed to acquire migration lock" ;;
  _ ←? try OCreateTable "failed to create schema_migrations table" ;;
  _ ←? try OReadDir "failed to read embedded migrations" ;;
  apply_all (migration_names files) (mkDatabase (d_executed db) (Some (default [] (d_versions db)))).

(** [Migrate]: the error it returns and the database it leaves. *)
Definition Migrate (db : database) : option error * database :=
  match transaction db with
  | Err e => (Some e, db)
  | Ok tx =>
      match fault OCommit with
      | Some e => (Some (errorf_w "failed to commit migrations" e), if commit_lost then tx else db)
      | None => (None, tx)
      end
  end.
End run.

(** ** Properties *)

#[local] Instance mig_le_total : Total mig_le.
Proof.
  intros a b. unfold mig_le. destruct (Z.lt_trichotomy (migrationNumber a) (migrationNumber b)) as [L|[E|L]]; [auto| |auto].
  destruct (String.leb_total a b) as [T|T]; [left|right]; right; (split; [done|]); by rewrite T.
Qed.

#[local] Instance mig_le_transitive : Transitive mig_le.
Proof.
  intros a b c [L|[E L]] [M|[F M]]; unfold mig_le; [left; lia..|]. right. split; [lia|].
  apply (transitivity (R := String.le) (y := b)); [exact L|exact M].
Qed.

#[local] Instance mig_le_antisymm : AntiSymm (=) mig_le.
Proof.
  intros a b [L|[E L]] [M|[F M]]; [lia..|]. apply String.leb_antisym; by apply Is_true_true.
Qed.

(** The order does not depend on the order the directory is read in. *)
Lemma sortMigrations_unique names names' : names ≡ₚ names' → sortMigrations names = sortMigrations names'.
Proof.
  intros P. apply (Sorted_unique mig_le); [apply Sorted_merge_sort, _..|].
  unfold sortMigrations. by rewrite !merge_sort_Permutation.
Qed.

(** The names recorded are those of the scripts executed, each once. *)
Definition consistent (db : database) : Prop :=
  map fst (d_executed db) = default [] (d_versions db) ∧ NoDup (default [] (d_versions db)).

(** What a completed loop has done. *)
Definition advanced (files : list File) (names : list string) (db db' : database) : Prop :=
  ∃ new, d_executed db' = d_executed db ++ new
    ∧ default [] (d_versions db') = default [] (d_versions db) ++ map fst new
    ∧ map fst new = filter (λ n, n ∉ default [] (d_versions db)) names
    ∧ Forall (λ nc, content_of files (nc.1) = Ok (nc.2)) new.

Lemma apply_one_cases files fault script_fault name tx tx' :
  apply_one files fault script_fault name tx = Ok tx' →
  (name ∈ default [] (d_versions tx) ∧ tx' = tx)
  ∨ ((name ∉ default [] (d_versions tx)) ∧ ∃ c, content_of files name = Ok c
     ∧ tx' = mkDatabase (d_executed tx ++ [(name, c)]) (Some (default [] (d_versions tx) ++ [name]))).
Proof.
  unfold apply_one, try. destruct (fault (OCheck name)); [done|]. cbn [rbind].
  case_bool_decide as I; [intros [= <-]; by left|]. destruct (content_of files name) as [c|]; [|done]. cbn [rbind].
  destruct (script_fault _ c); [done|]. cbn [rbind]. destruct (fault (ORecord name)); [done|]. cbn [rbind].
  intros [= <-]. right. eauto.
Qed.

Lemma apply_all_advances files fault script_fault names tx tx' :
  NoDup names → apply_all files fault script_fault names tx = Ok tx' → advanced files names tx tx'.
Proof.
  revert tx. induction names as [|name names IH]; intros tx N R; cbn in R.
  - simplify_eq. exists []. by rewrite !app_nil_r.
  - apply NoDup_cons in N as [Nn N]. apply rbind_ok in R as (tx1 & A & R). apply IH in R as (new & E & V & F & C); [|done].
    destruct (apply_one_cases _ _ _ _ _ _ A) as [[I ->]|(I & c & Co & ->)].
    + exists new. split_and!; try done. rewrite filter_cons_False by (by intros K). done.
    + cbn in E, V. exists ((name, c) :: new). rewrite <- !app_assoc in *. split_and!; [done|done| |by constructor].
      rewrite filter_cons_True by done. cbn. f_equal. rewrite F. apply list_filter_ext_in.
      cbn. intros x Ix. rewrite elem_of_app, list_elem_of_singleton. set_solver.
Qed.

Lemma migration_names_NoDup files : NoDup (map f_name files) → NoDup (migration_names files).
Proof.
  intros N. unfold migration_names, sortMigrations. rewrite merge_sort_Permutation.
  eapply sublist_NoDup; [exact N|]. apply fmap_sublist, sublist_filter.
Qed.

(** The ways a run ends. *)
Lemma Migrate_cases files fault script_fault lost db err db' :
  NoDup (map f_name files) → Migrate files fault script_fault lost db = (err, db') →
  (err ≠ None ∧ db' = db) ∨ ((err = None ∨ lost = true) ∧ advanced files (migration_names files) db db').
Proof.
  intros N. unfold Migrate. destruct (transaction files fault script_fault db) as [tx|e] eqn:T;
    [|intros [= <- <-]; by left].
  assert (advanced files (migration_names files) db tx) as A.
  { unfold transaction in T. apply rbind_ok in T as (_ & _ & T). apply rbind_ok in T as (_ & _ & T).
    apply rbind_ok in T as (_ & _ & T). apply rbind_ok in T as (_ & _ & T).
    apply apply_all_advances in T; [exact T|]. by apply migration_names_NoDup. }
  destruct (fault OCommit); [|intros [= <- <-]; right; auto].
  destruct lost; intros [= <- <-]; [right; auto|by left].
Qed.

Lemma advanced_consistent files names db db' :
  NoDup names → consistent db → advanced files names db db' → consistent db'.
Proof.
  intros Nn [E N] (new & E' & V & F & _). split.
  - by rewrite E', map_app, E, V.
  - rewrite V, NoDup_app. split_and!; [done| |].
    + intros x I J. rewrite F in J. by apply list_elem_of_filter in J as [J _].
    + rewrite F. by apply NoDup_filter.
Qed.

(** A start of the service: its files and what goes wrong. *)
Record start : Type := mkStart {
  r_files : list File;
  r_fault : op → option error;
  r_script_fault : list (string * string) → string → option error;
  r_lost : bool
}.
Definition run (r : start) (db : database) : option error * database :=
  Migrate (r_files r) (r_fault r) (r_script_fault r) (r_lost r) db.
Definition fresh : database := mkDatabase [] None.
Definition after (rs : list start) : database := foldl (λ db r, (run r db).2) fresh rs.

Lemma after_consistent rs : Forall (λ r, NoDup (map f_name (r_files r))) rs → consistent (after rs).
Proof.
  unfold after. induction rs as [|r rs IH] using rev_ind; intros F; [split; [done|apply NoDup_nil_2]|].
  apply Forall_app in F as [F Fr]. rewrite Forall_singleton in Fr. rewrite foldl_app. cbn [foldl].
  destruct (run r _) as [err db'] eqn:R. cbn [snd].
  destruct (Migrate_cases _ _ _ _ _ _ _ Fr R) as [[_ ->]|[_ A]]; [by apply IH|].
  eapply advanced_consistent; [|by apply IH|exact A]. by apply migration_names_NoDup.
Qed.

(** C36: migrations run at most once and all or nothing.  Whatever releases start, in
    whatever order, and whatever fails, no script is ever executed twice and exactly the
    scripts executed are recorded; a start that succeeds has executed the scripts that
    were missing, in the order of their numbers, and one that fails has executed none
    unless its commit went through unacknowledged, and then all of them. *)
Theorem migrations_once (rs : list start) (r : start) (err : option error) (db : database) :
  Forall (λ r, NoDup (map f_name (r_files r))) (r :: rs) → run r (after rs) = (err, db) →
  consistent db
  ∧ ((err ≠ None ∧ db = after rs)
     ∨ ((err = None ∨ r_lost r = true) ∧ advanced (r_files r) (migration_names (r_files r)) (after rs) db
        ∧ Sorted mig_le (migration_names (r_files r))
        ∧ ∀ n, n ∈ migration_names (r_files r) → n ∈ map fst (d_executed db))).
Proof.
  intros [Fr F]%Forall_cons R. pose proof (after_consistent rs F) as C.
  destruct (Migrate_cases _ _ _ _ _ _ _ Fr R) as [[E ->]|[E A]]; [split; [done|by left]|].
  pose proof (advanced_consistent _ _ _ _ (migration_names_NoDup _ Fr) C A) as C'.
  split; [done|]. right. split_and!; [done|done|apply Sorted_merge_sort, _|].
  intros n I. destruct C' as [-> _]. destruct A as (new & _ & -> & Fn & _).
  destruct (decide (n ∈ default [] (d_versions (after rs)))) as [J|J]; apply elem_of_app; [by left|right].
  rewrite Fn. by apply list_elem_of_filter.
Qed.

(** ** A closed example *)

Definition sample_files : list File :=
  [mkFile "0001_init.sql" false (Ok "create a"); mkFile "0002_hardening.sql" false (Ok "alter a");
   mkFile "0010_ten.sql" false (Ok "create c"); mkFile "003_headers.sql" false (Ok "create b");
   mkFile "README.md" false (Ok "")].
Example sample_order :
  migration_names sample_files = ["0001_init.sql"; "0002_hardening.sql"; "003_headers.sql"; "0010_ten.sql"].
Proof. vm_compute. reflexivity. Qed.

Definition calm (files : list File) : start := mkStart files (λ _, None) (λ _ _, None) false.
Definition sample_db : database :=
  mkDatabase [("0001_init.sql", "create a"); ("0002_hardening.sql", "alter a"); ("003_headers.sql", "create b");
              ("0010_ten.sql", "create c")]
    (Some ["0001_init.sql"; "0002_hardening.sql"; "003_headers.sql"; "0010_ten.sql"]).

Lemma migrations_once_witness : consistent sample_db.
Proof.
  refine (proj1 (migrations_once [calm (take 2 sample_files)] (calm sample_files) None sample_db _ _)).
  - apply Forall_cons_2; [|apply Forall_cons_2; [|apply Forall_nil_2]];
      (eapply bool_decide_unpack; vm_compute; exact I).
  - vm_compute. reflexivity.
Defined.
End Migrate.
