(* ===== verification/Types.v ===== *)
(** * Shared domain types

    [internal/types/types.go], [internal/db/models.go], [internal/db/compat.go],
    and the identities of [internal/auth/auth.go]: the records every component
    exchanges. *)

From S2P Require Import Prelude GoStrings GoTime.
From stdpp Require Import base tactics strings list gmap.
From Stdlib Require Import ZArith Lia.

Local Open Scope Z_scope.

(** ** Go's [any] as produced by [encoding/json] with [UseNumber]

    A [map[string]any] is the association list of its members: the code only
    looks members up by name and never depends on an order. *)
Inductive any : Type :=
  | ANil
  | ABool (b : bool)
  | ANumber (lit : string)
  | AString (s : string)
  | AArray (vs : list any)
  | AObject (ms : list (string * any)).

(** Induction over values, with the hypothesis for every element and member. *)
Lemma any_ind_strong (P : any → Prop) :
  P ANil → (∀ b, P (ABool b)) → (∀ lit, P (ANumber lit)) → (∀ s, P (AString s)) →
  (∀ vs, Forall P vs → P (AArray vs)) →
  (∀ ms, Forall (λ m, P m.2) ms → P (AObject ms)) →
  ∀ v, P v.
Proof.
  intros Hn Hb Hl Hs Ha Ho. fix IH 1. intros [|b|lit|s|vs|ms];
    [exact Hn|exact (Hb b)|exact (Hl lit)|exact (Hs s)|..].
  - apply Ha. induction vs as [|v vs IHvs]; constructor; [apply IH|apply IHvs].
  - apply Ho. induction ms as [|[k v] ms IHms]; constructor; [apply IH|apply IHms].
Qed.

Fixpoint member {A} (k : string) (ms : list (string * A)) : option A :=
  match ms with
  | [] => None
  | (k', v) :: ms' => if String.eqb k k' then Some v else member k ms'
  end.

(** [m[k].(string)] and the other type assertions used on decoded values. *)
Definition as_string (v : option any) : option string :=
  match v with Some (AString s) => Some s | _ => None end.
Definition as_object (v : option any) : option (list (string * any)) :=
  match v with Some (AObject ms) => Some ms | _ => None end.

(** ** [internal/types] *)

Definition EvalSchemaVersion : string := "elodea.eval/v1".

Record EvalInput : Type := mkEvalInput {
  ei_Protocol : string;
  ei_ProtocolVersion : string;
  ei_Tool : string;
  ei_Arguments : option (list (string * any));
  ei_Agent : string;
  ei_Timestamp : Z;
  ei_RawMethod : string
}.

(** [type Action string] and its three valid values. *)
Abbreviation Action := string.
Definition ActionAllow : Action := "allow".
Definition ActionDeny : Action := "deny".
Definition ActionQuarantine : Action := "quarantine".

(** [Action.Valid] *)
Definition Action_Valid (a : Action) : bool :=
  String.eqb a ActionAllow || String.eqb a ActionDeny || String.eqb a ActionQuarantine.

(** The decision; the latency, a measurement the proxy overwrites, is left out. *)
Record ProxyDecision : Type := mkDecision {
  pd_Action : Action;
  pd_Rule : string;
  pd_Explanation : string;
  pd_PolicyVersion : string
}.

(** ** [internal/db] *)

Record LedgerEntry : Type := mkLedger {
  le_SeqNum : Z;
  le_Timestamp : Z;
  le_Agent : string;
  le_Tool : string;
  le_Decision : string;
  le_PolicyRule : string;
  le_PayloadHash : string;
  le_PrevHash : string;
  le_Hash : string;
  le_RequestID : string;
  le_PolicyVersion : string
}.

#[export] Instance LedgerEntry_eq_dec : EqDecision LedgerEntry.
Proof. solve_decision. Defined.

(** A row of table [quarantine]. [sql.NullTime] and [sql.NullString] are options;
    the row's UUID is held in its printed (canonical, lower-case) form. *)
Record Quarantine : Type := mkQuarantine {
  q_ID : string;
  q_AgentID : string;
  q_ToolName : string;
  q_Payload : string;
  q_Status : string;
  q_CreatedAt : Z;
  q_ResolvedAt : option Z;
  q_ResolvedBy : option string;
  q_Reason : option string;
  q_Attempts : Z;
  q_ReplayedAt : option Z;
  q_RequestHeaders : string;
  q_PolicyRule : string;
  q_Explanation : string
}.

#[export] Instance Quarantine_eq_dec : EqDecision Quarantine.
Proof. solve_decision. Defined.

Record QuarantineEntry : Type := mkQuarantineEntry {
  qe_ID : string;
  qe_AgentID : string;
  qe_ToolName : string;
  qe_Payload : string;
  qe_Status : string;
  qe_CreatedAt : Z;
  qe_ResolvedAt : option Z;
  qe_ResolvedBy : string;
  qe_Reason : string;
  qe_Attempts : Z;
  qe_ReplayedAt : option Z;
  qe_RequestHeaders : string;
  qe_PolicyRule : string;
  qe_Explanation : string
}.

(** [db.ToQuarantineEntry] *)
Definition ToQuarantineEntry (m : Quarantine) : QuarantineEntry :=
  {| qe_ID := q_ID m;
     qe_AgentID := q_AgentID m;
     qe_ToolName := q_ToolName m;
     qe_Payload := q_Payload m;
     qe_Status := q_Status m;
     qe_CreatedAt := q_CreatedAt m;
     qe_ResolvedAt := q_ResolvedAt m;
     qe_ResolvedBy := default "" (q_ResolvedBy m);
     qe_Reason := default "" (q_Reason m);
     qe_Attempts := q_Attempts m;
     qe_ReplayedAt := q_ReplayedAt m;
     qe_RequestHeaders := q_RequestHeaders m;
     qe_PolicyRule := q_PolicyRule m;
     qe_Explanation := q_Explanation m |}.

(** A row of table [notification_outbox], without its key, and what a claim returns. *)
Record NotificationOutbox : Type := mkOutbox {
  ob_CreatedAt : Z;
  ob_Attempts : Z;
  ob_NextAttemptAt : Z;
  ob_DeliveredAt : option Z;
  ob_LastError : string
}.

#[export] Instance NotificationOutbox_eq_dec : EqDecision NotificationOutbox.
Proof. solve_decision. Defined.

Record ClaimDueNotificationsRow : Type := mkDueRow {
  cd_QuarantineID : string;
  cd_Channel : string;
  cd_Attempts : Z
}.

#[export] Instance ClaimDueNotificationsRow_eq_dec : EqDecision ClaimDueNotificationsRow.
Proof. solve_decision. Defined.

(** What [ConsumeLoginAttempt] and [GetActiveSession] return, as far as it is read. *)
Record ConsumeLoginAttemptRow : Type := mkAttemptRow {
  la_Nonce : string;
  la_CodeVerifier : string;
  la_ReturnTo : string
}.

Record GetActiveSessionRow : Type := mkSessionRow {
  gs_IDHash : string;
  gs_Subject : string;
  gs_Email : string;
  gs_Role : string;
  gs_CreatedAt : Z;
  gs_ExpiresAt : Z;
  gs_LastSeenAt : Z
}.

(** ** [internal/policystore]: a policy file as the console lists it *)

Record Policy : Type := mkPolicy {
  po_ID : string;
  po_Title : string;
  po_TriggerRule : string;
  po_ActionType : string;
  po_Enabled : bool;
  po_CreatedAt : Z;
  po_UpdatedAt : Z;
  po_Code : string
}.

(** ** [internal/auth]: roles and identities *)

Abbreviation Role := string.
Definition RoleAgent : Role := "agent".
Definition RoleReviewer : Role := "reviewer".
Definition RoleAdmin : Role := "admin".

Record Identity : Type := mkIdentity { id_ID : string; id_Role : Role }.

#[export] Instance Identity_eq_dec : EqDecision Identity.
Proof. solve_decision. Defined.

(** ** HTTP requests and responses at the handlers *)

(** The parts of [*http.Request] the handlers read; the authenticated identity is
    what [auth.FromContext] returns. *)
Record Request : Type := mkRequest {
  rq_Method : string;
  rq_Path : string;
  rq_Query : list (string * string);
  rq_Header : Header;
  rq_Body : string;
  rq_Identity : option Identity
}.

(** A response: status, the headers set by the handler, and a body, either the text
    of [http.Error] or the value of type [B] handed to the JSON encoder. *)
Inductive Body (B : Type) : Type :=
  | BText (s : string)
  | BJson (v : B)
  | BNone.
Arguments BText {B} s.
Arguments BJson {B} v.
Arguments BNone {B}.

Record Response (B : Type) : Type := mkResponse {
  rs_Status : Z;
  rs_Header : list (string * string);
  rs_Body : Body B
}.
Arguments mkResponse {B} rs_Status rs_Header rs_Body.
Arguments rs_Status {B} _.
Arguments rs_Header {B} _.
Arguments rs_Body {B} _.

(** [http.Error] *)
Definition http_Error {B} (msg : string) (code : Z) : Response B :=
  mkResponse code [("Content-Type", "text/plain; charset=utf-8"); ("X-Content-Type-Options", "nosniff")] (BText msg).

(** [json.NewEncoder(w).Encode(v)] after [w.Header().Set("Content-Type", "application/json")]. *)
Definition json_ok {B} (hs : list (string * string)) (v : B) : Response B :=
  mkResponse 200 (("Content-Type", "application/json") :: hs) (BJson v).

(** [r.URL.Query().Get] *)
Definition query_get (q : list (string * string)) (k : string) : string := default "" (member k q).

