(* ===== verification/GoJson.v ===== *)
(** * UTF-8 and JSON text

    [unicode/utf8] and the parts of [encoding/json] the program relies on: the
    scanner ([json.Valid]), the token stream of [json.Decoder] with [UseNumber],
    [json.Unmarshal] of a text into a value, and the string encoder of
    [json.Marshal].  The scanner is a byte automaton feeding a pushdown automaton,
    as in the package; the theorems relate both to the tree the text denotes. *)

From S2P Require Import Prelude GoStrings Types.
From stdpp Require Import base tactics strings list gmap.
From Stdlib Require Import ZArith Lia Ascii.

Local Open Scope Z_scope.

(** ** UTF-8 *)

Definition in_range (lo hi : Z) (c : ascii) : bool := (lo <=? byte_val c) && (byte_val c <=? hi).

(** The admissible second bytes after a first byte of a three- or four-byte sequence. *)
Definition second_range (a : ascii) : Z * Z :=
  if byte_val a =? 0xE0 then (0xA0, 0xBF)
  else if byte_val a =? 0xED then (0x80, 0x9F)
  else if byte_val a =? 0xF0 then (0x90, 0xBF)
  else if byte_val a =? 0xF4 then (0x80, 0x8F) else (0x80, 0xBF).

(** The size of the well-formed encoding a string starts with; 0 when there is none
    ([utf8.DecodeRune] then yields [RuneError] with size 1, or 0 at the end). *)
Definition rune_len (s : string) : nat :=
  match s with
  | EmptyString => 0
  | String a s1 =>
      if in_range 0 0x7F a then 1 else
      match s1 with
      | EmptyString => 0
      | String b s2 =>
          if in_range 0xC2 0xDF a then (if in_range 0x80 0xBF b then 2 else 0) else
          if in_range (second_range a).1 (second_range a).2 b then
            match s2 with
            | EmptyString => 0
            | String c s3 =>
                if in_range 0x80 0xBF c then
                  if in_range 0xE0 0xEF a then 3 else
                  match s3 with
                  | EmptyString => 0
                  | String d _ => if in_range 0xF0 0xF4 a && in_range 0x80 0xBF d then 4 else 0
                  end
                else 0
            end
          else 0
      end
  end%nat.

(** [utf8.Valid]; the first argument counts the bytes of the current rune left to skip. *)
Fixpoint utf8_from (skip : nat) (s : string) : bool :=
  match s with
  | EmptyString => true
  | String _ s' =>
      match skip with
      | S k => utf8_from k s'
      | O => match rune_len s with O => false | S k => utf8_from k s' end
      end
  end.
Definition utf8_valid (s : string) : bool := utf8_from 0 s.

(** U+FFFD, which decoders substitute for each byte of an ill-formed sequence. *)
Definition rune_error : string :=
  String (byte_of 0xEF) (String (byte_of 0xBF) (String (byte_of 0xBD) "")).

Fixpoint coerce_from (copy : nat) (s : string) : string :=
  match s with
  | EmptyString => ""
  | String c s' =>
      match copy with
      | S k => String c (coerce_from k s')
      | O =>
          match rune_len s with
          | O => rune_error +:+ coerce_from 0 s'
          | S k => String c (coerce_from k s')
          end
      end
  end.
Definition coerce_utf8 (s : string) : string := coerce_from 0 s.

(** [utf8.AppendRune] for a scalar value. *)
Definition encode_rune (r : Z) : string :=
  let tail n := byte_of (0x80 + (r / 64 ^ n) mod 64) in
  if r <? 0x80 then String (byte_of r) ""
  else if r <? 0x800 then String (byte_of (0xC0 + r / 64)) (String (tail 0) "")
  else if r <? 0x10000 then
    String (byte_of (0xE0 + r / 4096)) (String (tail 1) (String (tail 0) ""))
  else String (byte_of (0xF0 + r / 262144)) (String (tail 2) (String (tail 1) (String (tail 0) ""))).

(** ** Lexemes *)

(** What a string literal holds between its quotes: a byte, read as it is or
    through a short escape, or the code unit of a [\u] escape. *)
Inductive sunit : Type :=
  | UByte (c : ascii)
  | UHex (u : Z).

Definition is_high (u : Z) : bool := (0xD800 <=? u) && (u <? 0xDC00).
Definition is_low (u : Z) : bool := (0xDC00 <=? u) && (u <? 0xE000).

(** [unquote]: a surrogate pair is one rune, an unpaired surrogate is U+FFFD. *)
Fixpoint unquote (us : list sunit) : string :=
  match us with
  | [] => ""
  | UByte c :: r => String c (unquote r)
  | UHex u :: r =>
      if is_high u || is_low u then
        match r with
        | UHex v :: r' =>
            if is_high u && is_low v
            then encode_rune (0x10000 + (u - 0xD800) * 1024 + (v - 0xDC00)) +:+ unquote r'
            else rune_error +:+ unquote r
        | _ => rune_error +:+ unquote r
        end
      else encode_rune u +:+ unquote r
  end.

Inductive scalar : Type :=
  | SNil
  | SBool (b : bool)
  | SNumber (lit : string)
  | SString (s : string).

Inductive lexeme : Type :=
  | LBrace | RBrace | LBracket | RBracket | Colon | Comma
  | LScalar (v : scalar).

#[export] Instance scalar_eq_dec : EqDecision scalar.
Proof. solve_decision. Defined.
#[export] Instance lexeme_eq_dec : EqDecision lexeme.
Proof. solve_decision. Defined.

(** The states of the number scanner: after a sign, a leading zero, a non-zero
    integer part, the point, a fraction, the exponent mark, its sign, its digits. *)
Inductive nstate : Type := NNeg | NZero | NInt | NDot | NFrac | NE | NESign | NExp.

Inductive lstate : Type :=
  | LBase
  | LStr (acc : list sunit)
  | LEsc (acc : list sunit)
  | LHex (acc : list sunit) (todo : nat) (u : Z)
  | LNum (ns : nstate) (lit : string)
  | LLit (v : scalar) (todo : string).

Definition is_json_space (c : ascii) : bool :=
  let v := byte_val c in (v =? 32) || (v =? 9) || (v =? 13) || (v =? 10).

Definition hex_value (c : ascii) : option Z :=
  if in_range 48 57 c then Some (byte_val c - 48)
  else if in_range 97 102 c then Some (byte_val c - 87)
  else if in_range 65 70 c then Some (byte_val c - 55)
  else None.

(** The short escapes. *)
Definition unescape (c : ascii) : option ascii :=
  let v := byte_val c in
  if (v =? 34) || (v =? 92) || (v =? 47) then Some c
  else if v =? 98 then Some (byte_of 8) else if v =? 102 then Some (byte_of 12)
  else if v =? 110 then Some (byte_of 10) else if v =? 114 then Some (byte_of 13)
  else if v =? 116 then Some (byte_of 9) else None.

(** A byte outside every literal. *)
Definition lex_base (c : ascii) : option (list lexeme * lstate) :=
  let v := byte_val c in
  if is_json_space c then Some ([], LBase)
  else if v =? 123 then Some ([LBrace], LBase) else if v =? 125 then Some ([RBrace], LBase)
  else if v =? 91 then Some ([LBracket], LBase) else if v =? 93 then Some ([RBracket], LBase)
  else if v =? 58 then Some ([Colon], LBase) else if v =? 44 then Some ([Comma], LBase)
  else if v =? 34 then Some ([], LStr [])
  else if v =? 45 then Some ([], LNum NNeg (String c ""))
  else if v =? 48 then Some ([], LNum NZero (String c ""))
  else if in_range 49 57 c then Some ([], LNum NInt (String c ""))
  else if v =? 116 then Some ([], LLit (SBool true) "rue")
  else if v =? 102 then Some ([], LLit (SBool false) "alse")
  else if v =? 110 then Some ([], LLit SNil "ull")
  else None.

Definition is_e (c : ascii) : bool := (byte_val c =? 101) || (byte_val c =? 69).

(** The next state inside a number; [None] when the byte does not continue it. *)
Definition num_next (ns : nstate) (c : ascii) : option nstate :=
  let dot := byte_val c =? 46 in
  match ns with
  | NNeg => if byte_val c =? 48 then Some NZero else if in_range 49 57 c then Some NInt else None
  | NZero => if dot then Some NDot else if is_e c then Some NE else None
  | NInt => if is_digit c then Some NInt else if dot then Some NDot else if is_e c then Some NE else None
  | NDot => if is_digit c then Some NFrac else None
  | NFrac => if is_digit c then Some NFrac else if is_e c then Some NE else None
  | NE => if (byte_val c =? 43) || (byte_val c =? 45) then Some NESign
          else if is_digit c then Some NExp else None
  | NESign => if is_digit c then Some NExp else None
  | NExp => if is_digit c then Some NExp else None
  end.

(** Where a number may end. *)
Definition num_final (ns : nstate) : bool :=
  match ns with NZero | NInt | NFrac | NExp => true | _ => false end.

Definition lex_step (st : lstate) (c : ascii) : option (list lexeme * lstate) :=
  match st with
  | LBase => lex_base c
  | LStr acc =>
      if byte_val c =? 34 then Some ([LScalar (SString (unquote (rev acc)))], LBase)
      else if byte_val c =? 92 then Some ([], LEsc acc)
      else if byte_val c <? 32 then None
      else Some ([], LStr (UByte c :: acc))
  | LEsc acc =>
      if byte_val c =? 117 then Some ([], LHex acc 4 0)
      else match unescape c with Some b => Some ([], LStr (UByte b :: acc)) | None => None end
  | LHex acc todo u =>
      match hex_value c with
      | None => None
      | Some d =>
          match todo with
          | S (S k) => Some ([], LHex acc (S k) (16 * u + d))
          | _ => Some ([], LStr (UHex (16 * u + d) :: acc))
          end
      end
  | LNum ns lit =>
      match num_next ns c with
      | Some ns' => Some ([], LNum ns' (lit +:+ String c ""))
      | None =>
          if num_final ns then
            match lex_base c with
            | Some (out, st') => Some (LScalar (SNumber lit) :: out, st')
            | None => None
            end
          else None
      end
  | LLit v todo =>
      match todo with
      | String d rest =>
          if Ascii.eqb c d then
            match rest with
            | EmptyString => Some ([LScalar v], LBase)
            | _ => Some ([], LLit v rest)
            end
          else None
      | EmptyString => None
      end
  end.

Definition lex_end (st : lstate) : option (list lexeme) :=
  match st with
  | LBase => Some []
  | LNum ns lit => if num_final ns then Some [LScalar (SNumber lit)] else None
  | _ => None
  end.

Fixpoint lex (st : lstate) (s : string) : option (list lexeme) :=
  match s with
  | EmptyString => lex_end st
  | String c s' =>
      match lex_step st c with
      | Some (out, st') =>
          match lex st' s' with Some ls => Some (out ++ ls) | None => None end
      | None => None
      end
  end.

(** ** The pushdown automaton of the scanner *)

Inductive gstate : Type := GValue | GValueOrEnd | GKeyOrEnd | GKey | GColon | GEnd.
Inductive gctx : Type := InObject | InArray.

(** [maxNestingDepth] *)
Definition max_nesting : nat := N.to_nat 10000.

Lemma max_nesting_value : max_nesting = N.to_nat 10000.
Proof. done. Qed.

#[global] Opaque max_nesting.

Definition can_push (stack : list gctx) : bool := (length stack <? max_nesting)%nat.

Definition value_start (stack : list gctx) (l : lexeme) : option (gstate * list gctx) :=
  match l with
  | LScalar _ => Some (GEnd, stack)
  | LBrace => if can_push stack then Some (GKeyOrEnd, InObject :: stack) else None
  | LBracket => if can_push stack then Some (GValueOrEnd, InArray :: stack) else None
  | _ => None
  end.

Definition gstep (st : gstate) (stack : list gctx) (l : lexeme) : option (gstate * list gctx) :=
  match st, l, stack with
  | GValue, _, _ => value_start stack l
  | GValueOrEnd, RBracket, _ :: stack' => Some (GEnd, stack')
  | GValueOrEnd, _, _ => value_start stack l
  | GKeyOrEnd, RBrace, _ :: stack' => Some (GEnd, stack')
  | GKeyOrEnd, LScalar (SString _), _ => Some (GColon, stack)
  | GKey, LScalar (SString _), _ => Some (GColon, stack)
  | GColon, Colon, _ => Some (GValue, stack)
  | GEnd, Comma, InObject :: _ => Some (GKey, stack)
  | GEnd, RBrace, InObject :: stack' => Some (GEnd, stack')
  | GEnd, Comma, InArray :: _ => Some (GValue, stack)
  | GEnd, RBracket, InArray :: stack' => Some (GEnd, stack')
  | _, _, _ => None
  end.

Fixpoint accepts (st : gstate) (stack : list gctx) (ls : list lexeme) : bool :=
  match ls with
  | [] => match st, stack with GEnd, [] => true | _, _ => false end
  | l :: ls' =>
      match gstep st stack l with
      | Some (st', stack') => accepts st' stack' ls'
      | None => false
      end
  end.

(** [json.Valid] *)
Definition json_valid (body : string) : bool :=
  match lex LBase body with
  | Some ls => accepts GValue [] ls
  | None => false
  end.

(** ** The token stream of [json.Decoder]: the lexemes without the punctuation *)

Inductive token : Type :=
  | TDelim (l : lexeme)
  | TValue (v : scalar).

Fixpoint tokens_of (ls : list lexeme) : list token :=
  match ls with
  | [] => []
  | Colon :: r | Comma :: r => tokens_of r
  | LScalar v :: r => TValue v :: tokens_of r
  | l :: r => TDelim l :: tokens_of r
  end.

(** [Decoder.More]: the next token does not close the current array or object. *)
Definition more (ts : list token) : bool :=
  match ts with
  | TDelim RBrace :: _ | TDelim RBracket :: _ | [] => false
  | _ => true
  end.

(** ** Trees and the lexemes that write them *)

Fixpoint sep_by (sep : list lexeme) (lss : list (list lexeme)) : list lexeme :=
  match lss with
  | [] => []
  | [ls] => ls
  | ls :: r => ls ++ sep ++ sep_by sep r
  end.

Definition any_of (v : scalar) : any :=
  match v with
  | SNil => ANil
  | SBool b => ABool b
  | SNumber lit => ANumber lit
  | SString s => AString s
  end.

Fixpoint lexemes (v : any) : list lexeme :=
  match v with
  | ANil => [LScalar SNil]
  | ABool b => [LScalar (SBool b)]
  | ANumber lit => [LScalar (SNumber lit)]
  | AString s => [LScalar (SString s)]
  | AArray vs => LBracket :: sep_by [Comma] (map lexemes vs) ++ [RBracket]
  | AObject ms =>
      LBrace :: sep_by [Comma] (map (λ m, LScalar (SString m.1) :: Colon :: lexemes m.2) ms) ++ [RBrace]
  end.

Fixpoint nesting (v : any) : nat :=
  match v with
  | AArray vs => S (list_max (map nesting vs))
  | AObject ms => S (list_max (map (λ m, nesting m.2) ms))
  | _ => 0
  end.

(** [json.Unmarshal] into an untyped value: the tree, duplicates kept in order. *)
Fixpoint build (fuel : nat) (ts : list token) : option (any * list token) :=
  match fuel with
  | O => None
  | S f =>
      match ts with
      | TValue v :: r => Some (any_of v, r)
      | TDelim LBracket :: r =>
          match build_elems f r with Some (vs, r') => Some (AArray vs, r') | None => None end
      | TDelim LBrace :: r =>
          match build_members f r with Some (ms, r') => Some (AObject ms, r') | None => None end
      | _ => None
      end
  end
with build_elems (fuel : nat) (ts : list token) : option (list any * list token) :=
  match fuel with
  | O => None
  | S f =>
      if more ts then
        match build f ts with
        | Some (v, r) =>
            match build_elems f r with Some (vs, r') => Some (v :: vs, r') | None => None end
        | None => None
        end
      else match ts with TDelim RBracket :: r => Some ([], r) | _ => None end
  end
with build_members (fuel : nat) (ts : list token) : option (list (string * any) * list token) :=
  match fuel with
  | O => None
  | S f =>
      if more ts then
        match ts with
        | TValue (SString k) :: r =>
            match build f r with
            | Some (v, r') =>
                match build_members f r' with Some (ms, r'') => Some ((k, v) :: ms, r'') | None => None end
            | None => None
            end
        | _ => None
        end
      else match ts with TDelim RBrace :: r => Some ([], r) | _ => None end
  end.

Definition json_tree (body : string) : option any :=
  match lex LBase body with
  | Some ls =>
      if accepts GValue [] ls then
        match build (S (length ls)) (tokens_of ls) with Some (v, _) => Some v | None => None end
      else None
  | None => None
  end.

(** ** The automaton accepts exactly the lexemes of trees *)

Lemma sep_by_cons sep ls lss :
  sep_by sep (ls :: lss) = ls ++ concat (map (λ x, sep ++ x) lss).
Proof.
  revert ls. induction lss as [|l lss IH]; intros ls; simpl in *; [by rewrite app_nil_r|].
  by rewrite IH, <- app_assoc.
Qed.

Lemma tokens_of_app ls ls' : tokens_of (ls ++ ls') = tokens_of ls ++ tokens_of ls'.
Proof. induction ls as [|[] ls IH]; simpl; rewrite ?IH; done. Qed.

Lemma tokens_of_concat lss : tokens_of (concat lss) = concat (map tokens_of lss).
Proof. induction lss as [|l lss IH]; simpl; [done|]. by rewrite tokens_of_app, IH. Qed.

(** Punctuation disappears from the token stream of a separated sequence. *)
Lemma tokens_sep_by lss :
  tokens_of (sep_by [Comma] lss) = concat (map tokens_of lss).
Proof.
  destruct lss as [|l lss]; [done|].
  rewrite sep_by_cons, tokens_of_app, tokens_of_concat, map_map. done.
Qed.

Lemma tokens_length ls : (length (tokens_of ls) ≤ length ls)%nat.
Proof. induction ls as [|[] ls IH]; simpl; lia. Qed.

Definition member_lexemes (m : string * any) : list lexeme :=
  LScalar (SString m.1) :: Colon :: lexemes m.2.

Definition tokens (v : any) : list token := tokens_of (lexemes v).

Lemma tokens_array vs :
  tokens (AArray vs) = TDelim LBracket :: concat (map tokens vs) ++ [TDelim RBracket].
Proof. unfold tokens. simpl. by rewrite tokens_of_app, tokens_sep_by, map_map. Qed.

Lemma tokens_object ms :
  tokens (AObject ms)
  = TDelim LBrace :: concat (map (λ m, TValue (SString m.1) :: tokens m.2) ms) ++ [TDelim RBrace].
Proof. unfold tokens. simpl. by rewrite tokens_of_app, tokens_sep_by, map_map. Qed.

(** The tokens of a value never start with a closing delimiter. *)
Lemma more_tokens v r : more (tokens v ++ r) = true.
Proof. destruct v; done. Qed.

Lemma tokens_nonempty v : (1 ≤ length (tokens v))%nat.
Proof. destruct v; simpl; lia. Qed.

Lemma build_elems_tokens f vs r :
  Forall (λ v, ∀ f r, (length (tokens v) ≤ f)%nat → build f (tokens v ++ r) = Some (v, r)) vs →
  (length (concat (map tokens vs)) < f)%nat →
  build_elems f (concat (map tokens vs) ++ TDelim RBracket :: r) = Some (vs, r).
Proof.
  intros H. revert f. induction H as [|v vs Hv _ IH]; intros [|f] L; try (simpl in L; lia); [done|].
  cbn [map concat] in *. rewrite length_app in L. pose proof (tokens_nonempty v).
  cbn [build_elems]. rewrite <- app_assoc, more_tokens, Hv by lia. by rewrite IH by lia.
Qed.

Lemma build_members_tokens f ms r :
  Forall (λ m, ∀ f r, (length (tokens m.2) ≤ f)%nat → build f (tokens m.2 ++ r) = Some (m.2, r)) ms →
  (length (concat (map (λ m, TValue (SString m.1) :: tokens m.2) ms)) < f)%nat →
  build_members f (concat (map (λ m, TValue (SString m.1) :: tokens m.2) ms) ++ TDelim RBrace :: r)
  = Some (ms, r).
Proof.
  intros H. revert f. induction H as [|[k v] ms Hv _ IH]; intros [|f] L; try (simpl in L; lia); [done|].
  cbn [map concat fst snd app length] in *. rewrite length_app in L.
  cbn [build_members more]. rewrite <- app_assoc, Hv by lia. by rewrite IH by lia.
Qed.

Lemma build_tokens v f r :
  (length (tokens v) ≤ f)%nat → build f (tokens v ++ r) = Some (v, r).
Proof.
  revert f r. induction v as [| | | |vs IH|ms IH] using any_ind_strong; intros [|f] r L;
    try (simpl in L; lia); try done.
  - rewrite tokens_array in *. cbn [length app] in L. rewrite length_app in L. simpl in L.
    cbn [app build]. rewrite <- app_assoc. cbn [app].
    by rewrite build_elems_tokens by (done || lia).
  - rewrite tokens_object in *. cbn [length app] in L. rewrite length_app in L. simpl in L.
    cbn [app build]. rewrite <- app_assoc. cbn [app].
    by rewrite build_members_tokens by (done || lia).
Qed.

(** The rest of an array or object after its first element. *)
Definition elems_tail (vs : list any) : list lexeme := concat (map (λ v, Comma :: lexemes v) vs).
Definition members_tail (ms : list (string * any)) : list lexeme :=
  concat (map (λ m, Comma :: member_lexemes m) ms).

Lemma lexemes_array_cons v vs :
  lexemes (AArray (v :: vs)) = LBracket :: lexemes v ++ elems_tail vs ++ [RBracket].
Proof.
  unfold elems_tail. cbn [lexemes map]. rewrite sep_by_cons, map_map, <- app_assoc. done.
Qed.

Lemma lexemes_object_cons m ms :
  lexemes (AObject (m :: ms)) = LBrace :: member_lexemes m ++ members_tail ms ++ [RBrace].
Proof.
  unfold members_tail. cbn [lexemes map]. rewrite sep_by_cons, map_map, <- app_assoc. done.
Qed.

(** A container fits at depth [n] when there is room for it and its elements fit below. *)
Lemma nesting_array vs n m :
  (nesting (AArray vs) + n ≤ m)%nat ↔ (n < m)%nat ∧ Forall (λ v, (nesting v + S n ≤ m)%nat) vs.
Proof.
  simpl. transitivity ((n < m)%nat ∧ (list_max (map nesting vs) ≤ m - S n)%nat); [lia|].
  rewrite list_max_le, Forall_map. split; intros [? H]; (split; [done|]);
    eapply Forall_impl; [exact H|intros v; simpl; lia|exact H|intros v; simpl; lia].
Qed.

Lemma nesting_object ms n m :
  (nesting (AObject ms) + n ≤ m)%nat ↔ (n < m)%nat ∧ Forall (λ x, (nesting x.2 + S n ≤ m)%nat) ms.
Proof.
  simpl. transitivity ((n < m)%nat ∧ (list_max (map (λ x, nesting x.2) ms) ≤ m - S n)%nat); [lia|].
  rewrite list_max_le, Forall_map. split; intros [? H]; (split; [done|]);
    eapply Forall_impl; [exact H|intros v; simpl; lia|exact H|intros v; simpl; lia].
Qed.

Lemma can_push_true stack : can_push stack = true ↔ (length stack < max_nesting)%nat.
Proof. apply Nat.ltb_lt. Qed.

Definition reads_value (v : any) : Prop :=
  ∀ st stack ls, st = GValue ∨ st = GValueOrEnd → (nesting v + length stack ≤ max_nesting)%nat →
  accepts st stack (lexemes v ++ ls) = accepts GEnd stack ls.

Lemma reads_elems_tail vs stack ls :
  Forall reads_value vs → Forall (λ v, (nesting v + S (length stack) ≤ max_nesting)%nat) vs →
  accepts GEnd (InArray :: stack) (elems_tail vs ++ RBracket :: ls) = accepts GEnd stack ls.
Proof.
  intros H. induction H as [|v vs Hv _ IH]; intros B; [done|].
  apply Forall_cons in B as [Bv B]. unfold elems_tail. cbn [map concat app accepts gstep].
  rewrite <- app_assoc, Hv by (auto; simpl; lia). by apply IH.
Qed.

Lemma reads_member m stack st ls :
  reads_value m.2 → (nesting m.2 + length stack ≤ max_nesting)%nat → st = GKey ∨ st = GKeyOrEnd →
  accepts st stack (member_lexemes m ++ ls) = accepts GEnd stack ls.
Proof.
  intros Hv B [-> | ->]; unfold member_lexemes; cbn [app accepts gstep]; rewrite Hv by auto; done.
Qed.

Lemma reads_members_tail ms stack ls :
  Forall (λ m, reads_value m.2) ms → Forall (λ m, (nesting m.2 + S (length stack) ≤ max_nesting)%nat) ms →
  accepts GEnd (InObject :: stack) (members_tail ms ++ RBrace :: ls) = accepts GEnd stack ls.
Proof.
  intros H. induction H as [|m ms Hm _ IH]; intros B; [done|].
  apply Forall_cons in B as [Bm B]. unfold members_tail. cbn [map concat].
  rewrite <- app_comm_cons, <- app_comm_cons. cbn [accepts gstep].
  rewrite <- app_assoc, reads_member by (auto; simpl; lia). by apply IH.
Qed.

Lemma accepts_lexemes v : reads_value v.
Proof.
  induction v as [| | | |vs IH|ms IH] using any_ind_strong; intros st stack ls Hst B;
    try (by destruct Hst as [-> | ->]).
  - apply nesting_array in B as [P B]. apply can_push_true in P.
    destruct IH as [|v vs Hv IH].
    + by destruct Hst as [-> | ->]; cbn [lexemes sep_by map app accepts gstep value_start]; rewrite P.
    + apply Forall_cons in B as [Bv B]. rewrite lexemes_array_cons. cbn [app].
      transitivity (accepts GValueOrEnd (InArray :: stack) (lexemes v ++ elems_tail vs ++ RBracket :: ls)).
      { by destruct Hst as [-> | ->]; cbn [accepts gstep value_start]; rewrite P, <- !app_assoc. }
      rewrite Hv by (auto; simpl; lia). by apply reads_elems_tail.
  - apply nesting_object in B as [P B]. apply can_push_true in P.
    destruct IH as [|m ms Hm IH].
    + by destruct Hst as [-> | ->]; cbn [lexemes sep_by map app accepts gstep value_start]; rewrite P.
    + apply Forall_cons in B as [Bm B]. rewrite lexemes_object_cons. cbn [app].
      transitivity (accepts GKeyOrEnd (InObject :: stack) (member_lexemes m ++ members_tail ms ++ RBrace :: ls)).
      { by destruct Hst as [-> | ->]; cbn [accepts gstep value_start]; rewrite P, <- !app_assoc. }
      rewrite reads_member by (auto; simpl; lia). by apply reads_members_tail.
Qed.

(** What an accepting run from each state has read, and where it stands after. *)
Definition read_value (stack : list gctx) (ls : list lexeme) : Prop :=
  ∃ v ls', ls = lexemes v ++ ls' ∧ (nesting v + length stack ≤ max_nesting)%nat
           ∧ accepts GEnd stack ls' = true.
Definition read_elems (stack : list gctx) (ls : list lexeme) : Prop :=
  ∃ vs ls', ls = elems_tail vs ++ RBracket :: ls'
            ∧ Forall (λ v, (nesting v + S (length stack) ≤ max_nesting)%nat) vs
            ∧ accepts GEnd stack ls' = true.
Definition read_members (stack : list gctx) (ls : list lexeme) : Prop :=
  ∃ ms ls', ls = members_tail ms ++ RBrace :: ls'
            ∧ Forall (λ m, (nesting m.2 + S (length stack) ≤ max_nesting)%nat) ms
            ∧ accepts GEnd stack ls' = true.

Section accepting_runs.
Context (n : nat).
Hypothesis IHv : ∀ stack ls, (length ls < n)%nat → (length stack ≤ max_nesting)%nat → accepts GValue stack ls = true → read_value stack ls.
Hypothesis IHe : ∀ stack ls, (length ls < n)%nat → (length stack < max_nesting)%nat → accepts GEnd (InArray :: stack) ls = true → read_elems stack ls.
Hypothesis IHm : ∀ stack ls, (length ls < n)%nat → (length stack < max_nesting)%nat → accepts GEnd (InObject :: stack) ls = true → read_members stack ls.

Lemma read_elems_step stack ls :
  (length ls ≤ n)%nat → (length stack < max_nesting)%nat → accepts GEnd (InArray :: stack) ls = true → read_elems stack ls.
Proof using IHv IHe.
  destruct ls as [|[] ls]; try done; simpl; intros L B0 A.
  - exists [], ls. done.
  - destruct (IHv (InArray :: stack) ls L B0 A) as (v & ls' & -> & B & A').
    destruct (IHe stack ls') as (vs & ls'' & -> & F & A''); [rewrite length_app in L; lia|done|done|].
    exists (v :: vs), ls''. unfold elems_tail. simpl. rewrite <- app_assoc. auto.
Qed.

Lemma read_member_step stack st l ls :
  st = GKey ∨ st = GKeyOrEnd → (length ls < n)%nat → l ≠ RBrace →
  (length stack < max_nesting)%nat →
  accepts st (InObject :: stack) (l :: ls) = true →
  ∃ m ms ls', l :: ls = member_lexemes m ++ members_tail ms ++ RBrace :: ls'
    ∧ Forall (λ m, (nesting m.2 + S (length stack) ≤ max_nesting)%nat) (m :: ms)
    ∧ accepts GEnd stack ls' = true.
Proof using IHv IHm.
  intros Hst L Hl B0 A.
  assert (∃ k, l = LScalar (SString k) ∧ accepts GColon (InObject :: stack) ls = true) as (k & -> & A').
  { destruct Hst as [-> | ->]; destruct l as [| | | | | |[]]; try done; simpl in A; eauto. }
  destruct ls as [|[] ls]; try done. simpl in A', L.
  destruct (IHv (InObject :: stack) ls) as (v & ls' & -> & B & A''); [lia|done|done|].
  destruct (IHm stack ls') as (ms & ls'' & -> & F & A3); [rewrite length_app in L; lia|done|done|].
  exists (k, v), ms, ls''. unfold member_lexemes. simpl. auto.
Qed.

Lemma read_members_step stack ls :
  (length ls ≤ n)%nat → (length stack < max_nesting)%nat → accepts GEnd (InObject :: stack) ls = true → read_members stack ls.
Proof using IHv IHm.
  destruct ls as [|[] ls]; try done; simpl; intros L B0 A.
  - exists [], ls. done.
  - destruct ls as [|l ls]; [done|]. simpl in L.
    destruct (read_member_step stack GKey l ls) as (m & ms & ls' & -> & F & A'); auto; [lia| |].
    { intros ->. done. }
    exists (m :: ms), ls'. unfold members_tail. simpl. rewrite <- app_assoc. auto.
Qed.

Lemma read_value_step stack ls :
  (length ls ≤ n)%nat → (length stack ≤ max_nesting)%nat → accepts GValue stack ls = true → read_value stack ls.
Proof using IHv IHe IHm.
  destruct ls as [|l ls]; [done|]. cbn [accepts gstep length]. intros L B0 A.
  destruct l as [| | | | | |v]; cbn [value_start] in A; try done.
  - destruct (can_push stack) eqn:P; [|done]. apply can_push_true in P.
    destruct ls as [|l ls]; [done|]. simpl in L.
    destruct (decide (l = RBrace)) as [->|N].
    { exists (AObject []), ls. split_and!; [done| |done]. apply nesting_object. auto. }
    destruct (read_member_step stack GKeyOrEnd l ls) as (m & ms & ls' & E & F & A'); auto; [lia|].
    exists (AObject (m :: ms)), ls'. rewrite lexemes_object_cons, E. split_and!; [|by apply nesting_object|done].
    simpl. by rewrite <- !app_assoc.
  - destruct (can_push stack) eqn:P; [|done]. apply can_push_true in P.
    destruct ls as [|l ls]; [done|]. simpl in L.
    destruct (decide (l = RBracket)) as [->|N].
    { exists (AArray []), ls. split_and!; [done| |done]. apply nesting_array. auto. }
    assert (accepts GValue (InArray :: stack) (l :: ls) = true) as A' by (by destruct l).
    destruct (IHv (InArray :: stack) (l :: ls) L P A') as (v & ls' & E & B & A''). simpl in B.
    assert (length ls' < n)%nat.
    { apply (f_equal length) in E. rewrite length_app in E. simpl in E. lia. }
    destruct (IHe stack ls') as (vs & ls'' & -> & F & A3); [done..|].
    exists (AArray (v :: vs)), ls''. rewrite lexemes_array_cons, E. split_and!; [|apply nesting_array; auto|done].
    simpl. by rewrite <- !app_assoc.
  - exists (any_of v), ls. split_and!; [by destruct v|by destruct v; simpl; lia|done].
Qed.
End accepting_runs.

Lemma accepts_reads n :
  (∀ stack ls, (length ls < n)%nat → (length stack ≤ max_nesting)%nat → accepts GValue stack ls = true → read_value stack ls) ∧
  (∀ stack ls, (length ls < n)%nat → (length stack < max_nesting)%nat → accepts GEnd (InArray :: stack) ls = true → read_elems stack ls) ∧
  (∀ stack ls, (length ls < n)%nat → (length stack < max_nesting)%nat → accepts GEnd (InObject :: stack) ls = true → read_members stack ls).
Proof.
  induction n as [|n (IHv & IHe & IHm)]; [split_and!; lia|].
  split_and!; intros stack ls L B A; assert (length ls ≤ n)%nat by lia.
  - by apply (read_value_step n).
  - by apply (read_elems_step n).
  - by apply (read_members_step n).
Qed.

(** [json.Valid] accepts a text exactly when it writes a tree of bounded depth. *)
Lemma accepts_iff ls :
  accepts GValue [] ls = true ↔ ∃ v, ls = lexemes v ∧ (nesting v ≤ max_nesting)%nat.
Proof.
  split.
  - intros A. destruct (accepts_reads (S (length ls))) as (H & _ & _).
    destruct (H [] ls) as (v & ls' & -> & B & A'); simpl; [lia..|done|].
    destruct ls' as [|[] ls']; [|done..]. exists v. rewrite app_nil_r. simpl in B. split; [done|lia].
  - intros (v & -> & B). rewrite <- (app_nil_r (lexemes v)).
    rewrite accepts_lexemes by (auto; simpl; lia). done.
Qed.

Lemma build_lexemes v : build (S (length (lexemes v))) (tokens v) = Some (v, []).
Proof.
  rewrite <- (app_nil_r (tokens v)). apply build_tokens.
  pose proof (tokens_length (lexemes v)). unfold tokens. lia.
Qed.

Lemma json_tree_spec body v :
  json_tree body = Some v ↔ lex LBase body = Some (lexemes v) ∧ (nesting v ≤ max_nesting)%nat.
Proof.
  unfold json_tree. split.
  - destruct (lex LBase body) as [ls|]; [|done].
    destruct (accepts GValue [] ls) eqn:A; [|done].
    apply accepts_iff in A as (w & -> & B). fold (tokens w). rewrite build_lexemes. naive_solver.
  - intros [-> B]. assert (accepts GValue [] (lexemes v) = true) as -> by (apply accepts_iff; eauto).
    fold (tokens v). by rewrite build_lexemes.
Qed.

Lemma json_valid_tree body : json_valid body = true ↔ ∃ v, json_tree body = Some v.
Proof.
  setoid_rewrite json_tree_spec. unfold json_valid. destruct (lex LBase body) as [ls|]; [|naive_solver].
  rewrite accepts_iff. naive_solver.
Qed.
