(* ===== verification/GoJsonEnc.v ===== *)
(** * The encoder [json.Marshal]

    The string encoder of [encoding/json] (HTML escaping on, ill-formed UTF-8
    replaced) and the compact text of a value.  The round trips say which texts
    decode to what was encoded. *)

From S2P Require Import Prelude GoStrings Types GoJson.
From stdpp Require Import base tactics strings list gmap sorting.
From Stdlib Require Import ZArith Lia Ascii.

Local Open Scope Z_scope.

(** ** Strings *)

Definition backslash : ascii := byte_of 92.
Definition esc2 (c : string) : string := String backslash c.

(** An ASCII byte of a string under [escapeHTML]. *)
Definition esc_ascii (c : ascii) : string :=
  let v := byte_val c in
  if (v =? 34) || (v =? 92) then esc2 (String c "")
  else if v =? 8 then esc2 "b" else if v =? 12 then esc2 "f" else if v =? 10 then esc2 "n"
  else if v =? 13 then esc2 "r" else if v =? 9 then esc2 "t"
  else if (v <? 32) || (v =? 60) || (v =? 62) || (v =? 38)
  then esc2 ("u00" +:+ hex_encode (String c ""))
  else String c "".

(** U+2028 and U+2029 are always escaped. *)
Definition line_sep (s : string) : option (string * Z) :=
  match s with
  | String a (String b (String c _)) =>
      if (byte_val a =? 0xE2) && (byte_val b =? 0x80) then
        if byte_val c =? 0xA8 then Some (esc2 "u2028", 0x2028)
        else if byte_val c =? 0xA9 then Some (esc2 "u2029", 0x2029) else None
      else None
  | _ => None
  end.

(** [appendString]; [n] bytes of the current rune are left, copied when [keep]. *)
Fixpoint enc_from (n : nat) (keep : bool) (s : string) : string :=
  match s with
  | EmptyString => ""
  | String c s' =>
      match n with
      | S k => if keep then String c (enc_from k keep s') else enc_from k keep s'
      | O =>
          if in_range 0 0x7F c then esc_ascii c +:+ enc_from 0 true s'
          else match rune_len s with
               | O => esc2 "ufffd" +:+ enc_from 0 true s'
               | S k =>
                   match line_sep s with
                   | Some (t, _) => t +:+ enc_from k false s'
                   | None => String c (enc_from k true s')
                   end
               end
      end
  end.

Definition json_string (s : string) : string := dq +:+ enc_from 0 true s +:+ dq.

(** ** Values *)

Fixpoint join (sep : string) (xs : list string) : string :=
  match xs with
  | [] => ""
  | [x] => x
  | x :: r => x +:+ sep +:+ join sep r
  end.

(** A [map[string]any]: [json.Marshal] writes its members in key order. *)
Definition member_le (a b : string * any) : Prop := Is_true (String.leb a.1 b.1).
#[export] Instance member_le_dec a b : Decision (member_le a b).
Proof. unfold member_le. apply _. Defined.
Definition go_map (ms : list (string * any)) : any := AObject (merge_sort member_le ms).

(** A decoded value, every object in it in key order. *)
Fixpoint in_key_order (v : any) : any :=
  match v with
  | AArray vs => AArray (map in_key_order vs)
  | AObject ms => go_map (map (λ m, (m.1, in_key_order m.2)) ms)
  | v => v
  end.

(** The compact text of a value, members in the order given. *)
Fixpoint json_text (v : any) : string :=
  match v with
  | ANil => "null"
  | ABool b => if b then "true" else "false"
  | ANumber lit => lit
  | AString s => json_string s
  | AArray vs => "[" +:+ join "," (map json_text vs) +:+ "]"
  | AObject ms => "{" +:+ join "," (map (λ m, json_string m.1 +:+ ":" +:+ json_text m.2) ms) +:+ "}"
  end.

(** ** Reading a string back *)

(** The code units the lexer reads in an encoded string. *)
Definition esc_unit (c : ascii) : sunit :=
  let v := byte_val c in
  if ((v <? 32) && negb ((v =? 8) || (v =? 12) || (v =? 10) || (v =? 13) || (v =? 9)))
     || (v =? 60) || (v =? 62) || (v =? 38)
  then UHex v else UByte c.

Fixpoint units_from (n : nat) (keep : bool) (s : string) : list sunit :=
  match s with
  | EmptyString => []
  | String c s' =>
      match n with
      | S k => if keep then UByte c :: units_from k keep s' else units_from k keep s'
      | O =>
          if in_range 0 0x7F c then esc_unit c :: units_from 0 true s'
          else match rune_len s with
               | O => UHex 0xFFFD :: units_from 0 true s'
               | S k =>
                   match line_sep s with
                   | Some (_, u) => UHex u :: units_from k false s'
                   | None => UByte c :: units_from k true s'
                   end
               end
      end
  end.

Lemma lex_silent st c s st' : lex_step st c = Some ([], st') → lex st (String c s) = lex st' s.
Proof. intros E. simpl. rewrite E. by destruct (lex st' s). Qed.

Lemma lex_esc_ascii c acc t :
  in_range 0 0x7F c = true → lex (LStr acc) (esc_ascii c +:+ t) = lex (LStr (esc_unit c :: acc)) t.
Proof.
  destruct c as [[] [] [] [] [] [] [] []]; intros H; try discriminate H; clear H;
    match goal with |- lex _ (esc_ascii ?c +:+ _) = _ =>
      let e := eval vm_compute in (esc_ascii c) in change (esc_ascii c) with e
    end;
    rewrite !app_str_cons, app_str_nil_l; repeat (erewrite lex_silent by reflexivity); reflexivity.
Qed.

Lemma unquote_esc_unit c us :
  in_range 0 0x7F c = true → unquote (esc_unit c :: us) = String c (unquote us).
Proof. destruct c as [[] [] [] [] [] [] [] []]; intros H; try discriminate H; reflexivity. Qed.

(** The first [n] bytes lie outside ASCII. *)
Fixpoint high_bytes (n : nat) (s : string) : bool :=
  match n, s with
  | O, _ => true
  | S k, String c s' => (0x80 <=? byte_val c) && high_bytes k s'
  | S _, EmptyString => false
  end.

Lemma rune_len_high c s k :
  rune_len (String c s) = S k → in_range 0 0x7F c = false → high_bytes k s = true.
Proof.
  intros E H. cbn [rune_len] in E. rewrite H in E. unfold second_range in E.
  repeat match type of E with
  | context [if ?b then _ else _] => destruct b eqn:?; try discriminate E
  | context [match ?s with EmptyString => _ | String _ _ => _ end] => destruct s; try discriminate E
  end; injection E as <-; cbn [fst snd high_bytes] in *; unfold in_range in *;
    repeat match goal with H : _ && _ = true |- _ => apply andb_prop in H as [? ?] end;
    repeat (apply andb_true_intro; split); try done; apply Z.leb_le;
    repeat match goal with H : (_ <=? _) = true |- _ => apply Z.leb_le in H end; lia.
Qed.

Lemma lex_high_byte c acc t :
  0x80 <= byte_val c → lex (LStr acc) (String c t) = lex (LStr (UByte c :: acc)) t.
Proof.
  intros H. apply lex_silent. cbn [lex_step].
  destruct (Z.eqb_spec (byte_val c) 34), (Z.eqb_spec (byte_val c) 92), (Z.ltb_spec (byte_val c) 32); done || lia.
Qed.

Lemma not_ascii_high c : in_range 0 0x7F c = false → 0x80 <= byte_val c.
Proof.
  unfold in_range. intros H. apply andb_false_iff in H as [H|H]; apply Z.leb_gt in H; [|lia].
  unfold byte_val in *. lia.
Qed.

Lemma lex_esc_hex4 acc t :
  lex (LStr acc) (esc2 "ufffd" +:+ t) = lex (LStr (UHex 0xFFFD :: acc)) t
  ∧ lex (LStr acc) (esc2 "u2028" +:+ t) = lex (LStr (UHex 0x2028 :: acc)) t
  ∧ lex (LStr acc) (esc2 "u2029" +:+ t) = lex (LStr (UHex 0x2029 :: acc)) t.
Proof.
  unfold esc2. split_and!; rewrite !app_str_cons, app_str_nil_l;
    repeat (erewrite lex_silent by reflexivity); reflexivity.
Qed.

Lemma line_sep_some s e u :
  line_sep s = Some (e, u) →
  (e = esc2 "u2028" ∧ u = 0x2028 ∨ e = esc2 "u2029" ∧ u = 0x2029)
  ∧ ∃ t, s = encode_rune u +:+ t.
Proof.
  destruct s as [|a [|b [|c t]]]; try done. cbn [line_sep].
  destruct (Z.eqb_spec (byte_val a) 0xE2) as [A|]; [|done].
  destruct (Z.eqb_spec (byte_val b) 0x80) as [B|]; [|done]. cbn [andb].
  assert (∀ x n, byte_val x = n → x = byte_of n) as Hb.
  { intros x n <-. by rewrite byte_of_val. }
  apply Hb in A as ->. apply Hb in B as ->.
  destruct (Z.eqb_spec (byte_val c) 0xA8) as [C|]; [|destruct (Z.eqb_spec (byte_val c) 0xA9) as [C|]; [|done]];
    apply Hb in C as ->; intros [= <- <-]; split; auto; by exists t.
Qed.

(** The lexer reads back the units of an encoded string. *)
Lemma lex_enc s n keep acc t :
  high_bytes n s = true →
  lex (LStr acc) (enc_from n keep s +:+ t) = lex (LStr (rev (units_from n keep s) ++ acc)) t.
Proof.
  revert n keep acc. induction s as [|c s IH]; intros n keep acc H; [done|].
  destruct n as [|k]; cbn [enc_from units_from].
  - destruct (in_range 0 0x7F c) eqn:A.
    { rewrite app_str_assoc, lex_esc_ascii, IH by done. simpl. by rewrite <- app_assoc. }
    destruct (rune_len (String c s)) as [|k] eqn:E.
    { rewrite app_str_assoc, (proj1 (lex_esc_hex4 _ _)), IH by done. simpl. by rewrite <- app_assoc. }
    pose proof (rune_len_high _ _ _ E A) as Hk.
    destruct (line_sep (String c s)) as [[e u]|] eqn:L.
    + apply line_sep_some in L as [[[-> ->]|[-> ->]] _]; rewrite app_str_assoc;
        [rewrite (proj1 (proj2 (lex_esc_hex4 _ _)))|rewrite (proj2 (proj2 (lex_esc_hex4 _ _)))];
        rewrite IH by done; simpl; by rewrite <- app_assoc.
    + rewrite app_str_cons, lex_high_byte, IH by (done || by apply not_ascii_high).
      simpl. by rewrite <- app_assoc.
  - cbn [high_bytes] in H. apply andb_prop in H as [Hc H]. apply Z.leb_le in Hc.
    destruct keep; [|by apply IH].
    rewrite app_str_cons, lex_high_byte, IH by done. simpl. by rewrite <- app_assoc.
Qed.

(** Unquoting the units gives the string back when it is well-formed UTF-8. *)
Lemma unquote_units s n keep :
  utf8_from n s = true → unquote (units_from n keep s) = if keep then s else drop_str n s.
Proof.
  revert n keep. induction s as [|c s IH]; intros n keep H; [by destruct keep, n|].
  destruct n as [|k]; cbn [utf8_from units_from] in *.
  - destruct (rune_len (String c s)) as [|k] eqn:E; [done|].
    destruct (in_range 0 0x7F c) eqn:A.
    { assert (k = 0%nat) as -> by (cbn [rune_len] in E; rewrite A in E; lia).
      rewrite unquote_esc_unit, (IH 0%nat true) by done. by destruct keep. }
    destruct (line_sep (String c s)) as [[e u]|] eqn:L.
    + apply line_sep_some in L as [Hu [t Ht]].
      assert (k = 2%nat) as -> by (rewrite Ht in E; destruct Hu as [[_ ->]|[_ ->]]; vm_compute in E; congruence).
      destruct s as [|b [|d s]]; try (by destruct Hu as [[_ ->]|[_ ->]]).
      transitivity (encode_rune u +:+ unquote (units_from 2 false (String b (String d s)))).
      { by destruct Hu as [[_ ->]|[_ ->]]. }
      rewrite (IH 2%nat false) by done. cbn [drop_str].
      destruct Hu as [[_ ->]|[_ ->]]; vm_compute in Ht; injection Ht as -> -> -> ->; by destruct keep.
    + cbn [unquote]. rewrite (IH k true) by done. by destruct keep.
  - destruct keep; [|by rewrite IH]. cbn [unquote]. by rewrite (IH k true).
Qed.

Lemma lex_json_string s t :
  utf8_valid s = true →
  lex LBase (json_string s +:+ t)
  = match lex LBase t with Some ls => Some (LScalar (SString s) :: ls) | None => None end.
Proof.
  intros H. unfold json_string, dq. rewrite !app_str_cons, app_str_nil_l.
  rewrite (lex_silent LBase _ _ (LStr [])) by reflexivity.
  rewrite app_str_assoc, lex_enc by done. rewrite app_nil_r, app_str_cons, app_str_nil_l.
  cbn [lex lex_step]. rewrite rev_involutive, unquote_units by done. done.
Qed.

(** ** Reading a value back *)

(** Values whose strings are well-formed and that hold no number. *)
Fixpoint textual (v : any) : bool :=
  match v with
  | ANumber _ => false
  | AString s => utf8_valid s
  | AArray vs => forallb textual vs
  | AObject ms => forallb (λ m, utf8_valid m.1 && textual m.2) ms
  | _ => true
  end.

Definition prepend (ls : list lexeme) (r : option (list lexeme)) : option (list lexeme) :=
  match r with Some ls' => Some (ls ++ ls') | None => None end.

Lemma prepend_app a b r : prepend (a ++ b) r = prepend a (prepend b r).
Proof. destruct r; simpl; [by rewrite app_assoc|done]. Qed.

Definition reads_text (x : string) (ls : list lexeme) : Prop :=
  ∀ t, lex LBase (x +:+ t) = prepend ls (lex LBase t).

Lemma reads_text_app x y ls ls' : reads_text x ls → reads_text y ls' → reads_text (x +:+ y) (ls ++ ls').
Proof. intros Hx Hy t. by rewrite app_str_assoc, Hx, Hy, prepend_app. Qed.

Lemma reads_punct :
  reads_text "," [Comma] ∧ reads_text ":" [Colon] ∧ reads_text "[" [LBracket] ∧ reads_text "]" [RBracket]
  ∧ reads_text "{" [LBrace] ∧ reads_text "}" [RBrace].
Proof. split_and!; intros t; reflexivity. Qed.

Lemma reads_join xs lss :
  Forall2 reads_text xs lss → reads_text (join "," xs) (sep_by [Comma] lss).
Proof.
  induction 1 as [|x ls xs lss Hx H IH]; [intros t; simpl; rewrite app_str_nil_l; by destruct (lex LBase t)|].
  destruct H as [|x' ls' xs lss Hx' H]; [done|].
  apply (reads_text_app _ _ ls ([Comma] ++ sep_by [Comma] (ls' :: lss))); [done|].
  apply (reads_text_app ","); [apply reads_punct|done].
Qed.

Lemma reads_json_string s : utf8_valid s = true → reads_text (json_string s) [LScalar (SString s)].
Proof. intros H t. rewrite lex_json_string by done. reflexivity. Qed.

Lemma reads_json_text v : textual v = true → reads_text (json_text v) (lexemes v).
Proof.
  induction v as [|[]| | |vs IH|ms IH] using any_ind_strong; intros H; try discriminate H.
  1-3: intros t; cbn [json_text]; rewrite !app_str_cons, app_str_nil_l;
    repeat (erewrite lex_silent by reflexivity); reflexivity.
  - by apply reads_json_string.
  - apply (reads_text_app "[" _ [LBracket]); [apply reads_punct|].
    apply (reads_text_app _ "]" _ [RBracket]); [|apply reads_punct].
    apply reads_join. simpl in H.
    induction IH as [|v vs Hv _ IH]; [constructor|]. simpl in H. apply andb_prop in H as [? ?].
    constructor; auto.
  - apply (reads_text_app "{" _ [LBrace]); [apply reads_punct|].
    apply (reads_text_app _ "}" _ [RBrace]); [|apply reads_punct].
    apply reads_join. simpl in H.
    induction IH as [|[k v] ms Hv _ IH]; [constructor|]. simpl in H, Hv.
    apply andb_prop in H as [H ?]. apply andb_prop in H as [? ?].
    constructor; [|by apply IH]. simpl.
    apply (reads_text_app _ _ [LScalar (SString k)]); [by apply reads_json_string|].
    apply (reads_text_app ":" _ [Colon]); [apply reads_punct|auto].
Qed.

(** Decoding the text of a value gives the value. *)
Lemma json_tree_text v :
  textual v = true → (nesting v ≤ max_nesting)%nat → json_tree (json_text v) = Some v.
Proof.
  intros H B. apply json_tree_spec. split; [|done].
  pose proof (reads_json_text v H "") as E. rewrite app_str_nil_r in E. rewrite E. simpl.
  by rewrite app_nil_r.
Qed.
