(* ===== verification/GoBase64.v ===== *)
(** * [encoding/base64]: [StdEncoding], its strict decoder, and [RawURLEncoding]

    Used for the Base64 sentinel of mirrored MCP header values and for random tokens. *)

From S2P Require Import Prelude GoStrings.
From stdpp Require Import base tactics strings list.
From Stdlib Require Import ZArith Lia Ascii.

Local Open Scope Z_scope.

Definition b64_char (n : Z) : ascii :=
  if n <? 26 then byte_of (65 + n)
  else if n <? 52 then byte_of (71 + n)
  else if n <? 62 then byte_of (n - 4)
  else if n =? 62 then byte_of 43 else byte_of 47.

Definition b64_val (c : ascii) : option Z :=
  let v := byte_val c in
  if (65 <=? v) && (v <=? 90) then Some (v - 65)
  else if (97 <=? v) && (v <=? 122) then Some (v - 71)
  else if (48 <=? v) && (v <=? 57) then Some (v + 4)
  else if v =? 43 then Some 62 else if v =? 47 then Some 63 else None.

Definition b64_pad : ascii := byte_of 61.

(** [StdEncoding.EncodeToString] *)
Fixpoint b64_encode (s : string) : string :=
  match s with
  | EmptyString => ""
  | String a EmptyString =>
      let n := byte_val a * 16 in
      String (b64_char (n / 64)) (String (b64_char (n mod 64)) (String b64_pad (String b64_pad "")))
  | String a (String b EmptyString) =>
      let n := (byte_val a * 256 + byte_val b) * 4 in
      String (b64_char (n / 4096)) (String (b64_char (n / 64 mod 64))
        (String (b64_char (n mod 64)) (String b64_pad "")))
  | String a (String b (String c s')) =>
      let n := byte_val a * 65536 + byte_val b * 256 + byte_val c in
      String (b64_char (n / 262144)) (String (b64_char (n / 4096 mod 64))
        (String (b64_char (n / 64 mod 64)) (String (b64_char (n mod 64)) (b64_encode s'))))
  end.

(** [RawURLEncoding.EncodeToString]: the URL alphabet, without padding *)
Definition url_char (c : ascii) : ascii :=
  if byte_val c =? 43 then byte_of 45 else if byte_val c =? 47 then byte_of 95 else c.
Definition b64_raw_url (s : string) : string :=
  bytes_map url_char (trim_right_set (λ c, Ascii.eqb c b64_pad) (b64_encode s)).

(** The decoder skips line breaks. *)
Fixpoint strip_breaks (s : string) : string :=
  match s with
  | EmptyString => ""
  | String c s' => if (byte_val c =? 10) || (byte_val c =? 13) then strip_breaks s' else String c (strip_breaks s')
  end.

(** Quanta of four characters; padding only in the last one, its unused bits zero. *)
Fixpoint b64_quanta (s : string) : option string :=
  match s with
  | EmptyString => Some ""
  | String a (String b (String c (String d s'))) =>
      match b64_val a, b64_val b with
      | Some x, Some y =>
          match b64_val c, b64_val d with
          | Some z, Some w =>
              let n := x * 262144 + y * 4096 + z * 64 + w in
              match b64_quanta s' with
              | Some r => Some (String (byte_of (n / 65536)) (String (byte_of (n / 256 mod 256))
                                 (String (byte_of (n mod 256)) r)))
              | None => None
              end
          | Some z, None =>
              let n := x * 4096 + y * 64 + z in
              if Ascii.eqb d b64_pad && String.eqb s' "" && (n mod 4 =? 0)
              then Some (String (byte_of (n / 1024)) (String (byte_of (n / 4 mod 256)) "")) else None
          | None, _ =>
              let n := x * 64 + y in
              if Ascii.eqb c b64_pad && Ascii.eqb d b64_pad && String.eqb s' "" && (n mod 16 =? 0)
              then Some (String (byte_of (n / 16)) "") else None
          end
      | _, _ => None
      end
  | _ => None
  end.

(** [StdEncoding.Strict().DecodeString] *)
Definition b64_decode (s : string) : option string := b64_quanta (strip_breaks s).

Example b64_rfc4648 :
  map b64_encode ["f"; "fo"; "foo"; "foobar"] = ["Zg=="; "Zm8="; "Zm9v"; "Zm9vYmFy"]
  ∧ b64_decode "Zm8=" = Some "fo" ∧ b64_decode "Zm9=" = None ∧ b64_decode "Zg=" = None.
Proof. repeat split; reflexivity. Qed.

(** ** Decoding an encoding *)

Lemma b64_val_char n : 0 <= n < 64 → b64_val (b64_char n) = Some n.
Proof.
  intros H. assert (∃ k, (k < 64)%nat ∧ n = Z.of_nat k) as (k & Hk & ->) by (exists (Z.to_nat n); lia).
  do 64 (destruct k as [|k]; [reflexivity|]). lia.
Qed.

(** No character of the alphabet is a line break or the padding. *)
Lemma b64_char_plain n : 0 <= n < 64 →
  (byte_val (b64_char n) =? 10) || (byte_val (b64_char n) =? 13) = false.
Proof.
  intros H. pose proof (b64_val_char n H) as E. unfold b64_val in E.
  destruct (Z.eqb_spec (byte_val (b64_char n)) 10) as [B|]; [rewrite B in E; done|].
  destruct (Z.eqb_spec (byte_val (b64_char n)) 13) as [B|]; [rewrite B in E; done|]. done.
Qed.

Lemma strip_encode s : strip_breaks (b64_encode s) = b64_encode s.
Proof.
  induction s as [s IH] using (induction_ltof1 _ String.length). unfold ltof in IH.
  destruct s as [|a [|b [|c s]]]; [done|..]; cbn [b64_encode strip_breaks];
    pose proof (byte_val_bounds a); try pose proof (byte_val_bounds b); try pose proof (byte_val_bounds c);
    rewrite ?b64_char_plain by (Z.div_mod_to_equations; lia); [done..|].
  rewrite IH by (simpl; lia). done.
Qed.

Lemma byte_of_eq z c : z = byte_val c → byte_of z = c.
Proof. intros ->. apply byte_of_val. Qed.

Lemma b64_quanta_encode s : b64_quanta (b64_encode s) = Some s.
Proof.
  induction s as [s IH] using (induction_ltof1 _ String.length). unfold ltof in IH.
  destruct s as [|a [|b [|c s]]]; [done|..]; cbn [b64_encode b64_quanta];
    pose proof (byte_val_bounds a); try pose proof (byte_val_bounds b); try pose proof (byte_val_bounds c);
    rewrite !b64_val_char by (Z.div_mod_to_equations; lia).
  - change (b64_val b64_pad) with (@None Z). cbn [Ascii.eqb b64_pad].
    replace (_ mod 16 =? 0) with true by (symmetry; apply Z.eqb_eq; Z.div_mod_to_equations; lia).
    change (Some (String (byte_of (((byte_val a * 16) / 64 * 64 + (byte_val a * 16) mod 64) / 16)) "")
            = Some (String a "")).
    do 2 f_equal. apply byte_of_eq. Z.div_mod_to_equations; lia.
  - change (b64_val b64_pad) with (@None Z).
    replace (_ mod 4 =? 0) with true by (symmetry; apply Z.eqb_eq; Z.div_mod_to_equations; lia).
    cbn -[Z.mul Z.add Z.div Z.modulo]. do 2 f_equal; [|f_equal]; apply byte_of_eq; Z.div_mod_to_equations; lia.
  - rewrite IH by (simpl; lia). do 2 f_equal; [|f_equal; [|f_equal]]; apply byte_of_eq; Z.div_mod_to_equations; lia.
Qed.

Lemma b64_decode_encode s : b64_decode (b64_encode s) = Some s.
Proof. unfold b64_decode. by rewrite strip_encode, b64_quanta_encode. Qed.
