(* ===== verification/GoUrl.v ===== *)
(** * Package [net/url]

    Query strings as the program uses them, on bytes.  [url.Parse] is a parameter: the
    parts of a parsed URL that the program reads are fields of [ParsedURL]. *)

From S2P Require Import Prelude GoStrings GoJson Types.
From stdpp Require Import base tactics strings list gmap sorting.
From Stdlib Require Import ZArith Lia Ascii.

Local Open Scope Z_scope.

(** ** Parsed URLs *)

(** [pu_render q] is [u.String()] once [u.RawQuery] has been set to [q]. *)
Record ParsedURL : Type := mkParsed {
  pu_Scheme : string;
  pu_Host : string;
  pu_User : bool;
  pu_EscapedPath : string;
  pu_RawQuery : string;
  pu_render : string → string
}.

Class UrlLib : Type := { url_Parse : string → option ParsedURL }.

(** [strings.Cut] at a byte *)
Fixpoint cut_byte (sep : ascii) (s : string) : option (string * string) :=
  match s with
  | EmptyString => None
  | String c s' =>
      if Ascii.eqb c sep then Some ("", s')
      else match cut_byte sep s' with Some (a, b) => Some (String c a, b) | None => None end
  end.
Definition cut_or (sep : ascii) (s : string) : string * string := default (s, "") (cut_byte sep s).

(** [URL.Hostname], that is [splitHostPort] of the host without the port: a last colon
    followed by digits only starts a port; brackets around an address are dropped. *)
Definition strip_port (host : string) : string :=
  match cut_byte (byte_of 58) (rev_str host) with
  | Some (port, before) => if bytes_all is_digit port then rev_str before else host
  | None => host
  end.
Definition hostname (host : string) : string :=
  let h := strip_port host in
  if has_prefix h "[" && has_suffix h "]" then trim_suffix (trim_prefix h "[") "]" else h.

Example hostname_port : hostname "hooks.slack.com:443" = "hooks.slack.com".
Proof. reflexivity. Qed.
Example hostname_v6 : hostname "[::1]:8080" = "::1".
Proof. reflexivity. Qed.

(** ** Query strings *)

(** [QueryUnescape] *)
Fixpoint query_unescape (s : string) : option string :=
  match s with
  | EmptyString => Some ""
  | String c s' =>
      if byte_val c =? 37 then
        match s' with
        | String a (String b s'') =>
            match hex_value a, hex_value b with
            | Some x, Some y => String (byte_of (16 * x + y)) <$> query_unescape s''
            | _, _ => None
            end
        | _ => None
        end
      else String (if byte_val c =? 43 then byte_of 32 else c) <$> query_unescape s'
  end.

(** [QueryEscape] *)
Definition is_unreserved (c : ascii) : bool :=
  let v := byte_val c in
  ((48 <=? v) && (v <=? 57)) || ((65 <=? v) && (v <=? 90)) || ((97 <=? v) && (v <=? 122))
  || existsb (Z.eqb v) [45; 95; 46; 126].
Fixpoint query_escape (s : string) : string :=
  match s with
  | EmptyString => ""
  | String c s' =>
      (if is_unreserved c then String c ""
       else if byte_val c =? 32 then "+"
       else "%" +:+ bytes_map ascii_upper (hex_encode (String c ""))) +:+ query_escape s'
  end.

(** One setting of a query, [None] when it is malformed and an empty list when there is
    nothing. *)
Definition query_setting (seg : string) : option (list (string * string)) :=
  if str_contains seg ";" then None
  else if String.eqb seg "" then Some []
  else
    let '(k, v) := cut_or (byte_of 61) seg in
    match query_unescape k, query_unescape v with
    | Some k', Some v' => Some [(k', v')]
    | _, _ => None
    end.

(** [url.ParseQuery]: the settings in order, and whether there was no error. *)
Definition parse_query (q : string) : list (string * string) * bool :=
  let parts := map query_setting (split_byte (byte_of 38) q) in
  (concat (map (default []) parts), forallb (λ p, bool_decide (is_Some p)) parts).

(** [Values.Set] and [Values.Encode], which sorts by key. *)
Definition values_set (k v : string) (q : list (string * string)) : list (string * string) :=
  filter (λ e, e.1 ≠ k) q ++ [(k, v)].
Definition setting_le (a b : string * string) : Prop := Is_true (String.leb a.1 b.1).
#[export] Instance setting_le_dec a b : Decision (setting_le a b).
Proof. unfold setting_le. apply _. Defined.
Fixpoint encode_settings (q : list (string * string)) : string :=
  match q with
  | [] => ""
  | [(k, v)] => query_escape k +:+ "=" +:+ query_escape v
  | (k, v) :: r => query_escape k +:+ "=" +:+ query_escape v +:+ "&" +:+ encode_settings r
  end.
Definition values_encode (q : list (string * string)) : string := encode_settings (merge_sort setting_le q).

(** ** Round trips *)

Lemma hex_upper_value n : 0 <= n < 16 → hex_value (ascii_upper (hex_digit n)) = Some n.
Proof.
  intros B. assert (n = 0 ∨ n = 1 ∨ n = 2 ∨ n = 3 ∨ n = 4 ∨ n = 5 ∨ n = 6 ∨ n = 7 ∨ n = 8 ∨ n = 9 ∨ n = 10
                    ∨ n = 11 ∨ n = 12 ∨ n = 13 ∨ n = 14 ∨ n = 15) as C by lia.
  repeat destruct C as [-> |C]; [..|subst]; reflexivity.
Qed.

(** [QueryUnescape] undoes [QueryEscape]. *)
Lemma query_unescape_escape s : query_unescape (query_escape s) = Some s.
Proof.
  induction s as [|c s IH]; [done|]. cbn [query_escape]. destruct (is_unreserved c) eqn:U.
  - rewrite app_str_cons, app_str_nil_l. cbn [query_unescape].
    destruct (Z.eqb_spec (byte_val c) 37) as [E|_]; [unfold is_unreserved in U; by rewrite E in U|].
    destruct (Z.eqb_spec (byte_val c) 43) as [E|_]; [unfold is_unreserved in U; by rewrite E in U|].
    by rewrite IH.
  - destruct (Z.eqb_spec (byte_val c) 32) as [E|_].
    + rewrite app_str_cons, app_str_nil_l. cbn [query_unescape]. change (byte_val "+"%char =? 37) with false.
      cbv iota. rewrite IH. cbn. do 2 f_equal. apply byte_val_inj. by rewrite E.
    + cbn [hex_encode bytes_map]. rewrite !app_str_cons, app_str_nil_l. cbn [query_unescape].
      change (byte_val "%"%char =? 37) with true. cbv iota. rewrite !app_str_cons, app_str_nil_l. cbv iota. pose proof (byte_val_bounds c) as B.
      rewrite hex_upper_value by (split; [apply Z.div_pos|apply Z.div_lt_upper_bound]; lia). cbv iota beta.
      rewrite hex_upper_value by (apply Z.mod_pos_bound; lia). cbv iota beta.
      rewrite <- Z.div_mod, byte_of_val, IH by lia. done.
Qed.

(** A concrete parser for closed examples: a scheme, a host and a path, with neither a
    user nor escapes. *)
Definition split_url (scheme rest : string) : ParsedURL :=
  let '(before, query) := cut_or (byte_of 63) rest in
  let '(host, path) := match cut_byte (byte_of 47) before with
                       | Some (h, p) => (h, "/" +:+ p)
                       | None => (before, "")
                       end in
  mkParsed scheme host false path query
    (λ q, (if String.eqb scheme "" then "" else scheme +:+ "://") +:+ host +:+ path
          +:+ (if String.eqb q "" then "" else "?" +:+ q)).
Definition plain_urls : UrlLib :=
  {| url_Parse raw :=
       if has_prefix raw "https://" then Some (split_url "https" (trim_prefix raw "https://"))
       else if has_prefix raw "http://" then Some (split_url "http" (trim_prefix raw "http://"))
       else if str_contains raw ":" then None
       else Some (split_url "" raw) |}.
