(* ===== verification/GoHttp.v ===== *)
(** * Package [net/http], as the handlers use it

    Request cookies, [http.SetCookie] and [http.Redirect]. *)

From S2P Require Import Prelude GoStrings Types GoUrl.
From stdpp Require Import base tactics strings list gmap pretty.
From Stdlib Require Import ZArith Lia Ascii.

Local Open Scope Z_scope.

Module GoHttp.

(** ** Cookies *)

(** [textproto.TrimString] *)
Definition is_header_space (c : ascii) : bool := existsb (Z.eqb (byte_val c)) [32; 9; 10; 13].
Definition TrimString (s : string) : string := trim_set is_header_space s.

(** [validCookieValueByte], [parseCookieValue] with double quotes allowed. *)
Definition validCookieValueByte (c : ascii) : bool :=
  let b := byte_val c in
  (32 <=? b) && (b <? 127) && negb (b =? 34) && negb (b =? 59) && negb (b =? 92).
Definition parseCookieValue (raw : string) : option string :=
  let v := if (1 <? strlen raw) && has_prefix raw dq && has_suffix raw dq
           then trim_suffix (trim_prefix raw dq) dq else raw in
  if bytes_all validCookieValueByte v then Some v else None.

(** One part of a [Cookie] line, when it is the cookie [name]; the two names the program
    asks for are tokens. *)
Definition cookie_part (name part : string) : option string :=
  let '(n, v) := cut_or (byte_of 61) (TrimString part) in
  if String.eqb (TrimString n) name then parseCookieValue v else None.

Definition defaultCookieMaxNum : nat := 3000.

(** [Request.Cookie]: the first readable cookie of that name. *)
Definition request_cookie (h : Header) (name : string) : option string :=
  let parts := concat (map (split_byte (byte_of 59)) (default [] (h !! "Cookie"))) in
  if (defaultCookieMaxNum <? length parts)%nat then None else head (omap (cookie_part name) parts).

Inductive SameSite : Type := SameSiteLaxMode | SameSiteStrictMode | SameSiteNoneMode.

(** The attributes of [http.Cookie] that are set. *)
Record Cookie : Type := mkCookie {
  ck_Name : string;
  ck_Value : string;
  ck_Path : string;
  ck_MaxAge : Z;
  ck_HttpOnly : bool;
  ck_Secure : bool;
  ck_SameSite : SameSite
}.

(** [sanitizeCookieValue] *)
Fixpoint bytes_filter (p : ascii → bool) (s : string) : string :=
  match s with
  | EmptyString => ""
  | String c s' => if p c then String c (bytes_filter p s') else bytes_filter p s'
  end.
Definition sanitizeCookieValue (v : string) : string :=
  let v' := bytes_filter validCookieValueByte v in
  if str_contains v' " " || str_contains v' "," then quoted v' else v'.

(** [Cookie.String] for a valid name and path. *)
Definition cookie_String (c : Cookie) : string :=
  ck_Name c +:+ "=" +:+ sanitizeCookieValue (ck_Value c)
  +:+ (if String.eqb (ck_Path c) "" then "" else "; Path=" +:+ ck_Path c)
  +:+ (if 0 <? ck_MaxAge c then "; Max-Age=" +:+ pretty (ck_MaxAge c)
       else if ck_MaxAge c <? 0 then "; Max-Age=0" else "")
  +:+ (if ck_HttpOnly c then "; HttpOnly" else "")
  +:+ (if ck_Secure c then "; Secure" else "")
  +:+ match ck_SameSite c with
      | SameSiteLaxMode => "; SameSite=Lax"
      | SameSiteStrictMode => "; SameSite=Strict"
      | SameSiteNoneMode => "; SameSite=None"
      end.

(** [http.SetCookie] on a response's headers. *)
Definition SetCookie (c : Cookie) (resp : Response any) : Response any :=
  mkResponse (rs_Status resp) (("Set-Cookie", cookie_String c) :: rs_Header resp) (rs_Body resp).

(** [http.Redirect]; [url] is the URL handed to it, which is the [Location] as it
    stands when it has a scheme and is ASCII.  The link in the body of an answer to
    [GET] is left out. *)
Definition Redirect (url : string) (code : Z) : Response any := mkResponse code [("Location", url)] BNone.

Example cookie_found :
  request_cookie {["Cookie" := ["a=1; elodea_session=tok"; "elodea_session=two"]]} "elodea_session" = Some "tok".
Proof. reflexivity. Qed.
Example cookie_written :
  cookie_String (mkCookie "s" "v" "/" 60 true true SameSiteStrictMode)
  = "s=v; Path=/; Max-Age=60; HttpOnly; Secure; SameSite=Strict".
Proof. reflexivity. Qed.

End GoHttp.
