(* ===== verification/GoDecode.v ===== *)
(** * Decoding JSON into Go structs

    [json.Unmarshal] and [json.Decoder.Decode] into a struct, over the values of
    [GoJson]: a member is stored into the field of that name, or of a name equal to it
    up to case; later members win; [null] leaves a field alone; a value of the wrong
    type is an error. *)

From S2P Require Import Prelude GoStrings Types GoJson.
From stdpp Require Import base tactics strings list.
From Stdlib Require Import ZArith Lia Ascii.

Local Open Scope Z_scope.

Section decode.
Context `{UnicodeTables}.

(** A field: its JSON name and how a value is stored. *)
Definition field (S : Type) : Type := (string * (any → S → option S))%type.

(** The field a member name selects: the exact name first. *)
Definition field_for {S} (fs : list (field S)) (k : string) : option (any → S → option S) :=
  match find (λ f, String.eqb f.1 k) fs with
  | Some f => Some f.2
  | None => snd <$> find (λ f, equal_fold f.1 k) fs
  end.

Fixpoint decode_members {S} (fs : list (field S)) (ms : list (string * any)) (s : S) : option S :=
  match ms with
  | [] => Some s
  | (k, v) :: rest =>
      match field_for fs k with
      | None => decode_members fs rest s
      | Some set => match set v s with Some s' => decode_members fs rest s' | None => None end
      end
  end.

Definition decode_struct {S} (fs : list (field S)) (v : any) (s : S) : option S :=
  match v with
  | AObject ms => decode_members fs ms s
  | ANil => Some s
  | _ => None
  end.

(** Stores for the kinds of field the program declares. *)
Definition into_string {S} (set : string → S → S) (v : any) (s : S) : option S :=
  match v with AString x => Some (set x s) | ANil => Some s | _ => None end.
Definition into_bool {S} (set : bool → S → S) (v : any) (s : S) : option S :=
  match v with ABool b => Some (set b s) | ANil => Some s | _ => None end.
Definition into_int64 {S} (set : Z → S → S) (v : any) (s : S) : option S :=
  match v with
  | ANumber x => (λ n, set n s) <$> parse_int64 x
  | ANil => Some s
  | _ => None
  end.
Definition into_struct {S T} (fs : list (field T)) (get : S → T) (set : T → S → S) (v : any) (s : S) : option S :=
  (λ t, set t s) <$> decode_struct fs v (get s).

(** A slice: its length, and every element its backing array holds, which a later array
    is decoded over. *)
Record slice (A : Type) : Type := mkSlice { sl_len : nat; sl_back : list A }.
Arguments mkSlice {A} sl_len sl_back.
Arguments sl_len {A} _.
Arguments sl_back {A} _.
Definition slice_list {A} (s : slice A) : list A := take (sl_len s) (sl_back s).

Fixpoint decode_elems {A} (dec : any → A → option A) (zero : A) (vs : list any) (back : list A) : option (list A) :=
  match vs with
  | [] => Some back
  | v :: vs' =>
      match dec v (default zero (head back)), decode_elems dec zero vs' (tail back) with
      | Some x, Some xs => Some (x :: xs)
      | _, _ => None
      end
  end.

Definition into_slice {S A} (dec : any → A → option A) (zero : A) (get : S → slice A) (set : slice A → S → S)
    (v : any) (s : S) : option S :=
  match v with
  | AArray [] | ANil => Some (set (mkSlice 0 []) s)
  | AArray vs => (λ xs, set (mkSlice (length vs) xs) s) <$> decode_elems dec zero vs (sl_back (get s))
  | _ => None
  end.

(** [json.Unmarshal(text, &s)] *)
Definition unmarshal {S} (fs : list (field S)) (text : string) (zero : S) : option S :=
  match json_tree (coerce_utf8 text) with
  | Some v => decode_struct fs v zero
  | None => None
  end.

(** [json.NewDecoder(r).Decode(&s)]: the first value of the stream; what follows it is
    not read.  A value that is not an object fails whatever its extent. *)
Fixpoint first_value (seen rest : string) : option any :=
  match json_tree (coerce_utf8 (rev_str seen)) with
  | Some v => Some v
  | None =>
      match rest with
      | EmptyString => None
      | String c rest' => first_value (String c seen) rest'
      end
  end.
Definition decode_first {S} (fs : list (field S)) (text : string) (zero : S) : option S :=
  match first_value "" text with
  | Some v => decode_struct fs v zero
  | None => None
  end.

(** [io.LimitReader] *)
Fixpoint take_bytes (n : Z) (s : string) : string :=
  match s with
  | EmptyString => ""
  | String c s' => if n <=? 0 then "" else String c (take_bytes (n - 1) s')
  end.
End decode.

Arguments mkSlice {A} sl_len sl_back.
Arguments sl_len {A} _.
Arguments sl_back {A} _.
