(* ===== verification/Ledger.v ===== *)
(** * The hash-chained audit ledger

    [internal/ledger/ledger.go] over the statements of [internal/db/ledger.sql.go].
    The table is the list of its rows in no particular order; [seq_num] is its
    primary key.  Each statement may fail: what the database answers is part of an
    [append_env], so the theorems hold for every pattern of failures. *)

From S2P Require Import Prelude GoStrings GoTime Sha256 Types.
From stdpp Require Import base tactics strings list pretty sorting.
From Stdlib Require Import ZArith Lia Ascii.

Local Open Scope Z_scope.

Module Ledger.

(** ** Hashing one entry *)

(** [normalizeTimestamp] *)
Definition normalizeTimestamp (t : Z) : Z := GoTime.truncate_us t.

(** The [fields] slice of [calculateHash]. *)
Definition hash_fields (e : LedgerEntry) : list string :=
  [pretty (le_SeqNum e);
   GoTime.format_us (normalizeTimestamp (le_Timestamp e));
   le_Agent e;
   le_Tool e;
   le_Decision e;
   le_PolicyRule e;
   le_PayloadHash e;
   le_RequestID e;
   le_PrevHash e]
  ++ (if String.eqb (le_PolicyVersion e) "" then [] else [le_PolicyVersion e]).

(** [fmt.Fprintf(&data, "%d:%s;", len(f), f)] *)
Definition enc_field (f : string) : string :=
  pretty (N.of_nat (String.length f)) +:+ ":" +:+ f +:+ ";".

Fixpoint enc_fields (fs : list string) : string :=
  match fs with
  | [] => ""
  | f :: fs' => enc_field f +:+ enc_fields fs'
  end.

(** The bytes [calculateHash] hashes. *)
Definition hash_input (e : LedgerEntry) : string := enc_fields (hash_fields e).

(** [calculateHash] *)
Definition calculateHash (e : LedgerEntry) : string := Sha256.hex256 (hash_input e).

(** ** The table *)

Definition seq_le (a b : LedgerEntry) : Prop := le_SeqNum a <= le_SeqNum b.

#[export] Instance seq_le_dec : RelDecision seq_le.
Proof. intros a b. unfold seq_le. apply _. Defined.

(** [ORDER BY seq_num ASC] *)
Definition order_asc (t : list LedgerEntry) : list LedgerEntry := merge_sort seq_le t.

(** [GetLatestLedgerEntry]: hash and number of the row with the greatest [seq_num]. *)
Definition GetLatestLedgerEntry (t : list LedgerEntry) : option (string * Z) :=
  match last (order_asc t) with
  | Some e => Some (le_Hash e, le_SeqNum e)
  | None => None
  end.

(** [GetLedgerHead] *)
Definition GetLedgerHead (t : list LedgerEntry) : option (Z * string * Z) :=
  match last (order_asc t) with
  | Some e => Some (le_SeqNum e, le_Hash e, le_Timestamp e)
  | None => None
  end.

(** [GetLedgerEntry] *)
Definition GetLedgerEntry (t : list LedgerEntry) (seq : Z) : option LedgerEntry :=
  head (filter (λ e, le_SeqNum e = seq) t).

(** [InsertLedgerEntry]: refused when the primary key exists. *)
Definition InsertLedgerEntry (e : LedgerEntry) (t : list LedgerEntry) : option (list LedgerEntry) :=
  if bool_decide (le_SeqNum e ∈ map le_SeqNum t) then None else Some (t ++ [e]).

(** ** Appending *)

(** How the database and the clock answer during one [appendOnce]; [ae_tip] is a failure
    to read the tip other than that there is none.  A failed commit says whether the
    transaction took effect all the same (a connection lost after the server committed). *)
Record append_env : Type := mkAppendEnv {
  ae_begin : option error;
  ae_lock : option error;
  ae_tip : option error;
  ae_now : Z;
  ae_insert : option error;
  ae_commit : option (error * bool)
}.

(** The entry [appendOnce] inserts after the tip it read. *)
Definition link_entry (tip : string * Z) (now : Z) (entry : LedgerEntry) : LedgerEntry :=
  let '(tip_hash, tip_seq) := tip in
  let ts := if GoTime.is_zero (le_Timestamp entry) then now else le_Timestamp entry in
  let e1 :=
    {| le_SeqNum := wrap64 (tip_seq + 1);
       le_Timestamp := normalizeTimestamp ts;
       le_Agent := le_Agent entry;
       le_Tool := le_Tool entry;
       le_Decision := le_Decision entry;
       le_PolicyRule := le_PolicyRule entry;
       le_PayloadHash := le_PayloadHash entry;
       le_PrevHash := tip_hash;
       le_Hash := le_Hash entry;
       le_RequestID := le_RequestID entry;
       le_PolicyVersion := le_PolicyVersion entry |} in
  {| le_SeqNum := le_SeqNum e1;
     le_Timestamp := le_Timestamp e1;
     le_Agent := le_Agent e1;
     le_Tool := le_Tool e1;
     le_Decision := le_Decision e1;
     le_PolicyRule := le_PolicyRule e1;
     le_PayloadHash := le_PayloadHash e1;
     le_PrevHash := le_PrevHash e1;
     le_Hash := calculateHash e1;
     le_RequestID := le_RequestID e1;
     le_PolicyVersion := le_PolicyVersion e1 |}.

(** The zero row [qtx.GetLatestLedgerEntry] returns with [sql.ErrNoRows]. *)
Definition tip_of (t : list LedgerEntry) : string * Z :=
  default ("", 0) (GetLatestLedgerEntry t).

(** [Store.appendOnce]: the outcome and the committed table. *)
Definition appendOnce (env : append_env) (t : list LedgerEntry) (entry : LedgerEntry)
    : result unit * list LedgerEntry :=
  match ae_begin env with
  | Some e => (Err (errorf_w "failed to begin tx" e), t)
  | None =>
  match ae_lock env with
  | Some e => (Err (errorf_w "failed to lock ledger chain" e), t)
  | None =>
  match ae_tip env with
  | Some e => (Err (errorf_w "failed to get previous hash" e), t)
  | None =>
      let row := link_entry (tip_of t) (ae_now env) entry in
      match ae_insert env with
      | Some e => (Err (errorf_w "failed to insert ledger entry" e), t)
      | None =>
      match InsertLedgerEntry row t with
      | None => (Err (errorf_w "failed to insert ledger entry" (errors_New "duplicate key value")), t)
      | Some t' =>
      match ae_commit env with
      | Some (e, took_effect) => (Err e, if took_effect : bool then t' else t)
      | None => (Ok tt, t')
      end end end
  end end end.

(** [isSerializationFailure] *)
Definition isSerializationFailure (e : error) : bool := errors_Is e SSerialization.

Definition maxRetries : nat := 8.

(** The wait after a failed [attempt]; [rnd] is the value [rand.Int64N] draws. *)
Definition backoff_for (attempt : nat) (rnd : Z) : Z :=
  let backoff := Z.shiftl 1 (Z.of_nat attempt) * 10 * GoTime.millisecond in
  backoff + rnd mod (backoff / 2 + 1).

(** What happens around the attempts: each attempt's environment, the random
    draws, and whether the context ends during the wait after an attempt. *)
Record retry_env : Type := mkRetryEnv {
  re_attempt : nat → append_env;
  re_rand : nat → Z;
  re_done : nat → bool
}.

(** The loop of [Store.appendWithRetry] from [attempt], [n] iterations left; also
    returns the time waited. *)
Fixpoint retry_loop (env : retry_env) (entry : LedgerEntry) (n attempt : nat) (t : list LedgerEntry)
    : result unit * list LedgerEntry * Z :=
  match n with
  | O => (Err (errors_New "ledger append failed after 8 attempts"), t, 0)
  | S n' =>
      match appendOnce (re_attempt env attempt) t entry with
      | (Ok _, t') => (Ok tt, t', 0)
      | (Err e, t') =>
          if isSerializationFailure e && bool_decide (attempt < maxRetries - 1)%nat then
            let wait := backoff_for attempt (re_rand env attempt) in
            if re_done env attempt then
              (Err (mkErr (Some SCanceled) "ledger append canceled while waiting to retry: context canceled"), t', wait)
            else
              let '(r, t'', w) := retry_loop env entry n' (S attempt) t' in (r, t'', wait + w)
          else (Err e, t', 0)
      end
  end.

(** [Store.appendWithRetry] *)
Definition appendWithRetry (env : retry_env) (t : list LedgerEntry) (entry : LedgerEntry)
    : result unit * list LedgerEntry * Z :=
  retry_loop env entry maxRetries 0 t.

(** [Store.Append]; the metrics it feeds are left out. *)
Definition Append (env : retry_env) (t : list LedgerEntry) (entry : LedgerEntry)
    : result unit * list LedgerEntry :=
  let '(r, t', _) := appendWithRetry env t entry in (r, t').

(** ** Streaming and verifying *)

(** The rows [Store.Stream] visits. *)
Definition stream_rows (after : Z) (t : list LedgerEntry) : list LedgerEntry :=
  if 0 <? after then filter (λ e, after < le_SeqNum e) (order_asc t) else order_asc t.

(** The loop of [Store.Stream] with a callback over a state; the callback's error
    stops it.  [scan_fail] is a failure of the query or of the scan at a row. *)
Fixpoint stream_loop {St} (fn : St → LedgerEntry → St * option error) (scan_fail : nat → option error)
    (i : nat) (rows : list LedgerEntry) (st : St) : St * option error :=
  match scan_fail i with
  | Some e => (st, Some e)
  | None =>
      match rows with
      | [] => (st, None)
      | e :: rows' =>
          match fn st e with
          | (st', Some err) => (st', Some err)
          | (st', None) => stream_loop fn scan_fail (S i) rows' st'
          end
      end
  end.

(** [Store.Stream] *)
Definition Stream {St} (after : Z) (fn : St → LedgerEntry → St * option error)
    (scan_fail : nat → option error) (t : list LedgerEntry) (st : St) : St * option error :=
  stream_loop fn scan_fail 0 (stream_rows after t) st.

Record Anchor : Type := mkAnchor { an_SeqNum : Z; an_Hash : string }.

Record VerifyReport : Type := mkReport {
  vr_Valid : bool;
  vr_Entries : Z;
  vr_HeadSeq : Z;
  vr_HeadHash : string;
  vr_FirstInvalidSeq : Z;
  vr_Reason : string
}.

(** [errStopStream] *)
Definition errStopStream : error := mkErr (Some SStopStream) "stop ledger stream".

(** The variables [VerifyChain]'s callback closes over: the report and [anchorSeen]. *)
Record verify_state : Type := mkVerify { vs_report : VerifyReport; vs_anchorSeen : bool }.

(** The closure [fail]. *)
Definition verify_fail (r : VerifyReport) (seq : Z) (reason : string) : VerifyReport :=
  mkReport false (vr_Entries r) (vr_HeadSeq r) (vr_HeadHash r) seq reason.

(** The callback of [VerifyChain]. *)
Definition verify_step (anchor : option Anchor) (s : verify_state) (e : LedgerEntry)
    : verify_state * option error :=
  let r0 := vs_report s in
  let r := mkReport (vr_Valid r0) (vr_Entries r0 + 1) (vr_HeadSeq r0) (vr_HeadHash r0)
                    (vr_FirstInvalidSeq r0) (vr_Reason r0) in
  if negb (String.eqb (le_PrevHash e) (vr_HeadHash r)) then
    (mkVerify (verify_fail r (le_SeqNum e) "prev_hash does not link to the previous entry") (vs_anchorSeen s),
     Some errStopStream)
  else if negb (String.eqb (le_Hash e) (calculateHash e)) then
    (mkVerify (verify_fail r (le_SeqNum e) "hash does not match entry contents") (vs_anchorSeen s),
     Some errStopStream)
  else
    let adv := mkReport (vr_Valid r) (vr_Entries r) (le_SeqNum e) (le_Hash e)
                        (vr_FirstInvalidSeq r) (vr_Reason r) in
    match anchor with
    | Some a =>
        if le_SeqNum e =? an_SeqNum a then
          if negb (String.eqb (le_Hash e) (an_Hash a)) then
            (mkVerify (verify_fail r (le_SeqNum e) "entry differs from the external anchor") true,
             Some errStopStream)
          else (mkVerify adv true, None)
        else (mkVerify adv (vs_anchorSeen s), None)
    | None => (mkVerify adv (vs_anchorSeen s), None)
    end.

Definition verify_init : verify_state := mkVerify (mkReport true 0 0 "" 0 "") false.

(** [Store.VerifyChain] *)
Definition VerifyChain (anchor : option Anchor) (scan_fail : nat → option error) (t : list LedgerEntry)
    : result VerifyReport :=
  let '(s, err) := Stream 0 (verify_step anchor) scan_fail t verify_init in
  let report := vs_report s in
  let finish :=
    match anchor with
    | Some a =>
        if vr_Valid report && negb (vs_anchorSeen s) then
          mkReport false (vr_Entries report) (vr_HeadSeq report) (vr_HeadHash report) (an_SeqNum a)
                   "anchored entry is missing (ledger truncated or rewritten)"
        else report
    | None => report
    end in
  match err with
  | Some e => if errors_Is e SStopStream then Ok finish else Err e
  | None => Ok finish
  end.

(** [Store.Verify] *)
Definition Verify (scan_fail : nat → option error) (t : list LedgerEntry) : bool * option error :=
  match VerifyChain None scan_fail t with
  | Ok r => (vr_Valid r, None)
  | Err e => (false, Some e)
  end.

(** [Store.Head]: [None] is the not-[ok] answer for an empty ledger. *)
Definition Head (fault : option error) (t : list LedgerEntry) : result (option (Z * string * Z)) :=
  match fault with
  | Some e => Err (errorf_w "failed to read ledger head" e)
  | None => Ok (GetLedgerHead t)
  end.

(** ** Pages *)

Record PageQuery : Type := mkPageQuery {
  pq_BeforeSeq : Z;
  pq_Limit : Z;
  pq_Agent : string;
  pq_Decision : string;
  pq_Tool : string
}.

(** The [WHERE] clause of [ListLedgerPage]. *)
Definition page_match (before : Z) (p : PageQuery) (e : LedgerEntry) : Prop :=
  le_SeqNum e < before
  ∧ (pq_Agent p = "" ∨ le_Agent e = pq_Agent p)
  ∧ (pq_Decision p = "" ∨ le_Decision e = pq_Decision p)
  ∧ (pq_Tool p = "" ∨ le_Tool e = pq_Tool p).

#[export] Instance page_match_dec before p e : Decision (page_match before p e).
Proof. unfold page_match. apply _. Defined.

(** [ListLedgerPage] *)
Definition ListLedgerPage (before : Z) (p : PageQuery) (t : list LedgerEntry) : list LedgerEntry :=
  take (Z.to_nat (wrap32 (pq_Limit p))) (filter (page_match before p) (reverse (order_asc t))).

(** [Store.Page] *)
Definition Page (p : PageQuery) (t : list LedgerEntry) : list LedgerEntry :=
  let before := if pq_BeforeSeq p <=? 0 then max_int64 else pq_BeforeSeq p in
  ListLedgerPage before p t.

(** [Store.Query] over [ListRecentLedgerEntries] *)
Definition ListRecentLedgerEntries (t : list LedgerEntry) : list LedgerEntry := take 100 (reverse (order_asc t)).
Definition Query (t : list LedgerEntry) : list LedgerEntry := ListRecentLedgerEntries t.

(** [Store.Stats] over [CountTodayActions] and [CountTodayViolations]; [today] is
    the instant [CURRENT_DATE]. *)
Definition CountTodayActions (today : Z) (t : list LedgerEntry) : Z :=
  Z.of_nat (length (filter (λ e, today <= le_Timestamp e) t)).
Definition CountTodayViolations (today : Z) (t : list LedgerEntry) : Z :=
  Z.of_nat (length (filter (λ e, today <= le_Timestamp e
                                 ∧ (le_Decision e = "deny" ∨ le_Decision e = "quarantine")) t)).
Definition Stats (today : Z) (t : list LedgerEntry) : Z * Z :=
  (CountTodayActions today t, CountTodayViolations today t).

End Ledger.
