(* ===== verification/LedgerEncoding.v ===== *)
(** * The ledger's hashed encoding is unambiguous

    The length-prefixed encoding of [calculateHash] determines the list of fields,
    and the fields determine every column of the entry except [hash] itself (the
    timestamp to the microsecond, the precision the database stores).  Two entries
    with the same hash therefore have the same contents, or their encodings are a
    SHA-256 collision. *)

From S2P Require Import Prelude GoStrings GoTime Sha256 Types Ledger.
From stdpp Require Import base tactics strings list pretty.
From Stdlib Require Import ZArith Lia Ascii.

Local Open Scope Z_scope.

Import Ledger.

(** The columns the hash covers. *)
Definition same_contents (a b : LedgerEntry) : Prop :=
  le_SeqNum a = le_SeqNum b
  ∧ normalizeTimestamp (le_Timestamp a) = normalizeTimestamp (le_Timestamp b)
  ∧ le_Agent a = le_Agent b
  ∧ le_Tool a = le_Tool b
  ∧ le_Decision a = le_Decision b
  ∧ le_PolicyRule a = le_PolicyRule b
  ∧ le_PayloadHash a = le_PayloadHash b
  ∧ le_RequestID a = le_RequestID b
  ∧ le_PrevHash a = le_PrevHash b
  ∧ le_PolicyVersion a = le_PolicyVersion b.

(** Two entries whose encodings differ and hash alike. *)
Definition collision (a b : LedgerEntry) : Prop :=
  hash_input a ≠ hash_input b ∧ Sha256.sum256 (hash_input a) = Sha256.sum256 (hash_input b).

(** ** Hex encoding *)

Lemma hex_digit_inj n m :
  0 <= n < 16 → 0 <= m < 16 → hex_digit n = hex_digit m → n = m.
Proof.
  intros Hn Hm E. apply (f_equal byte_val) in E. unfold hex_digit in E.
  destruct (Z.ltb_spec n 10), (Z.ltb_spec m 10);
    rewrite !byte_val_of in E by lia; lia.
Qed.

Lemma hex_encode_inj s t : hex_encode s = hex_encode t → s = t.
Proof.
  revert t. induction s as [|c s IH]; intros [|d t] E; try done.
  simpl in E. injection E as E1 E2 E. apply IH in E as ->. f_equal.
  pose proof (byte_val_bounds c). pose proof (byte_val_bounds d).
  apply hex_digit_inj in E1; [|split; [apply Z.div_pos|apply Z.div_lt_upper_bound]; lia..].
  apply hex_digit_inj in E2; [|apply Z.mod_pos_bound; lia..].
  apply byte_val_inj. rewrite (Z.div_mod (byte_val c) 16), (Z.div_mod (byte_val d) 16); lia.
Qed.

(** ** Netstrings *)

Lemma digits_colon_inj d d' r r' :
  bytes_all is_digit d = true → bytes_all is_digit d' = true →
  d +:+ (":" +:+ r) = d' +:+ (":" +:+ r') → d = d' ∧ r = r'.
Proof.
  revert d'. induction d as [|c d IH]; intros [|c' d'] Hd Hd' E; simpl in *;
    rewrite ?app_str_cons, ?app_str_nil_l in E.
  - by injection E as ->.
  - injection E as <- E. done.
  - injection E as -> E. done.
  - injection E as -> E. apply andb_prop in Hd as [_ Hd]. apply andb_prop in Hd' as [_ Hd'].
    destruct (IH d' Hd Hd' E) as [-> ->]. done.
Qed.

Lemma enc_field_inj f g r r' :
  enc_field f +:+ r = enc_field g +:+ r' → f = g ∧ r = r'.
Proof.
  unfold enc_field. rewrite !app_str_assoc. intros E.
  apply digits_colon_inj in E as [EL E]; [|apply GoTime.pretty_N_digits..].
  apply (inj pretty) in EL. apply app_str_inj_len in E as [-> E]; [|lia].
  by apply app_str_inj_l in E as ->.
Qed.

Lemma enc_fields_inj fs gs : enc_fields fs = enc_fields gs → fs = gs.
Proof.
  assert (∀ f r, enc_field f +:+ r ≠ "") as Hne.
  { intros f r E. apply (f_equal String.length) in E. unfold enc_field in E.
    rewrite !length_app_str in E. simpl in E. lia. }
  revert gs. induction fs as [|f fs IH]; intros [|g gs] E; simpl in E; [done| | |].
  - by apply (eq_sym (y:=_)), Hne in E.
  - by apply Hne in E.
  - apply enc_field_inj in E as [-> E]. by rewrite (IH gs E).
Qed.

(** ** Entries *)

Lemma hash_fields_inj a b : hash_fields a = hash_fields b → same_contents a b.
Proof.
  unfold hash_fields. intros E. injection E as E1 E2 E3 E4 E5 E6 E7 E8 E9 E10.
  apply (inj pretty) in E1. apply GoTime.format_us_inj in E2.
  unfold normalizeTimestamp in E2. rewrite !GoTime.truncate_us_idem in E2.
  repeat split; try done.
  destruct (String.eqb_spec (le_PolicyVersion a) ""), (String.eqb_spec (le_PolicyVersion b) "");
    simplify_eq; congruence.
Qed.

Lemma same_contents_fields a b : same_contents a b → hash_fields a = hash_fields b.
Proof.
  intros (E1 & E2 & E3 & E4 & E5 & E6 & E7 & E8 & E9 & E10). unfold hash_fields. by rewrite E1, E2, E3, E4, E5, E6, E7, E8, E9, E10.
Qed.

Lemma hash_input_same a b : hash_input a = hash_input b ↔ same_contents a b.
Proof.
  unfold hash_input. split.
  - intros E. by apply hash_fields_inj, enc_fields_inj.
  - intros E. by rewrite (same_contents_fields a b).
Qed.

Lemma calculateHash_binding a b :
  calculateHash a = calculateHash b → same_contents a b ∨ collision a b.
Proof.
  unfold calculateHash, Sha256.hex256. intros E. apply hex_encode_inj in E.
  destruct (decide (hash_input a = hash_input b)) as [Ei|Ei].
  - left. by apply hash_input_same.
  - by right.
Qed.

Lemma calculateHash_nonempty e : calculateHash e ≠ "".
Proof. apply Sha256.hex256_nonempty. Qed.

(** [calculateHash] does not read the [hash] column. *)
Lemma calculateHash_same a b : same_contents a b → calculateHash a = calculateHash b.
Proof. intros E. unfold calculateHash. by rewrite (proj2 (hash_input_same a b) E). Qed.

