(* ===== verification/LedgerChain.v ===== *)
(** * The chain invariant: appending and verifying

    [chain_ok] is what the ledger promises about its table: numbered 1..n, each
    entry linked to its predecessor's hash and hashed over its own contents.
    Appends preserve it under every pattern of database failures, [VerifyChain]
    decides it, and an external anchor pins down the whole prefix below it. *)

From S2P Require Import Prelude GoStrings GoTime Sha256 Types Ledger LedgerEncoding.
From stdpp Require Import base tactics strings list sorting.
From Stdlib Require Import ZArith Lia.

Local Open Scope Z_scope.

Import Ledger.

(** ** The invariant *)

Fixpoint linked (prev : string) (rows : list LedgerEntry) : Prop :=
  match rows with
  | [] => True
  | e :: rows' => le_PrevHash e = prev ∧ le_Hash e = calculateHash e ∧ linked (le_Hash e) rows'
  end.

Definition numbered (rows : list LedgerEntry) : Prop :=
  map le_SeqNum rows = map Z.of_nat (seq 1 (length rows)).

Definition chain_ok (t : list LedgerEntry) : Prop :=
  linked "" (order_asc t) ∧ numbered (order_asc t).

(** The hash and the number of the last row, as [appendOnce] reads them. *)
Definition head_hash (prev : string) (rows : list LedgerEntry) : string :=
  from_option le_Hash prev (last rows).

(** Room for one more 64-bit sequence number. *)
Definition has_room (t : list LedgerEntry) : Prop := Z.of_nat (length t) < max_int64.

(** ** Ordering *)

#[export] Instance seq_le_trans : Transitive seq_le.
Proof. intros a b c. unfold seq_le. lia. Qed.
#[export] Instance seq_le_total : Total seq_le.
Proof. intros a b. unfold seq_le. lia. Qed.

Lemma order_asc_perm t : order_asc t ≡ₚ t.
Proof. apply merge_sort_Permutation. Qed.

Lemma length_order_asc t : length (order_asc t) = length t.
Proof. by rewrite order_asc_perm. Qed.

Lemma elem_of_order_asc e t : e ∈ order_asc t ↔ e ∈ t.
Proof. by rewrite order_asc_perm. Qed.

(** The primary key: rows with the same number are the same row. *)
Lemma pk_unique (t : list LedgerEntry) x y :
  NoDup (map le_SeqNum t) → x ∈ t → y ∈ t → le_SeqNum x = le_SeqNum y → x = y.
Proof.
  intros Hnd Hx Hy E. apply list_elem_of_lookup in Hx as [i Hi]. apply list_elem_of_lookup in Hy as [j Hj].
  assert (i = j) as ->; [|congruence].
  eapply NoDup_lookup; [exact Hnd| |]; rewrite list_lookup_fmap; [by rewrite Hi|].
  rewrite Hj. simpl. by rewrite E.
Qed.

Lemma order_asc_unique t rows :
  NoDup (map le_SeqNum t) → rows ≡ₚ t → StronglySorted seq_le rows → order_asc t = rows.
Proof.
  intros Hnd Hp Hs. apply (StronglySorted_unique_strong seq_le).
  - intros x y Hx Hy Hxy Hyx. rewrite elem_of_order_asc in Hx. rewrite Hp in Hy.
    apply (pk_unique t); try done. unfold seq_le in *. lia.
  - apply StronglySorted_merge_sort; apply _.
  - done.
  - by rewrite order_asc_perm, Hp.
Qed.

Lemma order_asc_snoc t e :
  NoDup (map le_SeqNum t) → (∀ x, x ∈ t → le_SeqNum x < le_SeqNum e) →
  order_asc (t ++ [e]) = order_asc t ++ [e].
Proof.
  intros Hnd Hlt. apply order_asc_unique.
  - rewrite map_app. apply NoDup_app. split_and!; [done| |apply NoDup_singleton].
    intros z Hz ->%list_elem_of_singleton. apply list_elem_of_fmap in Hz as (x & Ez & Hx).
    specialize (Hlt x Hx). lia.
  - by rewrite order_asc_perm.
  - apply StronglySorted_app. split_and!.
    + intros x y Hx Hy%list_elem_of_singleton. subst. rewrite elem_of_order_asc in Hx.
      unfold seq_le. specialize (Hlt x Hx). lia.
    + apply StronglySorted_merge_sort; apply _.
    + repeat constructor.
Qed.

(** ** Linking *)

Lemma head_hash_cons prev e rows : head_hash prev (e :: rows) = head_hash (le_Hash e) rows.
Proof. unfold head_hash. destruct rows as [|x rows]; [done|]. rewrite last_cons_cons.
  destruct (last (x :: rows)) eqn:E; [done|]. by apply last_None in E. Qed.

Lemma linked_app prev rows rows' :
  linked prev (rows ++ rows') ↔ linked prev rows ∧ linked (head_hash prev rows) rows'.
Proof.
  revert prev. induction rows as [|e rows IH]; intros prev; simpl; [naive_solver|].
  rewrite IH, head_hash_cons. naive_solver.
Qed.

Lemma numbered_snoc rows e :
  numbered (rows ++ [e]) ↔ numbered rows ∧ le_SeqNum e = Z.of_nat (length rows) + 1.
Proof.
  unfold numbered. rewrite length_app, Nat.add_1_r, seq_S, !map_app. simpl. split.
  - intros E. apply app_inj_tail in E as [E1 E2]. split; [done|lia].
  - intros [-> ->]. do 2 f_equal. lia.
Qed.

Lemma numbered_bound rows e :
  numbered rows → e ∈ rows → 1 <= le_SeqNum e <= Z.of_nat (length rows).
Proof.
  intros Hn He. assert (le_SeqNum e ∈ map le_SeqNum rows) as Hs by (by apply list_elem_of_fmap_2).
  rewrite Hn in Hs. apply list_elem_of_fmap in Hs as (i & -> & Hi). apply elem_of_seq in Hi. lia.
Qed.

Lemma numbered_NoDup rows : numbered rows → NoDup (map le_SeqNum rows).
Proof. intros ->. apply NoDup_fmap_2; [apply _|]. apply NoDup_seq. Qed.

Lemma chain_ok_NoDup t : chain_ok t → NoDup (map le_SeqNum t).
Proof. intros [_ Hn]. apply numbered_NoDup in Hn. by rewrite order_asc_perm in Hn. Qed.

Lemma tip_of_chain t :
  chain_ok t → tip_of t = (head_hash "" (order_asc t), Z.of_nat (length t)).
Proof.
  intros [_ Hn]. unfold tip_of, GetLatestLedgerEntry, head_hash. rewrite <- (length_order_asc t).
  destruct (last (order_asc t)) as [e|] eqn:El; simpl.
  - apply last_Some in El as [rows El]. rewrite El in *. apply numbered_snoc in Hn as [_ ->].
    rewrite length_app. simpl. f_equal. lia.
  - apply last_None in El. by rewrite El.
Qed.

Lemma wrap64_id z : min_int64 <= z <= max_int64 → wrap64 z = z.
Proof. unfold wrap64, min_int64, max_int64. intros H. rewrite Z.mod_small; lia. Qed.

(** The row [link_entry] builds on a good chain, and what it keeps of the input. *)
Lemma link_entry_chain t now entry :
  chain_ok t → has_room t →
  let row := link_entry (tip_of t) now entry in
  le_SeqNum row = Z.of_nat (length t) + 1
  ∧ le_PrevHash row = head_hash "" (order_asc t)
  ∧ le_Hash row = calculateHash row.
Proof.
  intros Hc Hr row. unfold row. rewrite tip_of_chain by done. unfold link_entry; simpl.
  unfold has_room in Hr. rewrite wrap64_id by (unfold min_int64; lia). split_and!; [done..|].
  apply calculateHash_same. repeat split.
Qed.

Lemma insert_chain t now entry :
  chain_ok t → has_room t →
  let row := link_entry (tip_of t) now entry in
  InsertLedgerEntry row t = Some (t ++ [row])
  ∧ order_asc (t ++ [row]) = order_asc t ++ [row]
  ∧ chain_ok (t ++ [row]).
Proof.
  intros Hc Hr row. destruct (link_entry_chain t now entry Hc Hr) as (Hs & Hp & Hh). fold row in Hs, Hp, Hh.
  pose proof (chain_ok_NoDup t Hc) as Hnd. destruct Hc as [Hl Hn].
  assert (∀ x, x ∈ t → le_SeqNum x < le_SeqNum row) as Hlt.
  { intros x Hx. rewrite <- elem_of_order_asc in Hx. apply numbered_bound in Hx; [|done].
    rewrite length_order_asc in Hx. lia. }
  assert (order_asc (t ++ [row]) = order_asc t ++ [row]) as Ho by (by apply order_asc_snoc).
  split_and!; [|done|].
  - unfold InsertLedgerEntry. rewrite bool_decide_eq_false_2; [done|].
    intros (x & Ex & Hx)%list_elem_of_fmap. specialize (Hlt x Hx). lia.
  - unfold chain_ok. rewrite Ho. split.
    + apply linked_app. split; [done|]. split_and!; [done..|]. done.
    + apply numbered_snoc. by rewrite length_order_asc.
Qed.

(** ** Appending *)

Lemma appendOnce_cases env t entry :
  chain_ok t → has_room t →
  let row := link_entry (tip_of t) (ae_now env) entry in
  appendOnce env t entry = (Ok tt, t ++ [row])
  ∨ (∃ e, appendOnce env t entry = (Err e, t))
  ∨ (∃ e, ae_commit env = Some (e, true) ∧ appendOnce env t entry = (Err e, t ++ [row])).
Proof.
  intros Hc Hr row. destruct (insert_chain t (ae_now env) entry Hc Hr) as (Hi & _ & _). fold row in Hi.
  unfold appendOnce. fold row. rewrite Hi.
  destruct (ae_begin env); [eauto|]. destruct (ae_lock env); [eauto|]. destruct (ae_tip env); [eauto|].
  destruct (ae_insert env); [eauto|]. destruct (ae_commit env) as [[e []]|]; eauto 6.
Qed.

Lemma appendOnce_chain env t entry :
  chain_ok t → has_room t →
  chain_ok (snd (appendOnce env t entry))
  ∧ (length (snd (appendOnce env t entry)) <= S (length t))%nat.
Proof.
  intros Hc Hr. destruct (insert_chain t (ae_now env) entry Hc Hr) as (_ & _ & Hc').
  destruct (appendOnce_cases env t entry Hc Hr) as [->|[[e ->]|(e & _ & ->)]]; simpl;
    rewrite ?length_app; simpl; split; try done; lia.
Qed.

Lemma retry_loop_chain env entry n attempt t :
  chain_ok t → Z.of_nat (length t) + Z.of_nat n <= max_int64 →
  chain_ok (snd (fst (retry_loop env entry n attempt t))).
Proof.
  revert attempt t. induction n as [|n IH]; intros attempt t Hc Hr; simpl; [done|].
  destruct (appendOnce_chain (re_attempt env attempt) t entry Hc) as [Hc' Hl]; [unfold has_room; lia|].
  destruct (appendOnce _ t entry) as [[[]|e] t']; simpl in *; [done|].
  destruct (_ && _); [|done]. destruct (re_done env attempt); [done|].
  specialize (IH (S attempt) t' Hc' ltac:(lia)).
  destruct (retry_loop _ _ _ _ _) as [[r t''] w]. done.
Qed.

(** SQLSTATE 40001 reports a transaction that was rolled back. *)
Definition serialization_rolls_back (env : retry_env) : Prop :=
  ∀ i e, ae_commit (re_attempt env i) = Some (e, true) → isSerializationFailure e = false.

Definition append_outcome (env : retry_env) (t : list LedgerEntry) (entry : LedgerEntry)
    (r : result unit) (t' : list LedgerEntry) : Prop :=
  match r with
  | Ok _ => ∃ now, t' = t ++ [link_entry (tip_of t) now entry]
  | Err e => t' = t
             ∨ ∃ i, ae_commit (re_attempt env i) = Some (e, true)
                    ∧ t' = t ++ [link_entry (tip_of t) (ae_now (re_attempt env i)) entry]
  end.

Lemma retry_loop_outcome env entry n attempt t :
  serialization_rolls_back env → chain_ok t → has_room t →
  append_outcome env t entry (fst (fst (retry_loop env entry n attempt t)))
                             (snd (fst (retry_loop env entry n attempt t))).
Proof.
  intros Hs Hc Hr. revert attempt. induction n as [|n IH]; intros attempt; simpl; [by left|].
  destruct (appendOnce_cases (re_attempt env attempt) t entry Hc Hr) as [->|[[e ->]|(e & Hcm & ->)]]; simpl.
  - eauto.
  - destruct (_ && _); [|by left]. destruct (re_done env attempt); [by left|].
    specialize (IH (S attempt)). destruct (retry_loop _ _ _ _ _) as [[r t''] w]. done.
  - rewrite (Hs _ _ Hcm). simpl. right. eauto.
Qed.

Lemma backoff_bounds attempt rnd :
  let ms := GoTime.millisecond in
  10 * 2 ^ Z.of_nat attempt * ms <= backoff_for attempt rnd <= 15 * 2 ^ Z.of_nat attempt * ms.
Proof.
  unfold backoff_for, GoTime.millisecond. rewrite Z.shiftl_1_l.
  set (b := 2 ^ Z.of_nat attempt). assert (0 < b) by (apply Z.pow_pos_nonneg; lia).
  replace (b * 10 * 1000000 / 2) with (5000000 * b).
  2:{ apply Z.div_unique_exact; lia. }
  pose proof (Z.mod_pos_bound rnd (5000000 * b + 1) ltac:(lia)). lia.
Qed.

Lemma retry_loop_wait env entry n attempt t :
  (attempt + n = maxRetries)%nat →
  0 <= snd (retry_loop env entry n attempt t)
     <= 15 * (2 ^ Z.of_nat (maxRetries - 1) - 2 ^ Z.of_nat (attempt `min` (maxRetries - 1))) * GoTime.millisecond.
Proof.
  revert attempt t. induction n as [|n IH]; intros attempt t Hn; simpl.
  - replace (attempt `min` 7)%nat with 7%nat by (unfold maxRetries in *; lia). lia.
  - assert (2 ^ Z.of_nat (attempt `min` 7) <= 2 ^ 7) by (apply Z.pow_le_mono_r; lia).
    assert (0 <= GoTime.millisecond) by (unfold GoTime.millisecond; lia).
    destruct (appendOnce _ t entry) as [[[]|e] t']; simpl; [nia|].
    case_bool_decide as Ha; rewrite ?andb_true_r, ?andb_false_r; [|simpl; nia].
    destruct (isSerializationFailure e); [|simpl; nia].
    pose proof (backoff_bounds attempt (re_rand env attempt)) as Hb. simpl in Hb.
    assert (2 ^ Z.of_nat (S attempt `min` 7) = 2 * 2 ^ Z.of_nat attempt) as Hp.
    { replace (S attempt `min` 7)%nat with (S attempt) by (unfold maxRetries in *; lia).
      rewrite Nat2Z.inj_succ, Z.pow_succ_r; lia. }
    replace (attempt `min` 7)%nat with attempt in * by (unfold maxRetries in *; lia).
    specialize (IH (S attempt) t' ltac:(lia)). unfold maxRetries in IH. simpl Nat.sub in IH. rewrite Hp in IH.
    assert (1 <= 2 ^ Z.of_nat attempt) by (apply (Z.pow_le_mono_r 2 0); lia).
    assert (2 * 2 ^ Z.of_nat attempt <= 2 ^ 7) by (rewrite <- Hp; apply Z.pow_le_mono_r; lia).
    destruct (re_done env attempt); simpl; [nia|].
    destruct (retry_loop _ _ _ _ _) as [[r t''] w]. simpl in *. nia.
Qed.
