(* ===== verification/LedgerVerify.v ===== *)
(** * What a successful verification proves

    [VerifyChain] decides the linked-and-hashed property, points at the first bad
    row, and, with an anchor recorded outside the database, pins down the whole
    prefix below the anchor: two ledgers that verify against the same anchor hold
    the same entries up to it, or their rows exhibit a SHA-256 collision. *)

From S2P Require Import Prelude GoStrings GoTime Sha256 Types Ledger LedgerEncoding LedgerChain.
From stdpp Require Import base tactics strings list sorting gmap.
From Stdlib Require Import ZArith Lia.

Local Open Scope Z_scope.

Import Ledger.

Definition anchors_ok (a : option Anchor) (rows : list LedgerEntry) : Prop :=
  ∀ an e, a = Some an → e ∈ rows → le_SeqNum e = an_SeqNum an → le_Hash e = an_Hash an.

Definition anchor_in (a : option Anchor) (rows : list LedgerEntry) : bool :=
  match a with
  | Some an => existsb (λ e, le_SeqNum e =? an_SeqNum an) rows
  | None => false
  end.

(** A row the verification must refuse after a chain ending in hash [h]. *)
Definition bad_row (a : option Anchor) (h : string) (e : LedgerEntry) : Prop :=
  le_PrevHash e ≠ h ∨ le_Hash e ≠ calculateHash e
  ∨ ∃ an, a = Some an ∧ le_SeqNum e = an_SeqNum an ∧ le_Hash e ≠ an_Hash an.

(** Failures of the query are not the callback's stop signal. *)
Definition scan_errors (sf : nat → option error) : Prop :=
  ∀ i e, sf i = Some e → errors_Is e SStopStream = false.

Definition no_fail (i : nat) : option error := None.

Lemma no_fail_scan : scan_errors no_fail.
Proof. done. Qed.

Lemma verify_step_cases a st e :
  let h := vr_HeadHash (vs_report st) in
  match verify_step a st e with
  | (s, None) =>
      ¬ bad_row a h e
      ∧ s = mkVerify (mkReport (vr_Valid (vs_report st)) (vr_Entries (vs_report st) + 1) (le_SeqNum e) (le_Hash e)
                               (vr_FirstInvalidSeq (vs_report st)) (vr_Reason (vs_report st)))
                     (vs_anchorSeen st || anchor_in a [e])
  | (s, Some err) =>
      err = errStopStream ∧ bad_row a h e ∧ vr_Valid (vs_report s) = false
      ∧ vr_FirstInvalidSeq (vs_report s) = le_SeqNum e
  end.
Proof.
  unfold verify_step, bad_row. simpl.
  destruct (String.eqb_spec (le_PrevHash e) (vr_HeadHash (vs_report st))) as [E1|E1]; simpl; [|naive_solver].
  destruct (String.eqb_spec (le_Hash e) (calculateHash e)) as [E2|E2]; simpl; [|naive_solver].
  destruct a as [an|]; simpl; rewrite ?orb_false_r; [|split; [naive_solver|done]].
  destruct (Z.eqb_spec (le_SeqNum e) (an_SeqNum an)) as [E3|E3]; simpl.
  - destruct (String.eqb_spec (le_Hash e) (an_Hash an)) as [E4|E4]; simpl; [|naive_solver].
    rewrite orb_true_r. split; [naive_solver|done].
  - rewrite orb_false_r. split; [naive_solver|done].
Qed.

Lemma not_bad_row a h e rows :
  ¬ bad_row a h e → linked (le_Hash e) rows → anchors_ok a rows →
  linked h (e :: rows) ∧ anchors_ok a (e :: rows).
Proof.
  unfold bad_row. intros Hb Hl Ha. split.
  - simpl. split_and!; [..|done]; apply dec_stable; tauto.
  - intros an x -> Hx Hs. apply elem_of_cons in Hx as [->|Hx]; [|by eapply Ha].
    apply dec_stable. intros Hh. apply Hb. eauto 8.
Qed.

Lemma anchor_in_cons a e rows : anchor_in a (e :: rows) = anchor_in a [e] || anchor_in a rows.
Proof. destruct a; simpl; [|done]. by rewrite orb_false_r. Qed.

Definition head_seq (s : Z) (rows : list LedgerEntry) : Z := from_option le_SeqNum s (last rows).

Lemma head_seq_cons s e rows : head_seq s (e :: rows) = head_seq (le_SeqNum e) rows.
Proof.
  unfold head_seq. destruct rows as [|x rows]; [done|]. rewrite last_cons_cons.
  destruct (last (x :: rows)) eqn:E; [done|]. by apply last_None in E.
Qed.

Lemma verify_loop a sf rows i st :
  scan_errors sf → vr_Valid (vs_report st) = true →
  let h := vr_HeadHash (vs_report st) in
  match stream_loop (verify_step a) sf i rows st with
  | (s, None) =>
      vr_Valid (vs_report s) = true ∧ linked h rows ∧ anchors_ok a rows
      ∧ vs_anchorSeen s = vs_anchorSeen st || anchor_in a rows
      ∧ vr_HeadHash (vs_report s) = head_hash h rows
      ∧ vr_HeadSeq (vs_report s) = head_seq (vr_HeadSeq (vs_report st)) rows
      ∧ vr_Entries (vs_report s) = vr_Entries (vs_report st) + Z.of_nat (length rows)
  | (s, Some e) =>
      (errors_Is e SStopStream = true ∧ vr_Valid (vs_report s) = false
       ∧ ∃ pre x post, rows = pre ++ x :: post ∧ linked h pre ∧ anchors_ok a pre
           ∧ bad_row a (head_hash h pre) x ∧ vr_FirstInvalidSeq (vs_report s) = le_SeqNum x)
      ∨ (errors_Is e SStopStream = false ∧ ∃ j, sf j = Some e)
  end.
Proof.
  intros Hsf. revert i st. induction rows as [|e rows IH]; intros i st Hv h; simpl;
    (destruct (sf i) as [err|] eqn:Ei; [right; eauto|]).
  - split_and!; try done; [by intros an x _ ?%elem_of_nil| |lia].
    destruct a; by rewrite orb_false_r.
  - pose proof (verify_step_cases a st e) as Hc. fold h in Hc. simpl in Hc.
    destruct (verify_step a st e) as [s1 [err|]].
    + destruct Hc as (-> & Hb & Hf & Hseq). left. split_and!; [done..|].
      exists [], e, rows. split_and!; [done..| |done|done]. by intros an x _ ?%elem_of_nil.
    + destruct Hc as (Hb & Es1). assert (vr_Valid (vs_report s1) = true) as Hv1 by (by subst s1).
      specialize (IH (S i) s1 Hv1). cbv zeta in IH.
      assert (vr_HeadHash (vs_report s1) = le_Hash e) as Eh by (by subst s1). rewrite Eh in IH.
      destruct (stream_loop _ _ _ _ _) as [s [err|]].
      * destruct IH as [(Hst & Hf & pre & x & post & -> & Hl & Ha & Hbx & Hseq)|Hf]; [left|by right].
        split_and!; [done..|]. exists (e :: pre), x, post. rewrite head_hash_cons.
        destruct (not_bad_row a h e pre Hb Hl Ha). by split_and!.
      * destruct IH as (H1 & Hl & Ha & Hs & Hh & Hq & Hn).
        destruct (not_bad_row a h e rows Hb Hl Ha). rewrite anchor_in_cons, orb_assoc, head_hash_cons, head_seq_cons.
        subst s1. simpl in *. split_and!; try tauto; lia.
Qed.

(** ** [VerifyChain] *)

Lemma anchor_in_elem an rows :
  anchor_in (Some an) rows = true ↔ ∃ e, e ∈ rows ∧ le_SeqNum e = an_SeqNum an.
Proof.
  simpl. rewrite existsb_exists. split; intros (e & He & Es); exists e.
  - split; [by apply list_elem_of_In|lia].
  - split; [by apply list_elem_of_In|lia].
Qed.

(** A ledger that passes verification, as a proposition. *)
Definition verified (a : option Anchor) (t : list LedgerEntry) : Prop :=
  linked "" (order_asc t) ∧ anchors_ok a (order_asc t)
  ∧ ∀ an, a = Some an → ∃ e, e ∈ order_asc t ∧ le_SeqNum e = an_SeqNum an.

Lemma VerifyChain_sound a sf t r :
  scan_errors sf → VerifyChain a sf t = Ok r → vr_Valid r = true →
  verified a t
  ∧ vr_HeadHash r = head_hash "" (order_asc t)
  ∧ vr_HeadSeq r = head_seq 0 (order_asc t)
  ∧ vr_Entries r = Z.of_nat (length t).
Proof.
  intros Hsf. unfold VerifyChain, Stream, stream_rows, verified. simpl.
  pose proof (verify_loop a sf (order_asc t) 0 verify_init Hsf eq_refl) as Hl. simpl in Hl.
  destruct (stream_loop _ _ _ _ _) as [s [e|]]; intros E Hv.
  - destruct Hl as [(Hst & Hf & _)|[Hst _]]; rewrite Hst in E; [|done].
    injection E as <-. rewrite Hf in Hv. simpl in Hv. destruct a; simpl in Hv; by rewrite ?Hf in Hv.
  - destruct Hl as (H1 & Hl & Ha & Hs & Hh & Hq & Hn). injection E as <-. rewrite H1 in *. simpl in Hv.
    rewrite length_order_asc in Hn.
    destruct a as [an|].
    + destruct (vs_anchorSeen s) eqn:Es; simpl in *; [|done].
      split_and!; try done. intros an' [= <-]. by apply anchor_in_elem.
    + split_and!; done.
Qed.

(** Whatever the scan does, a ledger in order is never reported as broken. *)
Lemma VerifyChain_answers a sf t r :
  scan_errors sf → verified a t → VerifyChain a sf t = Ok r → vr_Valid r = true.
Proof.
  intros Hsf (Hk & Ha & Hex). unfold VerifyChain, Stream, stream_rows. simpl.
  pose proof (verify_loop a sf (order_asc t) 0 verify_init Hsf eq_refl) as Hl. simpl in Hl.
  destruct (stream_loop _ _ _ _ _) as [s [e|]].
  - destruct Hl as [(_ & _ & pre & x & post & Eq & _ & _ & Hb & _)|[-> _]]; [|done].
    exfalso. rewrite Eq in *. apply linked_app in Hk as [_ Hk]. simpl in Hk. destruct Hk as (H1 & H2 & _).
    destruct Hb as [?|[?|(an & -> & Es & Hn)]]; try done. apply Hn. apply (Ha an x); [done| |done]. set_solver.
  - destruct Hl as (H1 & _ & _ & Hs & _). rewrite H1. destruct a as [an|]; [|by intros [= <-]].
    assert (vs_anchorSeen s = true) as ->; [|by intros [= <-]].
    rewrite Hs. apply anchor_in_elem. eauto.
Qed.

Lemma VerifyChain_complete a t :
  verified a t →
  ∃ r, VerifyChain a no_fail t = Ok r ∧ vr_Valid r = true.
Proof.
  intros V. destruct (VerifyChain a no_fail t) as [r|e] eqn:E.
  - exists r. split; [done|]. by apply (VerifyChain_answers a no_fail t).
  - exfalso. unfold VerifyChain, Stream, stream_rows in E. simpl in E.
    pose proof (verify_loop a no_fail (order_asc t) 0 verify_init no_fail_scan eq_refl) as Hl. simpl in Hl.
    destruct (stream_loop _ _ _ _ _) as [s [e'|]]; [|done].
    destruct Hl as [(Hst & _)|[_ [j Hj]]]; [by rewrite Hst in E|done].
Qed.

(** ** The anchor theorem *)

(** An entry with its timestamp at the precision the database keeps. *)
Definition stored (e : LedgerEntry) : LedgerEntry :=
  {| le_SeqNum := le_SeqNum e;
     le_Timestamp := normalizeTimestamp (le_Timestamp e);
     le_Agent := le_Agent e;
     le_Tool := le_Tool e;
     le_Decision := le_Decision e;
     le_PolicyRule := le_PolicyRule e;
     le_PayloadHash := le_PayloadHash e;
     le_PrevHash := le_PrevHash e;
     le_Hash := le_Hash e;
     le_RequestID := le_RequestID e;
     le_PolicyVersion := le_PolicyVersion e |}.

Lemma stored_eq a b : same_contents a b → le_Hash a = le_Hash b → stored a = stored b.
Proof.
  intros (E1 & E2 & E3 & E4 & E5 & E6 & E7 & E8 & E9 & E10) Eh. unfold stored.
  by rewrite E1, E2, E3, E4, E5, E6, E7, E8, E9, E10, Eh.
Qed.

Definition collision_in (rows1 rows2 : list LedgerEntry) : Prop :=
  ∃ a b, a ∈ rows1 ∧ b ∈ rows2 ∧ collision a b.

Lemma collision_in_app r1 s1 r2 s2 : collision_in r1 r2 → collision_in (r1 ++ s1) (r2 ++ s2).
Proof. intros (a & b & Ha & Hb & Hc). exists a, b. set_solver. Qed.

(** Two chains that end in the same hash are the same chain. *)
Lemma linked_same_end pre1 pre2 e1 e2 :
  linked "" (pre1 ++ [e1]) → linked "" (pre2 ++ [e2]) → le_Hash e1 = le_Hash e2 →
  map stored (pre1 ++ [e1]) = map stored (pre2 ++ [e2])
  ∨ collision_in (pre1 ++ [e1]) (pre2 ++ [e2]).
Proof.
  revert pre2 e1 e2. induction pre1 as [|x1 pre1 IH] using rev_ind; intros pre2 e1 e2 H1 H2 Eh;
    pose proof (proj1 (linked_app _ _ _) H1) as [L1 K1];
    pose proof (proj1 (linked_app _ _ _) H2) as [L2 K2]; simpl in K1, K2;
    destruct K1 as (P1 & C1 & _), K2 as (P2 & C2 & _);
    (destruct (calculateHash_binding e1 e2) as [Hs|Hcol];
      [congruence| |right; exists e1, e2; set_solver]);
    pose proof Hs as (_ & _ & _ & _ & _ & _ & _ & _ & Ep & _);
    destruct pre2 as [|x2 pre2 _] using rev_ind.
  - left. simpl. f_equal. by apply stored_eq.
  - exfalso. apply linked_app in L2 as [_ (_ & Cx & _)]. unfold head_hash in P1, P2. rewrite last_snoc in P2.
    simpl in P1, P2. apply (calculateHash_nonempty x2). congruence.
  - exfalso. apply linked_app in L1 as [_ (_ & Cx & _)]. unfold head_hash in P1, P2. rewrite last_snoc in P1.
    simpl in P1, P2. apply (calculateHash_nonempty x1). congruence.
  - unfold head_hash in P1, P2. rewrite last_snoc in P1, P2. simpl in P1, P2.
    destruct (IH pre2 x1 x2 L1 L2) as [Em|Hcol]; [congruence| |right; by apply collision_in_app].
    left. rewrite (map_app _ (pre1 ++ [x1])), (map_app _ (pre2 ++ [x2])), Em. simpl. do 2 f_equal.
    by apply stored_eq.
Qed.

(** The rows of a ledger up to a sequence number, in chain order. *)
Definition upto (n : Z) (t : list LedgerEntry) : list LedgerEntry :=
  filter (λ e, le_SeqNum e <= n) (order_asc t).

Lemma order_asc_sorted t : StronglySorted seq_le (order_asc t).
Proof. apply StronglySorted_merge_sort; apply _. Qed.

Lemma upto_split t n e :
  NoDup (map le_SeqNum t) → e ∈ order_asc t → le_SeqNum e = n →
  ∃ pre post, order_asc t = pre ++ e :: post ∧ upto n t = pre ++ [e].
Proof.
  intros Hnd He <-. apply list_elem_of_split in He as (pre & post & Eq). exists pre, post. split; [done|].
  pose proof (order_asc_sorted t) as Hs. unfold upto. rewrite Eq in *.
  apply StronglySorted_app in Hs as (Hlt & _ & Hs2). apply StronglySorted_cons in Hs2 as [Hgt _].
  rewrite filter_app, filter_cons_True by lia. f_equal.
  - apply list_filter_all. intros x Hx. apply Hlt; [done|by left].
  - f_equal. apply list_filter_none. intros x Hx Hle.
    rewrite Forall_forall in Hgt. specialize (Hgt x Hx). unfold seq_le in Hgt.
    assert (x = e) as ->.
    { apply (pk_unique t); [done| | |lia]; rewrite <- elem_of_order_asc, Eq; set_solver. }
    assert (NoDup (map le_SeqNum (pre ++ e :: post))) as Hnd2 by (by rewrite <- Eq, order_asc_perm).
    rewrite map_app in Hnd2. apply NoDup_app in Hnd2 as (_ & _ & Hnd2). simpl in Hnd2.
    apply NoDup_cons in Hnd2 as [Hn _]. apply Hn. by apply list_elem_of_fmap_2.
Qed.
