(* ===== verification/LedgerSpec.v ===== *)
(** * The ledger's guarantees

    The theorems the ledger offers to its clients and to an auditor, assembled from
    the lemmas of the encoding, the chain and the verification. *)

From S2P Require Import Prelude GoStrings GoTime Sha256 Types Ledger LedgerEncoding LedgerChain LedgerVerify.
From stdpp Require Import base tactics strings list sorting gmap.
From Stdlib Require Import ZArith Lia.

Local Open Scope Z_scope.

Import Ledger.

(** A ledger after any number of appends, under any failures. *)
Inductive appends (t : list LedgerEntry) : list LedgerEntry → Prop :=
  | appends_refl : appends t t
  | appends_step t' env entry :
      appends t t' → Z.of_nat (length t') + Z.of_nat maxRetries <= max_int64 →
      appends t (snd (Append env t' entry)).

Lemma Append_retry env t entry :
  Append env t entry = fst (appendWithRetry env t entry).
Proof. unfold Append. destruct (appendWithRetry _ _ _) as [[r t'] w]. done. Qed.

Lemma Append_chain env t entry :
  chain_ok t → Z.of_nat (length t) + Z.of_nat maxRetries <= max_int64 →
  chain_ok (snd (Append env t entry)).
Proof. intros Hc Hr. rewrite Append_retry. by apply retry_loop_chain. Qed.

Lemma Append_outcome env t entry :
  serialization_rolls_back env → chain_ok t → has_room t →
  append_outcome env t entry (fst (Append env t entry)) (snd (Append env t entry)).
Proof. intros S C R. rewrite Append_retry. by apply retry_loop_outcome. Qed.

(** Appends only ever extend the rows of the chain. *)
Lemma retry_loop_prefix env entry n attempt t :
  chain_ok t → Z.of_nat (length t) + Z.of_nat n <= max_int64 →
  order_asc t `prefix_of` order_asc (snd (fst (retry_loop env entry n attempt t))).
Proof.
  revert attempt t. induction n as [|n IH]; intros attempt t Hc Hr; simpl; [done|].
  set (env1 := re_attempt env attempt).
  assert (has_room t) as Hroom by (unfold has_room; lia).
  destruct (insert_chain t (ae_now env1) entry Hc Hroom) as (_ & Ho & Hc').
  assert (order_asc t `prefix_of` order_asc (snd (appendOnce env1 t entry))
          ∧ chain_ok (snd (appendOnce env1 t entry))
          ∧ (length (snd (appendOnce env1 t entry)) <= S (length t))%nat) as (Hp & Hc1 & Hl).
  { destruct (appendOnce_chain env1 t entry Hc Hroom) as [? ?]. split; [|done].
    destruct (appendOnce_cases env1 t entry Hc Hroom) as [->|[[e ->]|(e & _ & ->)]]; simpl;
      rewrite ?Ho; [by eexists|done|by eexists]. }
  destruct (appendOnce env1 t entry) as [[[]|e] t']; simpl in *; [done|].
  destruct (_ && _); [|done]. destruct (re_done env attempt); [done|].
  specialize (IH (S attempt) t' Hc1 ltac:(lia)).
  destruct (retry_loop _ _ _ _ _) as [[r t''] w]. simpl in *. by etrans.
Qed.

Lemma appends_chain t t' :
  chain_ok t → appends t t' → chain_ok t' ∧ order_asc t `prefix_of` order_asc t'.
Proof.
  intros Hc. induction 1 as [|t' env entry _ [IH1 IH2] Hr]; [done|]. split; [by apply Append_chain|].
  etrans; [done|]. rewrite Append_retry. by apply retry_loop_prefix.
Qed.

Lemma chain_ok_verified t : chain_ok t → verified None t.
Proof. intros [Hl _]. by split_and!. Qed.

Lemma chain_ok_nil : chain_ok [].
Proof. by split. Qed.

(** ** The guarantees *)

(** C13: Tamper evidence. Two ledger tables that both pass [VerifyChain] against the same externally
    recorded anchor hold exactly the same entries, in the same order, up to the anchored sequence
    number (every stored column, timestamps at database precision); the only escape is a SHA-256
    collision exhibited by one row of each. The tables may be arbitrary, including ones rewritten
    by someone with full database access; only the primary key on [seq_num] is assumed. *)
Theorem anchored_prefix_unique (a : Anchor) (t1 t2 : list LedgerEntry) (r1 r2 : VerifyReport)
    (Hk1 : NoDup (map le_SeqNum t1)) (Hk2 : NoDup (map le_SeqNum t2))
    (Hv1 : VerifyChain (Some a) no_fail t1 = Ok r1) (Hv2 : VerifyChain (Some a) no_fail t2 = Ok r2)
    (Ht1 : vr_Valid r1 = true) (Ht2 : vr_Valid r2 = true) :
  map stored (upto (an_SeqNum a) t1) = map stored (upto (an_SeqNum a) t2)
  ∨ ∃ x y, x ∈ t1 ∧ y ∈ t2 ∧ collision x y.
Proof.
  destruct (VerifyChain_sound _ _ _ _ no_fail_scan Hv1 Ht1) as [(L1 & A1 & X1) _].
  destruct (VerifyChain_sound _ _ _ _ no_fail_scan Hv2 Ht2) as [(L2 & A2 & X2) _].
  destruct (X1 a eq_refl) as (e1 & M1 & S1), (X2 a eq_refl) as (e2 & M2 & S2).
  destruct (upto_split t1 _ e1 Hk1 M1 S1) as (pre1 & post1 & Eq1 & ->).
  destruct (upto_split t2 _ e2 Hk2 M2 S2) as (pre2 & post2 & Eq2 & ->).
  pose proof (A1 a e1 eq_refl M1 S1). pose proof (A2 a e2 eq_refl M2 S2).
  rewrite Eq1, (cons_middle e1), app_assoc in L1. rewrite Eq2, (cons_middle e2), app_assoc in L2.
  apply linked_app in L1 as [L1 _]. apply linked_app in L2 as [L2 _].
  destruct (linked_same_end pre1 pre2 e1 e2 L1 L2) as [E|(x & y & Hx & Hy & Hc)]; [congruence|by left|].
  right. exists x, y. rewrite <- (elem_of_order_asc x t1), <- (elem_of_order_asc y t2), Eq1, Eq2. set_solver.
Qed.

(** A database and a clock without failures, and a two-entry ledger built with them. *)
Definition quiet_env (now : Z) : append_env := mkAppendEnv None None None now None None.
Definition quiet (now : Z) : retry_env := mkRetryEnv (λ _, quiet_env now) (λ _, 0) (λ _, false).
Definition sample_entry (decision : string) : LedgerEntry :=
  mkLedger 0 GoTime.zero_time "agent-1" "stripe.charge.refund" decision "rule" "h" "" "" "req" "sha256:0".
Definition sample1 : list LedgerEntry := snd (Append (quiet 1709210096123456789) [] (sample_entry "allow")).
Definition sample2 : list LedgerEntry := snd (Append (quiet 1709210097123456789) sample1 (sample_entry "deny")).
Definition sample_anchor : Anchor :=
  mkAnchor 2 (from_option le_Hash "" (last sample2)).

Lemma anchored_prefix_unique_witness :
  map stored (upto 2 sample2) = map stored (upto 2 sample2)
  ∨ ∃ x y, x ∈ sample2 ∧ y ∈ sample2 ∧ collision x y.
Proof.
  refine (anchored_prefix_unique sample_anchor sample2 sample2
            (mkReport true 2 2 (an_Hash sample_anchor) 0 "") (mkReport true 2 2 (an_Hash sample_anchor) 0 "")
            (bool_decide_unpack _ _) (bool_decide_unpack _ _) _ _ eq_refl eq_refl);
    vm_compute; constructor.
Defined.

(** Every append, whatever the database, the clock, the random jitter or the context do, leaves a
    well-formed chain: entries numbered 1..n without gaps, each linked to its predecessor's hash and
    carrying the SHA-256 of its own contents. In particular an ambiguous commit followed by retries
    never forks or corrupts the chain. *)
Theorem append_preserves_chain (env : retry_env) (t : list LedgerEntry) (entry : LedgerEntry)
    (Hc : chain_ok t) (Hroom : Z.of_nat (length t) + Z.of_nat maxRetries <= max_int64) :
  chain_ok (snd (Append env t entry)).
Proof. by apply Append_chain. Qed.

(** A commit that took effect but was reported as an error, and a serialization failure. *)
Definition flaky (now : Z) : retry_env :=
  mkRetryEnv
    (λ i, match i with
          | O => mkAppendEnv None None None now None (Some (mkErr (Some SSerialization) "40001", false))
          | S O => mkAppendEnv None None None now None (Some (errors_New "conn reset", true))
          | _ => quiet_env now
          end) (λ _, 7) (λ _, false).

Lemma append_preserves_chain_witness : chain_ok (snd (Append (flaky 5) [] (sample_entry "allow"))).
Proof. apply (append_preserves_chain (flaky 5) [] (sample_entry "allow")); [by split|vm_compute; congruence]. Defined.

(** C28: Exactly-once appends. When serialization failures (SQLSTATE 40001) are rolled back, as
    Postgres documents, [Append] returning nil has added exactly one row, the caller's entry linked to
    the tip with the chain columns filled in; an error has added nothing, unless the commit itself
    took effect and its acknowledgement was lost, in which case exactly that one row was added. *)
Theorem append_outcome_exact (env : retry_env) (t : list LedgerEntry) (entry : LedgerEntry)
    (Hs : serialization_rolls_back env) (Hc : chain_ok t) (Hroom : has_room t) :
  append_outcome env t entry (fst (Append env t entry)) (snd (Append env t entry)).
Proof. by apply Append_outcome. Qed.

Lemma append_outcome_exact_witness :
  append_outcome (flaky 5) [] (sample_entry "allow")
    (fst (Append (flaky 5) [] (sample_entry "allow"))) (snd (Append (flaky 5) [] (sample_entry "allow"))).
Proof.
  apply (append_outcome_exact (flaky 5) [] (sample_entry "allow")).
  - intros [|[|i]] e [= <-]; reflexivity.
  - by split.
  - vm_compute; reflexivity.
Defined.

(** C21: [VerifyChain] decides the chain: on a readable table it always answers, it reports valid
    exactly when every row is linked to its predecessor, hashed over its contents and consistent with
    the anchor (which must be present), and the head it then reports is the last row's. *)
Theorem verify_decides (a : option Anchor) (t : list LedgerEntry) :
  ∃ r, VerifyChain a no_fail t = Ok r
       ∧ (vr_Valid r = true ↔ verified a t)
       ∧ (vr_Valid r = true →
          vr_HeadHash r = head_hash "" (order_asc t) ∧ vr_HeadSeq r = head_seq 0 (order_asc t)
          ∧ vr_Entries r = Z.of_nat (length t)).
Proof.
  destruct (VerifyChain a no_fail t) as [r|e] eqn:E.
  - exists r. split; [done|]. split; [split|].
    + intros Hv. by apply (VerifyChain_sound a no_fail t r no_fail_scan E Hv).
    + intros Hv. destruct (VerifyChain_complete a t Hv) as (r' & E' & Hr). congruence.
    + intros Hv. by apply (VerifyChain_sound a no_fail t r no_fail_scan E Hv).
  - exfalso. unfold VerifyChain, Stream in E.
    pose proof (verify_loop a no_fail (stream_rows 0 t) 0 verify_init no_fail_scan eq_refl) as Hl.
    destruct (stream_loop _ _ _ _ _) as [s [e'|]]; [|done].
    destruct Hl as [(Hst & _)|[_ [j Hj]]]; [by rewrite Hst in E|done].
Qed.

(** Localisation and fail-closed reading. If [VerifyChain] answers "invalid" without a missing
    anchor, its [first_invalid_seq] names the first row that breaks the chain: every row before it
    links and hashes correctly. A database error while streaming is reported as an error, never as a
    verdict, so an unreadable ledger is never reported valid. *)
Theorem verify_localises (a : option Anchor) (sf : nat → option error) (t : list LedgerEntry)
    (Hsf : scan_errors sf) :
  match VerifyChain a sf t with
  | Err e => ∃ j, sf j = Some e
  | Ok r =>
      (vr_Valid r = true ∧ verified a t)
      ∨ (vr_Valid r = false
         ∧ ((∃ pre x post, order_asc t = pre ++ x :: post ∧ linked "" pre
               ∧ bad_row a (head_hash "" pre) x ∧ vr_FirstInvalidSeq r = le_SeqNum x)
            ∨ (∃ an, a = Some an ∧ vr_FirstInvalidSeq r = an_SeqNum an
                 ∧ ∀ e, e ∈ t → le_SeqNum e ≠ an_SeqNum an)))
  end.
Proof.
  destruct (VerifyChain a sf t) as [r|e] eqn:E.
  - destruct (vr_Valid r) eqn:Hv; [left; split; [done|by apply (VerifyChain_sound a sf t r Hsf E Hv)]|].
    right. split; [done|]. unfold VerifyChain, Stream, stream_rows in E. simpl in E.
    pose proof (verify_loop a sf (order_asc t) 0 verify_init Hsf eq_refl) as Hl. cbv zeta in Hl. simpl vr_HeadHash in Hl.
    destruct (stream_loop _ _ _ _ _) as [s [e|]].
    + left. destruct Hl as [(Hst & Hf & pre & x & post & Eq & Hl & _ & Hb & Hseq)|[Hst _]];
        rewrite Hst in E; [|done].
      exists pre, x, post. injection E as <-. split_and!; try done. rewrite Hf. by destruct a.
    + right. destruct Hl as (H1 & _ & _ & Hs & _). injection E as <-. rewrite H1 in *.
      destruct a as [an|]; [|by rewrite H1 in Hv]. simpl in Hs. exists an. split; [done|].
      destruct (vs_anchorSeen s) eqn:Es; simpl in *; [by rewrite H1 in Hv|]. split; [done|].
      intros e He Eseq. rewrite <- elem_of_order_asc in He.
      assert (anchor_in (Some an) (order_asc t) = true) as Hin by (apply anchor_in_elem; eauto).
      simpl in Hin. congruence.
  - unfold VerifyChain, Stream, stream_rows in E. simpl in E.
    pose proof (verify_loop a sf (order_asc t) 0 verify_init Hsf eq_refl) as Hl. cbv zeta in Hl.
    destruct (stream_loop _ _ _ _ _) as [s [e'|]]; [|done].
    destruct Hl as [(Hst & _)|[Hst [j Hj]]]; rewrite Hst in E; [done|]. injection E as <-. eauto.
Qed.

Lemma verify_localises_witness :
  match VerifyChain None no_fail sample2 with
  | Err e => ∃ j, no_fail j = Some e
  | Ok r =>
      (vr_Valid r = true ∧ verified None sample2)
      ∨ (vr_Valid r = false
         ∧ ((∃ pre x post, order_asc sample2 = pre ++ x :: post ∧ linked "" pre
               ∧ bad_row None (head_hash "" pre) x ∧ vr_FirstInvalidSeq r = le_SeqNum x)
            ∨ (∃ an, None = Some an ∧ vr_FirstInvalidSeq r = an_SeqNum an
                 ∧ ∀ e, e ∈ sample2 → le_SeqNum e ≠ an_SeqNum an)))
  end.
Proof. apply (verify_localises None no_fail sample2). intros i e. unfold no_fail. discriminate. Defined.

(** The hashed encoding is unambiguous: two entries feed the same bytes to SHA-256 exactly when
    they agree on every hashed column (the timestamp to the microsecond; an empty policy version
    included), whatever delimiters, digits or bytes the fields contain. *)
Theorem hash_encoding_unambiguous (a b : LedgerEntry) :
  hash_input a = hash_input b ↔ same_contents a b.
Proof. apply hash_input_same. Qed.

(** C30: An anchor stays good. The head an operator records from [GET /ledger/head] of a ledger built
    by appends verifies against that ledger after any further appends, under any failures: honest
    operation never makes [VerifyChain] raise a false alarm. *)
Theorem anchor_stays_valid (t t' : list LedgerEntry) (seq ts : Z) (hash : string)
    (Ht : appends [] t) (Hh : Head None t = Ok (Some (seq, hash, ts))) (Ht' : appends t t') :
  ∃ r, VerifyChain (Some (mkAnchor seq hash)) no_fail t' = Ok r ∧ vr_Valid r = true.
Proof.
  destruct (appends_chain [] t chain_ok_nil Ht) as [Hc _].
  destruct (appends_chain t t' Hc Ht') as [Hc' [post Hp]].
  unfold Head, GetLedgerHead in Hh. destruct (last (order_asc t)) as [e|] eqn:El; [|done].
  injection Hh as <- <- <-. apply VerifyChain_complete.
  assert (e ∈ order_asc t') as He.
  { apply last_Some in El as [pre El]. rewrite Hp, El. set_solver. }
  split_and!; [apply Hc'| |].
  - intros an x [= <-] Hx Es. simpl in Es |- *. rewrite elem_of_order_asc in Hx, He.
    by rewrite (pk_unique t' x e (chain_ok_NoDup t' Hc') Hx He Es).
  - intros an [= <-]. eauto.
Qed.

Lemma anchor_stays_valid_witness :
  ∃ r, VerifyChain (Some (mkAnchor 1 (from_option le_Hash "" (head sample1)))) no_fail sample2 = Ok r
       ∧ vr_Valid r = true.
Proof.
  apply (anchor_stays_valid sample1 sample2 1 1709210096123456000 (from_option le_Hash "" (head sample1))).
  - apply (appends_step [] [] (quiet 1709210096123456789) (sample_entry "allow")); [constructor|].
    vm_compute. congruence.
  - vm_compute. reflexivity.
  - apply (appends_step sample1 sample1 (quiet 1709210097123456789) (sample_entry "deny")); [constructor|].
    vm_compute. congruence.
Defined.

(** Retries are bounded: [appendWithRetry] makes at most eight attempts and waits less than two
    seconds in total between them, whatever the jitter draws are, so a contended append cannot hold
    a request open indefinitely. *)
Theorem append_wait_bounded (env : retry_env) (t : list LedgerEntry) (entry : LedgerEntry) :
  0 <= snd (appendWithRetry env t entry) <= 1905 * GoTime.millisecond
  ∧ 1905 * GoTime.millisecond < 2 * GoTime.second.
Proof.
  split; [|by vm_compute]. pose proof (retry_loop_wait env entry maxRetries 0 t eq_refl) as H.
  unfold appendWithRetry. simpl Nat.min in H. simpl Nat.sub in H.
  replace (15 * (2 ^ Z.of_nat 7 - 2 ^ Z.of_nat 0)) with 1905 in H by reflexivity. done.
Qed.
