(* ===== verification/LedgerConc.v ===== *)
(** * Concurrent appends

    The statements of [Store.appendOnce] interleaved across any number of replicas.
    A transaction begins, takes the advisory lock [appendLockKey] (waiting while
    another transaction holds it), reads the tip of the committed table, inserts and
    commits; it may die at any point, which rolls it back and releases the lock. *)

From S2P Require Import Prelude GoStrings GoTime Sha256 Types Ledger LedgerEncoding LedgerChain LedgerSpec.
From stdpp Require Import base tactics strings list sorting relations.
From Stdlib Require Import ZArith Lia.

Local Open Scope Z_scope.

Import Ledger.

Module LedgerConc.

(** Where a transaction is inside [appendOnce]. *)
Inductive thread : Type :=
  | TIdle
  | TBegun (e : LedgerEntry)
  | TLocked (e : LedgerEntry)
  | TTip (e : LedgerEntry) (tip : string * Z)
  | TInserted (row : LedgerEntry).

Record cstate : Type := mkC {
  c_table : list LedgerEntry;
  c_lock : option nat;
  c_thr : nat → thread
}.

Definition upd (f : nat → thread) (i : nat) (x : thread) (j : nat) : thread :=
  if decide (j = i) then x else f j.

(** The end of a transaction releases its advisory lock. *)
Definition release (i : nat) (l : option nat) : option nat :=
  if decide (l = Some i) then None else l.

Inductive step (c : cstate) : cstate → Prop :=
  | step_begin i e :
      c_thr c i = TIdle →
      step c (mkC (c_table c) (c_lock c) (upd (c_thr c) i (TBegun e)))
  | step_lock i e :
      c_thr c i = TBegun e → c_lock c = None →
      step c (mkC (c_table c) (Some i) (upd (c_thr c) i (TLocked e)))
  | step_tip i e :
      c_thr c i = TLocked e →
      step c (mkC (c_table c) (c_lock c) (upd (c_thr c) i (TTip e (tip_of (c_table c)))))
  | step_insert i e tip now t' :
      c_thr c i = TTip e tip → InsertLedgerEntry (link_entry tip now e) (c_table c) = Some t' →
      step c (mkC (c_table c) (c_lock c) (upd (c_thr c) i (TInserted (link_entry tip now e))))
  | step_commit i row :
      c_thr c i = TInserted row →
      step c (mkC (c_table c ++ [row]) (release i (c_lock c)) (upd (c_thr c) i TIdle))
  | step_abort i :
      c_thr c i ≠ TIdle →
      step c (mkC (c_table c) (release i (c_lock c)) (upd (c_thr c) i TIdle)).

Definition initial : cstate := mkC [] None (λ _, TIdle).
Definition reachable (c : cstate) : Prop := rtc step initial c.

(** ** The lock protects the tip *)

Definition thread_inv (c : cstate) (i : nat) : Prop :=
  match c_thr c i with
  | TIdle | TBegun _ => c_lock c ≠ Some i
  | TLocked _ => c_lock c = Some i
  | TTip _ tip => c_lock c = Some i ∧ tip = tip_of (c_table c)
  | TInserted row => c_lock c = Some i ∧ ∃ now e, row = link_entry (tip_of (c_table c)) now e
  end.

Definition inv (c : cstate) : Prop :=
  Z.of_nat (length (c_table c)) <= max_int64 → chain_ok (c_table c) ∧ ∀ i, thread_inv c i.

Lemma upd_eq f i x : upd f i x i = x.
Proof. unfold upd. by rewrite decide_True. Qed.
Lemma upd_ne f i j x : j ≠ i → upd f i x j = f j.
Proof. intros H. unfold upd. by rewrite decide_False. Qed.

(** A thread whose own state and tip are untouched keeps its invariant. *)
Lemma thread_inv_frame c t l f i j :
  j ≠ i → thread_inv c j → (c_lock c = Some j → l = Some j) → (l = Some j → c_lock c = Some j) →
  (c_lock c = Some j → t = c_table c) → (∀ x, x ≠ i → f x = c_thr c x) →
  thread_inv (mkC t l f) j.
Proof.
  intros Hne Hj H1 H2 Ht Hf. unfold thread_inv in *. simpl. rewrite Hf by done.
  destruct (c_thr c j); naive_solver.
Qed.

Lemma release_other i j l : j ≠ i → (release i l = Some j ↔ l = Some j).
Proof. intros H. unfold release. case_decide; split; congruence. Qed.

Lemma release_self i l : release i l ≠ Some i.
Proof. unfold release. by case_decide. Qed.

(** Steps that leave the table alone: the stepping thread's own obligation is left. *)
Lemma inv_local c l f i :
  inv c → Z.of_nat (length (c_table c)) <= max_int64 →
  (∀ j, j ≠ i → (l = Some j ↔ c_lock c = Some j)) → (∀ x, x ≠ i → f x = c_thr c x) →
  thread_inv (mkC (c_table c) l f) i →
  chain_ok (c_table c) ∧ ∀ j, thread_inv (mkC (c_table c) l f) j.
Proof.
  intros Hinv Hb Hl Hf Hi. destruct (Hinv Hb) as [Hc Ht]. split; [done|]. intros j.
  destruct (decide (j = i)) as [->|Hne]; [done|].
  apply (thread_inv_frame c _ _ _ i); try done; by apply Hl.
Qed.

Lemma thread_inv_at c i : inv c → Z.of_nat (length (c_table c)) <= max_int64 → thread_inv c i.
Proof. intros Hinv Hb. by apply Hinv. Qed.

Ltac own_thread i :=
  unfold thread_inv; simpl; rewrite upd_eq;
  repeat match goal with H : thread_inv _ i |- _ => unfold thread_inv in H end.

Lemma step_inv c c' : inv c → step c c' → inv c'.
Proof.
  intros Hinv Hs. destruct Hs as [i e Hi|i e Hi Hl|i e Hi|i e tip now t' Hi Hins|i row Hi|i Hi]; intros Hb; simpl in *.
  - pose proof (thread_inv_at c i Hinv Hb) as Hti. apply (inv_local c _ _ i); try done.
    + intros x Hx. by apply upd_ne.
    + own_thread i. by rewrite Hi in Hti.
  - apply (inv_local c _ _ i); try done.
    + intros j Hne. rewrite Hl. split; congruence.
    + intros x Hx. by apply upd_ne.
    + by own_thread i.
  - pose proof (thread_inv_at c i Hinv Hb) as Hti. apply (inv_local c _ _ i); try done.
    + intros x Hx. by apply upd_ne.
    + own_thread i. by rewrite Hi in Hti.
  - pose proof (thread_inv_at c i Hinv Hb) as Hti. apply (inv_local c _ _ i); try done.
    + intros x Hx. by apply upd_ne.
    + own_thread i. rewrite Hi in Hti. destruct Hti as [? ->]. eauto.
  - rewrite length_app in Hb. simpl in Hb.
    assert (Z.of_nat (length (c_table c)) <= max_int64) as Hb0 by lia.
    pose proof (thread_inv_at c i Hinv Hb0) as Hti. unfold thread_inv in Hti. rewrite Hi in Hti.
    destruct Hti as [Hl (now & e & ->)]. destruct (Hinv Hb0) as [Hc Ht].
    destruct (insert_chain (c_table c) now e Hc) as (_ & _ & Hc'); [unfold has_room; lia|].
    split; [done|]. intros j. destruct (decide (j = i)) as [->|Hne].
    + own_thread i. apply release_self.
    + apply (thread_inv_frame c _ _ _ i j Hne (Ht j)); try (by rewrite release_other by done); [congruence|].
      intros x Hx. by apply upd_ne.
  - apply (inv_local c _ _ i); try done.
    + intros j Hne. by apply release_other.
    + intros x Hx. by apply upd_ne.
    + own_thread i. apply release_self.
Qed.

Lemma reachable_inv c : reachable c → inv c.
Proof.
  apply (rtc_ind_r inv initial); [|intros x y _ Hs Hi; by eapply step_inv].
  intros _. split; [apply chain_ok_nil|]. by intros i.
Qed.

(** ** The sequential [appendOnce] is one of these executions *)

(** Other threads, and the lock once the transaction is over, are as before. *)
Definition settled (i : nat) (c c' : cstate) : Prop :=
  c_lock c' = None ∧ c_thr c' i = TIdle ∧ ∀ j, j ≠ i → c_thr c' j = c_thr c j.

(** An aborted transaction, from any point of the way. *)
Lemma abort_settled i c c1 :
  rtc step c c1 → c_thr c1 i ≠ TIdle → (c_lock c1 = None ∨ c_lock c1 = Some i) →
  (∀ j, j ≠ i → c_thr c1 j = c_thr c j) →
  ∃ c', rtc step c c' ∧ c_table c' = c_table c1 ∧ settled i c c'.
Proof.
  intros Hr Hi Hl Ho. eexists. split; [eapply rtc_r; [exact Hr|by apply (step_abort _ i)]|].
  split; [done|]. unfold settled; simpl. rewrite upd_eq. split_and!; [|done|].
  - unfold release. destruct Hl as [->| ->]; by case_decide.
  - intros j Hne. rewrite upd_ne by done. by apply Ho.
Qed.

Lemma upd_others f i x : ∀ j, j ≠ i → upd f i x j = f j.
Proof. intros j. apply upd_ne. Qed.

Lemma appendOnce_run env c i entry :
  c_lock c = None → c_thr c i = TIdle →
  ∃ c', rtc step c c' ∧ c_table c' = snd (appendOnce env (c_table c) entry) ∧ settled i c c'.
Proof.
  intros Hl Hi. unfold appendOnce.
  destruct (ae_begin env); [exists c; split_and!; [apply rtc_refl|done|by split_and!]|].
  set (c1 := mkC (c_table c) (c_lock c) (upd (c_thr c) i (TBegun entry))).
  assert (rtc step c c1) as R1 by (by apply rtc_once, step_begin).
  destruct (ae_lock env).
  { apply (abort_settled i c c1 R1); [by simpl; rewrite upd_eq|by left|apply upd_others]. }
  set (c2 := mkC (c_table c) (Some i) (upd (c_thr c1) i (TLocked entry))).
  assert (rtc step c c2) as R2.
  { eapply rtc_r; [exact R1|]. apply (step_lock c1 i entry); [apply upd_eq|done]. }
  assert (∀ j, j ≠ i → c_thr c2 j = c_thr c j) as O2 by (intros j Hj; simpl; by rewrite !upd_ne).
  destruct (ae_tip env).
  { apply (abort_settled i c c2 R2); [by simpl; rewrite upd_eq|by right|done]. }
  set (c3 := mkC (c_table c) (Some i) (upd (c_thr c2) i (TTip entry (tip_of (c_table c))))).
  assert (rtc step c c3) as R3 by (eapply rtc_r; [exact R2|]; apply (step_tip c2 i entry), upd_eq).
  assert (∀ j, j ≠ i → c_thr c3 j = c_thr c j) as O3 by (intros j Hj; simpl; by rewrite !upd_ne).
  assert (∃ c', rtc step c c' ∧ c_table c' = c_table c ∧ settled i c c') as Habort3.
  { apply (abort_settled i c c3 R3); [by simpl; rewrite upd_eq|by right|done]. }
  destruct (ae_insert env); [done|].
  destruct (InsertLedgerEntry _ _) as [t'|] eqn:Ei; [|done].
  set (row := link_entry _ _ _) in *.
  set (c4 := mkC (c_table c) (Some i) (upd (c_thr c3) i (TInserted row))).
  assert (rtc step c c4) as R4.
  { eapply rtc_r; [exact R3|]. eapply (step_insert c3 i entry); [apply upd_eq|exact Ei]. }
  assert (∀ j, j ≠ i → c_thr c4 j = c_thr c j) as O4 by (intros j Hj; simpl; by rewrite !upd_ne).
  assert (t' = c_table c ++ [row]) as ->.
  { unfold InsertLedgerEntry in Ei. by case_bool_decide; simplify_eq. }
  assert (∃ c', rtc step c c' ∧ c_table c' = c_table c ++ [row] ∧ settled i c c') as Hcommit.
  { eexists. split; [eapply rtc_r; [exact R4|]; by apply (step_commit c4 i row), upd_eq|].
    split; [done|]. unfold settled; simpl. rewrite upd_eq. split_and!; [|done|].
    - unfold release. by rewrite decide_True.
    - intros j Hne. by rewrite !upd_ne. }
  destruct (ae_commit env) as [[e []]|]; simpl; [done| |done].
  apply (abort_settled i c c4 R4); [by simpl; rewrite upd_eq|by right|done].
Qed.

(** C17: No interleaving forks the chain. In every state reachable by any number of replicas running
    [appendOnce] concurrently, with any of them dying at any point, the committed ledger is a
    well-formed chain (numbered without gaps, linked, hashed), as long as 64-bit sequence numbers
    have not run out. *)
Theorem concurrent_appends_chain (c : cstate) (Hr : reachable c)
    (Hb : Z.of_nat (length (c_table c)) <= max_int64) :
  chain_ok (c_table c).
Proof. by apply reachable_inv. Qed.

(** Two appends at once: one has committed its row, the other has the lock since. *)
Lemma contended_run :
  ∃ c, reachable c ∧ map le_Decision (c_table c) = ["allow"] ∧ c_lock c = Some 0%nat.
Proof.
  eexists. split.
  - eapply rtc_l; [apply (step_begin initial 0 (sample_entry "deny")); reflexivity|].
    eapply rtc_l; [apply (step_begin _ 1 (sample_entry "allow")); reflexivity|].
    eapply rtc_l; [apply (step_lock _ 1 (sample_entry "allow")); reflexivity|].
    eapply rtc_l; [apply (step_tip _ 1 (sample_entry "allow")); reflexivity|].
    eapply rtc_l; [eapply (step_insert _ 1 (sample_entry "allow") _ 5); reflexivity|].
    eapply rtc_l; [eapply (step_commit _ 1); reflexivity|].
    eapply rtc_l; [apply (step_lock _ 0 (sample_entry "deny")); reflexivity|].
    apply rtc_refl.
  - split; reflexivity.
Qed.

Lemma concurrent_appends_chain_witness :
  ∃ c, map le_Decision (c_table c) = ["allow"] ∧ c_lock c = Some 0%nat ∧ chain_ok (c_table c).
Proof.
  destruct contended_run as (c & R & T & L). exists c. split_and!; [done|done|].
  apply (concurrent_appends_chain c R). apply (f_equal length) in T. rewrite length_map in T. rewrite T. vm_compute. congruence.
Defined.

(** C29: Refinement: each sequential [appendOnce], in every outcome the database can give it, is an
    execution of the interleaved system by one thread that ends with the same committed table, the
    lock free and every other transaction untouched. *)
Theorem appendOnce_refines (env : append_env) (c : cstate) (i : nat) (entry : LedgerEntry)
    (Hl : c_lock c = None) (Hi : c_thr c i = TIdle) :
  ∃ c', rtc step c c' ∧ c_table c' = snd (appendOnce env (c_table c) entry) ∧ settled i c c'.
Proof. by apply appendOnce_run. Qed.

Lemma appendOnce_refines_witness :
  ∃ c', rtc step initial c'
        ∧ c_table c' = snd (appendOnce (quiet_env 5) [] (sample_entry "allow")) ∧ settled 3 initial c'.
Proof. apply (appendOnce_refines (quiet_env 5) initial 3 (sample_entry "allow")); reflexivity. Defined.

End LedgerConc.
