(* ===== verification/Mcp.v ===== *)
(** * Request decoding and transport metadata

    [internal/mcp/json.go] ([DecodeObject], [decodeValue]) and
    [internal/mcp/headers.go] ([CaptureReplayHeaders], [DecodeReplayHeaders]).
    The decoder is the walk over [json.Decoder]'s tokens, with fuel bounded by the
    number of tokens: every call consumes at least one, and the theorems state that
    valid bodies never run out.  A Go map is iterated in an unspecified order: the
    header functions take the order of iteration as a list of the map's entries. *)

From S2P Require Import Prelude GoStrings Types GoJson GoJsonEnc.
From stdpp Require Import base tactics strings list gmap sorting.
From Stdlib Require Import ZArith Lia Ascii.

Local Open Scope Z_scope.
Local Open Scope go_scope.

Module Mcp.

(** ** [json.go] *)

Definition err_not_json : error := errors_New "body must contain one valid UTF-8 JSON value".
Definition err_not_object : error :=
  errors_New "body must be a single JSON object; batching is not supported".
Definition err_member_name : error := errors_New "JSON object member name must be a string".
Definition err_eof : error := mkErr (Some SEOF) "EOF".

Section decode.
Context `{UnicodeTables}.

Definition err_duplicate (key : string) : error :=
  errors_New ("duplicate JSON member " +:+ go_quote key).

(** [decodeValue]: the decoder's state is the list of tokens left.  A closing
    delimiter is returned as a value by the source's [default] branch, which a
    syntax-checked text never reaches: the model ends the walk there. *)
Fixpoint decodeValue (fuel : nat) (ts : list token) : result (any * list token) :=
  match fuel with
  | O => Err (errors_New "out of fuel")
  | S f =>
      match ts with
      | [] => Err err_eof
      | TDelim LBrace :: ts' => decode_object f [] ts'
      | TDelim LBracket :: ts' => decode_array f [] ts'
      | TDelim _ :: _ => Err err_eof
      | TValue v :: ts' => Ok (any_of v, ts')
      end
  end
with decode_object (fuel : nat) (object : list (string * any)) (ts : list token)
    : result (any * list token) :=
  match fuel with
  | O => Err (errors_New "out of fuel")
  | S f =>
      if more ts then
        match ts with
        | TValue (SString key) :: ts' =>
            match member key object with
            | Some _ => Err (err_duplicate key)
            | None =>
                p ←? decodeValue f ts' ;;
                decode_object f (object ++ [(key, p.1)]) p.2
            end
        | _ => Err err_member_name
        end
      else
        match ts with
        | _ :: ts' => Ok (AObject object, ts')
        | [] => Err err_eof
        end
  end
with decode_array (fuel : nat) (values : list any) (ts : list token) : result (any * list token) :=
  match fuel with
  | O => Err (errors_New "out of fuel")
  | S f =>
      if more ts then
        p ←? decodeValue f ts ;;
        decode_array f (values ++ [p.1]) p.2
      else
        match ts with
        | _ :: ts' => Ok (AArray values, ts')
        | [] => Err err_eof
        end
  end.

(** The token stream of [json.NewDecoder(bytes.NewReader(body))]. *)
Definition decoder_tokens (body : string) : list token :=
  match lex LBase body with Some ls => tokens_of ls | None => [] end.

Definition DecodeObject (body : string) : result (list (string * any)) :=
  if negb (utf8_valid body) || negb (json_valid body) then Err err_not_json
  else
    let ts := decoder_tokens body in
    p ←? decodeValue (S (length ts)) ts ;;
    match p.1 with
    | AObject object => Ok object
    | _ => Err err_not_object
    end.

(** ** What the walk computes *)

Definition names (ms : list (string * any)) : list string := map fst ms.

(** The first member name, in document order, that repeats one of its object. *)
Fixpoint first_dup (v : any) : option string :=
  match v with
  | AArray vs =>
      (fix go vs := match vs with
                    | [] => None
                    | v :: r => match first_dup v with Some k => Some k | None => go r end
                    end) vs
  | AObject ms =>
      (fix go seen ms := match ms with
                         | [] => None
                         | (k, v) :: r =>
                             if bool_decide (k ∈ seen) then Some k
                             else match first_dup v with
                                  | Some k' => Some k'
                                  | None => go (seen ++ [k]) r
                                  end
                         end) [] ms
  | _ => None
  end.

Definition dup_elems : list any → option string :=
  fix go vs := match vs with
               | [] => None
               | v :: r => match first_dup v with Some k => Some k | None => go r end
               end.
Definition dup_members : list string → list (string * any) → option string :=
  fix go seen ms := match ms with
                    | [] => None
                    | (k, v) :: r =>
                        if bool_decide (k ∈ seen) then Some k
                        else match first_dup v with
                             | Some k' => Some k'
                             | None => go (seen ++ [k]) r
                             end
                    end.

(** Every object, at every depth, has distinct member names. *)
Fixpoint unique_names (v : any) : bool :=
  match v with
  | AArray vs => forallb unique_names vs
  | AObject ms => bool_decide (NoDup (names ms)) && forallb (λ m, unique_names m.2) ms
  | _ => true
  end.

Lemma member_none {A} k (ms : list (string * A)) : member k ms = None ↔ k ∉ map fst ms.
Proof.
  induction ms as [|[k' v] ms IH]; simpl.
  - split; [intros _; apply not_elem_of_nil|done].
  - rewrite not_elem_of_cons, <- IH. destruct (String.eqb_spec k k'); naive_solver.
Qed.

Definition walks (v : any) : Prop :=
  ∀ f r, (length (tokens v) ≤ f)%nat →
  decodeValue f (tokens v ++ r)
  = match first_dup v with Some k => Err (err_duplicate k) | None => Ok (v, r) end.

Lemma decode_array_tokens vs done f r :
  Forall walks vs → (length (concat (map tokens vs)) < f)%nat →
  decode_array f done (concat (map tokens vs) ++ TDelim RBracket :: r)
  = match dup_elems vs with Some k => Err (err_duplicate k) | None => Ok (AArray (done ++ vs), r) end.
Proof.
  intros HF. revert f done. induction HF as [|v vs Hv _ IH]; intros [|f] done L; try (simpl in L; lia).
  - simpl. by rewrite app_nil_r.
  - cbn [map concat dup_elems] in *. rewrite length_app in L. pose proof (tokens_nonempty v).
    cbn [decode_array]. rewrite <- app_assoc, more_tokens, Hv by lia.
    destruct (first_dup v); [done|]. cbn [rbind fst snd]. rewrite IH by lia.
    by rewrite <- app_assoc.
Qed.

Lemma decode_object_tokens ms done f r :
  Forall (λ m, walks m.2) ms →
  (length (concat (map (λ m, TValue (SString m.1) :: tokens m.2) ms)) < f)%nat →
  decode_object f done (concat (map (λ m, TValue (SString m.1) :: tokens m.2) ms) ++ TDelim RBrace :: r)
  = match dup_members (names done) ms with
    | Some k => Err (err_duplicate k)
    | None => Ok (AObject (done ++ ms), r)
    end.
Proof.
  intros HF. revert f done. induction HF as [|[k v] ms Hv _ IH]; intros [|f] done L; try (simpl in L; lia).
  - simpl. by rewrite app_nil_r.
  - cbn [map concat fst snd app length dup_members] in *. rewrite length_app in L.
    cbn [decode_object more]. destruct (member k done) eqn:A.
    + rewrite bool_decide_true; [done|]. apply dec_stable. intros N. apply member_none in N. congruence.
    + apply member_none in A. rewrite bool_decide_false by done.
      rewrite <- app_assoc, Hv by lia. destruct (first_dup v); [done|]. cbn [rbind fst snd].
      rewrite IH by lia. unfold names. rewrite map_app, <- app_assoc. done.
Qed.

Lemma decodeValue_tokens v : walks v.
Proof.
  induction v as [| | | |vs IH|ms IH] using any_ind_strong; intros [|f] r L;
    try (simpl in L; lia); try done.
  - rewrite tokens_array in *. cbn [length app] in L. rewrite length_app in L. simpl in L.
    cbn [app decodeValue]. rewrite <- app_assoc. cbn [app].
    rewrite decode_array_tokens by (done || lia). done.
  - rewrite tokens_object in *. cbn [length app] in L. rewrite length_app in L. simpl in L.
    cbn [app decodeValue]. rewrite <- app_assoc. cbn [app].
    rewrite decode_object_tokens by (done || lia). done.
Qed.

Lemma dup_members_none seen ms :
  Forall (λ m, first_dup m.2 = None ↔ unique_names m.2 = true) ms →
  dup_members seen ms = None ↔
  NoDup (names ms) ∧ (∀ k, k ∈ names ms → k ∉ seen) ∧ forallb (λ m, unique_names m.2) ms = true.
Proof.
  intros HF. revert seen. induction HF as [|[k v] ms Hv _ IH]; intros seen.
  { simpl. split; [|done]. intros _. split_and!; [constructor| |done]. intros k Hk. by apply elem_of_nil in Hk. }
  cbn [dup_members names map forallb fst snd] in *. fold (names ms). rewrite NoDup_cons.
  destruct (bool_decide_reflect (k ∈ seen)) as [I|I].
  { split; [done|]. intros (_ & N & _). destruct (N k); [by left|done]. }
  destruct (first_dup v) as [k'|] eqn:D.
  { split; [done|]. intros (_ & _ & U). apply andb_prop in U as [U _]. apply Hv in U. done. }
  rewrite IH, (proj1 Hv eq_refl). simpl. split.
  - intros (N & S & U). split_and!; [|done| |done].
    + intros K. apply (S k K). apply elem_of_app. right. by left.
    + intros j [->|Hj]%elem_of_cons; [done|]. intros K. apply (S j Hj), elem_of_app. by left.
  - intros ((K & N) & S & U). split_and!; [done| |done].
    intros j Hj. rewrite elem_of_app, list_elem_of_singleton. intros [?| ->]; [|done].
    apply (S j); [by right|done].
Qed.

Lemma first_dup_none v : first_dup v = None ↔ unique_names v = true.
Proof.
  induction v as [| | | |vs IH|ms IH] using any_ind_strong; try done.
  - change (dup_elems vs = None ↔ forallb unique_names vs = true).
    induction IH as [|v vs Hv _ IH]; [done|]. simpl. rewrite andb_true_iff, <- Hv, <- IH.
    destruct (first_dup v); naive_solver.
  - change (dup_members [] ms = None ↔ bool_decide (NoDup (names ms)) && forallb (λ m, unique_names m.2) ms = true).
    rewrite dup_members_none by done. rewrite andb_true_iff, bool_decide_eq_true.
    split; [naive_solver|]. intros [? ?]. split_and!; [done| |done]. intros k _. apply not_elem_of_nil.
Qed.

(** The outcome of [DecodeObject] in terms of the tree the body denotes. *)
Definition decode_spec (body : string) : result (list (string * any)) :=
  if utf8_valid body then
    match json_tree body with
    | None => Err err_not_json
    | Some v =>
        match first_dup v with
        | Some k => Err (err_duplicate k)
        | None => match v with AObject ms => Ok ms | _ => Err err_not_object end
        end
    end
  else Err err_not_json.

Lemma DecodeObject_spec body : DecodeObject body = decode_spec body.
Proof.
  unfold DecodeObject, decode_spec. destruct (utf8_valid body); [|done]. cbn [negb orb].
  destruct (json_valid body) eqn:V; cbn [negb].
  - apply json_valid_tree in V as [v T]. rewrite T. apply json_tree_spec in T as [L _].
    unfold decoder_tokens. rewrite L. fold (tokens v).
    rewrite <- (app_nil_r (tokens v)) at 2. rewrite (decodeValue_tokens v) by lia.
    by destruct (first_dup v).
  - destruct (json_tree body) eqn:T; [|done].
    assert (json_valid body = true) by (apply json_valid_tree; eauto). congruence.
Qed.

Lemma DecodeObject_ok body ms :
  DecodeObject body = Ok ms →
  utf8_valid body = true ∧ json_tree body = Some (AObject ms) ∧ unique_names (AObject ms) = true.
Proof.
  rewrite DecodeObject_spec. unfold decode_spec. intros E. split_in E. simplify_eq.
  split_and!; [done..|]. by apply (first_dup_none (AObject ms)).
Qed.

(** C27: [DecodeObject] always answers, and exactly as the tree the body denotes
    dictates: it returns the members of the object when the body is well-formed UTF-8
    holding one JSON object, nested at most 10000 deep, whose member names are
    distinct (after unescaping) in every object at every depth; it names the first
    repeated member otherwise, and rejects everything else. *)
Theorem decode_object_exact (body : string) :
  DecodeObject body
  = (if utf8_valid body then
       match json_tree body with
       | None => Err err_not_json
       | Some v =>
           match first_dup v with
           | Some k => Err (err_duplicate k)
           | None => match v with AObject ms => Ok ms | _ => Err err_not_object end
           end
       end
     else Err err_not_json)
  ∧ (∀ v, json_tree body = Some v ↔ lex LBase body = Some (lexemes v) ∧ (nesting v ≤ max_nesting)%nat)
  ∧ (∀ v, first_dup v = None ↔ unique_names v = true).
Proof. split_and!; [apply DecodeObject_spec|apply json_tree_spec|apply first_dup_none]. Qed.

(** ** Agreement of JSON consumers

    A consumer resolves a member name by choosing one of the members that carry it:
    the first, the last, or any other. *)
Definition chooses (pick : string → list (string * any) → option any) : Prop :=
  ∀ k ms, match pick k ms with Some v => (k, v) ∈ ms | None => k ∉ names ms end.

(** What a consumer reads at a path of member names and array positions. *)
Inductive accessor : Type := Member (k : string) | Element (i : nat).
Fixpoint read_path (pick : string → list (string * any) → option any) (path : list accessor) (v : any)
    : option any :=
  match path with
  | [] => Some v
  | a :: path' =>
      match a, v with
      | Member k, AObject ms => match pick k ms with Some v' => read_path pick path' v' | None => None end
      | Element i, AArray vs => match vs !! i with Some v' => read_path pick path' v' | None => None end
      | _, _ => None
      end
  end.

Lemma member_some {A} k (ms : list (string * A)) v : member k ms = Some v → (k, v) ∈ ms.
Proof.
  induction ms as [|[k' v'] ms IH]; simpl; [done|].
  destruct (String.eqb_spec k k') as [->|]; [intros [= ->]; left|right; auto].
Qed.

Lemma NoDup_names_inj ms k v w :
  NoDup (names ms) → (k, v) ∈ ms → (k, w) ∈ ms → v = w.
Proof.
  induction ms as [|[k' u] ms IH]; simpl; [by intros _ ?%elem_of_nil|].
  intros [N1 N2]%NoDup_cons H1 H2.
  assert (∀ x, (k', x) ∉ ms) as F.
  { intros x Hx. apply N1. change k' with (k', x).1. by apply list_elem_of_fmap_2. }
  apply elem_of_cons in H1 as [E1|H1]; apply elem_of_cons in H2 as [E2|H2]; simplify_eq; naive_solver.
Qed.

Lemma pick_unique pick ms k :
  chooses pick → NoDup (names ms) → pick k ms = member k ms.
Proof.
  intros P N. pose proof (P k ms) as Hk. destruct (pick k ms) as [v|], (member k ms) as [w|] eqn:M; try done.
  - f_equal. apply member_some in M. by eapply NoDup_names_inj.
  - apply member_none in M. exfalso. apply M. change k with (k, v).1. by apply list_elem_of_fmap_2.
  - apply member_some in M. exfalso. apply Hk. change k with (k, w).1. by apply list_elem_of_fmap_2.
Qed.

(** C18: a body [DecodeObject] accepts means the same to every JSON consumer: at
    every path of member names and array positions, a consumer that keeps the first, the
    last or any other of several equal members reads the value policy was evaluated on. *)
Theorem no_parser_disagreement (body : string) (ms : list (string * any))
    (pick : string → list (string * any) → option any) (path : list accessor) :
  DecodeObject body = Ok ms → chooses pick →
  ∃ v, json_tree body = Some v ∧ read_path pick path v = read_path member path (AObject ms).
Proof.
  intros D P. apply DecodeObject_ok in D as (_ & T & U). exists (AObject ms). split; [done|]. clear T.
  generalize dependent (AObject ms). clear ms. induction path as [|a path IH]; intros v U; [done|].
  destruct a as [k|i], v as [| | | |vs|ms]; try done; simpl in U |- *.
  - apply andb_prop in U as [N F]. apply bool_decide_eq_true in N. rewrite (pick_unique pick) by done.
    destruct (member k ms) as [w|] eqn:M; [|done]. apply IH.
    apply member_some in M. rewrite forallb_forall in F. apply (F (k, w)). by apply list_elem_of_In.
  - destruct (vs !! i) as [w|] eqn:L; [|done]. apply IH. rewrite forallb_forall in U.
    apply U, list_elem_of_In. by eapply list_elem_of_lookup_2.
Qed.
End decode.

(** ** [headers.go] *)

Section headers.
Context `{UnicodeTables}.

(** The allowlist of [CaptureReplayHeaders], on a lower-case name. *)
Definition replay_safe (lowerName : string) : bool :=
  if String.eqb lowerName "accept" || String.eqb lowerName "mcp-method"
     || String.eqb lowerName "mcp-name" || String.eqb lowerName "mcp-protocol-version"
  then true
  else negb (negb (has_prefix lowerName "mcp-param-") || String.eqb lowerName "mcp-param-").

Definition add_values (name : string) (values : list string) (captured : Header) : Header :=
  foldl (λ c value, header_add name value c) captured values.

(** [CaptureReplayHeaders], the entries visited in the order of the list. *)
Fixpoint capture_entries (entries : list (string * list string)) (captured : Header) : Header :=
  match entries with
  | [] => captured
  | (name, values) :: rest =>
      if replay_safe (to_lower name)
      then capture_entries rest (add_values name values captured)
      else capture_entries rest captured
  end.
Definition CaptureReplayHeaders (header : Header) : Header :=
  capture_entries (map_to_list header) ∅.

(** [json.Marshal] of a header map: the names sorted. *)
Definition header_tree (entries : list (string * list string)) : any :=
  AObject (map (λ e, (e.1, AArray (map AString e.2))) entries).
Definition key_le (a b : string * list string) : Prop := Is_true (String.leb a.1 b.1).
#[local] Instance key_le_dec a b : Decision (key_le a b).
Proof. unfold key_le. apply _. Defined.
Definition marshal_header (h : Header) : string :=
  json_text (header_tree (merge_sort key_le (map_to_list h))).

(** [json.Unmarshal] into an [http.Header]: [null] leaves the zero value, a value of
    another type is an error, and of equal names the last one stays. *)
Definition unmarshal_string (v : any) : option string :=
  match v with AString s => Some s | ANil => Some "" | _ => None end.
Definition unmarshal_strings (v : any) : option (list string) :=
  match v with
  | ANil => Some []
  | AArray vs => mapM unmarshal_string vs
  | _ => None
  end.
Definition unmarshal_members (ms : list (string * any)) : option (list (string * list string)) :=
  mapM (λ m, vs ← unmarshal_strings m.2; Some (m.1, vs)) ms.
Definition unmarshal_header (v : any) : option Header :=
  match v with
  | ANil => Some ∅
  | AObject ms =>
      es ← unmarshal_members ms;
      Some (foldl (λ h e, <[e.1 := e.2]> h) ∅ es)
  | _ => None
  end.

(** [DecodeReplayHeaders]; the decoder's own message is a parameter. *)
Definition DecodeReplayHeaders (unmarshal_message : string → string) (encoded : string) : result Header :=
  if String.eqb encoded "" then Ok ∅
  else match json_tree (coerce_utf8 encoded) ≫= unmarshal_header with
       | Some stored => Ok (CaptureReplayHeaders stored)
       | None => Err (errorf_w "decode stored replay headers" (errors_New (unmarshal_message encoded)))
       end.

(** ** The captured map *)

Lemma add_values_lookup name values h k :
  add_values name values h !! k
  = if decide (k = canonical_key name) then
      match values with [] => h !! k | _ => Some (default [] (h !! k) ++ values) end
    else h !! k.
Proof.
  revert h. induction values as [|v vs IH]; intros h; [simpl; by destruct (decide _)|].
  change (add_values name (v :: vs) h) with (add_values name vs (header_add name v h)).
  rewrite IH. unfold header_add. destruct (decide (k = canonical_key name)) as [->|N].
  - rewrite lookup_insert, decide_True by done. destruct vs; simpl; [done|]. by rewrite <- app_assoc.
  - by rewrite lookup_insert_ne.
Qed.

(** Keys as [net/http] stores them. *)
Definition canonical_keys (h : Header) : Prop := ∀ k vs, h !! k = Some vs → canonical_key k = k.

Lemma capture_entries_other entries h k :
  (∀ name vs, (name, vs) ∈ entries → replay_safe (to_lower name) = true → canonical_key name ≠ k) →
  capture_entries entries h !! k = h !! k.
Proof.
  revert h. induction entries as [|[name vs] es IH]; intros h F; [done|]. simpl.
  assert (∀ n vs', (n, vs') ∈ es → replay_safe (to_lower n) = true → canonical_key n ≠ k) as F'.
  { intros n vs' I. apply (F n vs'). by right. }
  destruct (replay_safe (to_lower name)) eqn:S; rewrite IH by done; [|done].
  rewrite add_values_lookup, decide_False; [done|]. intros ->. by apply (F name vs (list_elem_of_here _ _)).
Qed.

Lemma capture_entries_lookup entries h k :
  NoDup (entries.*1) → (∀ name vs, (name, vs) ∈ entries → canonical_key name = name) → h !! k = None →
  capture_entries entries h !! k
  = match list_to_map (M:=Header) entries !! k with
    | Some (v :: vs) => if replay_safe (to_lower k) then Some (v :: vs) else None
    | _ => None
    end.
Proof.
  revert h. induction entries as [|[name vs] es IH]; intros h N C Hk; [done|]. simpl in *.
  apply NoDup_cons in N as [N1 N2]. assert (canonical_key name = name) as Cn by (apply (C name vs); left).
  assert (∀ n vs', (n, vs') ∈ es → canonical_key n = n) as C' by (intros n vs' I; apply (C n vs'); by right).
  destruct (decide (k = name)) as [->|Nk].
  - rewrite lookup_insert, decide_True by done.
    assert (∀ h', capture_entries es h' !! name = h' !! name) as Same.
    { intros h'. apply capture_entries_other. intros n vs' I _. rewrite (C' n vs') by done. intros ->.
      apply N1. change name with (name, vs').1. by apply list_elem_of_fmap_2. }
    destruct (replay_safe (to_lower name)) eqn:S; rewrite Same.
    + rewrite add_values_lookup, Cn, decide_True, Hk by done. by destruct vs.
    + rewrite Hk. by destruct vs.
  - rewrite lookup_insert_ne by done. destruct (replay_safe (to_lower name)); apply IH; auto.
    rewrite add_values_lookup, Cn, decide_False by done. done.
Qed.

Lemma map_to_list_canonical h : canonical_keys h →
  ∀ entries name vs, entries ≡ₚ map_to_list h → (name, vs) ∈ entries → canonical_key name = name.
Proof. intros C entries name vs P I. rewrite P in I. apply elem_of_map_to_list in I. by eapply C. Qed.

Lemma NoDup_entries (h : Header) entries : entries ≡ₚ map_to_list h → NoDup (entries.*1).
Proof. intros P. rewrite P. apply NoDup_fst_map_to_list. Qed.

Lemma list_to_map_entries (h : Header) entries :
  entries ≡ₚ map_to_list h → list_to_map (M:=Header) entries = h.
Proof.
  intros P. rewrite <- (list_to_map_to_list h). apply list_to_map_proper; [by eapply NoDup_entries|done].
Qed.

Lemma capture_lookup h entries k :
  canonical_keys h → entries ≡ₚ map_to_list h →
  capture_entries entries ∅ !! k
  = match h !! k with
    | Some (v :: vs) => if replay_safe (to_lower k) then Some (v :: vs) else None
    | _ => None
    end.
Proof.
  intros C P. rewrite capture_entries_lookup; [by rewrite (list_to_map_entries h)|..].
  - by eapply NoDup_entries.
  - intros name vs. by eapply map_to_list_canonical.
  - apply lookup_empty.
Qed.

Lemma CaptureReplayHeaders_lookup h k :
  canonical_keys h →
  CaptureReplayHeaders h !! k
  = match h !! k with
    | Some (v :: vs) => if replay_safe (to_lower k) then Some (v :: vs) else None
    | _ => None
    end.
Proof. intros C. by apply capture_lookup. Qed.

Lemma capture_canonical h : canonical_keys h → canonical_keys (CaptureReplayHeaders h).
Proof.
  intros C k vs. rewrite CaptureReplayHeaders_lookup by done.
  destruct (h !! k) as [[|v ws]|] eqn:E; try done. intros _. by eapply C.
Qed.

Lemma capture_idempotent h :
  canonical_keys h → CaptureReplayHeaders (CaptureReplayHeaders h) = CaptureReplayHeaders h.
Proof.
  intros C. apply map_eq. intros k.
  rewrite CaptureReplayHeaders_lookup by (by apply capture_canonical).
  rewrite !CaptureReplayHeaders_lookup by done.
  destruct (h !! k) as [[|v vs]|]; try done. by destruct (replay_safe _) eqn:E; rewrite ?E.
Qed.

(** ** Storing and restoring *)

Definition header_utf8 (h : Header) : Prop :=
  ∀ k vs, h !! k = Some vs → utf8_valid k = true ∧ Forall (λ v, utf8_valid v = true) vs.

(** Two texts of the same object, whatever the spacing, escapes and member order:
    what a [JSONB] column gives back for what it was given. *)
Definition same_object (a b : string) : Prop :=
  ∃ ms ms', json_tree a = Some (AObject ms) ∧ json_tree (coerce_utf8 b) = Some (AObject ms') ∧ ms ≡ₚ ms'.

Lemma nesting_header_tree es : (nesting (header_tree es) ≤ 2)%nat.
Proof.
  assert (nesting (header_tree es) + 0 ≤ 2)%nat; [|lia]. apply nesting_object. split; [lia|].
  apply Forall_map, Forall_forall. intros [k vs] _. apply nesting_array. split; [lia|].
  apply Forall_map, Forall_forall. simpl. lia.
Qed.

Lemma textual_header_tree es :
  (∀ k vs, (k, vs) ∈ es → utf8_valid k = true ∧ Forall (λ v, utf8_valid v = true) vs) →
  textual (header_tree es) = true.
Proof.
  intros F. unfold header_tree. simpl. apply forallb_forall. intros m I. apply list_elem_of_In in I.
  apply list_elem_of_fmap in I as ([k vs] & -> & I). destruct (F k vs I) as [Hk Fv]. simpl.
  rewrite Hk. simpl.
  apply forallb_forall. intros v J. apply list_elem_of_In, list_elem_of_fmap in J as (s & -> & J).
  rewrite Forall_forall in Fv. by apply Fv.
Qed.

Lemma unmarshal_entry (k : string) (vs : list string) :
  unmarshal_strings (AArray (map AString vs)) ≫= (λ ws, Some (k, ws)) = Some (k, vs).
Proof.
  simpl. assert (mapM unmarshal_string (map AString vs) = Some vs) as ->; [|done].
  induction vs as [|v vs IH]; [done|]. simpl. by rewrite IH.
Qed.

Lemma unmarshal_entries (es : list (string * list string)) ms :
  ms ≡ₚ map (λ e, (e.1, AArray (map AString e.2))) es →
  ∃ es', unmarshal_members ms = Some es' ∧ es' ≡ₚ es.
Proof.
  intros P. assert (∃ es', ms = map (λ e, (e.1, AArray (map AString e.2))) es' ∧ es' ≡ₚ es) as (es' & -> & P').
  { apply Permutation_map_inv in P as (es' & -> & P'). by exists es'. }
  exists es'. split; [|done]. clear. unfold unmarshal_members.
  induction es' as [|[k vs] es' IH]; [done|]. cbn [map mapM fst snd]. rewrite unmarshal_entry. simpl. by rewrite IH.
Qed.

Lemma foldl_insert_entries (es : list (string * list string)) (h : Header) :
  NoDup (es.*1) → foldl (λ h e, <[e.1 := e.2]> h) h es = list_to_map es ∪ h.
Proof.
  revert h. induction es as [|[k vs] es IH]; intros h N; simpl; [by rewrite map_empty_union|].
  apply NoDup_cons in N as [K N]. rewrite IH by done.
  rewrite <- insert_union_r by (by apply not_elem_of_list_to_map_1). by rewrite insert_union_l.
Qed.

Lemma unmarshal_marshalled (h : Header) ms :
  ms ≡ₚ map (λ e, (e.1, AArray (map AString e.2))) (merge_sort key_le (map_to_list h)) →
  unmarshal_header (AObject ms) = Some h.
Proof.
  intros P. apply unmarshal_entries in P as (es & E & P). rewrite merge_sort_Permutation in P.
  simpl. rewrite E. simpl. rewrite foldl_insert_entries by (by eapply NoDup_entries).
  by rewrite map_union_empty, (list_to_map_entries h).
Qed.

(** ** Names, cases and the allowlist *)

Lemma canonical_loop_lower up s :
  bytes_all is_ascii_byte s = true →
  bytes_all is_ascii_byte (canonical_loop up s) = true
  ∧ bytes_map ascii_lower (canonical_loop up s) = bytes_map ascii_lower s.
Proof.
  revert up. induction s as [|c s IH]; intros up A; [done|]. cbn [bytes_all] in A.
  apply andb_prop in A as [Ac A]. cbn [canonical_loop bytes_all bytes_map].
  destruct (IH (byte_val c =? 45) A) as [-> ->]. clear IH A.
  assert (is_ascii_byte (ascii_upper c) = true ∧ is_ascii_byte (ascii_lower c) = true
    ∧ ascii_lower (ascii_upper c) = ascii_lower c ∧ ascii_lower (ascii_lower c) = ascii_lower c) as (A1 & A2 & A3 & A4).
  { destruct c as [[] [] [] [] [] [] [] []]; try discriminate Ac; repeat split; reflexivity. }
  destruct up; rewrite ?A1, ?A2, ?A3, ?A4; done.
Qed.

Lemma token_bytes_ascii s : bytes_all is_token_byte s = true → bytes_all is_ascii_byte s = true.
Proof.
  induction s as [|c s IH]; [done|]. cbn [bytes_all]. intros [A B]%andb_prop. rewrite IH by done.
  destruct c as [[] [] [] [] [] [] [] []]; try discriminate A; reflexivity.
Qed.

Lemma to_lower_canonical s : to_lower (canonical_key s) = to_lower s.
Proof.
  unfold canonical_key. destruct (bytes_all is_token_byte s) eqn:T; [|done].
  apply token_bytes_ascii in T. destruct (canonical_loop_lower true s T) as [A B].
  unfold to_lower. by rewrite A, T, B.
Qed.

Lemma capture_entries_safe entries k vs :
  capture_entries entries ∅ !! k = Some vs → replay_safe (to_lower k) = true.
Proof.
  intros E. destruct (replay_safe (to_lower k)) eqn:S; [done|].
  rewrite capture_entries_other in E; [by rewrite lookup_empty in E|].
  intros name ws _ S' <-. rewrite to_lower_canonical in S. congruence.
Qed.

Lemma replay_safe_names n :
  replay_safe n = true →
  n ∈ ["accept"; "mcp-method"; "mcp-name"; "mcp-protocol-version"]
  ∨ ∃ r, r ≠ "" ∧ n = "mcp-param-" +:+ r.
Proof.
  unfold replay_safe.
  destruct (String.eqb_spec n "accept") as [->|]; [set_solver|].
  destruct (String.eqb_spec n "mcp-method") as [->|]; [set_solver|].
  destruct (String.eqb_spec n "mcp-name") as [->|]; [set_solver|].
  destruct (String.eqb_spec n "mcp-protocol-version") as [->|]; [set_solver|]. simpl.
  rewrite negb_true_iff, orb_false_iff, negb_false_iff. intros [P N]. right.
  apply has_prefix_drop in P. eexists. split; [|exact P]. intros E. by rewrite P, E in N.
Qed.

Lemma DecodeReplayHeaders_safe msg encoded h k vs :
  DecodeReplayHeaders msg encoded = Ok h → h !! k = Some vs → replay_safe (to_lower k) = true.
Proof.
  unfold DecodeReplayHeaders. destruct (String.eqb encoded ""); [intros [= <-]; by rewrite lookup_empty|].
  destruct (_ ≫= _); [|done]. intros [= <-]. apply capture_entries_safe.
Qed.

(** Whatever headers an agent sends and whatever is stored in a quarantine row,
    the headers captured for, and restored for, a replay carry only the MCP transport
    names: never credentials, cookies, the idempotency key or Elodea's metadata. *)
Theorem replay_headers_allowlisted (msg : string → string) (sent : Header) (stored : string) (h : Header) :
  h = CaptureReplayHeaders sent ∨ DecodeReplayHeaders msg stored = Ok h →
  (∀ k vs, h !! k = Some vs →
     to_lower k ∈ ["accept"; "mcp-method"; "mcp-name"; "mcp-protocol-version"]
     ∨ ∃ r, r ≠ "" ∧ to_lower k = "mcp-param-" +:+ r)
  ∧ Forall (λ k, h !! k = None)
      ["Authorization"; "Proxy-Authorization"; "Cookie"; "Idempotency-Key"; "X-Elodea-Approved-By"].
Proof.
  intros Hh. assert (∀ k vs, h !! k = Some vs → replay_safe (to_lower k) = true) as S.
  { intros k vs L. destruct Hh as [-> |D]; [by eapply capture_entries_safe|by eapply DecodeReplayHeaders_safe]. }
  split; [intros k vs L; apply replay_safe_names; by eapply S|].
  repeat constructor; (destruct (h !! _) as [vs|] eqn:L; [apply S in L; vm_compute in L|]; done).
Qed.

(** The replay metadata survives storage: for headers as [net/http] builds them
    whose text is UTF-8, decoding the stored object, in whatever textual form and
    member order the column returns it, restores exactly the captured headers. *)
Lemma replay_headers_roundtrip (msg : string → string) (sent : Header) (stored : string) :
  canonical_keys sent → header_utf8 (CaptureReplayHeaders sent) →
  same_object (marshal_header (CaptureReplayHeaders sent)) stored →
  DecodeReplayHeaders msg stored = Ok (CaptureReplayHeaders sent).
Proof.
  intros C U (ms & ms' & T & T' & P).
  assert (json_tree (marshal_header (CaptureReplayHeaders sent)) =
    Some (header_tree (merge_sort key_le (map_to_list (CaptureReplayHeaders sent))))) as E.
  { apply json_tree_text.
    - apply textual_header_tree. intros k vs I. rewrite merge_sort_Permutation in I.
      apply elem_of_map_to_list in I. by apply U.
    - etransitivity; [apply nesting_header_tree|]. rewrite max_nesting_value. lia. }
  rewrite E in T. injection T as <-. unfold DecodeReplayHeaders.
  destruct (String.eqb_spec stored "") as [->|_]; [done|]. rewrite T'. cbn [mbind option_bind].
  rewrite (unmarshal_marshalled (CaptureReplayHeaders sent)) by (by symmetry).
  by rewrite capture_idempotent.
Qed.

(** What [CaptureReplayHeaders] keeps does not depend on the order in which the
    map is visited: of headers as [net/http] builds them, exactly the allowlisted
    names that carry a value, each with all its values, in order. *)
Theorem capture_order_independent (sent : Header) (visited : list (string * list string)) :
  canonical_keys sent → visited ≡ₚ map_to_list sent →
  capture_entries visited ∅ = CaptureReplayHeaders sent
  ∧ ∀ k, CaptureReplayHeaders sent !! k
         = match sent !! k with
           | Some (v :: vs) => if replay_safe (to_lower k) then Some (v :: vs) else None
           | _ => None
           end.
Proof.
  intros C P. split; [|intros k; by apply CaptureReplayHeaders_lookup].
  apply map_eq. intros k. rewrite CaptureReplayHeaders_lookup by done. by apply capture_lookup.
Qed.
End headers.

(** ** Witnesses *)

#[local] Existing Instance ascii_tables.

Definition sample_headers : Header :=
  list_to_map [("Accept", ["application/json"]); ("Authorization", ["Bearer t"]);
               ("Mcp-Method", ["tools/call"]); ("Mcp-Param-Tenant", ["a<b"; "c"])].

Lemma sample_canonical : canonical_keys sample_headers.
Proof.
  intros k vs L. apply elem_of_list_to_map_2 in L.
  repeat (apply elem_of_cons in L as [[= -> ->]|L]; [reflexivity|]). by apply elem_of_nil in L.
Qed.

Lemma replay_headers_allowlisted_witness :
  ∃ h, h = CaptureReplayHeaders sample_headers ∧ h !! "Authorization" = None
       ∧ h !! "Mcp-Method" = Some ["tools/call"].
Proof.
  exists (CaptureReplayHeaders sample_headers). split_and!; [done| |by vm_compute].
  destruct (replay_headers_allowlisted (λ s, s) sample_headers "" (CaptureReplayHeaders sample_headers))
    as [_ F]; [by left|]. by apply Forall_cons in F as [F _].
Defined.

Lemma capture_order_independent_witness :
  capture_entries (rev (map_to_list sample_headers)) ∅ = CaptureReplayHeaders sample_headers.
Proof.
  apply (capture_order_independent sample_headers); [apply sample_canonical|].
  symmetry. apply Permutation_rev.
Defined.

Definition last_wins (k : string) (ms : list (string * any)) : option any := member k (rev ms).

Definition sample_call : string :=
  json_text (AObject [("method", AString "tools/call");
                      ("params", AArray [ANil; AObject [("name", AString "rm")]])]).

Lemma no_parser_disagreement_witness :
  ∃ v, json_tree sample_call = Some v
    ∧ read_path last_wins [Member "params"; Element 1; Member "name"] v = Some (AString "rm").
Proof.
  destruct (no_parser_disagreement sample_call
    [("method", AString "tools/call"); ("params", AArray [ANil; AObject [("name", AString "rm")]])]
    last_wins [Member "params"; Element 1; Member "name"]) as (v & T & E).
  - vm_compute. reflexivity.
  - intros k ms. unfold last_wins. destruct (member k (rev ms)) as [v|] eqn:M.
    + apply member_some in M. by rewrite <- Permutation_rev in M.
    + apply member_none in M. unfold names. rewrite map_rev, <- Permutation_rev in M. done.
  - exists v. split; [done|]. rewrite E. reflexivity.
Defined.

(** A header value that is not UTF-8 does not survive storage: [json.Marshal] writes
    U+FFFD for the byte 0xFF. *)
Theorem replay_headers_lossy :
  let raw := String (byte_of 0xFF) "" in
  let sent : Header := {[ "Mcp-Param-Blob" := [raw] ]} in
  CaptureReplayHeaders sent !! "Mcp-Param-Blob" = Some [raw]
  ∧ DecodeReplayHeaders (λ s, s) (marshal_header (CaptureReplayHeaders sent))
    = Ok {[ "Mcp-Param-Blob" := [rune_error] ]}.
Proof. split; vm_compute; reflexivity. Qed.

End Mcp.
