(* ===== verification/Effects.v ===== *)
(** * Programs over the service's interfaces

    The handlers and workers call the policy engine, the stores, the event publisher,
    the clock, the upstream, the identity provider and the notification endpoints
    through Go interfaces ([OPAEngine], [LedgerStore], [QuarantineStore],
    [StoreAPI], [EventPublisher], [http.Client]).  A handler is a [prog]: a finite
    tree of calls, each continuing with the call's answer.  Theorems about one
    component quantify over all answers; [run] executes a program against a
    concrete environment; the system model interleaves the calls of many. *)

From S2P Require Import Prelude GoStrings Types Ledger.
From stdpp Require Import base tactics strings list gmap.
From Stdlib Require Import ZArith Lia.

Local Open Scope Z_scope.

(** The parts of a [*url.URL] a request is sent to. *)
Record URL : Type := mkURL {
  url_Scheme : string;
  url_Host : string;
  url_Path : string;
  url_RawPath : string;
  url_RawQuery : string
}.

(** An outbound HTTP request. *)
Record OutRequest : Type := mkOut {
  out_Method : string;
  out_URL : URL;
  out_Header : Header;
  out_Body : string
}.

(** An ID token the provider's library verified; its claims may not be readable. *)
Record IDToken : Type := mkIDToken {
  it_Nonce : string;
  it_Subject : string;
  it_Claims : option (list (string * any))
}.

Inductive cmd : Type :=
  | CNow
  | CCtxErr
  | CEvaluate (input : EvalInput)
  | CPublish (topic : string) (fields : list (string * string)) (timestamp : Z)
  | CAppend (entry : LedgerEntry)
  | CForward (out : OutRequest)
  | CSend (out : OutRequest)
  | CCreate (agentID toolName payload : string) (headers : Header) (rule explanation : string)
  | CGet (id : string)
  | CList (status : string)
  | CApprove (id approvedBy : string)
  | CDeny (id deniedBy reason : string)
  | CClaim (limit : Z)
  | CMarkReplayed (id : string)
  | CMarkReplayFailed (id : string)
  | CReturnToApproved (id : string)
  | CRecover
  | CTryLock
  | CUnlock
  | CEnqueueHeld (channels : list string)
  | CClaimDue (maxAttempts batchSize : Z)
  | CMarkDelivered (id channel : string)
  | CMarkFailed (nextAttemptAt : Z) (lastError id channel : string)
  | CGetRow (id : string)
  | CPost (url body : string) (headers : Header)
  | CSlack (verb url token : string) (body : option string)
  | CReply (url : string) (payload : any)
  | CRandomBytes
  | CGenerateVerifier
  | CCreateLogin (state nonce verifier returnTo : string) (expiresAt : Z)
  | CConsumeLogin (state : string)
  | CExchange (code verifier : string)
  | CVerifyToken (rawIDToken : string)
  | CCreateSession (idHash subject email role : string) (expiresAt : Z)
  | CGetSession (idHash : string) (seenAfter : Z)
  | CTouchSession (idHash : string)
  | CRevokeSession (idHash : string)
  | CDeleteExpiredLogins
  | CDeleteExpiredSessions
  | CDiscover
  | CListPolicies
  | CPolicyVersion
  | CPolicyReady
  | CPolicyReload
  | CStats
  | CQueryLedger
  | CPing
  | CAllow (id : string)
  | CClient
  | CReady
  | CWait (d : Z)
  | CSleep (d : Z)
  | CHttpGet (url : string)
  | CEmailGet (user : string)
  | CEmailPut (user email : string) (expires : Z)
  | CLedgerPage (page : Ledger.PageQuery)
  | CLedgerHead
  | CLedgerStream (after : Z)
  | CVerifyChain (anchor : option Ledger.Anchor)
  | CAcquireScan
  | CReleaseScan
  | CBeginTx
  | CDrain
  | CCancelWorkers
  | CShutdown (metrics : bool).

(** What each call returns; a Go [error] result is an [option error]. *)
Definition ans (c : cmd) : Type :=
  match c with
  | CNow => Z
  | CCtxErr => bool
  | CEvaluate _ => result ProxyDecision
  | CPublish _ _ _ | CAppend _ => option error
  | CForward _ => result (Response any)
  | CSend _ => result Z
  | CCreate _ _ _ _ _ _ => result string
  | CGet _ => result QuarantineEntry
  | CList _ | CClaim _ => result (list QuarantineEntry)
  | CApprove _ _ | CDeny _ _ _ => option error
  | CMarkReplayed _ | CMarkReplayFailed _ | CReturnToApproved _ => option error
  | CRecover => result Z
  | CTryLock => result bool
  | CUnlock => unit
  | CEnqueueHeld _ | CMarkDelivered _ _ | CMarkFailed _ _ _ _ => option error
  | CClaimDue _ _ => result (list ClaimDueNotificationsRow)
  | CGetRow _ => result Quarantine
  | CPost _ _ _ | CReply _ _ => result Z
  | CSlack _ _ _ _ => result (Z * string)
  | CRandomBytes | CGenerateVerifier | CPolicyVersion => string
  | CCreateLogin _ _ _ _ _ | CCreateSession _ _ _ _ _ | CTouchSession _ | CRevokeSession _ => option error
  | CDeleteExpiredLogins | CDeleteExpiredSessions | CDiscover | CPolicyReload | CPing => option error
  | CConsumeLogin _ => result ConsumeLoginAttemptRow
  | CExchange _ _ => result (option string)
  | CVerifyToken _ => result IDToken
  | CGetSession _ _ => result GetActiveSessionRow
  | CListPolicies => result (list Policy)
  | CPolicyReady | CAllow _ | CClient | CReady | CWait _ => bool
  | CHttpGet _ => result Z
  | CStats => result (Z * Z)
  | CQueryLedger | CLedgerPage _ => result (list LedgerEntry)
  | CEmailGet _ => option (string * Z)
  | CEmailPut _ _ _ | CReleaseScan => unit
  | CLedgerHead => result (option (Z * string * Z))
  | CLedgerStream _ => list LedgerEntry * option error
  | CVerifyChain _ => result Ledger.VerifyReport
  | CAcquireScan => bool
  | CBeginTx | CShutdown _ => option error
  | CDrain | CCancelWorkers | CSleep _ => unit
  end.

Inductive prog (A : Type) : Type :=
  | Ret (a : A)
  | Do (c : cmd) (k : ans c → prog A).
Arguments Ret {A} a.
Arguments Do {A} c k.

Fixpoint prog_bind {A B} (f : A → prog B) (p : prog A) : prog B :=
  match p with
  | Ret a => f a
  | Do c k => Do c (λ x, prog_bind f (k x))
  end.

#[export] Instance prog_ret : MRet prog := @Ret.
#[export] Instance prog_mbind : MBind prog := @prog_bind.

Definition call (c : cmd) : prog (ans c) := Do c Ret.

(** ** Executions *)

(** A call together with its answer. *)
Inductive event : Type := Ev (c : cmd) (x : ans c).

Definition ev_cmd (e : event) : cmd := match e with Ev c _ => c end.

(** [runs p tr a]: with the answers recorded in [tr], program [p] makes exactly the
    calls of [tr] and returns [a]. *)
Fixpoint runs {A} (p : prog A) (tr : list event) (a : A) : Prop :=
  match p with
  | Ret a' => tr = [] ∧ a = a'
  | Do c k => ∃ x tr', tr = Ev c x :: tr' ∧ runs (k x) tr' a
  end.

(** Execution against an environment that answers from its state. *)
Fixpoint run {S A} (env : ∀ c, S → ans c * S) (p : prog A) (s : S) : list event * A * S :=
  match p with
  | Ret a => ([], a, s)
  | Do c k =>
      let '(x, s') := env c s in
      let '(tr, a, s'') := run env (k x) s' in
      (Ev c x :: tr, a, s'')
  end.

Lemma run_eta {S A} (r : list event * A * S) : r = (r.1.1, r.1.2, r.2).
Proof. by destruct r as [[? ?] ?]. Qed.

Lemma run_runs {S A} (env : ∀ c, S → ans c * S) (p : prog A) s tr a s' :
  run env p s = (tr, a, s') → runs p tr a.
Proof.
  revert s tr s'. induction p as [a0|c k IH]; intros s tr s' E; simpl in *; [by simplify_eq|].
  destruct (env c s) as [x s1]. destruct (run env (k x) s1) as [[tr1 a1] s2] eqn:R. simplify_eq.
  eexists _, _. split; [done|]. by eapply IH.
Qed.

Lemma run_bind {S A B} (env : ∀ c, S → ans c * S) (p : prog A) (f : A → prog B) s :
  run env (p ≫= f) s =
  let '(tr, a, s') := run env p s in let '(tr', b, s'') := run env (f a) s' in (tr ++ tr', b, s'').
Proof.
  revert s. induction p as [a|c k IH]; intros s; simpl.
  - by destruct (run env (f a) s) as [[? ?] ?].
  - destruct (env c s) as [x s1]. unfold mbind, prog_mbind in IH. rewrite IH.
    destruct (run env (k x) s1) as [[tr a] s2]. by destruct (run env (f a) s2) as [[? ?] ?].
Qed.

(** Every pattern of answers is an execution: programs always return. *)
Lemma runs_total {A} (p : prog A) (answer : ∀ c, ans c) : ∃ tr a, runs p tr a.
Proof.
  destruct (run (λ c (_ : unit), (answer c, tt)) p tt) as [[tr a] s] eqn:E.
  exists tr, a. by eapply run_runs.
Qed.

Lemma runs_ret {A} (a a' : A) tr : runs (mret a : prog A) tr a' ↔ tr = [] ∧ a' = a.
Proof. done. Qed.

Lemma runs_call {A} c (k : ans c → prog A) tr a :
  runs (call c ≫= k) tr a ↔ ∃ x tr', tr = Ev c x :: tr' ∧ runs (k x) tr' a.
Proof. done. Qed.

Lemma runs_bind {A B} (p : prog A) (f : A → prog B) tr b :
  runs (p ≫= f) tr b ↔ ∃ tr1 tr2 a, tr = tr1 ++ tr2 ∧ runs p tr1 a ∧ runs (f a) tr2 b.
Proof.
  revert tr. induction p as [a|c k IH]; intros tr; simpl.
  - split.
    + intros R. by exists [], tr, a.
    + by intros (tr1 & tr2 & a' & -> & [-> ->] & R).
  - split.
    + intros (x & tr' & -> & R). apply IH in R as (tr1 & tr2 & a & -> & R1 & R2).
      exists (Ev c x :: tr1), tr2, a. eauto 10.
    + intros (tr1 & tr2 & a & -> & (x & tr' & -> & R1) & R2). exists x, (tr' ++ tr2).
      split; [done|]. apply IH. eauto 10.
Qed.

(** ** Executions under way

    [steps p tr p']: with the answers recorded in [tr], [p] has made the calls of [tr]
    and is about to continue as [p']. *)
Fixpoint steps {A} (p : prog A) (tr : list event) (p' : prog A) : Prop :=
  tr = [] ∧ p' = p
  ∨ match p with
    | Ret _ => False
    | Do c k => ∃ x tr', tr = Ev c x :: tr' ∧ steps (k x) tr' p'
    end.

Lemma runs_steps {A} (p : prog A) tr a : runs p tr a ↔ steps p tr (Ret a).
Proof.
  revert tr. induction p as [a'|c k IH]; intros tr; simpl.
  - split; [intros [-> ->]; by left|]. intros [[-> E]|[]]. by simplify_eq.
  - split.
    + intros (x & tr' & -> & R). right. exists x, tr'. split; [done|]. by apply IH.
    + intros [[_ E]|(x & tr' & -> & R)]; [done|]. exists x, tr'. split; [done|]. by apply IH.
Qed.

(** [safe Q h p]: whatever the answers, every call [p] makes satisfies [Q] together with
    the events before it, of which [h] came before [p]. *)
Fixpoint safe {A} (Q : list event → cmd → Prop) (h : list event) (p : prog A) : Prop :=
  match p with
  | Ret _ => True
  | Do c k => Q h c ∧ ∀ x, safe Q (h ++ [Ev c x]) (k x)
  end.

(** [only P p]: whatever the answers, [p] makes only calls that satisfy [P]. *)
Abbreviation only P := (safe (λ _ c, P c) []).

(** [returns P p]: whatever the answers, [p] returns a value that satisfies [P]. *)
Fixpoint returns {A} (P : A → Prop) (p : prog A) : Prop :=
  match p with
  | Ret a => P a
  | Do c k => ∀ x, returns P (k x)
  end.

Lemma returns_runs {A} (P : A → Prop) (p : prog A) tr a : returns P p → runs p tr a → P a.
Proof.
  revert tr. induction p as [a'|c k IH]; intros tr S R; simpl in *; [by destruct R as [_ ->]|].
  destruct R as (x & tr' & _ & R). by eapply IH.
Qed.

Lemma safe_bind_returns {A B} Q P h (p : prog A) (f : A → prog B) :
  returns P p → (∀ h', safe Q h' p) → (∀ a h', P a → safe Q h' (f a)) → safe Q h (p ≫= f).
Proof.
  intros R S F. specialize (S h). revert h S. induction p as [a|c k IH]; intros h S; [by apply F|].
  destruct S as [Qc S]. split; [done|]. intros x. by apply IH.
Qed.

Lemma returns_true {A} (p : prog A) : returns (λ _, True) p.
Proof. by induction p. Qed.

Lemma safe_bind {A B} Q h (p : prog A) (f : A → prog B) :
  (∀ h', safe Q h' p) → (∀ a h', safe Q h' (f a)) → safe Q h (p ≫= f).
Proof. intros S F. apply (safe_bind_returns Q (λ _, True)); [apply returns_true|done|auto]. Qed.

Lemma returns_bind {A B} (P : B → Prop) (p : prog A) (f : A → prog B) : (∀ a, returns P (f a)) → returns P (p ≫= f).
Proof. intros F. induction p as [a|c k IH]; [apply F|]. intros x. apply IH. Qed.

Lemma safe_map {A B} Q h (p : prog A) (f : A → B) : safe Q h p → safe Q h (a ← p; mret (f a)).
Proof.
  revert h. induction p as [a|c k IH]; intros h S; [done|]. destruct S as [Qc S]. split; [done|]. intros x. by apply IH.
Qed.

Lemma safe_mono {A} (Q Q' : list event → cmd → Prop) h (p : prog A) :
  (∀ h c, Q h c → Q' h c) → safe Q h p → safe Q' h p.
Proof.
  intros M. revert h. induction p as [a|c k IH]; intros h S; [done|]. destruct S as [Qc S]. split; [by apply M|].
  intros x. by apply IH.
Qed.

Lemma safe_any {A} (P : cmd → Prop) h h' (p : prog A) : safe (λ _, P) h p → safe (λ _, P) h' p.
Proof.
  revert h h'. induction p as [a|c k IH]; intros h h' S; [done|]. destruct S as [Qc S]. split; [done|].
  intros x. by eapply IH.
Qed.

(** Programs that make only certain calls compose. *)
Lemma only_bind {A B} P (p : prog A) (f : A → prog B) :
  only P p → (∀ a, only P (f a)) → only P (p ≫= f).
Proof. intros S F. apply safe_bind; [intros h'|intros a h']; eapply safe_any; [apply S|apply F]. Qed.

Lemma safe_steps {A} Q (p : prog A) h tr p' tr1 c x tr2 :
  safe Q h p → steps p tr p' → tr = tr1 ++ Ev c x :: tr2 → Q (h ++ tr1) c.
Proof.
  revert h tr tr1. induction p as [a|c' k IH]; intros h tr tr1 S T ->; simpl in *.
  - destruct T as [[E _]|[]]. by destruct tr1.
  - destruct T as [[E _]|(y & tr' & E & T)]; [by destruct tr1|]. destruct S as [Qc S].
    destruct tr1 as [|e tr1]; cbn in E.
    + apply (f_equal (λ l, ev_cmd <$> head l)) in E. injection E as ->. by rewrite app_nil_r.
    + injection E as -> <-.
      specialize (IH y _ _ tr1 (S y) T eq_refl). by rewrite <- app_assoc in IH.
Qed.

Lemma safe_runs {A} Q (p : prog A) h tr a tr1 c x tr2 :
  safe Q h p → runs p tr a → tr = tr1 ++ Ev c x :: tr2 → Q (h ++ tr1) c.
Proof. intros S R%runs_steps. by apply (safe_steps Q p h tr (Ret a)). Qed.

Lemma only_runs {A} P (p : prog A) tr a c x : only P p → runs p tr a → Ev c x ∈ tr → P c.
Proof. intros S R I. apply list_elem_of_split in I as (t1 & t2 & E). by eapply (safe_runs _ _ [] _ _ _ _ _ _ S R). Qed.

Lemma steps_prefix {A} (p : prog A) tr tr' p' : steps p (tr ++ tr') p' → ∃ p1, steps p tr p1.
Proof.
  revert tr. induction p as [a|c k IH]; intros tr T; (destruct tr as [|e tr]; [eexists; simpl; by left|]).
  - by destruct T as [[? _]|[]].
  - destruct T as [[? _]|(x & t & E & T)]; [done|]. injection E as -> <-. destruct (IH x _ T) as [p1 T1].
    exists p1. simpl. right. eauto.
Qed.

(** An execution under way can go on to the end, whatever answers come. *)
Lemma steps_extend {A} (p : prog A) tr p' (answer : ∀ c, ans c) :
  steps p tr p' → ∃ tr' a, runs p (tr ++ tr') a.
Proof.
  revert tr. induction p as [a|c k IH]; intros tr T; simpl in T.
  - destruct T as [[-> _]|[]]. by exists [], a.
  - destruct T as [[-> _]|(x & tr1 & -> & T)].
    + destruct (runs_total (Do c k) answer) as (tr' & a & R). by exists tr', a.
    + destruct (IH x tr1 T) as (tr' & a & R). exists tr', a. cbn. eauto.
Qed.

(** A call of a concatenation is a call of one of the parts. *)
Lemma split_call {A} (t1 t2 pre post : list A) (e : A) :
  t1 ++ t2 = pre ++ e :: post →
  (∃ q, t1 = pre ++ e :: q ∧ post = q ++ t2) ∨ (∃ p, pre = t1 ++ p ∧ t2 = p ++ e :: post).
Proof.
  revert pre. induction t1 as [|a t1 IH]; intros pre E; [right; by exists pre|].
  destruct pre as [|b pre]; cbn in E; injection E as -> E.
  - left. by exists t1.
  - destruct (IH pre E) as [(q & -> & ->)|(p & -> & ->)]; [left|right]; eauto.
Qed.

Lemma head_call c (y : ans c) t e t' : Ev c y :: t = e :: t' → c = ev_cmd e.
Proof. by intros [= <- _]. Qed.

(** Calls that leave tool calls, decisions and people alone: nothing is held, decided,
    replayed, sent upstream or appended to the ledger, no sign-in begins or ends, and no
    email is remembered. *)
Definition passive (c : cmd) : Prop :=
  match c with
  | CForward _ | CSend _ | CCreate _ _ _ _ _ _ | CApprove _ _ | CDeny _ _ _ | CClaim _ | CMarkReplayed _
  | CMarkReplayFailed _ | CReturnToApproved _ | CRecover | CAppend _ | CEmailPut _ _ _ | CCreateLogin _ _ _ _ _
  | CConsumeLogin _ | CCreateSession _ _ _ _ _ | CRevokeSession _ => False
  | _ => True
  end.

(** ** Bounding the calls of one kind

    [calls_le P n p]: whatever the answers, [p] makes at most [n] calls that satisfy [P]. *)

Fixpoint calls_le {A} (P : cmd → bool) (n : nat) (p : prog A) : Prop :=
  match p with
  | Ret _ => True
  | Do c k =>
      if P c then match n with S m => ∀ x, calls_le P m (k x) | O => False end
      else ∀ x, calls_le P n (k x)
  end.

Lemma calls_le_mono {A} (P : cmd → bool) (p : prog A) n m : (n ≤ m)%nat → calls_le P n p → calls_le P m p.
Proof.
  revert n m. induction p as [a|c k IH]; intros n m L S; simpl in *; [done|].
  destruct (P c); [|intros x; by eapply IH].
  destruct n as [|n]; [done|]. destruct m as [|m]; [lia|]. intros x. eapply (IH x n); [lia|apply S].
Qed.

Lemma calls_le_bind {A B} (P : cmd → bool) (p : prog A) (f : A → prog B) n m :
  calls_le P n p → (∀ a, calls_le P m (f a)) → calls_le P (n + m) (p ≫= f).
Proof.
  revert n. induction p as [a|c k IH]; intros n S F; simpl in *.
  - eapply calls_le_mono; [|apply F]. lia.
  - destruct (P c); [|intros x; by apply IH].
    destruct n as [|n]; [done|]. simpl. intros x. by apply IH.
Qed.

(** A bind of which only one side sends. *)
Lemma calls_le_bind_l {A B} (P : cmd → bool) (p : prog A) (f : A → prog B) n :
  calls_le P n p → (∀ a, calls_le P 0 (f a)) → calls_le P n (p ≫= f).
Proof. intros S F. rewrite <- (Nat.add_0_r n). by apply calls_le_bind. Qed.
Lemma calls_le_bind_r {A B} (P : cmd → bool) (p : prog A) (f : A → prog B) n :
  calls_le P 0 p → (∀ a, calls_le P n (f a)) → calls_le P n (p ≫= f).
Proof. intros S F. by apply (calls_le_bind P p f 0 n). Qed.

(** The quiet environment, to evaluate programs on examples: nothing fails and nothing
    is found.  A concrete environment answers some calls itself. *)
Definition quiet_answer (c : cmd) : ans c :=
  match c return ans c with
  | CNow => 0
  | CCtxErr => false
  | CEvaluate _ => Ok (mkDecision ActionDeny "" "" "")
  | CForward _ => Ok (mkResponse 200 [] BNone)
  | CSend _ | CPost _ _ _ | CReply _ _ | CHttpGet _ => Ok 200
  | CCreate _ _ _ _ _ _ => Ok ""
  | CGet _ | CGetRow _ => Err (errors_New "none")
  | CList _ | CClaim _ | CClaimDue _ _ => Ok []
  | CRecover => Ok 0
  | CTryLock => Ok true
  | CUnlock => tt
  | CSlack _ _ _ _ => Ok (200, "")
  | CRandomBytes | CGenerateVerifier | CPolicyVersion => ""
  | CConsumeLogin _ | CExchange _ _ | CVerifyToken _ | CGetSession _ _ => Err (errors_New "none")
  | CListPolicies | CQueryLedger | CLedgerPage _ => Ok []
  | CPolicyReady | CAllow _ | CClient | CReady | CWait _ | CAcquireScan => true
  | CEmailGet _ => None
  | CEmailPut _ _ _ | CReleaseScan | CDrain | CCancelWorkers | CSleep _ => tt
  | CLedgerHead => Ok None
  | CLedgerStream _ => ([], None)
  | CVerifyChain _ => Ok (Ledger.mkReport true 0 0 "" 0 "")
  | CStats => Ok (0, 0)
  | CCreateLogin _ _ _ _ _ | CCreateSession _ _ _ _ _ | CTouchSession _ | CRevokeSession _
  | CDeleteExpiredLogins | CDeleteExpiredSessions | CDiscover | CPolicyReload | CPing
  | CPublish _ _ _ | CAppend _ | CApprove _ _ | CDeny _ _ _ | CMarkReplayed _ | CMarkReplayFailed _
  | CReturnToApproved _ | CEnqueueHeld _ | CMarkDelivered _ _ | CMarkFailed _ _ _ _
  | CBeginTx | CShutdown _ => None
  end.

(** ** Selecting the calls of one kind *)

(** The requests a program sent upstream, in order. *)
Definition upstream_of (e : event) : list OutRequest :=
  match e with Ev (CForward o) _ | Ev (CSend o) _ => [o] | _ => [] end.
Definition upstream (tr : list event) : list OutRequest := concat (map upstream_of tr).

(** The ledger entries that were appended, and those that were attempted. *)
Definition appended_of (e : event) : list LedgerEntry :=
  match e with Ev (CAppend l) None => [l] | _ => [] end.
Definition appended (tr : list event) : list LedgerEntry := concat (map appended_of tr).

Lemma upstream_app tr tr' : upstream (tr ++ tr') = upstream tr ++ upstream tr'.
Proof. unfold upstream. by rewrite map_app, concat_app. Qed.
Lemma appended_app tr tr' : appended (tr ++ tr') = appended tr ++ appended tr'.
Proof. unfold appended. by rewrite map_app, concat_app. Qed.
Lemma appended_elem row tr : row ∈ appended tr → Ev (CAppend row) None ∈ tr.
Proof.
  unfold appended. rewrite list_elem_of_In, in_concat. intros (l & J & R). apply in_map_iff in J as (e & <- & J).
  destruct e as [[] y]; try done. destruct y; [done|]. destruct R as [->|[]]. by apply list_elem_of_In.
Qed.

(** The policy evaluations, the quarantine items created, and every attempted append. *)
Definition evaluated_of (e : event) : list (EvalInput * result ProxyDecision) :=
  match e with Ev (CEvaluate i) d => [(i, d)] | _ => [] end.
Definition evaluated (tr : list event) := concat (map evaluated_of tr).
Definition created_of (e : event) : list (cmd * result string) :=
  match e with Ev (CCreate a t p h ru ex) c => [(CCreate a t p h ru ex, c)] | _ => [] end.
Definition created (tr : list event) := concat (map created_of tr).

(** The only upstream call of a trace splits it in one way. *)
Lemma upstream_last t o (x : ans (CForward o)) pre o' (x' : ans (CForward o')) post :
  upstream t = [] → t ++ [Ev (CForward o) x] = pre ++ Ev (CForward o') x' :: post →
  pre = t ∧ post = [] ∧ o' = o.
Proof.
  revert pre. induction t as [|e t IH]; intros pre U E.
  - destruct pre as [|e pre]; simpl in E.
    + injection E as E1 E2. by subst.
    + injection E as _ E. by destruct pre.
  - destruct pre as [|e' pre].
    + injection E as -> _. done.
    + injection E as -> E. unfold upstream in *. simpl in U. apply app_eq_nil in U as [_ U].
      by destruct (IH pre U E) as (-> & -> & ->).
Qed.

Lemma upstream_unique t t' o (x : ans (CSend o)) pre o' (x' : ans (CSend o')) post :
  upstream t = [] → upstream t' = [] → t ++ Ev (CSend o) x :: t' = pre ++ Ev (CSend o') x' :: post →
  pre = t ∧ post = t' ∧ o' = o ∧ (x' : result Z) = x.
Proof.
  intros U U'. revert pre. induction t as [|e t IH]; intros pre E.
  - destruct pre as [|e pre]; simpl in E.
    + assert (Some (x : result Z) = Some (x' : result Z)) as Ex.
      { exact (f_equal (λ l, match l with Ev (CSend _) z :: _ => Some z | _ => None end) E). }
      injection E as E1 E2. injection Ex as ->. by subst.
    + injection E as _ ->. exfalso. rewrite upstream_app in U'. by destruct (upstream pre).
  - destruct pre as [|e' pre].
    + injection E as -> _. done.
    + injection E as -> E. unfold upstream in U. simpl in U. apply app_eq_nil in U as [_ U].
      by destruct (IH U pre E) as (-> & -> & -> & ->).
Qed.

(** The transitions of claimed rows a program asked the store for. *)
Inductive move : Type := ToReplayed | ToReplayFailed | ToApproved.
Definition moves_of (e : event) : list (move * string * option error) :=
  match e with
  | Ev (CMarkReplayed id) x => [(ToReplayed, id, x)]
  | Ev (CMarkReplayFailed id) x => [(ToReplayFailed, id, x)]
  | Ev (CReturnToApproved id) x => [(ToApproved, id, x)]
  | _ => []
  end.
Definition moves (tr : list event) : list (move * string * option error) := concat (map moves_of tr).
Lemma moves_app tr tr' : moves (tr ++ tr') = moves tr ++ moves tr'.
Proof. unfold moves. by rewrite map_app, concat_app. Qed.
