(* ===== verification/Interleave.v ===== *)
(** * Logs of interleaved programs

    Any number of programs run at once: requests being served, workers, background
    loops.  A log lists all their calls, one after the other, in whatever order they
    interleave, each with its answer, its program and the time of the database.  What a
    component's statements leave behind is a relation between a log and its tables; what
    its programs do is a property of every program's own calls. *)

From S2P Require Import Prelude Types Effects.
From stdpp Require Import base tactics list.
From Stdlib Require Import ZArith Lia.

Local Open Scope Z_scope.

(** A call: the database's time, the program that made it, and the answer. *)
Record entry : Type := mkEntry { en_at : Z; en_task : nat; en_event : event }.

(** The calls of one program. *)
Definition events_of (i : nat) (log : list entry) : list event :=
  map en_event (List.filter (λ e, Nat.eqb (en_task e) i) log).

Lemma events_of_app i l l' : events_of i (l ++ l') = events_of i l ++ events_of i l'.
Proof. unfold events_of. by rewrite List.filter_app, map_app. Qed.

Lemma events_of_cons e l : events_of (en_task e) (e :: l) = en_event e :: events_of (en_task e) l.
Proof. unfold events_of. simpl. by rewrite Nat.eqb_refl. Qed.

Lemma events_of_snoc i log e :
  events_of i (log ++ [e]) = if decide (en_task e = i) then events_of i log ++ [en_event e] else events_of i log.
Proof.
  rewrite events_of_app. destruct (decide (en_task e = i)) as [<-|N]; [by rewrite events_of_cons|].
  unfold events_of at 2. cbn. rewrite (proj2 (Nat.eqb_neq _ _) N). apply app_nil_r.
Qed.

Lemma events_of_elem i log ev : ev ∈ events_of i log → ∃ e, e ∈ log ∧ en_task e = i ∧ en_event e = ev.
Proof.
  unfold events_of. rewrite list_elem_of_In, in_map_iff. intros (e & E & I). apply filter_In in I as [I T].
  exists e. split_and!; [by apply list_elem_of_In|by apply Nat.eqb_eq|done].
Qed.

Lemma events_of_split i log t1 ev t2 :
  events_of i log = t1 ++ ev :: t2 →
  ∃ l1 e l2, log = l1 ++ e :: l2 ∧ events_of i l1 = t1 ∧ en_event e = ev ∧ en_task e = i.
Proof.
  revert t1. induction log as [|e log IH]; intros t1 E; [by destruct t1|].
  unfold events_of in E. cbn in E. destruct (Nat.eqb_spec (en_task e) i) as [T|T].
  - destruct t1 as [|ev' t1]; cbn in E; injection E as E1 E2.
    + by exists [], e, log.
    + destruct (IH t1 E2) as (l1 & e' & l2 & -> & <- & ? & ?). exists (e :: l1), e', l2. split_and!; try done.
      unfold events_of. cbn. rewrite (proj2 (Nat.eqb_eq _ _) T). cbn. by rewrite E1.
  - destruct (IH t1 E) as (l1 & e' & l2 & -> & <- & ? & ?). exists (e :: l1), e', l2. split_and!; try done.
    unfold events_of. cbn. by rewrite (proj2 (Nat.eqb_neq _ _) T).
Qed.

Lemma events_of_around i log t1 ev t2 :
  events_of i log = t1 ++ ev :: t2 →
  ∃ l1 e l2, log = l1 ++ e :: l2 ∧ events_of i l1 = t1 ∧ en_event e = ev ∧ en_task e = i ∧ events_of i l2 = t2.
Proof.
  intros E. destruct (events_of_split i log t1 ev t2 E) as (l1 & e & l2 & -> & E1 & Ee & T). exists l1, e, l2.
  split_and!; try done. rewrite events_of_app, E1 in E. apply app_inv_head in E. rewrite <- T in E.
  rewrite events_of_cons in E. rewrite <- T. congruence.
Qed.

Lemma events_of_split_app i log t1 t2 :
  events_of i log = t1 ++ t2 → ∃ l1 l2, log = l1 ++ l2 ∧ events_of i l1 = t1 ∧ events_of i l2 = t2.
Proof.
  destruct t2 as [|ev t2]; intros E; [rewrite app_nil_r in E; exists log, []; by rewrite app_nil_r|].
  destruct (events_of_split i log t1 ev t2 E) as (l1 & e & l2 & -> & E1 & _). exists l1, (e :: l2). split_and!; try done.
  rewrite events_of_app, E1 in E. by apply app_inv_head in E.
Qed.

Lemma events_of_stamp i j t tr : events_of i (map (mkEntry t j) tr) = if Nat.eqb j i then tr else [].
Proof.
  unfold events_of. induction tr as [|ev tr IH]; cbn; [by destruct (Nat.eqb j i)|].
  destruct (Nat.eqb j i) eqn:E; cbn; by rewrite IH.
Qed.

(** ** What a log leaves behind *)

Section after.
Context {S : Type} (step : S → entry → S → Prop) (start : S).

(** The states a log can lead to, one call after the other. *)
Inductive after : list entry → S → Prop :=
  | after_start : after [] start
  | after_call log s e s' : after log s → step s e s' → after (log ++ [e]) s'.

Lemma after_snoc log e s' : after (log ++ [e]) s' → ∃ s, after log s ∧ step s e s'.
Proof.
  intros F. inversion F as [E|log0 s e0 s0 F0 St E]; [by destruct log|]. apply app_inj_tail in E as [-> ->]. eauto.
Qed.

Lemma after_prefix l1 l2 s : after (l1 ++ l2) s → ∃ s1, after l1 s1.
Proof.
  revert s. induction l2 as [|e l2 IH] using rev_ind; intros s F; [rewrite app_nil_r in F; eauto|].
  rewrite app_assoc in F. apply after_snoc in F as (s0 & F & _). by eapply IH.
Qed.

Lemma after_split l1 e l2 s : after (l1 ++ e :: l2) s → ∃ s1 s2, after l1 s1 ∧ step s1 e s2.
Proof.
  intros F. change (e :: l2) with ([e] ++ l2) in F. rewrite app_assoc in F. apply after_prefix in F as [s2 F].
  apply after_snoc in F as (s1 & F & St). eauto.
Qed.
End after.

(** ** Programs and logs *)

(** A program of any result. *)
Inductive program : Type := Prog (A : Type) (p : prog A).
Arguments Prog {A} p.

Definition program_steps (p : program) (tr : list event) : Prop :=
  match p with Prog p => ∃ p', steps p tr p' end.
Definition program_runs (p : program) (tr : list event) : Prop :=
  match p with Prog p => ∃ a, runs p tr a end.
Definition program_safe (Q : list event → cmd → Prop) (p : program) : Prop :=
  match p with Prog p => safe Q [] p end.

Section interleaving.
Context {task : Type} (program_of : task → program).

(** The log interleaves the calls of the tasks, each of which is under way or has ended. *)
Definition interleaves (tasks : list task) (log : list entry) : Prop :=
  (∀ e, e ∈ log → is_Some (tasks !! en_task e))
  ∧ ∀ i tk, tasks !! i = Some tk → program_steps (program_of tk) (events_of i log).

Lemma interleaves_prefix tasks l1 l2 : interleaves tasks (l1 ++ l2) → interleaves tasks l1.
Proof.
  intros [D S]. split; [intros e J; apply D; apply elem_of_app; by left|]. intros i tk T. specialize (S i tk T).
  rewrite events_of_app in S. destruct (program_of tk) as [A p]. destruct S as [p' S]. exact (steps_prefix _ _ _ _ S).
Qed.

Lemma interleaves_idle tasks log i : interleaves tasks log → tasks !! i = None → events_of i log = [].
Proof.
  intros [D _] N. destruct (events_of i log) as [|ev tr] eqn:E; [done|].
  destruct (events_of_elem i log ev) as (e & J & T & _); [rewrite E; by left|].
  destruct (D e J) as [tk X]. congruence.
Qed.

Variables (tasks : list task) (log : list entry).
Hypothesis I : interleaves tasks log.

(** The program of a call, and how its own run goes on from there. *)
Lemma interleaves_runs l1 e l2 :
  log = l1 ++ e :: l2 →
  ∃ tk tr, tasks !! en_task e = Some tk
    ∧ program_runs (program_of tk) (events_of (en_task e) l1 ++ en_event e :: tr).
Proof.
  intros ->. destruct I as [D S]. destruct (D e) as [tk T]; [apply elem_of_app; right; by left|].
  pose proof (S _ _ T) as X. rewrite events_of_app, events_of_cons in X. exists tk.
  destruct (program_of tk) as [A p]. destruct X as [p' X].
  destruct (steps_extend _ _ _ quiet_answer X) as (tr' & a & R). rewrite <- app_assoc in R.
  exists (events_of (en_task e) l2 ++ tr'). split; [done|]. by exists a.
Qed.

(** Every call of an interleaving is made by a task that may make it. *)
Lemma interleaves_safe (guard : task → list event → cmd → Prop) l1 e l2 :
  (∀ tk, program_safe (guard tk) (program_of tk)) → log = l1 ++ e :: l2 →
  ∃ tk, tasks !! en_task e = Some tk ∧ guard tk (events_of (en_task e) l1) (ev_cmd (en_event e)).
Proof.
  intros G E. destruct (interleaves_runs _ _ _ E) as (tk & tr & T & R). exists tk. split; [done|].
  specialize (G tk). destruct (program_of tk) as [A p]. destruct R as [a R]. destruct (en_event e) as [c x].
  exact (safe_runs _ _ [] _ _ _ _ _ _ G R eq_refl).
Qed.
End interleaving.
