(* ===== verification/LedgerLog.v ===== *)
(** * The audit ledger behind a log

    What the calls of a log do to the ledger of [Ledger] and what they read from it.
    Appends are serialised by the chain's lock, as [LedgerConc] shows, so each is one
    step; any of its attempts may fail or lose its acknowledgement. *)

From S2P Require Import Prelude GoStrings GoTime Types Ledger LedgerEncoding LedgerChain LedgerVerify LedgerSpec Effects Interleave.
From stdpp Require Import base tactics strings list sorting.
From Stdlib Require Import ZArith Lia.

Local Open Scope Z_scope.

Import Ledger.

Module LedgerLog.

(** The error a Go function returns for a result without a value. *)
Definition error_of (r : result unit) : option error := match r with Ok _ => None | Err e => Some e end.

Definition ledger_step (t : list LedgerEntry) (e : entry) (t' : list LedgerEntry) : Prop :=
  match en_event e with
  | Ev (CAppend row) x => ∃ env r, serialization_rolls_back env ∧ Append env t row = (r, t') ∧ x = error_of r
  | Ev (CLedgerPage page) x => (x = Ok (Page page t) ∨ is_ok (x : result _) = false) ∧ t' = t
  | Ev CLedgerHead x => (∃ fault, x = Head fault t) ∧ t' = t
  | Ev (CLedgerStream from) x => (∃ fails, x = Stream from (λ rows e, (rows ++ [e], None)) fails t []) ∧ t' = t
  | Ev (CVerifyChain anchor) x => (∃ fails, scan_errors fails ∧ x = VerifyChain anchor fails t) ∧ t' = t
  | Ev CQueryLedger x => (x = Ok (Query t) ∨ is_ok (x : result _) = false) ∧ t' = t
  | Ev CStats x => ((∃ today, x = Ok (Stats today t)) ∨ is_ok (x : result _) = false) ∧ t' = t
  | _ => t' = t
  end.
Abbreviation ledger_after := (after ledger_step []).

(** The row an append leaves, whatever its place in the chain. *)
Definition recorded (row : LedgerEntry) (t : list LedgerEntry) : Prop :=
  ∃ r, r ∈ t ∧ le_Agent r = le_Agent row ∧ le_Tool r = le_Tool row ∧ le_Decision r = le_Decision row
    ∧ le_PolicyRule r = le_PolicyRule row ∧ le_PayloadHash r = le_PayloadHash row
    ∧ le_RequestID r = le_RequestID row ∧ le_PolicyVersion r = le_PolicyVersion row.

Lemma linked_recorded t tip now row : recorded row (t ++ [link_entry tip now row]).
Proof.
  exists (link_entry tip now row). split; [apply elem_of_app; right; by left|]. destruct tip. by split_and!.
Qed.

(** A step adds at most one row, the caller's, at the end. *)
Lemma step_grows t e t' :
  chain_ok t → has_room t → ledger_step t e t' →
  t' = t ∨ ∃ row tip now, ev_cmd (en_event e) = CAppend row ∧ t' = t ++ [link_entry tip now row].
Proof.
  intros C R. unfold ledger_step. destruct (en_event e) as [c x]. cbn [ev_cmd].
  destruct c; try (intros ->; by left); try (intros [_ ->]; by left). intros (env & r & S & A & _).
  pose proof (Append_outcome env t entry S C R) as O. rewrite A in O. cbn [fst snd] in O. destruct r as [[]|err].
  - destruct O as [now ->]. right. eauto.
  - destruct O as [->|(i & _ & ->)]; [by left|right; eauto].
Qed.

Lemma step_chain t e t' :
  chain_ok t → has_room t → ledger_step t e t' →
  chain_ok t' ∧ (length t' <= S (length t))%nat ∧ ∀ r, r ∈ t → r ∈ t'.
Proof.
  intros C R St. destruct (step_grows t e t' C R St) as [->|(row & tip & now & E & ->)].
  - split_and!; [done|lia|done].
  - split_and!; [|rewrite length_app; cbn; lia|intros r J; apply elem_of_app; by left].
    unfold ledger_step in St. destruct (en_event e) as [c x]. cbn in E. subst c. destruct St as (env & r & S & A & _).
    assert (snd (Append env t row) = t ++ [link_entry tip now row]) as <- by (by rewrite A).
    pose proof (Append_outcome env t row S C R) as O.
    destruct (fst (Append env t row)) as [[]|err] eqn:F.
    + destruct O as [n ->]. by apply (insert_chain t n row).
    + destruct O as [->|(i & _ & ->)]; [done|]. by apply (insert_chain t (ae_now (re_attempt env i)) row).
Qed.

(** The ledger behind a log is a chain, with room as long as the log is not longer than
    the sequence numbers. *)
Lemma ledger_chain log t :
  ledger_after log t → Z.of_nat (length log) < max_int64 → chain_ok t ∧ (length t <= length log)%nat.
Proof.
  intros F. induction F as [|log t e t' F IH St]; intros B; [split; [apply chain_ok_nil|done]|].
  rewrite length_app in *. cbn in *. destruct IH as [C L]; [lia|].
  destruct (step_chain t e t' C) as (C' & L' & _); [unfold has_room; lia|done|]. split; [done|lia].
Qed.

(** What was appended with an acknowledgement stays. *)
Lemma ledger_records log t l1 e l2 row :
  ledger_after log t → Z.of_nat (length log) < max_int64 → log = l1 ++ e :: l2 → en_event e = Ev (CAppend row) None →
  recorded row t.
Proof.
  intros F. revert l2. induction F as [|log t c t' F IH St]; intros l2 B E Ee; [by destruct l1|].
  rewrite length_app in B. cbn in B. assert (Z.of_nat (length log) < max_int64) as B' by lia.
  destruct (ledger_chain _ _ F B') as [C L]. assert (has_room t) as R by (unfold has_room; lia).
  destruct l2 as [|x l2 _] using rev_ind.
  - apply app_inj_tail in E as [-> ->]. unfold ledger_step in St. rewrite Ee in St.
    destruct St as (env & r & S & A & Er). destruct r as [[]|err]; [|done].
    pose proof (Append_outcome env t row S C R) as O. rewrite A in O. cbn [fst snd] in O. destruct O as [now ->]. apply linked_recorded.
  - rewrite app_comm_cons, app_assoc in E. apply app_inj_tail in E as [-> ->].
    destruct (IH l2 B' eq_refl Ee) as (r & J & K). exists r. split; [|done]. by eapply step_chain.
Qed.

(** A verification that answers finds the chain in order. *)
Lemma verifications_valid log t l1 e l2 r :
  ledger_after log t → Z.of_nat (length log) < max_int64 → log = l1 ++ e :: l2 →
  en_event e = Ev (CVerifyChain None) (Ok r) → vr_Valid r = true.
Proof.
  intros F B -> Ee. destruct (after_split _ _ _ _ _ _ F) as (t1 & t2 & F1 & St). unfold ledger_step in St. rewrite Ee in St.
  destruct St as [(fails & S & V) _]. rewrite length_app in B. destruct (ledger_chain _ _ F1) as [C _]; [lia|].
  symmetry in V. by apply (VerifyChain_answers None fails t1); [|apply chain_ok_verified|].
Qed.
End LedgerLog.
