(* ===== verification/Opa.v ===== *)
(** * The policy engine

    [internal/opaengine/engine.go].  OPA itself is a parameter: compiling a bundle,
    the modules of a prepared query and its evaluation are functions the engine
    calls.  The policy directory is what the engine reads of the file system; a
    reload reads it more than once, so each reading is an argument of its own. *)

From S2P Require Import Prelude GoStrings Sha256 Types LedgerEncoding.
From stdpp Require Import base tactics strings list gmap pretty sorting.
From Stdlib Require Import ZArith Lia Ascii.

Local Open Scope Z_scope.
Local Open Scope go_scope.

Module Opa.

(** ** The policy directory *)

(** A file or directory met by [filepath.WalkDir]: its slash-separated path relative
    to the policy directory, and what [os.ReadFile] returns. *)
Record FileEntry : Type := mkFile {
  fe_path : string;
  fe_dir : bool;
  fe_content : result string
}.

Inductive policy_dir : Type :=
  | DirMissing
  | DirWalk (walk : result (list FileEntry)).

(** [filepath.Ext] *)
Fixpoint ext_from (cur s : string) : string :=
  match s with
  | EmptyString => cur
  | String c s' =>
      if is_slash c then ext_from "" s' else if is_dot c then ext_from s s' else ext_from cur s'
  end.
Definition file_ext (path : string) : string := ext_from "" path.

Section bundle.
Context `{UnicodeTables}.

Definition is_policy_file (f : FileEntry) : bool :=
  let ext := to_lower (file_ext (fe_path f)) in
  (String.eqb ext ".rego" || String.eqb ext ".json" || String.eqb ext ".yaml" || String.eqb ext ".yml")
  && negb (fe_dir f).

(** [sort.Strings(files)]: the paths share the directory prefix. *)
Definition path_le (a b : FileEntry) : Prop := Is_true (String.leb (fe_path a) (fe_path b)).
#[local] Instance path_le_dec a b : Decision (path_le a b).
Proof. unfold path_le. apply _. Defined.
Definition policy_files (es : list FileEntry) : list FileEntry :=
  merge_sort path_le (filter (λ f, is_policy_file f = true) es).

(** [fmt.Fprintf(digest, "%d:%s;%d:", len(rel), rel, len(content)); digest.Write(content)] *)
Definition enc_file (rel content : string) : string :=
  pretty (N.of_nat (String.length rel)) +:+ (":" +:+ rel +:+ ";"
  +:+ pretty (N.of_nat (String.length content)) +:+ (":" +:+ content)).

Fixpoint digest_files (files : list FileEntry) : result string :=
  match files with
  | [] => Ok ""
  | f :: rest =>
      content ←? fe_content f ;;
      d ←? digest_files rest ;;
      Ok (enc_file (fe_path f) content +:+ d)
  end.

Definition bundleVersion (dir : policy_dir) : result string :=
  match dir with
  | DirMissing => Ok "none"
  | DirWalk walk =>
      es ←? walk ;;
      d ←? digest_files (policy_files es) ;;
      Ok ("sha256:" +:+ take_str 16 (Sha256.hex256 d))
  end.

(** ** [loaderPath] on a slash-separated file system *)

(** Bytes [url.URL.String] leaves alone in a path. *)
Definition url_path_plain (c : ascii) : bool :=
  let v := byte_val c in
  ((48 <=? v) && (v <=? 57)) || ((65 <=? v) && (v <=? 90)) || ((97 <=? v) && (v <=? 122))
  || existsb (Z.eqb v) [45; 95; 46; 126; 36; 38; 43; 44; 47; 58; 59; 61; 64].
Definition hex_upper (n : Z) : ascii := if n <? 10 then byte_of (48 + n) else byte_of (55 + n).
Fixpoint url_escape_path (s : string) : string :=
  match s with
  | EmptyString => ""
  | String c s' =>
      if url_path_plain c then String c (url_escape_path s')
      else String (byte_of 37) (String (hex_upper (byte_val c / 16))
             (String (hex_upper (byte_val c mod 16)) (url_escape_path s')))
  end.
Definition loaderPath (policyDir : string) : string :=
  if negb (has_prefix policyDir "/") then policyDir
  else "file://" +:+ url_escape_path policyDir.

(** ** Compiled bundles *)

(** A module: its package path and its rules, each with its reference and the number
    of arguments of its head. *)
Record Module_ : Type := mkModule { mod_package : string; mod_rules : list (string * nat) }.

Definition decision_path : string := "data.elodea.authz.decision".

Definition hasDecisionPolicy (modules : list Module_) : bool :=
  existsb (λ m, existsb (λ r, Nat.eqb r.2 0 &&
                (String.eqb r.1 decision_path || has_prefix r.1 (decision_path +:+ "."))) (mod_rules m)) modules.

Definition usesLegacyPackage (modules : list Module_) : bool :=
  existsb (λ m, has_prefix (mod_package m) "data.kiterail.authz") modules.

(** ** The engine *)

(** A field of the input document. *)
Inductive inputField : Type :=
  | IString (s : string)
  | IArguments (a : option (list (string * any)))
  | ITime (t : Z).

Definition inputMap (input : EvalInput) : list (string * inputField) :=
  [("schema_version", IString EvalSchemaVersion);
   ("protocol", IString (ei_Protocol input));
   ("protocol_version", IString (ei_ProtocolVersion input));
   ("tool", IString (ei_Tool input));
   ("arguments", IArguments (ei_Arguments input));
   ("agent", IString (ei_Agent input));
   ("timestamp", ITime (ei_Timestamp input));
   ("raw_method", IString (ei_RawMethod input))].

Context {query : Type}.
(** [rego.PreparedEvalQuery.Eval]: the results, each the values of its expressions. *)
Variable eval : query → list (string * inputField) → result (list (list any)).
(** [PreparedEvalQuery.Modules] *)
Variable modules_of : query → list Module_.
(** [rego.New(...).PrepareForEval]: without files, and loading a directory. *)
Variable prepare_empty : result query.
Variable prepare_load : string → policy_dir → result query.

Record Engine : Type := mkEngine {
  e_policyDir : string;
  e_query : option query;
  e_ready : bool;
  e_version : string
}.

Definition invalidPolicyDecision : ProxyDecision :=
  mkDecision ActionDeny "invalid_policy_decision" "Policy engine returned an invalid decision" "".
Definition evalErrorDecision : ProxyDecision :=
  mkDecision ActionDeny "policy_eval_error" "Policy evaluation failed — failing closed" "".
Definition noDecision : ProxyDecision :=
  mkDecision ActionDeny "no_policy_decision" "No policy produced a decision — failing closed" "".

(** [Engine.evaluate] on the outcome of the query. *)
Definition evaluate (rs : result (list (list any))) : ProxyDecision :=
  match rs with
  | Err _ => evalErrorDecision
  | Ok ((expr :: _) :: _) =>
      match expr with
      | AObject fields =>
          let action := default "" (as_string (member "action" fields)) in
          let rule := default "" (as_string (member "rule" fields)) in
          let explanation := default "" (as_string (member "explanation" fields)) in
          if negb (Action_Valid action) || String.eqb (trim_space rule) ""
          then invalidPolicyDecision
          else mkDecision action rule explanation ""
      | _ => invalidPolicyDecision
      end
  | Ok _ => noDecision
  end.

(** [Engine.Evaluate].  The zero query of an engine that never loaded fails to
    evaluate. *)
Definition Evaluate (e : Engine) (input : EvalInput) : result ProxyDecision :=
  let rs := match e_query e with
            | Some q => eval q (inputMap input)
            | None => Err (errors_New "no query")
            end in
  let d := evaluate rs in
  Ok (mkDecision (pd_Action d) (pd_Rule d) (pd_Explanation d) (e_version e)).

Definition err_legacy : error :=
  errors_New "policy bundle declares `package kiterail.authz`; rename it to `package elodea.authz`".

(** [Engine.reload]: [seen] is the directory as fingerprinted, [loaded] as statted and
    compiled afterwards. *)
Definition reload (e : Engine) (seen loaded : policy_dir) : Engine * option error :=
  match bundleVersion seen with
  | Err err => (e, Some (errorf_w "failed to fingerprint policy bundle" err))
  | Ok version =>
      let prepared := match loaded with
                      | DirMissing => prepare_empty
                      | _ => prepare_load (loaderPath (e_policyDir e)) loaded
                      end in
      match prepared with
      | Err err => (e, Some (errorf_w "failed to prepare rego query" err))
      | Ok q =>
          let ready := hasDecisionPolicy (modules_of q) in
          if negb ready && usesLegacyPackage (modules_of q) then (e, Some err_legacy)
          else (mkEngine (e_policyDir e) (Some q) ready version, None)
      end
  end.

(** [Engine.Reload], less the metrics. *)
Definition Reload (e : Engine) (seen loaded : policy_dir) : Engine * option error := reload e seen loaded.

(** [New] *)
Definition New (policyDir : string) (seen loaded : policy_dir) : result Engine :=
  match Reload (mkEngine policyDir None false "") seen loaded with
  | (_, Some err) => Err err
  | (e, None) => Ok e
  end.

Definition Version (e : Engine) : string := e_version e.
Definition Ready (e : Engine) : bool := e_ready e.

(** One tick of [WatchForChanges]: fingerprint, and reload when it changed. *)
Definition watch_tick (e : Engine) (polled seen loaded : policy_dir) : Engine :=
  match bundleVersion polled with
  | Err _ => e
  | Ok current =>
      if String.eqb current (Version e) then e
      else (Reload e seen loaded).1
  end.

(** The loop over the ticks that fire before the context ends. *)
Definition WatchForChanges (e : Engine) (ticks : list (policy_dir * policy_dir * policy_dir)) : Engine :=
  foldl (λ e t, watch_tick e t.1.1 t.1.2 t.2) e ticks.

(** ** Fingerprints bind the bundle *)

Definition read_file (f : FileEntry) : option (string * string) :=
  match fe_content f with Ok c => Some (fe_path f, c) | Err _ => None end.

(** The policy files a reading of the directory shows, in fingerprint order; [None]
    for a missing directory. *)
Definition contents (dir : policy_dir) : option (list (string * string)) :=
  match dir with
  | DirWalk (Ok es) => mapM read_file (policy_files es)
  | _ => None
  end.

Definition enc_bundle (l : list (string * string)) : string :=
  foldr (λ f d, enc_file f.1 f.2 +:+ d) "" l.

(** Two digests that agree on the 64 bits the version keeps, for different texts. *)
Definition truncated_collision (x y : string) : Prop :=
  x ≠ y ∧ take_str 16 (Sha256.hex256 x) = take_str 16 (Sha256.hex256 y).

Lemma digest_files_ok files d :
  digest_files files = Ok d ↔ ∃ l, mapM read_file files = Some l ∧ d = enc_bundle l.
Proof.
  revert d. induction files as [|f files IH]; intros d; simpl.
  - split; [intros [= <-]; by exists []|]. by intros (l & [= <-] & ->).
  - change (read_file f) with (match fe_content f with Ok c => Some (fe_path f, c) | Err _ => None end).
    destruct (fe_content f) as [c|e]; simpl; [|split; [done|by intros (l & ? & _)]].
    split.
    + intros E. apply rbind_ok in E as (d' & E' & [= <-]). apply IH in E' as (l & -> & ->).
      by exists ((fe_path f, c) :: l).
    + intros (l & E & ->). destruct (mapM read_file files) as [l'|]; [|done]. simplify_eq/=.
      rewrite (proj2 (IH (enc_bundle l'))) by (by exists l'). by injection E as <-.
Qed.

Lemma enc_file_inj a x b y r r' :
  enc_file a x +:+ r = enc_file b y +:+ r' → a = b ∧ x = y ∧ r = r'.
Proof.
  unfold enc_file. rewrite !app_str_assoc. intros E.
  apply digits_colon_inj in E as [EL E]; [|apply GoTime.GoTime.pretty_N_digits..].
  apply (inj pretty) in EL. rewrite ?app_str_assoc in E.
  apply app_str_inj_len in E as [-> E]; [|lia]. apply app_str_inj_l in E.
  apply digits_colon_inj in E as [EL' E]; [|apply GoTime.GoTime.pretty_N_digits..].
  apply (inj pretty) in EL'. apply app_str_inj_len in E as [-> E]; [done|lia].
Qed.

Lemma enc_bundle_inj l l' : enc_bundle l = enc_bundle l' → l = l'.
Proof.
  assert (∀ a x r, enc_file a x +:+ r ≠ "") as Hne.
  { intros a x r E. apply (f_equal String.length) in E. unfold enc_file in E.
    rewrite !length_app_str in E. simpl in E. lia. }
  revert l'. induction l as [|[a x] l IH]; intros [|[b y] l'] E; simpl in E; [done| | |].
  - by apply (eq_sym (y:=_)), Hne in E.
  - by apply Hne in E.
  - apply enc_file_inj in E as (-> & -> & E). by rewrite (IH l' E).
Qed.

Lemma bundleVersion_ok dir v :
  bundleVersion dir = Ok v →
  (dir = DirMissing ∧ v = "none")
  ∨ ∃ l, contents dir = Some l ∧ v = "sha256:" +:+ take_str 16 (Sha256.hex256 (enc_bundle l)).
Proof.
  destruct dir as [|[es|e]]; simpl; [intros [= <-]; by left| |done].
  intros E. apply rbind_ok in E as (d & E & [= <-]). apply digest_files_ok in E as (l & -> & ->). eauto.
Qed.

Lemma bundleVersion_binds a b v :
  bundleVersion a = Ok v → bundleVersion b = Ok v →
  contents a = contents b
  ∨ ∃ l l', contents a = Some l ∧ contents b = Some l' ∧ truncated_collision (enc_bundle l) (enc_bundle l').
Proof.
  intros Ea Eb. apply bundleVersion_ok in Ea as [[-> ->]|(l & Ca & ->)];
    apply bundleVersion_ok in Eb as [[-> Ev]|(l' & Cb & Ev)]; try done; [by left|].
  apply app_str_inj_l in Ev. destruct (decide (l = l')) as [->|N]; [left; congruence|right].
  exists l, l'. split; [done|]. split; [done|]. split; [|done]. intros E. by apply N, enc_bundle_inj.
Qed.

(** ** What the engine publishes *)

(** [loaded] compiles to [q]. *)
Definition compiles (policyDir : string) (loaded : policy_dir) (q : query) : Prop :=
  match loaded with
  | DirMissing => prepare_empty
  | _ => prepare_load (loaderPath policyDir) loaded
  end = Ok q
  ∧ (hasDecisionPolicy (modules_of q) = true ∨ usesLegacyPackage (modules_of q) = false).

(** The engine serves the bundle compiled from [loaded] under the version of [seen]. *)
Definition serves (e : Engine) (seen loaded : policy_dir) : Prop :=
  ∃ q, compiles (e_policyDir e) loaded q ∧ bundleVersion seen = Ok (e_version e)
       ∧ e_query e = Some q ∧ e_ready e = hasDecisionPolicy (modules_of q).

Lemma reload_spec e seen loaded :
  match reload e seen loaded with
  | (e', None) => serves e' seen loaded ∧ e_policyDir e' = e_policyDir e
  | (e', Some _) => e' = e ∧ ∀ v q, bundleVersion seen = Ok v → ¬ compiles (e_policyDir e) loaded q
  end.
Proof.
  unfold reload, serves, compiles. destruct (bundleVersion seen) as [v|err] eqn:V; simpl; [|done].
  destruct (match loaded with DirMissing => _ | _ => _ end) as [q|err] eqn:P; simpl; [|split; [done|]; by intros v' q' _ [E _]].
  destruct (hasDecisionPolicy (modules_of q)) eqn:R; simpl.
  { split; [|done]. exists q. rewrite R, P. auto. }
  destruct (usesLegacyPackage (modules_of q)) eqn:U; simpl.
  { split; [done|]. intros v' q' _ [E [?|?]]; simplify_eq; congruence. }
  split; [|done]. exists q. rewrite R, P. auto.
Qed.

Lemma watch_tick_cases e polled seen loaded :
  watch_tick e polled seen loaded = e
  ∨ serves (watch_tick e polled seen loaded) seen loaded
    ∧ e_policyDir (watch_tick e polled seen loaded) = e_policyDir e.
Proof.
  unfold watch_tick, Reload. destruct (bundleVersion polled) as [v|]; [|by left].
  destruct (String.eqb v (Version e)); [by left|].
  pose proof (reload_spec e seen loaded) as H0. destruct (reload e seen loaded) as [e' [err|]]; simpl in *; [|by right].
  left. naive_solver.
Qed.

Lemma evaluate_valid rs :
  Action_Valid (pd_Action (evaluate rs)) = true ∧ String.eqb (trim_space (pd_Rule (evaluate rs))) "" = false.
Proof.
  unfold evaluate. destruct rs as [[|[|expr ?] ?]|]; try (by split).
  destruct expr as [| | | | |fields]; try (by split).
  destruct (Action_Valid (default "" (as_string (member "action" fields)))) eqn:A; cbn [negb orb]; [|by split].
  destruct (String.eqb (trim_space (default "" (as_string (member "rule" fields)))) "") eqn:R; [by split|done].
Qed.

Lemma evaluate_permits rs :
  pd_Action (evaluate rs) ≠ ActionDeny →
  ∃ fields r rs', rs = Ok ((AObject fields :: r) :: rs')
    ∧ member "action" fields = Some (AString (pd_Action (evaluate rs)))
    ∧ member "rule" fields = Some (AString (pd_Rule (evaluate rs))).
Proof.
  unfold evaluate. destruct rs as [[|[|expr r] rs']|]; try done.
  destruct expr as [| | | | |fields]; try done.
  destruct (Action_Valid (default "" (as_string (member "action" fields)))) eqn:A; cbn [negb orb]; [|done].
  destruct (String.eqb (trim_space (default "" (as_string (member "rule" fields)))) "") eqn:R; [done|].
  intros _. exists fields, r, rs'. split; [done|].
  unfold as_string in *.
  destruct (member "action" fields) as [[]|]; try done. destruct (member "rule" fields) as [[]|]; done.
Qed.

(** C22: the engine always decides, and fails closed: every decision carries one of
    the three actions, a non-blank rule and the version of the bundle that produced
    it; a call is allowed or quarantined only if the policy's own result object says
    so, naming its rule.  Errors, missing and malformed results are denials. *)
Theorem evaluate_fails_closed (e : Engine) (input : EvalInput) :
  ∃ d, Evaluate e input = Ok d
    ∧ Action_Valid (pd_Action d) = true ∧ trim_space (pd_Rule d) ≠ ""
    ∧ pd_PolicyVersion d = Version e
    ∧ (pd_Action d ≠ ActionDeny →
       ∃ q fields r rs, e_query e = Some q
         ∧ eval q (inputMap input) = Ok ((AObject fields :: r) :: rs)
         ∧ member "action" fields = Some (AString (pd_Action d))
         ∧ member "rule" fields = Some (AString (pd_Rule d))).
Proof.
  eexists. split; [reflexivity|]. cbn [pd_Action pd_Rule pd_PolicyVersion].
  set (rs := match e_query e with Some q => eval q (inputMap input) | None => _ end).
  destruct (evaluate_valid rs) as [A R]. apply String.eqb_neq in R. split_and!; try done.
  intros N. destruct (evaluate_permits rs N) as (fields & r & rs' & E & Ma & Mr).
  unfold rs in E. destruct (e_query e) as [q|]; [|done]. exists q, fields, r, rs'. done.
Qed.


End bundle.

(** ** Witnesses: an engine whose compiled bundle is its list of modules *)

#[local] Existing Instance ascii_tables.

Definition sample_module (content : string) : Module_ := mkModule content [(decision_path, 0%nat)].
Definition sample_load (_ : string) (d : policy_dir) : result (list Module_) :=
  match contents d with
  | Some l => Ok (map (λ f, sample_module f.2) l)
  | None => Err (errors_New "unreadable")
  end.
Definition sample_dir (content : string) : policy_dir :=
  DirWalk (Ok [mkFile "README.md" false (Ok "x"); mkFile "authz.rego" false (Ok content)]).
Definition sample_engine (content : string) : Engine :=
  default (mkEngine "policies" None false "")
    (match New (λ q, q) (Ok []) sample_load "policies" (sample_dir content) (sample_dir content) with
     | Ok e => Some e | Err _ => None end).


End Opa.
