(* ===== verification/PolicyLog.v ===== *)
(** * The policy engine behind a log

    What the calls of a log do to the engine of [Opa]: evaluations and probes read the
    snapshot that is published, [Reload] may replace it, and between any two calls the
    watcher may have polled the directory, whatever it found there. *)

From S2P Require Import Prelude GoStrings Types Effects Interleave Opa.
From stdpp Require Import base tactics strings list.
From Stdlib Require Import ZArith.

Local Open Scope Z_scope.

Import Opa.

Module PolicyLog.

Section engine.
Context `{UnicodeTables} {query : Type}.
Variable eval : query → list (string * inputField) → result (list (list any)).
Variable modules_of : query → list Module_.
Variable prepare_empty : result query.
Variable prepare_load : string → policy_dir → result query.

Abbreviation engine := (@Engine query).
Abbreviation watched := (WatchForChanges modules_of prepare_empty prepare_load).
Abbreviation serving := (serves modules_of prepare_empty prepare_load).

(** The answer of the engine, after the ticks that fired since the last call. *)
Definition engine_step (e : engine) (c : entry) (e' : engine) : Prop :=
  ∃ ticks, let e1 := watched e ticks in
  match en_event c with
  | Ev (CEvaluate input) x => x = Evaluate eval e1 input ∧ e' = e1
  | Ev CPolicyReload x => ∃ seen loaded, Reload modules_of prepare_empty prepare_load e1 seen loaded = (e', x)
  | Ev CPolicyVersion x => x = Version e1 ∧ e' = e1
  | Ev CPolicyReady x => x = Ready e1 ∧ e' = e1
  | _ => e' = e1
  end.

Lemma watched_serving e ticks :
  (∃ seen loaded, serving e seen loaded) → ∃ seen loaded, serving (watched e ticks) seen loaded.
Proof.
  unfold WatchForChanges. induction ticks as [|[[p s] l] ticks IH] using rev_ind; [done|]. intros S. specialize (IH S).
  rewrite foldl_app. cbn [foldl fst snd].
  destruct (watch_tick_cases modules_of prepare_empty prepare_load
    (foldl (λ e t, watch_tick modules_of prepare_empty prepare_load e t.1.1 t.1.2 t.2) e ticks) p s l) as [->|[S' _]]; eauto.
Qed.

Lemma step_serving e c e' :
  engine_step e c e' → (∃ seen loaded, serving e seen loaded) → ∃ seen loaded, serving e' seen loaded.
Proof.
  intros [ticks St] S. apply (watched_serving e ticks) in S. destruct (en_event c) as [cc x].
  cbn zeta in St. destruct cc; try (rewrite St; exact S); try (rewrite (proj2 St); exact S). destruct St as (seen & loaded & R).
  pose proof (reload_spec modules_of prepare_empty prepare_load (watched e ticks) seen loaded) as K.
  unfold Reload in R. rewrite R in K. destruct x as [err|]; [destruct K as [-> _]; done|]. destruct K as [K _]. eauto.
Qed.

Variables (policyDir : string) (seen0 loaded0 : policy_dir) (e0 : engine).
Hypothesis started : New modules_of prepare_empty prepare_load policyDir seen0 loaded0 = Ok e0.

Lemma new_serving : serving e0 seen0 loaded0.
Proof.
  unfold New, Reload in started. pose proof (reload_spec modules_of prepare_empty prepare_load (mkEngine policyDir None false "") seen0 loaded0) as R.
  destruct (reload _ _ _ _ _ _) as [e' [err|]]; [done|]. injection started as <-. apply R.
Qed.

Lemma log_serving log e : after engine_step e0 log e → ∃ seen loaded, serving e seen loaded.
Proof.
  intros F. induction F as [|log e c e' F IH St]; [by exists seen0, loaded0; apply new_serving|]. by eapply step_serving.
Qed.

(** Where a decision comes from: a bundle that compiled, published under the fingerprint
    the decision carries; for anything but a denial, the result object of its query on
    this very input. *)
Definition attributed (input : EvalInput) (d : ProxyDecision) : Prop :=
  ∃ dir seen loaded q, compiles modules_of prepare_empty prepare_load dir loaded q
    ∧ bundleVersion seen = Ok (pd_PolicyVersion d)
    ∧ (pd_Action d ≠ ActionDeny →
       ∃ fields r rs, eval q (inputMap input) = Ok ((AObject fields :: r) :: rs)
         ∧ member "action" fields = Some (AString (pd_Action d))
         ∧ member "rule" fields = Some (AString (pd_Rule d))).

Lemma evaluation_attributed log e l1 c l2 input d :
  after engine_step e0 log e → log = l1 ++ c :: l2 → en_event c = Ev (CEvaluate input) (Ok d) → attributed input d.
Proof.
  intros F -> E. destruct (after_split _ _ _ _ _ _ F) as (e1 & e2 & F1 & ticks & St). rewrite E in St.
  destruct St as [Ed _]. destruct (watched_serving e1 ticks (log_serving _ _ F1)) as (seen & loaded & q & C & V & Q & _).
  unfold Evaluate in Ed. rewrite Q in Ed. injection Ed as ->. exists (e_policyDir (watched e1 ticks)), seen, loaded, q.
  split_and!; [done|done|]. intros N. destruct (evaluate_permits _ N) as (fields & r & rs & R & Ma & Mr). by exists fields, r, rs.
Qed.
End engine.
End PolicyLog.
