(* ===== verification/Auth.v ===== *)
(** * Authentication and roles

    [internal/auth/auth.go].  A handler is a function from a request to a program;
    a middleware wraps one.  The identity [auth.FromContext] returns is the field
    [rq_Identity] of the request: absent on arrival, set by the middleware only. *)

From S2P Require Import Prelude GoStrings Types Effects.
From stdpp Require Import base tactics strings list gmap.
From Stdlib Require Import ZArith.

Local Open Scope Z_scope.

Module Auth.

Abbreviation handler := (Request → prog (Response any)).

Definition WithIdentity (r : Request) (id : Identity) : Request :=
  mkRequest (rq_Method r) (rq_Path r) (rq_Query r) (rq_Header r) (rq_Body r) (Some id).

Definition FromContext (r : Request) : option Identity := rq_Identity r.

Definition AgentFromContext (r : Request) : string :=
  match FromContext r with Some id => id_ID id | None => "unknown" end.

(** [lookupIdentity]: every candidate is compared, in the order the map is visited. *)
Fixpoint lookup_loop (candidates : list (string * Identity)) (token : string) (found : option Identity)
    : option Identity :=
  match candidates with
  | [] => found
  | (candidate, ident) :: rest =>
      lookup_loop rest token (if String.eqb candidate token then Some ident else found)
  end.
Definition lookupIdentity (identities : gmap string Identity) (token : string) : option Identity :=
  lookup_loop (map_to_list identities) token None.

Definition bearer_prefix : string := "Bearer ".

Definition unauthorized (msg : string) : Response any :=
  let r := http_Error (json_error msg) 401 in
  mkResponse (rs_Status r) (("WWW-Authenticate", "Bearer") :: rs_Header r) (rs_Body r).

(** [Middleware] *)
Definition Middleware (identities : gmap string Identity) (next : handler) : handler := λ r,
  let authHeader := header_get (rq_Header r) "Authorization" in
  if negb (has_prefix authHeader bearer_prefix) then
    Ret (unauthorized "missing or malformed Authorization header, expected Bearer token")
  else
    let token := drop_str (String.length bearer_prefix) authHeader in
    match lookupIdentity identities token with
    | None => Ret (http_Error (json_error "invalid API key") 403)
    | Some ident => next (WithIdentity r ident)
    end.

Definition CSRFHeader : string := "X-Requested-With".
Definition CSRFHeaderValue : string := "elodea".

Definition safeMethod (method : string) : bool :=
  String.eqb method "GET" || String.eqb method "HEAD" || String.eqb method "OPTIONS".

(** The [SessionAuthenticator] interface: a call that may consult the session store. *)
Abbreviation SessionAuthenticator := (Request → prog (option Identity)).

(** [HumanMiddleware]; [sessions] is [None] when SSO is off. *)
Definition HumanMiddleware (identities : gmap string Identity)
    (sessions : option SessionAuthenticator) (originAllowed : string → bool)
    (next : handler) : handler := λ r,
  match sessions with
  | None => Middleware identities next r
  | Some authenticate =>
      if negb (String.eqb (header_get (rq_Header r) "Authorization") "") then Middleware identities next r
      else
        found ← authenticate r;
        match (found : option Identity) with
        | None => mret (unauthorized "sign-in required")
        | Some ident =>
            let origin := header_get (rq_Header r) "Origin" in
            if negb (safeMethod (rq_Method r))
               && (negb (String.eqb (header_get (rq_Header r) CSRFHeader) CSRFHeaderValue)
                   || (negb (String.eqb origin "") && negb (originAllowed origin)))
            then mret (http_Error (json_error "cross-site request rejected") 403)
            else next (WithIdentity r ident)
        end
  end.

(** [RequireRole] *)
Definition RequireRole (roles : list Role) (next : handler) : handler := λ r,
  match FromContext r with
  | Some ident =>
      if bool_decide (id_Role ident ∈ roles) then next r
      else Ret (http_Error (json_error "insufficient role") 403)
  | None => Ret (http_Error (json_error "insufficient role") 403)
  end.

(** [ReviewerOrAdmin] *)
Definition ReviewerOrAdmin : handler → handler := RequireRole [RoleReviewer; RoleAdmin].

(** ** Lemmas *)

Lemma lookup_loop_spec (cs : list (string * Identity)) token found :
  NoDup (cs.*1) →
  lookup_loop cs token found
  = match (list_to_map cs : gmap string Identity) !! token with Some i => Some i | None => found end.
Proof.
  revert found. induction cs as [|[c i] cs IH]; intros found N; [done|].
  simpl in *. apply NoDup_cons in N as [Nc N]. rewrite IH by done.
  destruct (String.eqb_spec c token) as [->|Ne].
  - rewrite lookup_insert, decide_True by done.
    by rewrite (not_elem_of_list_to_map_1 cs token) by done.
  - by rewrite lookup_insert_ne.
Qed.

(** The constant-time scan is the map lookup, in whatever order it visits. *)
Lemma lookup_loop_permutation identities token cs :
  cs ≡ₚ map_to_list identities → lookup_loop cs token None = identities !! token.
Proof.
  intros P. assert (NoDup (cs.*1)) by (rewrite P; apply NoDup_fst_map_to_list).
  rewrite lookup_loop_spec by done. rewrite (list_to_map_proper cs (map_to_list identities)) by done.
  rewrite list_to_map_to_list. by destruct (identities !! token).
Qed.

Lemma lookupIdentity_lookup identities token : lookupIdentity identities token = identities !! token.
Proof. by apply lookup_loop_permutation. Qed.

(** What a middleware lets through: the wrapped handler ran on the request with an
    identity attached, or the gate answered without any effect. *)
Definition admitted (next : handler) (r : Request) (p : prog (Response any)) (id : Identity) : Prop :=
  p = next (WithIdentity r id).
Definition refused (p : prog (Response any)) : Prop :=
  ∃ resp, p = Ret resp ∧ (rs_Status resp = 401 ∨ rs_Status resp = 403).

Lemma Middleware_cases identities next r :
  (∃ token id, header_get (rq_Header r) "Authorization" = "Bearer " +:+ token
     ∧ identities !! token = Some id ∧ admitted next r (Middleware identities next r) id)
  ∨ refused (Middleware identities next r).
Proof.
  unfold Middleware, admitted, refused. destruct (has_prefix _ _) eqn:P; cbn [negb]; [|right; eauto].
  rewrite lookupIdentity_lookup. apply has_prefix_drop in P.
  destruct (identities !! _) as [id|] eqn:L; [|right; eauto]. left. eauto 10.
Qed.

(** A session may stand for a request that is safe, or that carries the CSRF header and
    no foreign origin. *)
Definition csrf_safe (originAllowed : string → bool) (r : Request) : Prop :=
  safeMethod (rq_Method r) = true
  ∨ header_get (rq_Header r) CSRFHeader = CSRFHeaderValue
    ∧ (header_get (rq_Header r) "Origin" = "" ∨ originAllowed (header_get (rq_Header r) "Origin") = true).

(** How a request proves who it is: the calls made for it, and the identity. *)
Definition authenticates (identities : gmap string Identity) (sessions : option SessionAuthenticator)
    (originAllowed : string → bool) (r : Request) (tr : list event) (id : Identity) : Prop :=
  (tr = [] ∧ ∃ token, header_get (rq_Header r) "Authorization" = "Bearer " +:+ token ∧ identities !! token = Some id)
  ∨ (∃ authenticate, sessions = Some authenticate ∧ runs (authenticate r) tr (Some id)
     ∧ header_get (rq_Header r) "Authorization" = "" ∧ csrf_safe originAllowed r).

(** The calls of a session check, or none. *)
Definition session_calls (sessions : option SessionAuthenticator) (r : Request) (tr : list event) : Prop :=
  tr = [] ∨ ∃ authenticate found, sessions = Some authenticate ∧ runs (authenticate r) tr found.

Definition denied (resp : Response any) : Prop := rs_Status resp = 401 ∨ rs_Status resp = 403.

Lemma HumanMiddleware_runs identities sessions originAllowed next r tr resp :
  runs (HumanMiddleware identities sessions originAllowed next r) tr resp →
  (denied resp ∧ session_calls sessions r tr)
  ∨ ∃ id tr1 tr2, tr = tr1 ++ tr2 ∧ authenticates identities sessions originAllowed r tr1 id
      ∧ runs (next (WithIdentity r id)) tr2 resp.
Proof.
  assert (runs (Middleware identities next r) tr resp →
    (denied resp ∧ session_calls sessions r tr)
    ∨ ∃ id tr1 tr2, tr = tr1 ++ tr2 ∧ authenticates identities sessions originAllowed r tr1 id
        ∧ runs (next (WithIdentity r id)) tr2 resp) as Bearer.
  { destruct (Middleware_cases identities next r) as [(t & id & Ht & L & ->)|(d & -> & St)].
    - intros R. right. exists id, [], tr. split_and!; [done|left; eauto|done].
    - intros [-> ->]. left. split; [done|by left]. }
  unfold HumanMiddleware. destruct sessions as [authenticate|]; [|exact Bearer].
  destruct (String.eqb_spec (header_get (rq_Header r) "Authorization") "") as [N|_]; cbn [negb]; [|exact Bearer].
  intros R. apply runs_bind in R as (tr1 & tr2 & found & -> & R1 & R2).
  destruct found as [id|]; [|destruct R2 as [-> ->]; left; split; [by left|]; rewrite app_nil_r; right; eauto].
  destruct (negb (safeMethod (rq_Method r)) && _) eqn:C in R2.
  - destruct R2 as [-> ->]. left. split; [by right|]. rewrite app_nil_r. right. eauto.
  - right. exists id, tr1, tr2. split_and!; [done| |done]. right. exists authenticate. split_and!; try done.
    apply andb_false_iff in C as [C|C]; [left; by apply negb_false_iff in C|right].
    apply orb_false_iff in C as [C1 C2]. apply negb_false_iff, String.eqb_eq in C1. split; [done|].
    apply andb_false_iff in C2 as [C2|C2]; apply negb_false_iff in C2; [left; by apply String.eqb_eq|by right].
Qed.

Lemma RequireRole_cases roles next r id :
  RequireRole roles next (WithIdentity r id) = next (WithIdentity r id) ∧ id_Role id ∈ roles
  ∨ RequireRole roles next (WithIdentity r id) = Ret (http_Error (json_error "insufficient role") 403).
Proof. unfold RequireRole. cbn. case_bool_decide; auto. Qed.

(** The human gate.  A request reaches the handler behind it only with the
    identity its bearer token maps to, or, without an [Authorization] header, the
    identity of an SSO session, and then a request that may change state carries the
    CSRF header and no foreign origin; behind [ReviewerOrAdmin] that identity is a
    reviewer or admin, so agents' tokens never pass.  Any other request is answered 401
    or 403, and nothing was called but the session check. *)
Theorem human_gate (identities : gmap string Identity) (sessions : option SessionAuthenticator)
    (originAllowed : string → bool) (next : handler) (r : Request) (tr : list event) (resp : Response any) :
  runs (HumanMiddleware identities sessions originAllowed (ReviewerOrAdmin next) r) tr resp →
  (denied resp ∧ session_calls sessions r tr)
  ∨ ∃ id tr1 tr2, tr = tr1 ++ tr2 ∧ authenticates identities sessions originAllowed r tr1 id
      ∧ (id_Role id = RoleReviewer ∨ id_Role id = RoleAdmin) ∧ runs (next (WithIdentity r id)) tr2 resp.
Proof.
  intros [?|(id & tr1 & tr2 & -> & A & R)]%HumanMiddleware_runs; [by left|].
  destruct (RequireRole_cases [RoleReviewer; RoleAdmin] next r id) as [[E I]|E];
    unfold ReviewerOrAdmin in R; rewrite E in R.
  - right. exists id, tr1, tr2. split_and!; try done. set_solver.
  - destruct R as [-> ->]. left. split; [by right|]. rewrite app_nil_r.
    destruct A as [[-> _]|(a & Hs & Ra & _)]; [by left|right; eauto].
Qed.

(** Agents are authenticated by their bearer token alone: the handler runs with
    exactly the identity the presented token is configured for, whatever the order in
    which the table is scanned; otherwise the request is refused without effect. *)
Theorem agent_gate (identities : gmap string Identity) (next : handler) (r : Request) :
  ((∃ token id, header_get (rq_Header r) "Authorization" = "Bearer " +:+ token
      ∧ identities !! token = Some id ∧ Middleware identities next r = next (WithIdentity r id))
   ∨ refused (Middleware identities next r))
  ∧ ∀ token cs, cs ≡ₚ map_to_list identities → lookup_loop cs token None = identities !! token.
Proof.
  split; [apply Middleware_cases|]. intros token cs. apply lookup_loop_permutation.
Qed.

Lemma human_gate_witness :
  let identities : gmap string Identity := {["tok" := mkIdentity "alice" RoleReviewer]} in
  let r := mkRequest "GET" "/" [] {["Authorization" := ["Bearer tok"]]} "" None in
  ∃ id tr1 tr2, [] = tr1 ++ tr2 ∧ authenticates identities None (λ _, false) r tr1 id
    ∧ (id_Role id = RoleReviewer ∨ id_Role id = RoleAdmin).
Proof.
  intros identities r.
  destruct (human_gate identities None (λ _, false) (λ _, Ret (json_ok [] ANil)) r [] (json_ok [] ANil))
    as [[[D|D] _]|(id & tr1 & tr2 & E & A & Ro & _)].
  - vm_compute. done.
  - discriminate D.
  - discriminate D.
  - by exists id, tr1, tr2.
Defined.
End Auth.
