(* ===== verification/Sso.v ===== *)
(** * Single sign-on

    [internal/sso/sso.go] over the statements of [internal/db/auth.sql.go].  The handlers
    are programs over the two tables, the clock, the random source and the identity
    provider; the OpenID and OAuth libraries answer [CDiscover], [CExchange] and
    [CVerifyToken], and [CClient] reads whether discovery has succeeded, which the service
    keeps under a lock ([Lifecycle]).  [SsoLog] follows sessions and login attempts through any
    interleaving of requests. *)

From S2P Require Import Prelude GoStrings GoTime Sha256 Types GoBase64 GoUrl GoHttp Config Effects Auth.
From stdpp Require Import base tactics strings list gmap.
From Stdlib Require Import ZArith Lia Ascii.

Local Open Scope Z_scope.

Import Config GoHttp Auth.

Module Sso.

Definition loginAttemptTTL : Z := 10 * GoTime.minute.
Definition touchInterval : Z := GoTime.minute.
Definition secureCookieName : string := "__Host-elodea_session".
Definition devCookieName : string := "elodea_session".

Definition errDenied : string := "denied".
Definition errUnavailable : string := "unavailable".
Definition errFailed : string := "failed".
Definition errNoIdentity : string := "no_identity".
Definition errUnverified : string := "unverified_email".
Definition errNoRole : string := "no_role".
Definition errSessionFailed : string := "session_failed".

Record Service : Type := mkService { sv_cfg : OIDCConfig; sv_allowedOrigins : list string }.

(** [New] *)
Definition New (cfg : OIDCConfig) (allowedOrigins : list string) : Service := mkService cfg allowedOrigins.

(** [randomToken] and [hashToken] *)
Definition randomToken : prog string :=
  b ← call CRandomBytes;
  mret (b64_raw_url b).
Definition hashToken (token : string) : string := Sha256.hex256 token.

(** [Service.Run]: the discovery loop, whose [delay] doubles to a minute, for the retries
    before the context ends, then an hourly clean-up for the ticks that fire. *)
Fixpoint discover_loop (retries : nat) (delay : Z) : prog bool :=
  err ← call CDiscover;
  match (err : option error) with
  | None => mret true
  | Some _ =>
      passed ← call (CWait delay);
      if negb (passed : bool) then mret false
      else match retries with
           | O => mret false
           | S n => discover_loop n (Z.min (delay * 2) GoTime.minute)
           end
  end.
Definition cleanup : prog unit :=
  _ ← call CDeleteExpiredLogins;
  _ ← call CDeleteExpiredSessions;
  mret tt.
Fixpoint cleanup_loop (ticks : nat) : prog unit :=
  match ticks with
  | O => mret tt
  | S n => _ ← cleanup; cleanup_loop n
  end.
Definition Run (retries ticks : nat) : prog unit :=
  found ← discover_loop retries (2 * GoTime.second);
  if (found : bool) then cleanup_loop ticks else mret tt.

(** ** Identity and role from the claims *)

Definition claim_string (claims : list (string * any)) (name : string) : string :=
  match member name claims with Some (AString s) => s | _ => "" end.
Definition claim_true (claims : list (string * any)) (name : string) : bool :=
  match member name claims with Some (ABool b) => b | _ => false end.

Section service.
Context `{UnicodeTables} `{UrlLib}.
Variable s : Service.
(** [oauth2.Config.AuthCodeURL] with a state, a nonce and a PKCE verifier. *)
Variable AuthCodeURL : string → string → string → string.

(** [Service.identityFrom]: the identity and the failure code, one of them empty. *)
Definition identityFrom (claims : list (string * any)) : string * string :=
  let value := trim_space (claim_string claims (oi_IdentityClaim (sv_cfg s))) in
  if String.eqb value "" then ("", errNoIdentity)
  else if String.eqb (oi_IdentityClaim (sv_cfg s)) "email" then
    if negb (claim_true claims "email_verified") then ("", errUnverified) else (to_lower value, "")
  else (value, "").

(** [Service.roleFrom] *)
Definition groups_of (claims : list (string * any)) : list string :=
  match member (oi_GroupsClaim (sv_cfg s)) claims with
  | Some (AString v) => [v]
  | Some (AArray vs) => omap (λ g, match g with AString name => Some name | _ => None end) vs
  | _ => []
  end.
Definition member_of (groups want : list string) : bool := existsb (λ g, bool_decide (g ∈ want)) groups.
Definition roleFrom (claims : list (string * any)) : option Role :=
  if member_of (groups_of claims) (oi_AdminGroups (sv_cfg s)) then Some RoleAdmin
  else if member_of (groups_of claims) (oi_ReviewerGroups (sv_cfg s)) then Some RoleReviewer
  else None.

(** ** Return addresses *)

(** [Service.validReturnTo] *)
Definition validReturnTo (raw : string) : option string :=
  if String.eqb raw "" then
    (λ origin, origin +:+ "/")
    <$> List.find (λ origin, negb (String.eqb origin "*") && negb (String.eqb origin "")) (sv_allowedOrigins s)
  else
    match url_Parse raw with
    | None => None
    | Some u =>
        if (negb (String.eqb (pu_Scheme u) "http") && negb (String.eqb (pu_Scheme u) "https"))
           || String.eqb (pu_Host u) "" || pu_User u then None
        else
          let origin := pu_Scheme u +:+ "://" +:+ pu_Host u in
          if negb (bool_decide (origin ∈ sv_allowedOrigins s)) then None
          else
            let path := pu_EscapedPath u in
            let path := if String.eqb path "" || negb (has_prefix path "/") || has_prefix path "//"
                        then "/" else path in
            Some (origin +:+ path)
    end.

(** [withQuery] *)
Definition withQuery (raw key value : string) : string :=
  match url_Parse raw with
  | None => raw
  | Some u => pu_render u (values_encode (values_set key value (parse_query (pu_RawQuery u)).1))
  end.

(** ** Cookies *)

(** [Service.cookieName], [Service.cookie] *)
Definition cookieName : string := if SecureCookies (sv_cfg s) then secureCookieName else devCookieName.
Definition cookie (value : string) (maxAge : Z) : Cookie :=
  let mode := to_lower (oi_CookieSameSite (sv_cfg s)) in
  mkCookie cookieName value "/" maxAge true (SecureCookies (sv_cfg s))
    (if String.eqb mode "strict" then SameSiteStrictMode
     else if String.eqb mode "none" then SameSiteNoneMode else SameSiteLaxMode).

(** ** The handlers *)

(** [Service.login] *)
Definition login (r : Request) : prog (Response any) :=
  ok ← call CClient;
  if negb (ok : bool) then
    mret (http_Error "Single sign-on is unavailable: the identity provider has not answered yet." 503)
  else
    match validReturnTo (query_get (rq_Query r) "return_to") with
    | None => mret (http_Error "return_to must be an allowed console origin." 400)
    | Some returnTo =>
        state ← randomToken;
        nonce ← randomToken;
        verifier ← call CGenerateVerifier;
        now ← call CNow;
        err ← call (CCreateLogin state nonce verifier returnTo (now + loginAttemptTTL));
        match (err : option error) with
        | Some _ => mret (http_Error "Sign-in is temporarily unavailable." 503)
        | None => mret (Redirect (AuthCodeURL state nonce verifier) 302)
        end
    end.

(** The closure [fail] of [Service.callback]. *)
Definition fail (attempt : ConsumeLoginAttemptRow) (code : string) : Response any :=
  Redirect (withQuery (la_ReturnTo attempt) "sso_error" code) 302.

(** [Service.callback] once the ID token has been verified. *)
Definition open_session (attempt : ConsumeLoginAttemptRow) (idToken : IDToken) : prog (Response any) :=
  if negb (String.eqb (it_Nonce idToken) (la_Nonce attempt)) then mret (fail attempt errFailed)
  else
    match it_Claims idToken with
    | None => mret (fail attempt errFailed)
    | Some claims =>
        let '(ident, code) := identityFrom claims in
        if negb (String.eqb code "") then mret (fail attempt code)
        else
          match roleFrom claims with
          | None => mret (fail attempt errNoRole)
          | Some role =>
              sessionToken ← randomToken;
              now ← call CNow;
              err ← call (CCreateSession (hashToken sessionToken) (it_Subject idToken) ident role
                            (now + oi_SessionTTL (sv_cfg s)));
              match (err : option error) with
              | Some _ => mret (fail attempt errSessionFailed)
              | None =>
                  mret (SetCookie (cookie sessionToken (Z.quot (oi_SessionTTL (sv_cfg s)) GoTime.second))
                          (Redirect (la_ReturnTo attempt) 302))
              end
          end
    end.

Definition callback (r : Request) : prog (Response any) :=
  consumed ← call (CConsumeLogin (query_get (rq_Query r) "state"));
  match (consumed : result ConsumeLoginAttemptRow) with
  | Err _ => mret (http_Error "This sign-in link has expired or was already used. Start again from the console." 400)
  | Ok attempt =>
      if negb (String.eqb (query_get (rq_Query r) "error") "") then mret (fail attempt errDenied)
      else
        ok ← call CClient;
        if negb (ok : bool) then mret (fail attempt errUnavailable)
        else
          exchanged ← call (CExchange (query_get (rq_Query r) "code") (la_CodeVerifier attempt));
          match (exchanged : result (option string)) with
          | Err _ => mret (fail attempt errFailed)
          | Ok extra =>
              let rawIDToken := default "" extra in
              if String.eqb rawIDToken "" then mret (fail attempt errFailed)
              else
                verified ← call (CVerifyToken rawIDToken);
                match (verified : result IDToken) with
                | Err _ => mret (fail attempt errFailed)
                | Ok idToken => open_session attempt idToken
                end
          end
  end.

(** [Service.logout] *)
Definition signed_out : Response any := SetCookie (cookie "" (-1)) (mkResponse 204 [] BNone).
Definition logout (r : Request) : prog (Response any) :=
  if negb (String.eqb (header_get (rq_Header r) CSRFHeader) CSRFHeaderValue) then
    mret (http_Error (json_error "cross-site request rejected") 403)
  else
    match request_cookie (rq_Header r) cookieName with
    | Some value =>
        if String.eqb value "" then mret signed_out
        else
          err ← call (CRevokeSession (hashToken value));
          match (err : option error) with
          | Some _ => mret (http_Error (json_error "sign-out failed, try again") 503)
          | None => mret signed_out
          end
    | None => mret signed_out
    end.

(** [Service.AuthenticateSession] *)
Definition AuthenticateSession (r : Request) : prog (option Identity) :=
  match request_cookie (rq_Header r) cookieName with
  | None => mret None
  | Some value =>
      if String.eqb value "" then mret None
      else
        let idHash := hashToken value in
        now ← call CNow;
        found ← call (CGetSession idHash (now - oi_SessionIdleTTL (sv_cfg s)));
        match (found : result GetActiveSessionRow) with
        | Err _ => mret None
        | Ok row =>
            let role := gs_Role row in
            if negb (String.eqb role RoleReviewer) && negb (String.eqb role RoleAdmin) then mret None
            else if touchInterval <? GoTime.sub now (gs_LastSeenAt row) then
              _ ← call (CTouchSession idHash);
              mret (Some (mkIdentity (gs_Email row) role))
            else mret (Some (mkIdentity (gs_Email row) role))
        end
  end.

(** [Service.ConfigHandler] *)
Definition ConfigHandler (_ : Request) : prog (Response any) :=
  mret (json_ok [] (AObject [("provider", AString (oi_ProviderName (sv_cfg s))); ("sso", ABool true)])).
End service.
End Sso.
