(* ===== verification/SsoLog.v ===== *)
(** * Sign-in sessions through any interleaving of requests

    The statements of [internal/db/auth.sql.go] on the two tables of migration 008, and
    the log of all calls that any number of requests have made, one after the other, in
    whatever order they interleave.  [executes log st] relates a log to the state it
    leaves: every statement is atomic, the database's clock does not run backwards, and a
    statement that reports an error has taken effect or not. *)

From S2P Require Import Prelude GoStrings GoTime Types GoBase64 GoUrl GoHttp Config Effects Interleave Auth Sso.
From stdpp Require Import base tactics strings list gmap.
From Stdlib Require Import ZArith Lia.

Local Open Scope Z_scope.

Import Config GoHttp Auth Sso.

Module SsoLog.

(** ** The tables and their statements *)

(** Rows of [auth_login_attempts] and [sessions], without their keys. *)
Record LoginAttempt : Type := mkAttempt {
  at_Nonce : string;
  at_CodeVerifier : string;
  at_ReturnTo : string;
  at_ExpiresAt : Z
}.
Record Session : Type := mkSession {
  se_Subject : string;
  se_Email : string;
  se_Role : string;
  se_CreatedAt : Z;
  se_ExpiresAt : Z;
  se_LastSeenAt : Z;
  se_RevokedAt : option Z
}.
Abbreviation attempts := (gmap string LoginAttempt).
Abbreviation sessions := (gmap string Session).

Definition duplicate_key : error := errors_New "pq: duplicate key value violates unique constraint".
Definition no_rows : error := mkErr (Some SNoRows) "sql: no rows in result set".

(** [CreateLoginAttempt], [ConsumeLoginAttempt], [DeleteExpiredLoginAttempts] *)
Definition CreateLoginAttempt (state : string) (a : LoginAttempt) (t : attempts) : option error * attempts :=
  match t !! state with Some _ => (Some duplicate_key, t) | None => (None, <[state := a]> t) end.
Definition ConsumeLoginAttempt (now : Z) (state : string) (t : attempts) : result ConsumeLoginAttemptRow * attempts :=
  match t !! state with
  | Some a =>
      if now <? at_ExpiresAt a
      then (Ok (mkAttemptRow (at_Nonce a) (at_CodeVerifier a) (at_ReturnTo a)), delete state t)
      else (Err no_rows, t)
  | None => (Err no_rows, t)
  end.
Definition DeleteExpiredLoginAttempts (now : Z) (t : attempts) : attempts :=
  filter (λ e, now < at_ExpiresAt e.2) t.

(** [CreateSession], [GetActiveSession], [TouchSession], [RevokeSession],
    [DeleteExpiredSessions] *)
Definition CreateSession (now : Z) (idHash subject email role : string) (expiresAt : Z) (t : sessions)
    : option error * sessions :=
  match t !! idHash with
  | Some _ => (Some duplicate_key, t)
  | None => (None, <[idHash := mkSession subject email role now expiresAt now None]> t)
  end.
Definition is_active (now seenAfter : Z) (e : Session) : bool :=
  bool_decide (se_RevokedAt e = None) && (now <? se_ExpiresAt e) && (seenAfter <? se_LastSeenAt e).
Definition GetActiveSession (now : Z) (idHash : string) (seenAfter : Z) (t : sessions) : result GetActiveSessionRow :=
  match t !! idHash with
  | Some e =>
      if is_active now seenAfter e
      then Ok (mkSessionRow idHash (se_Subject e) (se_Email e) (se_Role e) (se_CreatedAt e) (se_ExpiresAt e)
                 (se_LastSeenAt e))
      else Err no_rows
  | None => Err no_rows
  end.
Definition touch_row (now : Z) (e : Session) : Session :=
  if bool_decide (se_RevokedAt e = None)
  then mkSession (se_Subject e) (se_Email e) (se_Role e) (se_CreatedAt e) (se_ExpiresAt e) now None else e.
Definition TouchSession (now : Z) (idHash : string) : sessions → sessions := alter (touch_row now) idHash.
Definition revoke_row (now : Z) (e : Session) : Session :=
  if bool_decide (se_RevokedAt e = None)
  then mkSession (se_Subject e) (se_Email e) (se_Role e) (se_CreatedAt e) (se_ExpiresAt e) (se_LastSeenAt e) (Some now)
  else e.
Definition RevokeSession (now : Z) (idHash : string) : sessions → sessions := alter (revoke_row now) idHash.
Definition retention : Z := 30 * 24 * GoTime.hour.
Definition DeleteExpiredSessions (now : Z) (t : sessions) : sessions :=
  filter (λ e, now - retention < se_ExpiresAt e.2) t.

(** ** The log *)

Record state : Type := mkState { st_now : Z; st_attempts : attempts; st_sessions : sessions }.

(** The answer to a call at [now] and the tables it leaves. *)
Definition answered (now : Z) (s : state) (e : event) (s' : state) : Prop :=
  match e with
  | Ev (CCreateLogin st nonce verifier returnTo expiresAt) x =>
      let '(err, t) := CreateLoginAttempt st (mkAttempt nonce verifier returnTo expiresAt) (st_attempts s) in
      (x = err ∧ s' = mkState now t (st_sessions s))
      ∨ (x ≠ None ∧ (s' = mkState now (st_attempts s) (st_sessions s) ∨ s' = mkState now t (st_sessions s)))
  | Ev (CConsumeLogin st) x =>
      let '(row, t) := ConsumeLoginAttempt now st (st_attempts s) in
      (x = row ∧ s' = mkState now t (st_sessions s))
      ∨ (is_ok (x : result _) = false
         ∧ (s' = mkState now (st_attempts s) (st_sessions s) ∨ s' = mkState now t (st_sessions s)))
  | Ev CDeleteExpiredLogins x =>
      s' = mkState now (DeleteExpiredLoginAttempts now (st_attempts s)) (st_sessions s)
      ∨ (x ≠ None ∧ s' = mkState now (st_attempts s) (st_sessions s))
  | Ev (CCreateSession h subject email role expiresAt) x =>
      let '(err, t) := CreateSession now h subject email role expiresAt (st_sessions s) in
      (x = err ∧ s' = mkState now (st_attempts s) t)
      ∨ (x ≠ None ∧ (s' = mkState now (st_attempts s) (st_sessions s) ∨ s' = mkState now (st_attempts s) t))
  | Ev (CGetSession h seenAfter) x =>
      (x = GetActiveSession now h seenAfter (st_sessions s) ∨ is_ok (x : result _) = false)
      ∧ s' = mkState now (st_attempts s) (st_sessions s)
  | Ev (CTouchSession h) x =>
      s' = mkState now (st_attempts s) (TouchSession now h (st_sessions s))
      ∨ (x ≠ None ∧ s' = mkState now (st_attempts s) (st_sessions s))
  | Ev (CRevokeSession h) x =>
      s' = mkState now (st_attempts s) (RevokeSession now h (st_sessions s))
      ∨ (x ≠ None ∧ s' = mkState now (st_attempts s) (st_sessions s))
  | Ev CDeleteExpiredSessions x =>
      s' = mkState now (st_attempts s) (DeleteExpiredSessions now (st_sessions s))
      ∨ (x ≠ None ∧ s' = mkState now (st_attempts s) (st_sessions s))
  | _ => s' = mkState now (st_attempts s) (st_sessions s)
  end.

(** A call: the database's clock does not run backwards. *)
Definition executes_call (s : state) (e : entry) (s' : state) : Prop :=
  st_now s <= en_at e ∧ answered (en_at e) s (en_event e) s'.
Abbreviation executes start := (after executes_call (mkState start ∅ ∅)).

(** ** Where the rows come from *)

(** An acknowledged revocation, a touch, a successful consumption. *)
Definition revokes (h : string) (e : event) : bool :=
  match e with Ev (CRevokeSession h') None => String.eqb h h' | _ => false end.
Definition touches (h : string) (e : event) : bool :=
  match e with Ev (CTouchSession h') _ => String.eqb h h' | _ => false end.
Definition consumes (st : string) (e : event) : bool :=
  match e with Ev (CConsumeLogin st') (Ok _) => String.eqb st st' | _ => false end.

(** A session row: created by one of the calls, last seen then or when it was touched,
    and, while not revoked, never revoked with an acknowledgement since. *)
Definition session_origin (log : list entry) (h : string) (row : Session) : Prop :=
  ∃ log0 c log1, log = log0 ++ c :: log1
    ∧ (∃ x, en_event c = Ev (CCreateSession h (se_Subject row) (se_Email row) (se_Role row) (se_ExpiresAt row)) x)
    ∧ se_CreatedAt row = en_at c
    ∧ (se_RevokedAt row = None → ∀ r, r ∈ log1 → revokes h (en_event r) = false)
    ∧ (se_LastSeenAt row = en_at c
       ∨ ∃ r, r ∈ log1 ∧ touches h (en_event r) = true ∧ en_at r = se_LastSeenAt row).

(** An attempt row: created by one of the calls and not consumed since. *)
Definition attempt_origin (log : list entry) (st : string) (a : LoginAttempt) : Prop :=
  ∃ log0 c log1, log = log0 ++ c :: log1
    ∧ (∃ x, en_event c = Ev (CCreateLogin st (at_Nonce a) (at_CodeVerifier a) (at_ReturnTo a) (at_ExpiresAt a)) x)
    ∧ ∀ r, r ∈ log1 → consumes st (en_event r) = false.

Lemma answered_sessions now s e s' h row' :
  answered now s e s' → st_sessions s' !! h = Some row' →
  (st_sessions s !! h = Some row' ∧ revokes h e = false)
  ∨ (∃ su em ro ex x, e = Ev (CCreateSession h su em ro ex) x ∧ row' = mkSession su em ro now ex now None)
  ∨ (∃ row x, e = Ev (CTouchSession h) x ∧ st_sessions s !! h = Some row ∧ row' = touch_row now row)
  ∨ (∃ row, st_sessions s !! h = Some row ∧ row' = revoke_row now row).
Proof.
  destruct e as [c x]. intros A L.
  destruct c; simpl in A; try (left; subst s'; simpl in L; by split).
  - unfold CreateLoginAttempt in A. destruct (st_attempts s !! state0); left; naive_solver.
  - unfold ConsumeLoginAttempt in A. left. split; [|done].
    destruct (st_attempts s !! state0) as [a|]; [destruct (now <? at_ExpiresAt a)|]; naive_solver.
  - unfold CreateSession in A. destruct (st_sessions s !! idHash) as [old|] eqn:O; [left; naive_solver|].
    destruct (decide (idHash = h)) as [->|N].
    + right. left. exists subject, email, role, expiresAt, x. split; [done|].
      assert (st_sessions s' = st_sessions s
              ∨ st_sessions s' = <[h := mkSession subject email role now expiresAt now None]> (st_sessions s)) as [E|E]
        by naive_solver; rewrite E in L; [congruence|].
      rewrite lookup_insert_eq in L. by simplify_eq.
    + left. split; [|done].
      destruct A as [[_ ->]|[_ [->| ->]]]; simpl in L; [|done|]; by rewrite lookup_insert_ne in L.
  - destruct A as [_ ->]. by left.
  - destruct (decide (idHash = h)) as [->|N].
    + destruct A as [->|[_ ->]]; [|left; by split]. simpl in L. unfold TouchSession in L.
      rewrite lookup_alter_eq in L. destruct (st_sessions s !! h) as [row|] eqn:O; simplify_eq/=.
      right. right. left. eauto.
    + left. split; [|done]. destruct A as [->|[_ ->]]; [|done]. simpl in L. unfold TouchSession in L.
      by rewrite lookup_alter_ne in L.
  - destruct (decide (idHash = h)) as [->|N].
    + destruct A as [->|[X ->]]; [|left; split; [done|]; simpl; by destruct x].
      simpl in L. unfold RevokeSession in L.
      rewrite lookup_alter_eq in L. destruct (st_sessions s !! h) as [row|] eqn:O; simplify_eq/=.
      right. right. right. eauto.
    + left. split; [|simpl; destruct x; [done|]; by apply String.eqb_neq].
      destruct A as [->|[_ ->]]; [|done]. simpl in L. unfold RevokeSession in L. by rewrite lookup_alter_ne in L.
  - left. split; [|done]. by destruct A as [->|[_ ->]].
  - left. split; [|done]. destruct A as [->|[_ ->]]; [|done]. simpl in L.
    by apply map_lookup_filter_Some in L as [L _].
Qed.

Lemma answered_attempts now s e s' st a :
  answered now s e s' → st_attempts s' !! st = Some a →
  (st_attempts s !! st = Some a ∧ consumes st e = false)
  ∨ (∃ x, e = Ev (CCreateLogin st (at_Nonce a) (at_CodeVerifier a) (at_ReturnTo a) (at_ExpiresAt a)) x).
Proof.
  destruct e as [c x]. intros A L.
  destruct c; simpl in A; try (left; subst s'; simpl in L; by split).
  - unfold CreateLoginAttempt in A. destruct (st_attempts s !! state0) as [old|] eqn:O; [left; naive_solver|].
    destruct (decide (state0 = st)) as [->|N].
    + right. assert (st_attempts s' = st_attempts s
              ∨ st_attempts s' = <[st := mkAttempt nonce verifier returnTo expiresAt]> (st_attempts s)) as [E|E]
        by naive_solver; rewrite E in L; [congruence|].
      rewrite lookup_insert_eq in L. simplify_eq. by exists x.
    + left. split; [|done].
      destruct A as [[_ ->]|[_ [->| ->]]]; simpl in L; [|done|]; by rewrite lookup_insert_ne in L.
  - left. unfold ConsumeLoginAttempt in A.
    destruct (st_attempts s !! state0) as [old|] eqn:O; [destruct (now <? at_ExpiresAt old)|].
    + assert (st_attempts s' = st_attempts s ∧ is_ok (x : result ConsumeLoginAttemptRow) = false
              ∨ st_attempts s' = delete state0 (st_attempts s)) as [[E K]|E] by naive_solver; rewrite E in L.
      * split; [done|]. simpl. by destruct x.
      * apply lookup_delete_Some in L as [N L]. split; [done|]. simpl. destruct x; [|done]. by apply String.eqb_neq.
    + assert (s' = mkState now (st_attempts s) (st_sessions s) ∧ is_ok (x : result ConsumeLoginAttemptRow) = false)
        as [-> K] by naive_solver. split; [done|]. simpl. by destruct x.
    + assert (s' = mkState now (st_attempts s) (st_sessions s) ∧ is_ok (x : result ConsumeLoginAttemptRow) = false)
        as [-> K] by naive_solver. split; [done|]. simpl. by destruct x.
  - left. split; [|done]. unfold CreateSession in A. destruct (st_sessions s !! idHash); naive_solver.
  - left. split; [|done]. by destruct A as [_ ->].
  - left. split; [|done]. by destruct A as [->|[_ ->]].
  - left. split; [|done]. by destruct A as [->|[_ ->]].
  - left. split; [|done]. destruct A as [->|[_ ->]]; [|done]. simpl in L.
    by apply map_lookup_filter_Some in L as [L _].
  - left. split; [|done]. by destruct A as [->|[_ ->]].
Qed.

Lemma session_origin_snoc log h row r :
  session_origin log h row → (se_RevokedAt row = None → revokes h (en_event r) = false) →
  session_origin (log ++ [r]) h row.
Proof.
  intros (log0 & c & log1 & -> & X & T & R & S) N. exists log0, c, (log1 ++ [r]).
  split_and!; [by rewrite <- app_assoc|done|done| |].
  - intros E r' [I|I%list_elem_of_singleton]%elem_of_app; [by apply R|subst; by apply N].
  - destruct S as [S|(r' & I & ? & ?)]; [by left|right]. exists r'. split_and!; [|done..]. apply elem_of_app. by left.
Qed.

(** Every row of either table has its origin in the log. *)
Lemma executes_origins start log s :
  executes start log s →
  (∀ h row, st_sessions s !! h = Some row → session_origin log h row)
  ∧ (∀ st a, st_attempts s !! st = Some a → attempt_origin log st a).
Proof.
  intros X. induction X as [|log s e s' X [IS IA] [L A]]; [done|]. split.
  - intros h row' R. destruct (answered_sessions _ _ _ _ _ _ A R)
      as [[O N]|[(su & em & ro & ex & x & E & ->)|[(row & x & E & O & ->)|(row & O & ->)]]].
    + by apply session_origin_snoc; [apply IS|].
    + exists log, e, []. split_and!; [done|by exists x|done|intros _ r I; by apply not_elem_of_nil in I|by left].
    + destruct (IS h row O) as (log0 & c & log1 & -> & [y Y] & T & Rv & S). unfold touch_row.
      case_bool_decide as V; [|apply session_origin_snoc; [exists log0, c, log1; split_and!; try done; by exists y|done]].
      exists log0, c, (log1 ++ [e]). split_and!; simpl; [by rewrite <- app_assoc|by exists y|done| |].
      * intros _ r [I|I%list_elem_of_singleton]%elem_of_app; [by apply Rv|subst; by rewrite E].
      * right. exists e. split_and!; [apply elem_of_app; right; by apply list_elem_of_singleton| |done].
        rewrite E. apply String.eqb_refl.
    + assert (session_origin (log ++ [e]) h (mkSession (se_Subject row) (se_Email row) (se_Role row) (se_CreatedAt row)
          (se_ExpiresAt row) (se_LastSeenAt row) (Some (en_at e)))) as K.
      { apply session_origin_snoc; [|done]. destruct (IS h row O) as (log0 & c & log1 & -> & Y & T & Rv & S).
        exists log0, c, log1. by split_and!. }
      unfold revoke_row. case_bool_decide as V; [exact K|].
      apply session_origin_snoc; [by apply IS|done].
  - intros st a R. destruct (answered_attempts _ _ _ _ _ _ A R) as [[O N]|[x E]].
    + destruct (IA st a O) as (log0 & c & log1 & -> & X' & C). exists log0, c, (log1 ++ [e]).
      split_and!; [by rewrite <- app_assoc|done|]. intros r [I|I%list_elem_of_singleton]%elem_of_app; [by apply C|by subst].
    + exists log, e, []. split_and!; [done|by exists x|]. intros r I. by apply not_elem_of_nil in I.
Qed.

(** ** Requests *)

(** The requests being served, and the background loop. *)
Inductive task : Type :=
  | TLogin (r : Request)
  | TCallback (r : Request)
  | TLogout (r : Request)
  | TAuthenticate (r : Request)
  | TRun (retries ticks : nat).

Section service.
Context `{UnicodeTables} `{UrlLib}.
Variable s : Service.
Variable AuthCodeURL : string → string → string → string.

Definition task_program (tk : task) : program :=
  match tk with
  | TLogin r => Prog (login s AuthCodeURL r)
  | TCallback r => Prog (callback s r)
  | TLogout r => Prog (logout s r)
  | TAuthenticate r => Prog (AuthenticateSession s r)
  | TRun retries ticks => Prog (Run retries ticks)
  end.

(** The log interleaves the calls of the tasks. *)
Abbreviation sso_interleaves := (interleaves task_program).

(** What a callback has seen when it opens a session: the attempt it consumed, the
    exchange of the code with that attempt's verifier, and a verified ID token with that
    attempt's nonce, whose claims name the identity and a group of the role. *)
Definition granted (r : Request) (tr : list event) (idHash subject email role : string) (expiresAt : Z) : Prop :=
  ∃ attempt raw idToken claims b now,
    tr = [Ev (CConsumeLogin (query_get (rq_Query r) "state")) (Ok attempt); Ev CClient true;
          Ev (CExchange (query_get (rq_Query r) "code") (la_CodeVerifier attempt)) (Ok (Some raw));
          Ev (CVerifyToken raw) (Ok idToken); Ev CRandomBytes b; Ev CNow now]
    ∧ it_Nonce idToken = la_Nonce attempt ∧ it_Claims idToken = Some claims
    ∧ identityFrom s claims = (email, "") ∧ roleFrom s claims = Some role
    ∧ idHash = hashToken (b64_raw_url b) ∧ subject = it_Subject idToken
    ∧ expiresAt = now + oi_SessionTTL (sv_cfg s).

Definition requested (r : Request) (tr : list event) (st nonce verifier returnTo : string) (expiresAt : Z) : Prop :=
  ∃ b1 b2 now,
    tr = [Ev CClient true; Ev CRandomBytes b1; Ev CRandomBytes b2; Ev CGenerateVerifier verifier; Ev CNow now]
    ∧ st = b64_raw_url b1 ∧ nonce = b64_raw_url b2
    ∧ validReturnTo s (query_get (rq_Query r) "return_to") = Some returnTo
    ∧ expiresAt = now + loginAttemptTTL.

(** Which task makes which call, and after what. *)
Definition call_guard (tk : task) (tr : list event) (c : cmd) : Prop :=
  match c with
  | CCreateSession h su em ro ex => ∃ r, tk = TCallback r ∧ granted r tr h su em ro ex
  | CCreateLogin st no ve re ex => ∃ r, tk = TLogin r ∧ requested r tr st no ve re ex
  | CGetSession h cut => ∃ r, tk = TAuthenticate r
  | CNow | CClient | CRandomBytes | CGenerateVerifier | CConsumeLogin _ | CExchange _ _ | CVerifyToken _ | CTouchSession _
  | CRevokeSession _ | CDeleteExpiredLogins | CDeleteExpiredSessions | CDiscover | CWait _ => True
  | _ => False
  end.

Lemma login_safe r : safe (call_guard (TLogin r)) [] (login s AuthCodeURL r).
Proof.
  unfold login. split; [done|]. intros [|]; [|done]. cbn. destruct (validReturnTo s _) eqn:V; [|done].
  split; [done|]. intros b1. split; [done|]. intros b2. split; [done|]. intros ve. split; [done|]. intros now.
  split; [|intros [|]; done]. exists r. split; [done|]. by exists b1, b2, now.
Qed.

Lemma callback_safe r : safe (call_guard (TCallback r)) [] (callback s r).
Proof.
  unfold callback. split; [done|]. intros [attempt|]; [|done]. cbn.
  destruct (String.eqb (query_get (rq_Query r) "error") ""); [|done]. cbn. split; [done|]. intros [|]; [|done]. cbn.
  split; [done|]. intros [extra|]; [|done]. destruct extra as [raw|]; [|done]. cbn.
  destruct (String.eqb raw ""); [done|]. split; [done|]. intros [idToken|]; [|done].
  unfold open_session. destruct (String.eqb_spec (it_Nonce idToken) (la_Nonce attempt)) as [N|]; [|done]. cbn [negb].
  destruct (it_Claims idToken) as [claims|] eqn:C; [|done].
  destruct (identityFrom s claims) as [em code] eqn:I. destruct (String.eqb_spec code "") as [->|]; [|done]. cbn [negb].
  destruct (roleFrom s claims) as [ro|] eqn:R; [|done]. cbn. split; [done|]. intros b. split; [done|]. intros now.
  split; [|intros [|]; done]. exists r. split; [done|]. exists attempt, raw, idToken, claims, b, now. by split_and!.
Qed.

Lemma AuthenticateSession_safe r : safe (call_guard (TAuthenticate r)) [] (AuthenticateSession s r).
Proof.
  unfold AuthenticateSession. destruct (request_cookie _ _) as [v|]; [|done]. destruct (String.eqb v ""); [done|].
  split; [done|]. intros now. split; [by exists r|]. intros [row|]; [|done]. cbn.
  destruct (negb _ && _); [done|]. destruct (touchInterval <? _); [|done]. split; [done|]. by intros [|].
Qed.

Lemma logout_safe r : safe (call_guard (TLogout r)) [] (logout s r).
Proof.
  unfold logout. destruct (negb _); [done|]. destruct (request_cookie _ _) as [v|]; [|done].
  destruct (String.eqb v ""); [done|]. split; [done|]. by intros [|].
Qed.

Lemma Run_safe retries ticks : safe (call_guard (TRun retries ticks)) [] (Run retries ticks).
Proof.
  assert (∀ tk n h, safe (call_guard tk) h (cleanup_loop n)) as C.
  { intros tk n. induction n as [|n IH]; intros h; [done|]. cbn [cleanup_loop]. apply safe_bind; [|intros; apply IH].
    intros h'. unfold cleanup. split; [done|]. intros x. split; [done|]. by intros y. }
  generalize (TRun retries ticks). intros tk. apply safe_bind; [|intros [|] h'; [apply C|done]].
  generalize (2 * GoTime.second). induction retries as [|n IH]; intros d h'; cbn [discover_loop]; split; try done;
    intros [e|]; try done; (split; [done|]); intros [|]; try done. apply IH.
Qed.

Lemma task_safe tk : program_safe (call_guard tk) (task_program tk).
Proof.
  destruct tk; [apply login_safe|apply callback_safe|apply logout_safe|apply AuthenticateSession_safe|apply Run_safe].
Qed.

(** What an authenticated session check has seen. *)
Lemma runs_AuthenticateSession r tr id :
  runs (AuthenticateSession s r) tr (Some id) →
  ∃ value now row rest, request_cookie (rq_Header r) (cookieName s) = Some value
    ∧ tr = Ev CNow now :: Ev (CGetSession (hashToken value) (now - oi_SessionIdleTTL (sv_cfg s))) (Ok row) :: rest
    ∧ id = mkIdentity (gs_Email row) (gs_Role row) ∧ (gs_Role row = RoleReviewer ∨ gs_Role row = RoleAdmin).
Proof.
  unfold AuthenticateSession. destruct (request_cookie _ _) as [v|] eqn:V; [|by intros [_ ?]].
  destruct (String.eqb v ""); [by intros [_ ?]|]. intros (now & t1 & -> & x & t2 & -> & R).
  destruct x as [row|]; [|by destruct R]. cbn in R.
  destruct (negb (String.eqb (gs_Role row) RoleReviewer) && negb (String.eqb (gs_Role row) RoleAdmin)) eqn:G;
    [by destruct R|].
  assert (gs_Role row = RoleReviewer ∨ gs_Role row = RoleAdmin) as Ro.
  { rewrite andb_false_iff, !negb_false_iff, !String.eqb_eq in G. exact G. }
  exists v, now, row, t2. split_and!; [done..| |done].
  destruct (touchInterval <? GoTime.sub now (gs_LastSeenAt row)); [destruct R as (y & t3 & -> & R)|];
    destruct R as [_ R]; by simplify_eq.
Qed.

Lemma answered_session now st h cut row st' :
  answered now st (Ev (CGetSession h cut) (Ok row)) st' →
  ∃ e, st_sessions st !! h = Some e ∧ se_RevokedAt e = None ∧ now < se_ExpiresAt e ∧ cut < se_LastSeenAt e
    ∧ row = mkSessionRow h (se_Subject e) (se_Email e) (se_Role e) (se_CreatedAt e) (se_ExpiresAt e) (se_LastSeenAt e).
Proof.
  intros [[E|E] _]; [|done]. unfold GetActiveSession, is_active in E.
  destruct (st_sessions st !! h) as [e|]; [|done]. exists e.
  destruct (bool_decide_reflect (se_RevokedAt e = None)); [|done].
  destruct (Z.ltb_spec now (se_ExpiresAt e)); [|done]. destruct (Z.ltb_spec cut (se_LastSeenAt e)); [|done].
  by simplify_eq/=.
Qed.

Lemma answered_consume now st state row st' :
  answered now st (Ev (CConsumeLogin state) (Ok row)) st' →
  ∃ a, st_attempts st !! state = Some a ∧ now < at_ExpiresAt a
    ∧ row = mkAttemptRow (at_Nonce a) (at_CodeVerifier a) (at_ReturnTo a).
Proof.
  cbn. unfold ConsumeLoginAttempt. destruct (st_attempts st !! state) as [a|]; [|naive_solver].
  destruct (Z.ltb_spec now (at_ExpiresAt a)); naive_solver.
Qed.

(** The session a check found: the call that created its row. *)
Lemma session_found start log st l1 e l2 h cut row :
  executes start log st → log = l1 ++ e :: l2 → en_event e = Ev (CGetSession h cut) (Ok row) →
  ∃ l0 c l3 x, l1 = l0 ++ c :: l3
    ∧ en_event c = Ev (CCreateSession h (gs_Subject row) (gs_Email row) (gs_Role row) (gs_ExpiresAt row)) x
    ∧ en_at e < gs_ExpiresAt row ∧ cut < gs_LastSeenAt row
    ∧ (∀ r, r ∈ l3 → revokes h (en_event r) = false)
    ∧ (gs_LastSeenAt row = en_at c ∨ ∃ r, r ∈ l3 ∧ touches h (en_event r) = true ∧ en_at r = gs_LastSeenAt row).
Proof.
  intros X E Ev'. rewrite E in X. destruct (after_split _ _ _ _ _ _ X) as (s1 & s2 & X1 & _ & A). rewrite Ev' in A.
  destruct (answered_session _ _ _ _ _ _ A) as (e' & L & R & Ex & S & ->).
  destruct (executes_origins _ _ _ X1) as [O _].
  destruct (O _ _ L) as (l0 & c & l3 & -> & [x C] & _ & Rv & Se).
  exists l0, c, l3, x. split_and!; try done. by apply Rv.
Qed.

Lemma session_traced start tasks log st l1 e l2 h cut row :
  executes start log st → sso_interleaves tasks log → log = l1 ++ e :: l2 →
  en_event e = Ev (CGetSession h cut) (Ok row) →
  ∃ l0 c l3 r, l1 = l0 ++ c :: l3 ∧ tasks !! en_task c = Some (TCallback r)
    ∧ granted r (events_of (en_task c) l0) h (gs_Subject row) (gs_Email row) (gs_Role row) (gs_ExpiresAt row)
    ∧ en_at e < gs_ExpiresAt row ∧ cut < gs_LastSeenAt row
    ∧ (∀ r, r ∈ l3 → revokes h (en_event r) = false)
    ∧ (gs_LastSeenAt row = en_at c ∨ ∃ r, r ∈ l3 ∧ touches h (en_event r) = true ∧ en_at r = gs_LastSeenAt row).
Proof.
  intros X I E Ev'. destruct (session_found _ _ _ _ _ _ _ _ _ X E Ev') as (l0 & c & l3 & x & -> & C & R).
  rewrite <- app_assoc in E. destruct (interleaves_safe _ _ _ I call_guard _ _ _ task_safe E) as (tk & T & G).
  rewrite C in G. destruct G as (r & -> & G). by exists l0, c, l3, r.
Qed.

(** The login a callback consumed. *)
Lemma login_traced start tasks log st l1 e l2 state row :
  executes start log st → sso_interleaves tasks log → log = l1 ++ e :: l2 →
  en_event e = Ev (CConsumeLogin state) (Ok row) →
  ∃ l0 c l3 r expiresAt, l1 = l0 ++ c :: l3 ∧ tasks !! en_task c = Some (TLogin r)
    ∧ requested r (events_of (en_task c) l0) state (la_Nonce row) (la_CodeVerifier row) (la_ReturnTo row) expiresAt
    ∧ en_at e < expiresAt ∧ ∀ r, r ∈ l3 → consumes state (en_event r) = false.
Proof.
  intros X I E Ev'. rewrite E in X. destruct (after_split _ _ _ _ _ _ X) as (s1 & s2 & X1 & _ & A). rewrite Ev' in A.
  destruct (answered_consume _ _ _ _ _ A) as (a & L & Ex & ->).
  destruct (executes_origins _ _ _ X1) as [_ O].
  destruct (O _ _ L) as (l0 & c & l3 & -> & [x C] & N). rewrite <- app_assoc in E.
  destruct (interleaves_safe _ _ _ I call_guard _ _ _ task_safe E) as (tk & T & G).
  rewrite C in G. destruct G as (r & -> & G).
  exists l0, c, l3, r, (at_ExpiresAt a). by split_and!.
Qed.

(** C8: whatever requests interleave, an SSO session check that succeeds returns the
    identity and role of a session that some callback opened: it had consumed a login
    attempt, exchanged the code with that attempt's verifier and been given a verified ID
    token with its nonce, whose claims hold a (for [email], verified) identity and a group
    of that role.  The session had not expired, had been seen within the idle time, and
    no sign-out of it had been acknowledged. *)
Theorem authenticated_sessions start tasks log st i r id :
  executes start log st → sso_interleaves tasks log →
  tasks !! i = Some (TAuthenticate r) → runs (AuthenticateSession s r) (events_of i log) (Some id) →
  ∃ value l1 e l2 l0 c l3 rc subject seen expires now,
    request_cookie (rq_Header r) (cookieName s) = Some value
    ∧ log = l1 ++ e :: l2 ∧ l1 = l0 ++ c :: l3
    ∧ tasks !! en_task c = Some (TCallback rc)
    ∧ granted rc (events_of (en_task c) l0) (hashToken value) subject (id_ID id) (id_Role id) expires
    ∧ (id_Role id = RoleReviewer ∨ id_Role id = RoleAdmin)
    ∧ en_at e < expires ∧ Ev CNow now ∈ events_of i l1 ∧ now - oi_SessionIdleTTL (sv_cfg s) < seen
    ∧ (∀ r, r ∈ l3 → revokes (hashToken value) (en_event r) = false)
    ∧ (seen = en_at c ∨ ∃ r, r ∈ l3 ∧ touches (hashToken value) (en_event r) = true ∧ en_at r = seen).
Proof.
  intros X I T R. destruct (runs_AuthenticateSession _ _ _ R) as (v & now & row & rest & V & E & -> & Ro).
  destruct (events_of_split i log [Ev CNow now] _ _ E) as (l1 & e & l2 & L & N & Ev' & _).
  destruct (session_traced _ _ _ _ _ _ _ _ _ _ X I L Ev') as (l0 & c & l3 & rc & L1 & Tc & G & Ex & Se & Rv & Sn).
  exists v, l1, e, l2, l0, c, l3, rc, (gs_Subject row), (gs_LastSeenAt row), (gs_ExpiresAt row), now.
  split_and!; try done. rewrite N. by left.
Qed.

(** ** Where the browser is sent *)

(** A URL of the console: an allowed origin, other than the wildcard, and a path. *)
Definition console_url (u : string) : Prop :=
  ∃ origin path, u = origin +:+ path ∧ origin ∈ sv_allowedOrigins s ∧ origin ≠ "*"
    ∧ has_prefix path "/" = true ∧ has_prefix path "//" = false.

Lemma validReturnTo_console raw u : validReturnTo s raw = Some u → console_url u.
Proof.
  unfold validReturnTo. destruct (String.eqb raw "").
  - destruct (List.find _ _) as [o|] eqn:F; [|done]. intros [= <-]. apply find_some in F as [I N].
    apply andb_true_iff in N as [N _]. apply negb_true_iff, String.eqb_neq in N.
    exists o, "/". split_and!; try done. by apply list_elem_of_In.
  - destruct (url_Parse raw) as [u'|]; [|done].
    destruct (_ || pu_User u') eqn:C; [done|]. destruct (bool_decide_reflect (pu_Scheme u' +:+ "://" +:+ pu_Host u' ∈ sv_allowedOrigins s)) as [I|];
      [|done]. cbn [negb]. intros [= <-].
    eexists (pu_Scheme u' +:+ "://" +:+ pu_Host u'), _. split; [done|]. split; [done|]. split.
    + apply orb_false_iff in C as [C _]. apply orb_false_iff in C as [C _]. apply andb_false_iff in C as [C|C];
        apply negb_false_iff, String.eqb_eq in C; by rewrite C.
    + destruct (has_prefix (pu_EscapedPath u') "/") eqn:P, (has_prefix (pu_EscapedPath u') "//") eqn:PP,
        (String.eqb (pu_EscapedPath u') ""); by rewrite ?P, ?PP.
Qed.

(** A redirect to the return address of an attempt, or to it with an error code. *)
Definition sent_to (attempt : ConsumeLoginAttemptRow) (resp : Response any) : Prop :=
  rs_Status resp = 302
  ∧ (member "Location" (rs_Header resp) = Some (la_ReturnTo attempt)
     ∨ ∃ code, member "Location" (rs_Header resp) = Some (withQuery (la_ReturnTo attempt) "sso_error" code)).

Lemma fail_sent attempt code : sent_to attempt (fail attempt code).
Proof. split; [done|]. right. by exists code. Qed.

Lemma open_session_sent attempt idToken : returns (sent_to attempt) (open_session s attempt idToken).
Proof.
  unfold open_session. destruct (negb _); [apply fail_sent|]. destruct (it_Claims idToken); [|apply fail_sent].
  destruct (identityFrom s l) as [em code]. destruct (negb _); [apply fail_sent|].
  destruct (roleFrom s l); [|apply fail_sent]. intros b now [err|]; [apply fail_sent|]. cbn. split; [done|by left].
Qed.

(** Every answer of a callback. *)
Lemma runs_callback r tr resp :
  runs (callback s r) tr resp →
  rs_Status resp = 400
  ∨ ∃ attempt rest, tr = Ev (CConsumeLogin (query_get (rq_Query r) "state")) (Ok attempt) :: rest ∧ sent_to attempt resp.
Proof.
  unfold callback. intros (x & t & -> & R). destruct x as [attempt|]; [right|destruct R as [_ ->]; by left].
  exists attempt, t. split; [done|]. refine (returns_runs _ _ _ _ _ R). clear R. cbn.
  destruct (negb _); [apply fail_sent|]. intros [|]; [|apply fail_sent]. intros [extra|]; [|apply fail_sent]. cbn.
  destruct (String.eqb (default "" extra) ""); [apply fail_sent|]. intros [idToken|]; [|apply fail_sent].
  apply open_session_sent.
Qed.

(** C12: whatever requests interleave, a callback that does not answer 400 has consumed a
    login attempt which a [login] request created, no more than ten minutes of its clock
    before, and which no other callback consumed since; it redirects to the return address
    validated then, an allowed origin with an absolute path, or to that address with an
    error code.  Sign-in links are single use and never an open redirect. *)
Theorem sign_in_returns_home start tasks log st i r resp :
  executes start log st → sso_interleaves tasks log →
  tasks !! i = Some (TCallback r) → runs (callback s r) (events_of i log) resp →
  rs_Status resp = 400
  ∨ ∃ attempt l1 e l2 l0 c l3 rl expires,
      log = l1 ++ e :: l2 ∧ en_event e = Ev (CConsumeLogin (query_get (rq_Query r) "state")) (Ok attempt)
      ∧ l1 = l0 ++ c :: l3 ∧ tasks !! en_task c = Some (TLogin rl)
      ∧ requested rl (events_of (en_task c) l0) (query_get (rq_Query r) "state") (la_Nonce attempt)
          (la_CodeVerifier attempt) (la_ReturnTo attempt) expires
      ∧ en_at e < expires ∧ (∀ r', r' ∈ l3 → consumes (query_get (rq_Query r) "state") (en_event r') = false)
      ∧ console_url (la_ReturnTo attempt) ∧ sent_to attempt resp.
Proof.
  intros X I T R. destruct (runs_callback _ _ _ R) as [?|(attempt & rest & E & S)]; [by left|right].
  destruct (events_of_split i log [] _ _ E) as (l1 & e & l2 & L & _ & Ev' & _).
  destruct (login_traced _ _ _ _ _ _ _ _ _ X I L Ev') as (l0 & c & l3 & rl & ex & L1 & Tc & G & Ex & N).
  exists attempt, l1, e, l2, l0, c, l3, rl, ex. split_and!; try done.
  destruct G as (b1 & b2 & now & _ & _ & _ & V & _). by eapply validReturnTo_console.
Qed.

End service.

(** ** A closed run: a login, its callback, and a session check *)

(** An environment that serves one request at a time, at a fixed time. *)
Definition calm_env (provider : IDToken) (random : string) (c : cmd) (s : state) : ans c * state :=
  match c return ans c * state with
  | CNow => (st_now s, s)
  | CRandomBytes => (random, s)
  | CExchange _ _ => (Ok (Some "jwt"), s)
  | CVerifyToken _ => (Ok provider, s)
  | CCreateLogin st nonce verifier returnTo expiresAt =>
      let '(err, t) := CreateLoginAttempt st (mkAttempt nonce verifier returnTo expiresAt) (st_attempts s) in
      (err, mkState (st_now s) t (st_sessions s))
  | CConsumeLogin st =>
      let '(row, t) := ConsumeLoginAttempt (st_now s) st (st_attempts s) in (row, mkState (st_now s) t (st_sessions s))
  | CCreateSession h su em ro ex =>
      let '(err, t) := CreateSession (st_now s) h su em ro ex (st_sessions s) in
      (err, mkState (st_now s) (st_attempts s) t)
  | CGetSession h cut => (GetActiveSession (st_now s) h cut (st_sessions s), s)
  | CTouchSession h => (None, mkState (st_now s) (st_attempts s) (TouchSession (st_now s) h (st_sessions s)))
  | CRevokeSession h => (None, mkState (st_now s) (st_attempts s) (RevokeSession (st_now s) h (st_sessions s)))
  | CDeleteExpiredLogins =>
      (None, mkState (st_now s) (DeleteExpiredLoginAttempts (st_now s) (st_attempts s)) (st_sessions s))
  | CDeleteExpiredSessions =>
      (None, mkState (st_now s) (st_attempts s) (DeleteExpiredSessions (st_now s) (st_sessions s)))
  | c => (quiet_answer c, s)
  end.

Lemma calm_answered provider random c s :
  answered (st_now s) s (Ev c (calm_env provider random c s).1) (calm_env provider random c s).2
  ∧ st_now (calm_env provider random c s).2 = st_now s.
Proof.
  destruct s as [now a t]. destruct c; cbn; try done; auto.
  - destruct (CreateLoginAttempt _ _ _) as [err t']. cbn. auto.
  - destruct (ConsumeLoginAttempt _ _ _) as [row t']. cbn. auto.
  - destruct (CreateSession _ _ _ _ _ _ _) as [err t']. cbn. auto.
Qed.

Lemma calm_executes {A} provider random start log s i (p : prog A) tr a s' :
  executes start log s → run (calm_env provider random) p s = (tr, a, s') →
  executes start (log ++ map (mkEntry (st_now s) i) tr) s' ∧ st_now s' = st_now s.
Proof.
  revert log s tr. induction p as [a'|c k IH]; intros log s tr X R; cbn in R.
  - simplify_eq. by rewrite app_nil_r.
  - pose proof (calm_answered provider random c s) as [A' N].
    destruct (calm_env provider random c s) as [x s1]. destruct (run _ (k x) s1) as [[tr1 a1] s2] eqn:R1. simplify_eq.
    cbn in A', N. destruct (IH x (log ++ [mkEntry (st_now s) i (Ev c x)]) s1 tr1) as [X' N'].
    + by apply (after_call _ _ log s).
    + done.
    + rewrite N in X', N'. split; [|done]. cbn. by rewrite <- app_assoc in X'.
Qed.

Section example.
#[local] Existing Instance ascii_tables.
#[local] Existing Instance plain_urls.

Definition sample_service : Service :=
  New (mkOIDC "https://idp.example.com" "client" "secret" "https://elodea.example.com/auth/callback" "SSO" "groups"
         "email" ["openid"] ["reviewers"] ["admins"] (8 * GoTime.hour) GoTime.hour "")
    ["https://console.example.com"].
Definition sample_authorize (st nonce verifier : string) : string :=
  "https://idp.example.com/authorize?state=" +:+ st.

Definition sample_login : Request :=
  mkRequest "GET" "/auth/login" [("return_to", "https://console.example.com/review")] ∅ "" None.
Definition sample_callback : Request :=
  mkRequest "GET" "/auth/callback" [("state", "dG9r"); ("code", "xyz")] ∅ "" None.
Definition sample_check : Request :=
  mkRequest "GET" "/api/v1/me" [] {["Cookie" := ["__Host-elodea_session=dG9r"]]} "" None.

Definition sample_token : IDToken :=
  mkIDToken "dG9r" "sub-1"
    (Some [("email", AString " Carol@X.io"); ("email_verified", ABool true);
           ("groups", AArray [AString "staff"; AString "reviewers"])]).
Definition sample_env := calm_env sample_token "tok".
Definition run_login := run sample_env (login sample_service sample_authorize sample_login) (mkState 0 ∅ ∅).
Definition run_callback := run sample_env (callback sample_service sample_callback) run_login.2.
Definition run_check := run sample_env (AuthenticateSession sample_service sample_check) run_callback.2.

Definition sample_tasks : list task := [TLogin sample_login; TCallback sample_callback; TAuthenticate sample_check].
Definition sample_log : list entry :=
  ((map (mkEntry 0 0) run_login.1.1) ++ map (mkEntry 0 1) run_callback.1.1) ++ map (mkEntry 0 2) run_check.1.1.

Lemma sample_executes : executes 0 sample_log run_check.2.
Proof.
  destruct (calm_executes sample_token "tok" 0 [] _ 0 _ _ _ _ (after_start _ _) (run_eta run_login)) as [X0 N0].
  destruct (calm_executes sample_token "tok" 0 _ _ 1 _ _ _ _ X0 (run_eta run_callback)) as [X1 N1].
  rewrite N0 in N1, X1.
  destruct (calm_executes sample_token "tok" 0 _ _ 2 _ _ _ _ X1 (run_eta run_check)) as [X2 _].
  rewrite N1 in X2. exact X2.
Qed.

Lemma sample_events i :
  events_of i sample_log
  = match i with 0%nat => run_login.1.1 | 1%nat => run_callback.1.1 | 2%nat => run_check.1.1 | _ => [] end.
Proof.
  unfold sample_log. rewrite !events_of_app, !events_of_stamp.
  destruct i as [|[|[|i]]]; cbn; by rewrite ?app_nil_r.
Qed.

Lemma sample_interleaves : interleaves (task_program sample_service sample_authorize) sample_tasks sample_log.
Proof.
  split.
  - intros e I. unfold sample_log in I. rewrite !elem_of_app in I.
    destruct I as [[I|I]|I]; apply list_elem_of_fmap in I as (ev & -> & _); by eexists.
  - intros i tk T. rewrite sample_events.
    destruct i as [|[|[|i]]]; [..|done]; injection T as <-; eexists; apply runs_steps, (run_runs sample_env _ _ _ _ _ (run_eta _)).
Qed.

Lemma sample_authenticated :
  runs (AuthenticateSession sample_service sample_check) (events_of 2 sample_log)
    (Some (mkIdentity "carol@x.io" RoleReviewer)).
Proof.
  rewrite sample_events. assert (run_check.1.2 = Some (mkIdentity "carol@x.io" RoleReviewer)) as <- by (vm_compute; reflexivity).
  apply (run_runs sample_env _ _ _ _ _ (run_eta run_check)).
Qed.

Lemma authenticated_sessions_witness :
  ∃ c rc, sample_tasks !! en_task c = Some (TCallback rc) ∧ c ∈ sample_log.
Proof.
  destruct (authenticated_sessions sample_service sample_authorize 0 sample_tasks sample_log _ 2 sample_check _
              sample_executes sample_interleaves eq_refl sample_authenticated)
    as (value & l1 & e & l2 & l0 & c & l3 & rc & su & seen & ex & now & _ & L & L1 & T & _).
  exists c, rc. split; [exact T|]. rewrite L, L1. apply elem_of_app. left. apply elem_of_app. right. by left.
Defined.

Lemma sign_in_returns_home_witness :
  ∃ attempt resp, sent_to attempt resp ∧ console_url sample_service (la_ReturnTo attempt) ∧ rs_Status resp = 302.
Proof.
  destruct (sign_in_returns_home sample_service sample_authorize 0 sample_tasks sample_log _ 1 sample_callback
              run_callback.1.2 sample_executes sample_interleaves eq_refl)
    as [B|(attempt & l1 & e & l2 & l0 & c & l3 & rl & ex & _ & _ & _ & _ & _ & _ & _ & C & S)].
  - rewrite sample_events. apply (run_runs sample_env _ _ _ _ _ (run_eta run_callback)).
  - vm_compute in B. discriminate B.
  - exists attempt, run_callback.1.2. split_and!; [exact S|exact C|exact (proj1 S)].
Defined.
End example.
End SsoLog.
