(* ===== verification/ProxyIngress.v ===== *)
(** * Proxy ingress: the protocol adapter

    [internal/proxy/adapter.go] and the validation half of [internal/proxy/proxy.go]:
    one HTTP request becomes an [Invocation] or an [IngressError].  The Go interface
    [Adapter] is a class; [MCPAdapter] is its instance. *)

From S2P Require Import Prelude GoStrings Types GoJson GoJsonEnc GoBase64 Mcp Effects Auth.
From stdpp Require Import base tactics strings list gmap pretty.
From Stdlib Require Import ZArith Lia Ascii.

Local Open Scope Z_scope.
Local Open Scope go_scope.

Import Mcp Auth.

(** ** [adapter.go]: the interface *)

Record Invocation : Type := mkInvocation {
  inv_Protocol : string;
  inv_ProtocolVersion : string;
  inv_Method : string;
  inv_Name : string;
  inv_Tool : string;
  inv_Arguments : option (list (string * any));
  inv_RequestID : string;
  inv_ResponseID : any
}.

Record IngressError : Type := mkIngressError {
  ie_Status : Z;
  ie_Code : Z;
  ie_Message : string;
  ie_ResponseID : any
}.

Class Adapter : Type := {
  adapter_Name : string;
  Parse : Header → string → Invocation + IngressError;
  WriteIngressError : IngressError → Response any;
  WriteDeny : Header → Invocation → ProxyDecision → Response any;
  WriteQuarantine : Header → Invocation → string → ProxyDecision → Response any
}.

Module Ingress.

Definition codeInvalidRequest : Z := -32600.
Definition codeHeaderBodyMismatch : Z := -32020.
Definition codeDeniedByPolicy : Z := -32010.
Definition codeQuarantined : Z := -32011.
Definition mcpProtocolVersion : string := "MCP-Protocol-Version".
Definition decisionMetaKey : string := "elodea/decision".
Definition quarantineIDHeader : string := "X-Elodea-Quarantine-ID".
Definition decisionHeader : string := "X-Elodea-Decision".
Definition policyVersionHeader : string := "X-Elodea-Policy-Version".

(** A Go [int] encoded by [encoding/json]. *)
Definition json_int (n : Z) : any := ANumber (pretty n).

(** [ingressError] *)
Definition ingressError (status code : Z) (message : string) (requestID : any) : Response any :=
  mkResponse status [("Content-Type", "application/json")]
    (BJson (AObject [("jsonrpc", AString "2.0"); ("id", requestID);
                     ("error", AObject [("code", json_int code); ("message", AString message)])])).

(** ** [validateIngress] *)

Record ingressRequest : Type := mkIngress {
  ir_method : string;
  ir_paramsName : string;
  ir_tool : string;
  ir_arguments : option (list (string * any));
  ir_requestID : string;
  ir_responseID : any
}.

Definition empty_ingress : ingressRequest := mkIngress "" "" "" None "" ANil.

(** The identifier switch: [None] is the rejected case. *)
Definition request_id (ident : any) : option string :=
  match ident with
  | AString s => Some s
  | ANumber lit => Some lit
  | _ => None
  end.

Definition name_field (method : string) : string :=
  if String.eqb method "tools/call" || String.eqb method "prompts/get" then "name"
  else if String.eqb method "resources/read" then "uri" else "".

Section ingress.
Context `{UnicodeTables}.

(** [validateIngress] from the method on, with the identifiers already read. *)
Definition validate_call (requestID : string) (responseID : any) (method : string)
    (parameters : list (string * any)) : ingressRequest * option error :=
  let nameField := name_field method in
  let request name tool arguments := mkIngress method name tool arguments requestID responseID in
  let name := default "" (as_string (member nameField parameters)) in
  if negb (String.eqb nameField "") && String.eqb name "" then
    (request "" method (Some parameters),
     Some (errors_New (method +:+ " requires a non-empty params." +:+ nameField)))
  else
    let paramsName := if String.eqb nameField "" then "" else name in
    if String.eqb method "tools/call" then
      match member "arguments" parameters with
      | None => (request paramsName paramsName None, None)
      | Some (AObject arguments) => (request paramsName paramsName (Some arguments), None)
      | Some _ =>
          (request paramsName paramsName None,
           Some (errors_New "tools/call params.arguments must be a JSON object when present"))
      end
    else (request paramsName method (Some parameters), None).

Definition validateIngress (body : string) : ingressRequest * option error :=
  match DecodeObject body with
  | Err err => (empty_ingress, Some err)
  | Ok requestBody =>
      let ident := match member "id" requestBody with
                   | None => Some ("", ANil)
                   | Some v => match request_id v with Some s => Some (s, v) | None => None end
                   end in
      match ident with
      | None => (empty_ingress, Some (errors_New "id must be a string or number when present"))
      | Some (requestID, responseID) =>
          let fail msg := (mkIngress "" "" "" None requestID responseID, Some (errors_New msg)) in
          if bool_decide (is_Some (member "result" requestBody)) then
            fail "client-sent responses are not accepted"
          else if bool_decide (is_Some (member "error" requestBody)) then
            fail "client-sent error objects are not accepted"
          else if negb (bool_decide (as_string (member "jsonrpc" requestBody) = Some "2.0")) then
            fail ("jsonrpc must be " +:+ quoted "2.0")
          else
            match member "method" requestBody, member "params" requestBody with
            | Some methodRaw, Some paramsRaw =>
                match methodRaw with
                | AString method =>
                    if String.eqb method "" then fail "method must be a non-empty string"
                    else match paramsRaw with
                         | AObject parameters => validate_call requestID responseID method parameters
                         | _ => fail "params must be a JSON object"
                         end
                | _ => fail "method must be a non-empty string"
                end
            | _, _ =>
                fail "missing method or params — only bounded JSON-RPC/MCP invocations are accepted"
            end
      end
  end.

(** ** Mirrored headers *)

(** The bytes of a header value a mirrored header may hold. *)
Definition header_char (c : ascii) : bool :=
  let v := byte_val c in negb (((v <? 0x20) && negb (v =? 9)) || (v >? 0x7e)).

(** [singleHeader], the map visited in the order of the list.  The value of an absent
    header is [Ok None]. *)
Definition single_header (entries : list (string * list string)) (expectedName : string)
    : result (option string) :=
  let matching := List.filter (λ e, equal_fold e.1 expectedName) entries in
  match matching with
  | [] => Ok None
  | _ =>
      match concat (map snd matching) with
      | [value] =>
          if String.eqb value "" then
            Err (errors_New (expectedName +:+ " must have exactly one non-empty value"))
          else if negb (String.eqb (trim_set is_blank value) value) then
            Err (errors_New (expectedName +:+ " must not have leading or trailing whitespace"))
          else if negb (bytes_all header_char value) then
            Err (errors_New (expectedName +:+ " contains invalid header characters"))
          else Ok (Some value)
      | _ => Err (errors_New (expectedName +:+ " must have exactly one non-empty value"))
      end
  end.
Definition singleHeader (header : Header) (expectedName : string) : result (option string) :=
  single_header (map_to_list header) expectedName.

Definition b64_prefix : string := "=?base64?".
Definition b64_suffix : string := "?=".

(** [decodeHeaderName] *)
Definition decodeHeaderName (value : string) : result string :=
  if negb (has_prefix value b64_prefix) || negb (has_suffix value b64_suffix) then Ok value
  else
    let encoded := trim_suffix (trim_prefix value b64_prefix) b64_suffix in
    match b64_decode encoded with
    | Some decoded =>
        if utf8_valid decoded && String.eqb (b64_encode decoded) encoded then Ok decoded
        else Err (errors_New "Mcp-Name contains invalid Base64-encoded UTF-8")
    | None => Err (errors_New "Mcp-Name contains invalid Base64-encoded UTF-8")
    end.

(** [validateMirroredHeaders] *)
Definition validateMirroredHeaders (header : Header) (ingress : ingressRequest) : result unit :=
  method ←? singleHeader header "Mcp-Method" ;;
  _ ←? match method with
       | Some m =>
           if String.eqb m (ir_method ingress) then Ok tt
           else Err (errors_New ("Mcp-Method header " +:+ go_quote m
                                 +:+ " contradicts body method " +:+ go_quote (ir_method ingress)))
       | None => Ok tt
       end ;;
  name ←? singleHeader header "Mcp-Name" ;;
  _ ←? match name with
       | Some n =>
           decodedName ←? decodeHeaderName n ;;
           if String.eqb (ir_paramsName ingress) "" || negb (String.eqb decodedName (ir_paramsName ingress))
           then Err (errors_New ("Mcp-Name header " +:+ go_quote n
                       +:+ " contradicts the body's name or URI " +:+ go_quote (ir_paramsName ingress)))
           else Ok tt
       | None => Ok tt
       end ;;
  version ←? singleHeader header mcpProtocolVersion ;;
  if str_contains (default "" version) "," then Err (errors_New "MCP-Protocol-Version must contain one version")
  else Ok tt.

(** ** [MCPAdapter] *)

Definition mcp_Parse (header : Header) (body : string) : Invocation + IngressError :=
  let '(ing, err) := validateIngress body in
  match err with
  | Some e => inr (mkIngressError 400 codeInvalidRequest (err_text e) (ir_responseID ing))
  | None =>
      match validateMirroredHeaders header ing with
      | Err e => inr (mkIngressError 400 codeHeaderBodyMismatch (err_text e) (ir_responseID ing))
      | Ok _ =>
          let version := match singleHeader header mcpProtocolVersion with Ok (Some v) => v | _ => "" end in
          inl (mkInvocation "mcp" version (ir_method ing) (ir_paramsName ing) (ir_tool ing)
                 (ir_arguments ing) (ir_requestID ing) (ir_responseID ing))
      end
  end.

Definition mcp_WriteIngressError (err : IngressError) : Response any :=
  ingressError (ie_Status err) (ie_Code err) (ie_Message err) (ie_ResponseID err).

(** [sentence] *)
Definition sentence (explanation : string) : string := trim_right_set is_dot (trim_space explanation).

(** [nativeMCP] *)
Definition nativeMCP (header : Header) : bool := negb (String.eqb (header_get header mcpProtocolVersion) "").

(** [decisionMeta] *)
Definition decisionMeta (outcome : string) (decision : ProxyDecision) (quarantineID : string) : any :=
  AObject ([("decision", AString outcome); ("rule", AString (pd_Rule decision));
            ("explanation", AString (pd_Explanation decision));
            ("policy_version", AString (pd_PolicyVersion decision))]
           ++ (if String.eqb quarantineID "" then [] else [("quarantine_id", AString quarantineID)])).

(** [writeJSON] after the headers already set on the writer. *)
Definition writeJSON (hs : list (string * string)) (status : Z) (body : any) : Response any :=
  mkResponse status (hs ++ [("Content-Type", "application/json")]) (BJson body).

(** [writeOutcome] *)
Definition writeOutcome (hs : list (string * string)) (inv : Invocation) (code : Z) (message text : string)
    (meta : any) : Response any :=
  if String.eqb (inv_Method inv) "tools/call" then
    writeJSON hs 200
      (AObject [("jsonrpc", AString "2.0"); ("id", inv_ResponseID inv);
                ("result", AObject [("content", AArray [AObject [("type", AString "text"); ("text", AString text)]]);
                                    ("isError", ABool true);
                                    ("_meta", AObject [(decisionMetaKey, meta)])])])
  else
    writeJSON hs 200
      (AObject [("jsonrpc", AString "2.0"); ("id", inv_ResponseID inv);
                ("error", AObject [("code", json_int code); ("message", AString message); ("data", meta)])]).

(** [setDecisionHeaders] *)
Definition decisionHeaders (outcome : string) (decision : ProxyDecision) : list (string * string) :=
  (decisionHeader, outcome)
  :: (if String.eqb (pd_PolicyVersion decision) "" then []
      else [(policyVersionHeader, pd_PolicyVersion decision)]).

Definition mcp_WriteDeny (header : Header) (inv : Invocation) (decision : ProxyDecision) : Response any :=
  let hs := decisionHeaders "deny" decision in
  if nativeMCP header then
    let text := "Blocked by Elodea policy " +:+ go_quote (pd_Rule decision) +:+ ": "
                +:+ sentence (pd_Explanation decision) +:+ ". The action was not executed." in
    writeOutcome hs inv codeDeniedByPolicy "Denied by policy" text (decisionMeta "deny" decision "")
  else
    writeJSON hs 403 (AObject [("error", AString "Denied by policy");
                               ("explanation", AString (pd_Explanation decision))]).

Definition mcp_WriteQuarantine (header : Header) (inv : Invocation) (quarantineID : string)
    (decision : ProxyDecision) : Response any :=
  let hs := decisionHeaders "quarantine" decision ++ [(quarantineIDHeader, quarantineID)] in
  if nativeMCP header then
    let text := "This action requires human approval (Elodea policy " +:+ go_quote (pd_Rule decision)
                +:+ ": " +:+ sentence (pd_Explanation decision)
                +:+ "). It has NOT been executed yet; "
                +:+ "a reviewer will approve or deny it. Quarantine ID: " +:+ quarantineID
                +:+ ". Do not retry the call." in
    writeOutcome hs inv codeQuarantined "Pending human approval" text
      (decisionMeta "quarantine" decision quarantineID)
  else
    writeJSON hs 202 (AObject [("quarantine_id", AString quarantineID); ("status", AString "quarantined")]).

#[export] Instance MCPAdapter : Adapter := {|
  adapter_Name := "mcp";
  Parse := mcp_Parse;
  WriteIngressError := mcp_WriteIngressError;
  WriteDeny := mcp_WriteDeny;
  WriteQuarantine := mcp_WriteQuarantine
|}.

(** ** Mirrored headers agree with the body *)

Lemma single_header_permutation es es' n :
  es ≡ₚ es' → single_header es n = single_header es' n.
Proof.
  intros P. unfold single_header.
  assert (List.filter (λ e, equal_fold e.1 n) es ≡ₚ List.filter (λ e, equal_fold e.1 n) es') as F.
  { clear -P. induction P; simpl; repeat case_match; eauto using Permutation. }
  assert (concat (map snd (List.filter (λ e, equal_fold e.1 n) es))
          ≡ₚ concat (map snd (List.filter (λ e, equal_fold e.1 n) es'))) as C by (by rewrite F).
  destruct (List.filter _ es) as [|m ms], (List.filter _ es') as [|m' ms'];
    try (by apply Permutation_length in F).
  destruct (concat (map snd (m :: ms))) as [|v [|w vs]]; destruct (concat (map snd (m' :: ms'))) as [|v' [|w' vs']];
    try (by apply Permutation_length in C).
  by apply Permutation_singleton_inj in C as ->.
Qed.

(** Every value of every spelling of the name is the value returned. *)
Lemma singleHeader_values header n r k vs v :
  singleHeader header n = Ok r → header !! k = Some vs → equal_fold k n = true → v ∈ vs → r = Some v.
Proof.
  unfold singleHeader, single_header. intros E L F I.
  assert ((k, vs) ∈ List.filter (λ e, equal_fold e.1 n) (map_to_list header)) as M.
  { apply list_elem_of_In, filter_In. split; [|done]. by apply list_elem_of_In, elem_of_map_to_list. }
  assert (v ∈ concat (map snd (List.filter (λ e, equal_fold e.1 n) (map_to_list header)))) as Mv.
  { apply list_elem_of_In, in_concat. exists vs. split; [|by apply list_elem_of_In].
    change vs with (k, vs).2. apply in_map. by apply list_elem_of_In. }
  destruct (List.filter _ _) as [|m ms]; [by apply elem_of_nil in M|].
  destruct (concat _) as [|v' [|w vs']]; try done.
  apply list_elem_of_singleton in Mv as ->. split_in E. congruence.
Qed.

Lemma validateMirrored_ok header ing :
  validateMirroredHeaders header ing = Ok () →
  (∀ m, singleHeader header "Mcp-Method" = Ok (Some m) → m = ir_method ing)
  ∧ (∀ n, singleHeader header "Mcp-Name" = Ok (Some n) →
      decodeHeaderName n = Ok (ir_paramsName ing) ∧ ir_paramsName ing ≠ "")
  ∧ is_ok (singleHeader header "Mcp-Method") = true ∧ is_ok (singleHeader header "Mcp-Name") = true
  ∧ is_ok (singleHeader header mcpProtocolVersion) = true.
Proof.
  unfold validateMirroredHeaders. intros E.
  destruct (singleHeader header "Mcp-Method") as [m|]; [|done]. cbn [rbind] in E.
  destruct (match m with Some _ => _ | None => _ end) eqn:Em; [|done]. cbn [rbind] in E.
  destruct (singleHeader header "Mcp-Name") as [n|]; [|done]. cbn [rbind] in E.
  destruct (match n with Some _ => _ | None => _ end) eqn:En; [|done]. cbn [rbind] in E.
  destruct (singleHeader header mcpProtocolVersion) as [v|]; [|done].
  split_and!; try done.
  - intros m' [= ->]. by destruct (String.eqb_spec m' (ir_method ing)).
  - intros n' [= ->]. destruct (decodeHeaderName n') as [d|]; [|done]. cbn [rbind] in En.
    destruct (String.eqb_spec (ir_paramsName ing) ""), (String.eqb_spec d (ir_paramsName ing)); try done.
    by subst.
Qed.

(** What a valid body says: the invocation's fields as read from the envelope. *)
Definition describes (ms : list (string * any)) (method name tool : string)
    (arguments : option (list (string * any))) : Prop :=
  member "method" ms = Some (AString method) ∧ method ≠ "" ∧ member "jsonrpc" ms = Some (AString "2.0")
  ∧ member "result" ms = None ∧ member "error" ms = None
  ∧ ∃ params, member "params" ms = Some (AObject params)
    ∧ (name_field method = "" ∧ name = ""
       ∨ name_field method ≠ "" ∧ name ≠ "" ∧ member (name_field method) params = Some (AString name))
    ∧ (if String.eqb method "tools/call"
       then tool = name ∧ member "arguments" params = AObject <$> arguments
       else tool = method ∧ arguments = Some params).

Lemma validate_call_ok id rid method params ing :
  validate_call id rid method params = (ing, None) →
  ir_method ing = method
  ∧ (name_field method = "" ∧ ir_paramsName ing = ""
     ∨ name_field method ≠ "" ∧ ir_paramsName ing ≠ ""
       ∧ member (name_field method) params = Some (AString (ir_paramsName ing)))
  ∧ (if String.eqb method "tools/call"
     then ir_tool ing = ir_paramsName ing ∧ member "arguments" params = AObject <$> ir_arguments ing
     else ir_tool ing = method ∧ ir_arguments ing = Some params).
Proof.
  unfold validate_call.
  destruct (String.eqb_spec (name_field method) "") as [F|F]; cbn [negb andb].
  - destruct (String.eqb_spec method "tools/call") as [->|]; [by vm_compute in F|].
    intros [= <-]. simpl. auto.
  - destruct (String.eqb_spec (default "" (as_string (member (name_field method) params))) "") as [|N]; [done|].
    assert (member (name_field method) params
            = Some (AString (default "" (as_string (member (name_field method) params))))) as M.
    { destruct (member (name_field method) params) as [[]|]; done. }
    destruct (String.eqb_spec method "tools/call") as [->|].
    + destruct (member "arguments" params) as [[]|] eqn:A; intros [= <-]; cbn; auto 10.
    + intros [= <-]. cbn [ir_method ir_paramsName ir_tool ir_arguments]. auto 10.
Qed.

Lemma validateIngress_ok body ing :
  validateIngress body = (ing, None) →
  ∃ ms, DecodeObject body = Ok ms
    ∧ describes ms (ir_method ing) (ir_paramsName ing) (ir_tool ing) (ir_arguments ing).
Proof.
  unfold validateIngress. destruct (DecodeObject body) as [ms|]; [|done]. intros E. exists ms. split; [done|].
  destruct (match member "id" ms with Some _ => _ | None => _ end) as [[id rid]|]; [|done].
  destruct (bool_decide_reflect (is_Some (member "result" ms))) as [|R]; [done|].
  destruct (bool_decide_reflect (is_Some (member "error" ms))) as [|X]; [done|].
  destruct (bool_decide_reflect (as_string (member "jsonrpc" ms) = Some "2.0")) as [J|]; [|done].
  cbn [negb] in E. unfold describes.
  destruct (member "method" ms) as [[| | |method| |]|], (member "params" ms) as [[| | | | |params]|]; try done;
    destruct (String.eqb_spec method "") as [|N]; try done.
  apply validate_call_ok in E as (-> & Hn & Ht). split_and!; try done.
  - unfold as_string in J. destruct (member "jsonrpc" ms) as [[]|]; congruence.
  - by apply eq_None_not_Some.
  - by apply eq_None_not_Some.
  - by exists params.
Qed.

Lemma mcp_Parse_ok header body inv :
  mcp_Parse header body = inl inv →
  ∃ ing, validateIngress body = (ing, None) ∧ validateMirroredHeaders header ing = Ok ()
    ∧ inv = mkInvocation "mcp" (match singleHeader header mcpProtocolVersion with Ok (Some v) => v | _ => "" end)
              (ir_method ing) (ir_paramsName ing) (ir_tool ing) (ir_arguments ing)
              (ir_requestID ing) (ir_responseID ing).
Proof.
  unfold mcp_Parse. destruct (validateIngress body) as [ing [e|]]; [done|].
  destruct (validateMirroredHeaders header ing) as [[]|] eqn:V; [|done].
  intros [= <-]. by exists ing.
Qed.

(** C19: what policy evaluates is what the body says and what the routing headers say.
    An accepted request is one JSON-RPC 2.0 request object without duplicate members;
    the invocation's method, name, tool and arguments are the body's; and every value
    of every spelling of [Mcp-Method] is that method and of [Mcp-Name] encodes that
    name, so no header can route the call to something policy did not see. *)
Theorem ingress_agrees (header : Header) (body : string) (inv : Invocation) :
  Parse header body = inl inv →
  (∃ ms, DecodeObject body = Ok ms
     ∧ describes ms (inv_Method inv) (inv_Name inv) (inv_Tool inv) (inv_Arguments inv))
  ∧ (∀ k vs v, header !! k = Some vs → v ∈ vs →
       (equal_fold k "Mcp-Method" = true → v = inv_Method inv)
       ∧ (equal_fold k "Mcp-Name" = true → decodeHeaderName v = Ok (inv_Name inv) ∧ inv_Name inv ≠ "")
       ∧ (equal_fold k mcpProtocolVersion = true → v = inv_ProtocolVersion inv)).
Proof.
  simpl. intros E. apply mcp_Parse_ok in E as (ing & V & M & ->). split; [by apply validateIngress_ok|].
  apply validateMirrored_ok in M as (Hm & Hn & Om & On & Ov). intros k vs v L I. cbn.
  split_and!; intros F.
  - apply Hm. destruct (singleHeader header "Mcp-Method") eqn:S; [|done].
    by rewrite (singleHeader_values _ _ _ _ _ _ S L F I).
  - apply Hn. destruct (singleHeader header "Mcp-Name") eqn:S; [|done].
    by rewrite (singleHeader_values _ _ _ _ _ _ S L F I).
  - destruct (singleHeader header mcpProtocolVersion) eqn:S; [|done].
    by rewrite (singleHeader_values _ _ _ _ _ _ S L F I).
Qed.

(** ** The Base64 sentinel *)

Lemma sentinel_split v :
  has_prefix v b64_prefix = true → has_suffix v b64_suffix = true →
  (∃ e, v = b64_prefix +:+ e +:+ b64_suffix) ∨ v = b64_prefix +:+ "=".
Proof.
  intros P S. apply has_prefix_drop in P. generalize dependent (drop_str (String.length b64_prefix) v).
  intros w ->. apply has_suffix_iff in S as [r E].
  destruct w as [|a [|b w]].
  - apply (f_equal rev_str) in E. rewrite !rev_str_append in E. vm_compute in E. discriminate E.
  - apply (f_equal rev_str) in E. rewrite !rev_str_append in E. vm_compute in E. injection E as -> _. by right.
  - left. assert (∃ e, String a (String b w) = e +:+ b64_suffix) as [e ->]; [|by exists e].
    exists (take_str (String.length w) (String a (String b w))).
    assert (∀ k x y s, String.length s = k → ∃ p q, String x (String y s) = p +:+ q
              ∧ String.length p = k ∧ String.length q = 2%nat ∧ p = take_str k (String x (String y s))) as Cut.
    { induction k as [|k IH]; intros x y s L.
      - destruct s; [|done]. by exists "", (String x (String y "")).
      - destruct s as [|z s]; [done|]. injection L as L. destruct (IH y z s L) as (p & q & E1 & Lp & Lq & Ep).
        exists (String x p), q. rewrite E1. split_and!; [done|simpl; lia|done|].
        change (take_str (S k) (String x (p +:+ q))) with (String x (take_str k (p +:+ q))).
        by rewrite <- E1, <- Ep. }
    destruct (Cut (String.length w) a b w eq_refl) as (p & q & E1 & Lp & Lq & <-).
    rewrite E1. f_equal. rewrite E1, <- app_str_assoc in E.
    by apply app_str_inj_len_r in E as [_ ->].
Qed.

(** The Base64 sentinel has one meaning.  [decodeHeaderName] yields a name exactly
    from the value itself, when that is not in sentinel form, or from the canonical
    encoding of the name between the markers, when the name is UTF-8; every other
    sentinel value (unpadded, non-zero trailing bits, line breaks, ill-formed UTF-8)
    is refused, so two different names never share a header value. *)
Theorem header_name_exact (v n : string) :
  decodeHeaderName v = Ok n ↔
  (has_prefix v b64_prefix && has_suffix v b64_suffix = false ∧ n = v)
  ∨ (v = b64_prefix +:+ b64_encode n +:+ b64_suffix ∧ utf8_valid n = true).
Proof.
  unfold decodeHeaderName. destruct (has_prefix v b64_prefix) eqn:P, (has_suffix v b64_suffix) eqn:S;
    cbn [negb orb andb]; (split; [intros E|intros E]).
  - right. destruct (sentinel_split v P S) as [[e ->]| ->]; [|vm_compute in E; discriminate E].
    rewrite trim_prefix_append, trim_suffix_append in E.
    destruct (b64_decode e) as [d|]; [|done]. destruct (utf8_valid d) eqn:U; [|done].
    cbn [andb] in E. destruct (String.eqb_spec (b64_encode d) e) as [<-|]; [|done]. by simplify_eq.
  - destruct E as [[? _]|[-> U]]; [done|].
    rewrite trim_prefix_append, trim_suffix_append, b64_decode_encode, U, String.eqb_refl. done.
  - left. by simplify_eq.
  - destruct E as [[_ ->]|[-> U]]; [done|]. exfalso. rewrite <- app_str_assoc in S.
    rewrite (proj2 (has_suffix_iff _ b64_suffix)) in S; [done|eauto].
  - left. by simplify_eq.
  - destruct E as [[_ ->]|[-> U]]; [done|]. by rewrite has_prefix_append in P.
  - left. by simplify_eq.
  - destruct E as [[_ ->]|[-> U]]; [done|]. by rewrite has_prefix_append in P.
Qed.

(** ** Ingress and replay see the same request *)

(** A header map as [net/http] builds it: canonical token names, no empty entry. *)
Definition http_header (h : Header) : Prop :=
  ∀ k vs, h !! k = Some vs → bytes_all is_token_byte k = true ∧ canonical_key k = k ∧ vs ≠ [].

Lemma equal_fold_ascii s t :
  bytes_all is_ascii_byte s = true → bytes_all is_ascii_byte t = true →
  equal_fold s t = true → to_lower s = to_lower t.
Proof.
  intros A B E. unfold to_lower. rewrite A, B. revert t B E.
  induction s as [|a s IH]; intros [|b t] B E; try done. cbn [bytes_all bytes_map equal_fold] in *.
  apply andb_prop in A as [Aa A]. apply andb_prop in B as [Bb B]. rewrite Aa, Bb in E. cbn [andb] in E.
  apply andb_prop in E as [Ea E]. apply Ascii.eqb_eq in Ea as ->. f_equal. by apply IH.
Qed.

Lemma capture_keeps h n :
  http_header h → bytes_all is_ascii_byte n = true → replay_safe (to_lower n) = true →
  singleHeader (CaptureReplayHeaders h) n = singleHeader h n.
Proof.
  intros W A S. assert (canonical_keys h) as C by (intros k vs L; by destruct (W k vs L) as (_ & ? & _)).
  assert (∀ m : Header, ∀ e, e ∈ List.filter (λ e, equal_fold e.1 n) (map_to_list m)
            ↔ m !! e.1 = Some e.2 ∧ equal_fold e.1 n = true) as El.
  { intros m [k vs]. rewrite list_elem_of_In, filter_In, <- list_elem_of_In, elem_of_map_to_list. done. }
  assert (List.filter (λ e, equal_fold e.1 n) (map_to_list (CaptureReplayHeaders h))
          ≡ₚ List.filter (λ e, equal_fold e.1 n) (map_to_list h)) as P.
  { apply NoDup_Permutation; [apply NoDup_ListNoDup, List.NoDup_filter, NoDup_ListNoDup, NoDup_map_to_list..|].
    intros [k vs]. rewrite !El, CaptureReplayHeaders_lookup by done. cbn [fst snd]. split.
    - intros [L F]. split; [|done]. destruct (h !! k) as [[|v ws]|]; try done.
      by destruct (replay_safe (to_lower k)).
    - intros [L F]. split; [|done]. rewrite L. destruct (W k vs L) as (T & _ & N). destruct vs as [|v ws]; [done|].
      rewrite (equal_fold_ascii k n (token_bytes_ascii k T) A F), S. done. }
  unfold singleHeader, single_header.
  pose proof (single_header_permutation _ _ n P) as E. unfold single_header in E.
  assert (∀ l, List.filter (λ e, equal_fold e.1 n) (List.filter (λ e : string * list string, equal_fold e.1 n) l)
               = List.filter (λ e, equal_fold e.1 n) l) as Idem.
  { clear. induction l as [|[k vs] l IH]; simpl; [done|]. destruct (equal_fold k n) eqn:E; simpl; rewrite ?E, ?IH; done. }
  by rewrite !Idem in E.
Qed.

(** The captured headers of a request parse as the request does. *)
Lemma capture_parse h body : http_header h → mcp_Parse (CaptureReplayHeaders h) body = mcp_Parse h body.
Proof.
  intros W. unfold mcp_Parse, validateMirroredHeaders.
  rewrite !capture_keeps by (done || reflexivity). done.
Qed.

(** The header checks do not depend on the order Go visits the map in: every order
    gives the same value, absence or error. *)
Theorem mirrored_headers_order_independent (header : Header) (visited : list (string * list string))
    (expectedName : string) :
  visited ≡ₚ map_to_list header → single_header visited expectedName = singleHeader header expectedName.
Proof. apply single_header_permutation. Qed.
End ingress.

(** ** Witnesses *)

#[local] Existing Instance ascii_tables.

Definition sample_mirrored : Header :=
  list_to_map [("Mcp-Method", ["tools/call"]); ("Mcp-Name", ["=?base64?c2VhcmNo?="]); ("Accept", ["*/*"])].
Definition sample_invocation : string :=
  json_text (AObject [("jsonrpc", AString "2.0"); ("id", AString "1"); ("method", AString "tools/call");
                      ("params", AObject [("name", AString "search"); ("arguments", AObject [])])]).

Lemma ingress_agrees_witness :
  ∃ inv, Parse sample_mirrored sample_invocation = inl inv
    ∧ inv_Tool inv = "search" ∧ decodeHeaderName "=?base64?c2VhcmNo?=" = Ok (inv_Name inv).
Proof.
  eexists. split; [vm_compute; reflexivity|]. split; [reflexivity|].
  edestruct (ingress_agrees sample_mirrored sample_invocation) as [_ V]; [vm_compute; reflexivity|].
  apply (V "Mcp-Name" ["=?base64?c2VhcmNo?="]); [vm_compute; reflexivity|by left|reflexivity].
Defined.

Lemma mirrored_headers_order_independent_witness :
  single_header (rev (map_to_list sample_mirrored)) "Mcp-Method" = Ok (Some "tools/call").
Proof.
  rewrite (mirrored_headers_order_independent sample_mirrored); [vm_compute; reflexivity|].
  symmetry. apply Permutation_rev.
Defined.
End Ingress.
