(* ===== verification/Proxy.v ===== *)
(** * The enforcement proxy

    [internal/proxy/proxy.go]: [ServeHTTP] from the request to the response, with
    every call it makes in order, the reverse proxy's outbound request, and
    [NewPolicyRecheck] of [adapter.go].  The engine, ledger, quarantine store,
    publisher and upstream answer arbitrarily. *)

From S2P Require Import Prelude GoStrings GoTime Sha256 Types Mcp Effects Auth ProxyIngress.
From stdpp Require Import base tactics strings list gmap pretty.
From Stdlib Require Import ZArith Lia Ascii.

Local Open Scope Z_scope.

Import Mcp Auth Ingress.

(** The body of an HTTP request as the handler reads it: the bytes that arrive, and
    the transport error the stream ends with, if any. *)
Record BodyStream : Type := mkStream { bs_bytes : string; bs_err : option error }.

Module Proxy.

(** ** Outbound requests *)

(** [Header.Del] *)
Definition header_del (h : Header) (name : string) : Header := delete (canonical_key name) h.
Definition header_dels (h : Header) (names : list string) : Header := foldl header_del h names.

(** Headers an agent must not assert to the upstream. *)
Definition agent_controlled (name : string) : bool :=
  let canonical := canonical_key name in
  String.eqb canonical "Authorization" || String.eqb canonical "Proxy-Authorization"
  || String.eqb canonical "Cookie" || String.eqb canonical "Idempotency-Key"
  || has_prefix canonical "X-Elodea-" || has_prefix canonical "X-Kiterail-".

(** [StripAgentControlledHeaders]: deleting while ranging visits every entry. *)
Definition StripAgentControlledHeaders (h : Header) : Header :=
  filter (λ e, agent_controlled e.1 = false) h.

(** [httputil.ReverseProxy]: the hop-by-hop headers, those [Connection] names, and the
    forwarding headers are removed before [Rewrite] runs. *)
Definition hopHeaders : list string :=
  ["Connection"; "Proxy-Connection"; "Keep-Alive"; "Proxy-Authenticate"; "Proxy-Authorization";
   "Te"; "Trailer"; "Transfer-Encoding"; "Upgrade"].
Definition forwardHeaders : list string :=
  ["Forwarded"; "X-Forwarded-For"; "X-Forwarded-Host"; "X-Forwarded-Proto"].
Definition comma_fields (v : string) : list string :=
  List.filter (λ f, negb (String.eqb f "")) (map trim_space (split_byte (byte_of 44) v)).
Definition header_values (h : Header) (key : string) : list string := default [] (h !! key).

Section serve.
Context `{UnicodeTables}.

Definition contains_token (values : list string) (token : string) : bool :=
  existsb (λ v, existsb (λ f, String.eqb (bytes_map ascii_lower (trim_set is_blank f)) token)
                        (split_byte (byte_of 44) v)) values.
Definition upgradeType (h : Header) : string :=
  if contains_token (header_values h "Connection") "upgrade" then header_get h "Upgrade" else "".
Definition reverse_proxy_header (h : Header) : Header :=
  let connection := concat (map comma_fields (header_values h "Connection")) in
  let h1 := header_dels (header_dels h connection) hopHeaders in
  let h2 := if contains_token (header_values h "Te") "trailers" then header_set "Te" "trailers" h1 else h1 in
  let up := upgradeType h in
  let h3 := if String.eqb up "" then h2 else header_set "Upgrade" up (header_set "Connection" "Upgrade" h2) in
  header_dels h3 forwardHeaders.

(** The [Rewrite] hook of [NewHandler] on the outbound headers. *)
Definition rewrite_header (targetAuthToken agent : string) (h : Header) : Header :=
  let h1 := header_set "X-Elodea-Agent" agent (StripAgentControlledHeaders h) in
  if String.eqb targetAuthToken "" then h1
  else header_set "Authorization" ("Bearer " +:+ targetAuthToken) h1.

(** A header without a [User-Agent] gets an empty one, so none is invented. *)
Definition suppress_user_agent (h : Header) : Header :=
  match h !! "User-Agent" with None => <["User-Agent" := [""]]> h | Some _ => h end.

(** ** The handler *)

Record ProxyHandler : Type := mkHandler {
  ph_target : URL;
  ph_targetAuthToken : string;
  ph_ledger : bool;
  ph_maxBodyBytes : Z;
  ph_upstreamHeaderTimeout : Z
}.

(** Options of [NewHandler]. *)
Definition WithTargetAuthToken (token : string) (h : ProxyHandler) : ProxyHandler :=
  mkHandler (ph_target h) token (ph_ledger h) (ph_maxBodyBytes h) (ph_upstreamHeaderTimeout h).
Definition WithMaxBodyBytes (n : Z) (h : ProxyHandler) : ProxyHandler :=
  mkHandler (ph_target h) (ph_targetAuthToken h) (ph_ledger h) n (ph_upstreamHeaderTimeout h).
Definition WithUpstreamHeaderTimeout (d : Z) (h : ProxyHandler) : ProxyHandler :=
  mkHandler (ph_target h) (ph_targetAuthToken h) (ph_ledger h) (ph_maxBodyBytes h)
    (if 0 <? d then d else ph_upstreamHeaderTimeout h).

(** [NewHandler] on the parsed target URL; [ledger] says whether a ledger store is given. *)
Definition NewHandler (target : result URL) (ledger : bool) (opts : list (ProxyHandler → ProxyHandler))
    : result ProxyHandler :=
  rbind target (λ u, Ok (foldl (λ h opt, opt h) (mkHandler u "" ledger (Z.shiftl 1 20) (30 * GoTime.second)) opts)).

(** The request the reverse proxy sends for an allowed call. *)
Definition outbound (h : ProxyHandler) (r : Request) (body : string) : OutRequest :=
  mkOut (rq_Method r) (ph_target h)
    (suppress_user_agent
       (rewrite_header (ph_targetAuthToken h) (AgentFromContext r) (reverse_proxy_header (rq_Header r))))
    body.

(** [reverseProxy.ServeHTTP] with the error handler of [NewHandler]. *)
Definition forward (h : ProxyHandler) (r : Request) (body : string) : prog (Response any) :=
  if negb (bytes_all (λ c, (32 <=? byte_val c) && (byte_val c <=? 126)) (upgradeType (rq_Header r)))
  then Ret (http_Error "upstream unavailable" 502)
  else
    answer ← call (CForward (outbound h r body));
    match (answer : result (Response any)) with
    | Ok resp => Ret resp
    | Err _ => Ret (http_Error "upstream unavailable" 502)
    end.

(** [io.ReadAll(http.MaxBytesReader(w, r.Body, n))] *)
Definition read_body (maxBytes : Z) (s : BodyStream) : result string :=
  if Z.max 0 maxBytes <? strlen (bs_bytes s) then Err (mkErr (Some SMaxBytes) "http: request body too large")
  else match bs_err s with Some e => Err e | None => Ok (bs_bytes s) end.

(** The policy input for an invocation by an agent. *)
Definition eval_input (inv : Invocation) (agent : string) (now : Z) : EvalInput :=
  mkEvalInput (inv_Protocol inv) (inv_ProtocolVersion inv) (inv_Tool inv) (inv_Arguments inv)
    agent now (inv_Method inv).

(** The ledger entry of a decision; [Append] fills sequence number and hashes. *)
Definition decision_entry (now : Z) (input : EvalInput) (inv : Invocation) (d : ProxyDecision)
    (body : string) : LedgerEntry :=
  mkLedger 0 now (ei_Agent input) (ei_Tool input) (pd_Action d) (pd_Rule d) (Sha256.hex256 body)
    "" "" (inv_RequestID inv) (pd_PolicyVersion d).

Definition set_decision (e : LedgerEntry) (now : Z) (decision : string) : LedgerEntry :=
  mkLedger (le_SeqNum e) now (le_Agent e) (le_Tool e) decision (le_PolicyRule e) (le_PayloadHash e)
    (le_PrevHash e) (le_Hash e) (le_RequestID e) (le_PolicyVersion e).

Definition publish (topic : string) (fields : list (string * string)) : prog unit :=
  now ← call CNow;
  _ ← call (CPublish topic fields now);
  mret tt.

Definition internal_error : Response any := http_Error "Internal Server Error" 500.

Context `{Adapter}.

(** The quarantine branch. *)
Definition serve_quarantine (h : ProxyHandler) (r : Request) (inv : Invocation) (body : string)
    (input : EvalInput) (d : ProxyDecision) (entry : LedgerEntry) : prog (Response any) :=
  created ← call (CCreate (ei_Agent input) (ei_Tool input) body (CaptureReplayHeaders (rq_Header r))
                    (pd_Rule d) (pd_Explanation d));
  match (created : result string) with
  | Err _ =>
      if ph_ledger h then
        now ← call CNow;
        _ ← call (CAppend (set_decision entry now "quarantine_store_failed"));
        mret internal_error
      else mret internal_error
  | Ok id =>
      _ ← publish "quarantine" [("quarantine_id", id); ("agent", ei_Agent input); ("tool", ei_Tool input);
                                ("rule", pd_Rule d); ("request_id", inv_RequestID inv)];
      mret (WriteQuarantine (rq_Header r) inv id d)
  end.

(** The switch on the action, after the decision is in the ledger. *)
Definition serve_action (h : ProxyHandler) (r : Request) (inv : Invocation) (body : string)
    (input : EvalInput) (d : ProxyDecision) (entry : LedgerEntry) : prog (Response any) :=
  if String.eqb (pd_Action d) ActionAllow then
    _ ← publish "audit" [("action", "allow"); ("agent", ei_Agent input); ("tool", ei_Tool input);
                         ("rule", pd_Rule d)];
    forward h r body
  else if String.eqb (pd_Action d) ActionDeny then
    _ ← publish "audit" [("action", "deny"); ("agent", ei_Agent input); ("tool", ei_Tool input);
                         ("rule", pd_Rule d); ("explanation", pd_Explanation d)];
    mret (WriteDeny (rq_Header r) inv d)
  else if String.eqb (pd_Action d) ActionQuarantine then
    serve_quarantine h r inv body input d entry
  else mret internal_error.

(** From the decision to the response: telemetry, the write-ahead ledger entry, the action. *)
Definition serve_decided (h : ProxyHandler) (r : Request) (inv : Invocation) (body : string)
    (input : EvalInput) (d : ProxyDecision) : prog (Response any) :=
  _ ← publish "telemetry" [("source", ei_Agent input); ("target", ei_Tool input); ("status", pd_Action d)];
  now ← call CNow;
  let entry := decision_entry now input inv d body in
  if ph_ledger h then
    appended ← call (CAppend entry);
    match (appended : option error) with
    | Some _ => mret (http_Error "audit unavailable" 503)
    | None => serve_action h r inv body input d entry
    end
  else serve_action h r inv body input d entry.

(** [Handler.ServeHTTP] *)
Definition ServeHTTP (h : ProxyHandler) (r : Request) (stream : BodyStream) : prog (Response any) :=
  if negb (String.eqb (rq_Method r) "POST") then
    mret (ingressError 405 codeInvalidRequest "only POST is accepted at the proxy endpoint" ANil)
  else
    match read_body (ph_maxBodyBytes h) stream with
    | Err err =>
        if errors_Is err SMaxBytes
        then mret (ingressError 413 codeInvalidRequest "request body exceeds limit" ANil)
        else mret (ingressError 400 codeInvalidRequest "failed to read request body" ANil)
    | Ok body =>
        match Parse (rq_Header r) body with
        | inr ierr => mret (WriteIngressError ierr)
        | inl inv =>
            now ← call CNow;
            let input := eval_input inv (AgentFromContext r) now in
            evaluated ← call (CEvaluate input);
            match (evaluated : result ProxyDecision) with
            | Err _ => mret internal_error
            | Ok d => serve_decided h r inv body input d
            end
        end
    end.

(** [NewPolicyRecheck] *)
Definition NewPolicyRecheck (agentID payload : string) (headers : Header) : prog (result ProxyDecision) :=
  match Parse headers payload with
  | inr ierr => mret (Err (errors_New ("stored request no longer parses: " +:+ ie_Message ierr)))
  | inl inv =>
      now ← call CNow;
      call (CEvaluate (eval_input inv agentID now))
  end.

(** ** Runs of the stages *)

Lemma runs_publish {A} topic fields (k : unit → prog A) tr a :
  runs (publish topic fields ≫= k) tr a →
  ∃ now x tr', tr = Ev CNow now :: Ev (CPublish topic fields now) x :: tr' ∧ runs (k tt) tr' a.
Proof. intros (now & tr' & -> & x & tr'' & -> & R). eauto 10. Qed.

Lemma runs_forward h r body tr resp :
  runs (forward h r body) tr resp →
  (tr = [] ∧ rs_Status resp = 502) ∨ ∃ x, tr = [Ev (CForward (outbound h r body)) x].
Proof.
  unfold forward. destruct (negb _).
  - intros [-> ->]. by left.
  - intros R. apply runs_call in R as (x & tr' & -> & R). right. exists x.
    destruct x; by destruct R as [-> _].
Qed.

(** Neither publishing nor reading the clock shows in any of the projections. *)
Definition quiet (tr : list event) : Prop :=
  upstream tr = [] ∧ appended tr = [] ∧ evaluated tr = [] ∧ created tr = [].

Definition quarantine_outcome (h : ProxyHandler) (r : Request) (inv : Invocation) (body : string)
    (input : EvalInput) (d : ProxyDecision) (entry : LedgerEntry) (tr : list event) (resp : Response any)
    : Prop :=
  ∃ c, created tr = [(CCreate (ei_Agent input) (ei_Tool input) body (CaptureReplayHeaders (rq_Header r))
                        (pd_Rule d) (pd_Explanation d), c)]
    ∧ match c with
      | Ok id => appended tr = [] ∧ resp = WriteQuarantine (rq_Header r) inv id d
      | Err _ => resp = internal_error
                 ∧ (appended tr = []
                    ∨ ph_ledger h = true
                      ∧ ∃ now, appended tr = [set_decision entry now "quarantine_store_failed"])
      end.

Lemma runs_quarantine h r inv body input d entry tr resp :
  runs (serve_quarantine h r inv body input d entry) tr resp →
  upstream tr = [] ∧ evaluated tr = [] ∧ quarantine_outcome h r inv body input d entry tr resp.
Proof.
  unfold serve_quarantine, quarantine_outcome. intros R. apply runs_call in R as (c & tr' & -> & R).
  destruct c as [id|err].
  - apply runs_publish in R as (now & x & tr'' & -> & R). destruct R as [-> ->].
    split_and!; try done. by exists (Ok id).
  - destruct (ph_ledger h); [|destruct R as [-> ->]; split_and!; try done; exists (Err err); auto].
    apply runs_call in R as (now & tr'' & -> & R). apply runs_call in R as (x & tr3 & -> & R).
    destruct R as [-> ->]. split_and!; try done. exists (Err err). split_and!; try done.
    destruct x as [e|]; [by left|right]. split; [done|]. by exists now.
Qed.

(** What each action leads to once its entry is in the ledger. *)
Definition action_outcome (h : ProxyHandler) (r : Request) (inv : Invocation) (body : string)
    (input : EvalInput) (d : ProxyDecision) (entry : LedgerEntry) (tr : list event) (resp : Response any)
    : Prop :=
  if String.eqb (pd_Action d) ActionAllow then
    appended tr = [] ∧ created tr = []
    ∧ (upstream tr = [outbound h r body] ∨ upstream tr = [] ∧ rs_Status resp = 502)
  else if String.eqb (pd_Action d) ActionDeny then
    quiet tr ∧ resp = WriteDeny (rq_Header r) inv d
  else if String.eqb (pd_Action d) ActionQuarantine then
    upstream tr = [] ∧ quarantine_outcome h r inv body input d entry tr resp
  else quiet tr ∧ resp = internal_error.

Lemma runs_action h r inv body input d entry tr resp :
  runs (serve_action h r inv body input d entry) tr resp →
  evaluated tr = [] ∧ action_outcome h r inv body input d entry tr resp
  ∧ (upstream tr = [] ∨ pd_Action d = ActionAllow
     ∧ ∃ t x, tr = t ++ [Ev (CForward (outbound h r body)) x] ∧ upstream t = []).
Proof.
  unfold serve_action, action_outcome. intros R.
  destruct (String.eqb_spec (pd_Action d) ActionAllow) as [E|].
  - apply runs_publish in R as (now & x & tr' & -> & R). apply runs_forward in R as [[-> S]|[y ->]].
    + split_and!; try done; auto.
    + split_and!; try done; [by left|]. right. split; [done|].
      by eexists [Ev CNow now; Ev (CPublish _ _ now) x], y.
  - destruct (String.eqb (pd_Action d) ActionDeny).
    { apply runs_publish in R as (now & x & tr' & -> & R). destruct R as [-> ->].
      split_and!; try done. by left. }
    destruct (String.eqb (pd_Action d) ActionQuarantine).
    { apply runs_quarantine in R as (U & E & Q). auto 10. }
    destruct R as [-> ->]. split_and!; try done. by left.
Qed.

(** The run after a decision: the ledger refused it, or holds its entry first. *)
Lemma runs_decided h r inv body input d tr resp :
  runs (serve_decided h r inv body input d) tr resp →
  evaluated tr = []
  ∧ ((ph_ledger h = true ∧ rs_Status resp = 503 ∧ upstream tr = [] ∧ appended tr = [] ∧ created tr = [])
     ∨ ∃ now pre post, tr = pre ++ post ∧ upstream pre = [] ∧ created pre = []
         ∧ appended pre = (if ph_ledger h then [decision_entry now input inv d body] else [])
         ∧ runs (serve_action h r inv body input d (decision_entry now input inv d body)) post resp).
Proof.
  unfold serve_decided. intros R. apply runs_publish in R as (t & x & tr' & -> & R).
  apply runs_call in R as (now & tr'' & -> & R). destruct (ph_ledger h).
  - apply runs_call in R as (a & tr3 & -> & R). destruct a as [err|].
    + destruct R as [-> ->]. split; [done|]. by left.
    + pose proof (runs_action _ _ _ _ _ _ _ _ _ R) as (E & _ & _). split; [done|]. right.
      eexists now, [_; _; _; _], tr3. split_and!; [reflexivity|done..].
  - pose proof (runs_action _ _ _ _ _ _ _ _ _ R) as (E & _ & _). split; [done|]. right.
    eexists now, [_; _; _], tr''. split_and!; [reflexivity|done..].
Qed.

(** The run of the whole handler: refused at ingress without a call, or evaluated. *)
Lemma runs_serve h r stream tr resp :
  runs (ServeHTTP h r stream) tr resp →
  (tr = []
   ∧ (rs_Status resp = 405 ∨ rs_Status resp = 413 ∨ rs_Status resp = 400
      ∨ ∃ e, Parse (rq_Header r) (bs_bytes stream) = inr e ∧ resp = WriteIngressError e))
  ∨ ∃ inv now (x : result ProxyDecision) tr',
      rq_Method r = "POST" ∧ strlen (bs_bytes stream) <= Z.max 0 (ph_maxBodyBytes h)
      ∧ Parse (rq_Header r) (bs_bytes stream) = inl inv
      ∧ tr = Ev CNow now :: Ev (CEvaluate (eval_input inv (AgentFromContext r) now)) x :: tr'
      ∧ match x with
        | Err _ => tr' = [] ∧ resp = internal_error
        | Ok d => runs (serve_decided h r inv (bs_bytes stream) (eval_input inv (AgentFromContext r) now) d) tr' resp
        end.
Proof.
  unfold ServeHTTP, read_body. intros R.
  destruct (String.eqb_spec (rq_Method r) "POST") as [M|]; cbn [negb] in R;
    [|destruct R as [-> ->]; left; split; [done|]; by left].
  destruct (Z.ltb_spec (Z.max 0 (ph_maxBodyBytes h)) (strlen (bs_bytes stream))) as [|B].
  { destruct R as [-> ->]. left. split; [done|]. right. by left. }
  destruct (bs_err stream) as [e|].
  { left. destruct (errors_Is e SMaxBytes); destruct R as [-> ->]; (split; [done|]); right;
      [by left|right; by left]. }
  destruct (Parse (rq_Header r) (bs_bytes stream)) as [inv|e] eqn:P.
  - right. apply runs_call in R as (now & tr' & -> & R). apply runs_call in R as (x & tr'' & -> & R).
    exists inv, now, x, tr''. split_and!; try done. by destruct x.
  - left. destruct R as [-> ->]. split; [done|]. right. right. right. eauto.
Qed.

(** What the handler has done when it acts on the decision [d]: policy evaluated the
    invocation parsed from this body for this agent, and the ledger accepted the entry. *)
Definition decided (r : Request) (stream : BodyStream) (inv : Invocation) (d : ProxyDecision) (hist : list event) : Prop :=
  Parse (rq_Header r) (bs_bytes stream) = inl inv
  ∧ ∃ now n1 fields x t,
      let input := eval_input inv (AgentFromContext r) now in
      hist = [Ev CNow now; Ev (CEvaluate input) (Ok d); Ev CNow n1; Ev (CPublish "telemetry" fields n1) x; Ev CNow t;
              Ev (CAppend (decision_entry t input inv d (bs_bytes stream))) None].

(** Every call of the handler, with what comes before it. *)
Definition proxy_guard (h : ProxyHandler) (r : Request) (stream : BodyStream) (hist : list event) (c : cmd) : Prop :=
  match c with
  | CForward out =>
      out = outbound h r (bs_bytes stream) ∧ rq_Method r = "POST"
      ∧ ∃ inv d n fields x hist', hist = hist' ++ [Ev CNow n; Ev (CPublish "audit" fields n) x]
          ∧ decided r stream inv d hist' ∧ pd_Action d = ActionAllow
  | CCreate agent tool payload headers rule explanation =>
      rq_Method r = "POST"
      ∧ ∃ inv d, decided r stream inv d hist ∧ pd_Action d = ActionQuarantine
          ∧ agent = AgentFromContext r ∧ tool = inv_Tool inv ∧ payload = bs_bytes stream
          ∧ headers = CaptureReplayHeaders (rq_Header r) ∧ rule = pd_Rule d ∧ explanation = pd_Explanation d
  | CNow | CEvaluate _ | CPublish _ _ _ | CAppend _ => True
  | _ => False
  end.

Lemma action_guarded h r stream inv d now t hist :
  let input := eval_input inv (AgentFromContext r) now in
  rq_Method r = "POST" → decided r stream inv d hist →
  safe (proxy_guard h r stream) hist
    (serve_action h r inv (bs_bytes stream) input d (decision_entry t input inv d (bs_bytes stream))).
Proof.
  intros input M D. unfold serve_action. destruct (String.eqb_spec (pd_Action d) ActionAllow) as [A|_].
  { cbn. split; [done|]. intros n. split; [done|]. intros x. unfold forward. destruct (negb _); [done|].
    split; [|by intros []]. split_and!; [done|done|]. do 5 eexists. exists hist. rewrite <- app_assoc. by split_and!. }
  destruct (String.eqb (pd_Action d) ActionDeny).
  { cbn. split; [done|]. intros n. by split. }
  destruct (String.eqb_spec (pd_Action d) ActionQuarantine) as [A|_]; [|done].
  cbn. split; [split; [done|]; exists inv, d; by split_and!|].
  intros [id|e]; cbn; [split; [done|]; intros n; by split|]. destruct (ph_ledger h); [|done].
  split; [done|]. intros n. by split.
Qed.

Lemma proxy_guarded h r stream :
  ph_ledger h = true → safe (proxy_guard h r stream) [] (ServeHTTP h r stream).
Proof.
  intros L. unfold ServeHTTP. destruct (String.eqb_spec (rq_Method r) "POST") as [M|]; [|done]. cbn [negb].
  unfold read_body. destruct (_ <? _); [done|]. destruct (bs_err stream); [by destruct (errors_Is _ _)|].
  destruct (Parse (rq_Header r) (bs_bytes stream)) as [inv|] eqn:P; [|done]. split; [done|]. intros now. split; [done|].
  intros [d|e]; [|done]. split; [done|]. intros n1. split; [done|]. intros x. split; [done|]. intros t.
  cbn [prog_mbind prog_bind]. rewrite L. split; [done|]. intros [e|]; [done|].
  exact (action_guarded h r stream inv d now t _ M (conj P (ex_intro _ now (ex_intro _ n1 (ex_intro _ _ (ex_intro _ x (ex_intro _ t eq_refl))))))).
Qed.

(** Nothing reaches the upstream unless policy allowed it and the ledger says so
    first.  Whatever the engine, ledger, store, publisher and upstream answer: if the
    proxy sends a request upstream, it is its last call and its only one; before it,
    policy evaluated the invocation parsed from this very body for the authenticated
    agent and answered allow, and an entry with that decision, its rule and version and
    the hash of the body was appended to the ledger; the request carries the body
    unchanged, to the configured URL. *)
Theorem forward_only_if_allowed (h : ProxyHandler) (r : Request) (stream : BodyStream)
    (tr pre post : list event) (resp : Response any) (out : OutRequest) (x : ans (CForward out)) :
  runs (ServeHTTP h r stream) tr resp → tr = pre ++ Ev (CForward out) x :: post →
  post = [] ∧ upstream pre = []
  ∧ out = outbound h r (bs_bytes stream)
  ∧ out_Body out = bs_bytes stream ∧ out_URL out = ph_target h ∧ out_Method out = "POST"
  ∧ ∃ inv now d,
      Parse (rq_Header r) (bs_bytes stream) = inl inv
      ∧ evaluated pre = [(eval_input inv (AgentFromContext r) now, Ok d)]
      ∧ pd_Action d = ActionAllow
      ∧ (ph_ledger h = true →
         ∃ t, appended pre = [decision_entry t (eval_input inv (AgentFromContext r) now) inv d (bs_bytes stream)]).
Proof.
  intros R E. apply runs_serve in R as [[-> _]|(inv & now & y & tr' & M & _ & P & -> & R)];
    [by destruct pre|].
  assert (upstream tr' ≠ []) as U.
  { intros U. apply (f_equal upstream) in E. rewrite upstream_app in E.
    change (upstream tr' = upstream pre ++ out :: upstream post) in E. rewrite U in E. by destruct (upstream pre). }
  destruct y as [d|]; [|by destruct R as [-> _]].
  apply runs_decided in R as (Ev' & [(_ & _ & U' & _)|(t & p & q & -> & Up & Cp & Ap & R)]); [done|].
  apply runs_action in R as (Eq & Out & [Uq|(A & t' & z & -> & Ut)]).
  { rewrite upstream_app, Up, Uq in U. done. }
  rewrite app_assoc, !app_comm_cons in E.
  apply upstream_last in E as (-> & -> & ->).
  2: { change (upstream (p ++ t') = []). by rewrite upstream_app, Up, Ut. }
  rewrite app_assoc in Ev'. unfold evaluated in Ev'. rewrite map_app, concat_app in Ev'.
  apply app_eq_nil in Ev' as [Ev' _].
  split_and!; [done| |done..|].
  { change (upstream (p ++ t') = []). by rewrite upstream_app, Up, Ut. }
  exists inv, now, d. split_and!; [done| |done|].
  { change ((eval_input inv (AgentFromContext r) now, Ok d) :: evaluated (p ++ t')
            = [(eval_input inv (AgentFromContext r) now, Ok d)]). unfold evaluated. by rewrite Ev'. }
  intros L. exists t. change (appended (p ++ t') = [decision_entry t (eval_input inv (AgentFromContext r) now) inv d (bs_bytes stream)]).
  rewrite appended_app, Ap, L. unfold action_outcome in Out. rewrite A, String.eqb_refl in Out.
  destruct Out as (At & _ & _). rewrite appended_app in At. apply app_eq_nil in At as [-> _]. by rewrite app_nil_r.
Qed.

(** C14: every branch fails closed.  A request refused at ingress causes no call at all;
    a failed evaluation answers 500 and a failed ledger append 503, with nothing sent,
    stored or recorded; and once the decision's entry is in the ledger, allow sends
    this request or answers 502, deny only answers, quarantine stores the body and the
    replay headers under the agent and rule (recording the failure when storing fails),
    and an unknown action does nothing. *)
Theorem decisions_enforced (h : ProxyHandler) (r : Request) (stream : BodyStream)
    (tr : list event) (resp : Response any) :
  ph_ledger h = true → runs (ServeHTTP h r stream) tr resp →
  match evaluated tr with
  | [] => tr = []
  | [(input, Err _)] => resp = internal_error ∧ upstream tr = [] ∧ appended tr = [] ∧ created tr = []
  | [(input, Ok d)] =>
      (rs_Status resp = 503 ∧ upstream tr = [] ∧ appended tr = [] ∧ created tr = [])
      ∨ ∃ inv now post,
          Parse (rq_Header r) (bs_bytes stream) = inl inv
          ∧ upstream tr = upstream post ∧ created tr = created post
          ∧ appended tr = decision_entry now input inv d (bs_bytes stream) :: appended post
          ∧ action_outcome h r inv (bs_bytes stream) input d
              (decision_entry now input inv d (bs_bytes stream)) post resp
  | _ => False
  end.
Proof.
  intros L R. apply runs_serve in R as [[-> _]|(inv & now & y & tr' & M & _ & P & -> & R)]; [done|].
  set (input := eval_input inv (AgentFromContext r) now) in *.
  destruct y as [d|err]; [|by destruct R as [-> ->]].
  pose proof (runs_decided _ _ _ _ _ _ _ _ R) as (E & C).
  change (evaluated (Ev CNow now :: Ev (CEvaluate input) (Ok d) :: tr')) with ((input, Ok d) :: evaluated tr').
  rewrite E. destruct C as [(_ & S & U & A & Cr)|(t & p & q & -> & Up & Cp & Ap & R')]; [left; done|right].
  apply runs_action in R' as (_ & Out & _). rewrite L in Ap. exists inv, t, q.
  change (upstream (Ev CNow now :: Ev (CEvaluate input) (Ok d) :: p ++ q)) with (upstream (p ++ q)).
  change (created (Ev CNow now :: Ev (CEvaluate input) (Ok d) :: p ++ q)) with (created (p ++ q)).
  change (appended (Ev CNow now :: Ev (CEvaluate input) (Ok d) :: p ++ q)) with (appended (p ++ q)).
  unfold created in *. rewrite upstream_app, appended_app, map_app, concat_app, Up, Ap, Cp. done.
Qed.

(** ** The outbound headers *)

Lemma header_set_lookup name v (h : Header) k :
  header_set name v h !! k = if decide (k = canonical_key name) then Some [v] else h !! k.
Proof.
  unfold header_set. destruct (decide (k = canonical_key name)) as [->|N].
  - by rewrite lookup_insert, decide_True.
  - by rewrite lookup_insert_ne.
Qed.

Lemma strip_lookup (h : Header) k : agent_controlled k = true → StripAgentControlledHeaders h !! k = None.
Proof.
  intros A. unfold StripAgentControlledHeaders. apply map_lookup_filter_None. right.
  intros vs _. simpl. congruence.
Qed.

Lemma strip_other (h : Header) k : agent_controlled k = false → StripAgentControlledHeaders h !! k = h !! k.
Proof.
  intros A. unfold StripAgentControlledHeaders. rewrite map_lookup_filter. destruct (h !! k) as [vs|]; [|done].
  cbn. by rewrite option_guard_True.
Qed.

(** The outbound headers, one name at a time. *)
Lemma outbound_lookup (h : ProxyHandler) (r : Request) (body k : string) :
  k ≠ "User-Agent" →
  out_Header (outbound h r body) !! k
  = if decide (k = "Authorization" ∧ ph_targetAuthToken h ≠ "") then Some ["Bearer " +:+ ph_targetAuthToken h]
    else if decide (k = "X-Elodea-Agent") then Some [AgentFromContext r]
    else StripAgentControlledHeaders (reverse_proxy_header (rq_Header r)) !! k.
Proof.
  intros N. cbn [outbound out_Header]. unfold suppress_user_agent.
  assert (∀ m : Header, match m !! "User-Agent" with None => <["User-Agent" := [""]]> m | Some _ => m end !! k = m !! k) as ->.
  { intros m. destruct (m !! "User-Agent"); [done|]. by rewrite lookup_insert_ne. }
  unfold rewrite_header. destruct (String.eqb_spec (ph_targetAuthToken h) "") as [E|E].
  - rewrite header_set_lookup, (decide_False (P:=_ ∧ _)) by naive_solver. done.
  - rewrite !header_set_lookup. change (canonical_key "Authorization") with "Authorization".
    change (canonical_key "X-Elodea-Agent") with "X-Elodea-Agent".
    repeat case_decide; naive_solver.
Qed.

Lemma outbound_agent (h : ProxyHandler) (r : Request) (body : string) :
  out_Header (outbound h r body) !! "X-Elodea-Agent" = Some [AgentFromContext r].
Proof. rewrite outbound_lookup by done. rewrite (decide_False (P:=_ ∧ _)) by naive_solver. by rewrite decide_True. Qed.

Lemma agent_controlled_iff name :
  agent_controlled name = true ↔
  canonical_key name ∈ ["Authorization"; "Proxy-Authorization"; "Cookie"; "Idempotency-Key"]
  ∨ (∃ suffix, canonical_key name = "X-Elodea-" +:+ suffix) ∨ ∃ suffix, canonical_key name = "X-Kiterail-" +:+ suffix.
Proof.
  unfold agent_controlled. rewrite !orb_true_iff, !String.eqb_eq, !has_prefix_iff, !elem_of_cons, elem_of_nil. tauto.
Qed.

(** C23: the credential boundary.  Whatever headers the agent sent, the request that
    goes upstream names the authenticated agent in [X-Elodea-Agent] and carries the
    server's own bearer token or no [Authorization] at all.  Under no spelling does it
    carry another [Authorization], [Proxy-Authorization], [Cookie] or [Idempotency-Key],
    or another name that begins with [X-Elodea-] or [X-Kiterail-].  Every other header,
    the user agent apart, is what the reverse proxy passes on of the agent's. *)
Theorem outbound_credentials (h : ProxyHandler) (r : Request) (body : string) :
  let hdr := out_Header (outbound h r body) in
  hdr !! "X-Elodea-Agent" = Some [AgentFromContext r]
  ∧ hdr !! "Authorization"
    = (if String.eqb (ph_targetAuthToken h) "" then None else Some ["Bearer " +:+ ph_targetAuthToken h])
  ∧ ∀ k, k ≠ "X-Elodea-Agent" → k ≠ "Authorization" →
      (canonical_key k ∈ ["Authorization"; "Proxy-Authorization"; "Cookie"; "Idempotency-Key"]
       ∨ (∃ suffix, canonical_key k = "X-Elodea-" +:+ suffix) ∨ (∃ suffix, canonical_key k = "X-Kiterail-" +:+ suffix) →
       hdr !! k = None)
      ∧ (canonical_key k ∉ ["Authorization"; "Proxy-Authorization"; "Cookie"; "Idempotency-Key"] →
         (∀ suffix, canonical_key k ≠ "X-Elodea-" +:+ suffix) → (∀ suffix, canonical_key k ≠ "X-Kiterail-" +:+ suffix) →
         k ≠ "User-Agent" → hdr !! k = reverse_proxy_header (rq_Header r) !! k).
Proof.
  split; [apply outbound_agent|split].
  - rewrite outbound_lookup by done. destruct (String.eqb_spec (ph_targetAuthToken h) "") as [E|E].
    + rewrite (decide_False (P:=_ ∧ _)), decide_False by naive_solver. by apply strip_lookup.
    + by rewrite decide_True.
  - intros k N1 N2. rewrite <- agent_controlled_iff. split.
    + intros A. rewrite outbound_lookup by (intros ->; done).
      rewrite (decide_False (P:=_ ∧ _)), decide_False by naive_solver. by apply strip_lookup.
    + intros L E K U. rewrite outbound_lookup by done. rewrite (decide_False (P:=_ ∧ _)), decide_False by naive_solver.
      apply strip_other, not_true_iff_false. rewrite agent_controlled_iff. naive_solver.
Qed.
End serve.

(** ** Rechecks *)

Section recheck.
Context `{UnicodeTables}.

Definition at_time (i : EvalInput) (t : Z) : EvalInput :=
  mkEvalInput (ei_Protocol i) (ei_ProtocolVersion i) (ei_Tool i) (ei_Arguments i) (ei_Agent i) t (ei_RawMethod i).

(** C24: a replay is rechecked on what was quarantined.  For a request with headers as
    [net/http] builds them, re-deriving the decision from the stored body and captured
    headers submits to policy exactly the input the ingress submitted, at the current
    time, and returns the engine's answer. *)
Theorem recheck_matches_ingress (h : ProxyHandler) (r : Request) (stream : BodyStream)
    (tr tr' : list event) (resp : Response any) (input : EvalInput) (d d' : result ProxyDecision) :
  http_header (rq_Header r) →
  runs (ServeHTTP h r stream) tr resp → evaluated tr = [(input, d)] →
  runs (NewPolicyRecheck (ei_Agent input) (bs_bytes stream) (CaptureReplayHeaders (rq_Header r))) tr' d' →
  ∃ now, tr' = [Ev CNow now; Ev (CEvaluate (at_time input now)) d'].
Proof.
  intros W R E R'. apply runs_serve in R as [[-> _]|(inv & now & y & t & _ & _ & P & -> & R)]; [done|].
  assert (input = eval_input inv (AgentFromContext r) now) as ->.
  { change ((eval_input inv (AgentFromContext r) now, y) :: evaluated t = [(input, d)]) in E. by simplify_eq. }
  unfold NewPolicyRecheck in R'. simpl in P, R'. rewrite capture_parse, P in R' by done.
  destruct R' as (now' & t1 & -> & x & t2 & -> & -> & ->). by exists now'.
Qed.
End recheck.

(** ** Witnesses *)

#[local] Existing Instance ascii_tables.

Definition sample_target : URL := mkURL "http" "upstream:9000" "/mcp" "" "".
Definition sample_handler : ProxyHandler := mkHandler sample_target "svc" true 4096 (30 * GoTime.second).
Definition sample_request : Request :=
  mkRequest "POST" "/proxy" [] (list_to_map [("Content-Type", ["application/json"]); ("Cookie", ["s=1"]);
                                             ("Mcp-Method", ["tools/call"])])
    "" (Some (mkIdentity "agent-7" RoleAgent)).
Definition sample_body : string :=
  GoJsonEnc.json_text (AObject [("jsonrpc", AString "2.0"); ("id", AString "1"); ("method", AString "tools/call");
                      ("params", AObject [("name", AString "search"); ("arguments", AObject [])])]).
Definition sample_stream : BodyStream := mkStream sample_body None.

(** An environment in which policy answers [action] and every store works. *)
Definition sample_env (action : string) (c : cmd) (s : Z) : ans c * Z :=
  match c return ans c * Z with
  | CNow => (s, s + 1)
  | CEvaluate _ => (Ok (mkDecision action "rule" "because" "v1"), s)
  | CCreate _ _ _ _ _ _ => (Ok "q-1", s)
  | c => (quiet_answer c, s)
  end.

Definition sample_run (action : string) : list event * Response any * Z :=
  run (sample_env action) (ServeHTTP sample_handler sample_request sample_stream) 0.

Lemma sample_runs action :
  runs (ServeHTTP sample_handler sample_request sample_stream) (sample_run action).1.1 (sample_run action).1.2.
Proof.
  destruct (sample_run action) as [[tr a] s] eqn:E. simpl.
  exact (run_runs (sample_env action) _ 0 tr a s E).
Qed.

Lemma forward_only_if_allowed_witness :
  ∃ pre out x, (sample_run ActionAllow).1.1 = pre ++ [Ev (CForward out) x]
    ∧ out_Body out = sample_body ∧ length (appended pre) = 1%nat.
Proof.
  eexists (take 8 (sample_run ActionAllow).1.1), (outbound sample_handler sample_request sample_body), _.
  assert ((sample_run ActionAllow).1.1
    = (take 8 (sample_run ActionAllow).1.1)
      ++ Ev (CForward (outbound sample_handler sample_request sample_body)) (Ok (mkResponse 200 [] BNone)) :: []) as E.
  { vm_compute. reflexivity. }
  destruct (forward_only_if_allowed sample_handler sample_request sample_stream _ _ [] _ _ _
    (sample_runs ActionAllow) E) as (_ & _ & _ & B & _ & _ & inv & now & d & _ & _ & _ & A).
  split_and!; [vm_compute; reflexivity|exact B|].
  destruct (A eq_refl) as [t At]. vm_compute. reflexivity.
Defined.

Lemma decisions_enforced_witness :
  upstream (sample_run ActionDeny).1.1 = []
  ∧ rs_Status (sample_run ActionDeny).1.2 = 403.
Proof.
  pose proof (decisions_enforced sample_handler sample_request sample_stream _ _ eq_refl (sample_runs ActionDeny)) as D.
  split; [|vm_compute; reflexivity].
  set (ev := evaluated (sample_run ActionDeny).1.1) in D. vm_compute in ev. subst ev. cbn beta iota in D.
  destruct D as [(_ & U & _)|(inv & now & post & _ & U & _ & _ & O)]; [exact U|].
  rewrite U. apply O.
Defined.

Lemma recheck_matches_ingress_witness :
  ∃ input d now,
    evaluated (sample_run ActionQuarantine).1.1 = [(input, d)]
    ∧ (run (sample_env ActionQuarantine)
         (NewPolicyRecheck "agent-7" sample_body (CaptureReplayHeaders (rq_Header sample_request))) 5).1.1
      = [Ev CNow now; Ev (CEvaluate (at_time input now)) d].
Proof.
  eexists _, _. eexists. split; [vm_compute; reflexivity|].
  edestruct (recheck_matches_ingress sample_handler sample_request sample_stream) as [now E];
    [|exact (sample_runs ActionQuarantine)|vm_compute; reflexivity| |].
  - intros k vs L. apply elem_of_list_to_map_2 in L.
    repeat (apply elem_of_cons in L as [[= -> ->]|L]; [done|]). by apply elem_of_nil in L.
  - eapply (run_runs (sample_env ActionQuarantine) _ 5). vm_compute. reflexivity.
  - vm_compute. reflexivity.
Defined.
End Proxy.
