(* ===== verification/LedgerHandler.v ===== *)
(** * The ledger's HTTP interface

    [internal/ledger/handler.go]: paging, the chain head, export and verification, as
    programs over the store and the flag that admits one full-chain operation at a time
    ([CAcquireScan] is its compare-and-swap, [CReleaseScan] its reset).  [CLedgerStream]
    answers with the rows [Store.Stream] delivered and the error it ended with. *)

From S2P Require Import Prelude GoStrings GoTime Sha256 Types GoJson GoJsonEnc GoDecode Ledger LedgerEncoding LedgerChain LedgerVerify LedgerSpec Effects Interleave ProxyIngress Proxy.
From stdpp Require Import base tactics strings list sorting gmap pretty.
From Stdlib Require Import ZArith Lia Ascii.

Local Open Scope Z_scope.

Import Ledger.

Module LedgerHandler.

Definition defaultPageSize : Z := 100.
Definition maxPageSize : Z := 1000.

(** The query's [limit] and [before] parameters: the page, or a 400. *)
Definition parse_page (q : list (string * string)) : PageQuery + Response any :=
  let agent := query_get q "agent" in
  let decision := query_get q "decision" in
  let tool := query_get q "tool" in
  let limit :=
    let v := query_get q "limit" in
    if String.eqb v "" then Some defaultPageSize
    else match parse_int64 v with
         | Some n => if (n <? 1) || (maxPageSize <? n) then None else Some n
         | None => None
         end in
  match limit with
  | None => inr (http_Error (json_error "limit must be between 1 and 1000") 400)
  | Some limit =>
      let v := query_get q "before" in
      if String.eqb v "" then inl (mkPageQuery 0 limit agent decision tool)
      else match parse_int64 v with
           | Some n => if n <? 1 then inr (http_Error (json_error "before must be a positive sequence number") 400)
                       else inl (mkPageQuery n limit agent decision tool)
           | None => inr (http_Error (json_error "before must be a positive sequence number") 400)
           end
  end.

(** The [X-Next-Before] header: the last sequence number of a full page. *)
Definition next_before (p : PageQuery) (entries : list LedgerEntry) : option Z :=
  if Z.of_nat (length entries) =? pq_Limit p then le_SeqNum <$> last entries else None.

Definition newline : string := String (byte_of 10) "".

Section handler.
Context `{UnicodeTables}.
(** How [encoding/json] writes a [time.Time], and [r.ContentLength]. *)
Variable time_text : Z → string.
Variable content_length : Request → Z.

(** The JSON of [db.Ledger], [db.GetLedgerHeadRow] and [VerifyReport]. *)
Definition entry_json (e : LedgerEntry) : any :=
  AObject [("seq_num", ANumber (pretty (le_SeqNum e))); ("timestamp", AString (time_text (le_Timestamp e)));
           ("agent", AString (le_Agent e)); ("tool", AString (le_Tool e)); ("decision", AString (le_Decision e));
           ("policy_rule", AString (le_PolicyRule e)); ("payload_hash", AString (le_PayloadHash e));
           ("prev_hash", AString (le_PrevHash e)); ("hash", AString (le_Hash e));
           ("request_id", AString (le_RequestID e)); ("policy_version", AString (le_PolicyVersion e))].
Definition head_json (seq : Z) (hash : string) (timestamp : Z) : any :=
  AObject [("seq_num", ANumber (pretty seq)); ("hash", AString hash); ("timestamp", AString (time_text timestamp))].
Definition report_json (r : VerifyReport) : any :=
  AObject ([("valid", ABool (vr_Valid r)); ("entries", ANumber (pretty (vr_Entries r)));
            ("head_seq", ANumber (pretty (vr_HeadSeq r))); ("head_hash", AString (vr_HeadHash r))]
           ++ (if vr_FirstInvalidSeq r =? 0 then [] else [("first_invalid_seq", ANumber (pretty (vr_FirstInvalidSeq r)))])
           ++ (if String.eqb (vr_Reason r) "" then [] else [("reason", AString (vr_Reason r))])).

(** [Handler.handleQuery] *)
Definition handleQuery (r : Request) : prog (Response any) :=
  if negb (String.eqb (rq_Method r) "GET") then mret (http_Error "Method not allowed" 405)
  else match parse_page (rq_Query r) with
  | inr resp => mret resp
  | inl page =>
      paged ← call (CLedgerPage page);
      match (paged : result (list LedgerEntry)) with
      | Err _ => mret (http_Error "Internal server error" 500)
      | Ok entries =>
          let hs := match next_before page entries with
                    | Some n => [("X-Next-Before", pretty n)]
                    | None => []
                    end in
          mret (json_ok hs (AArray (map entry_json entries)))
      end
  end.

(** [Handler.handleHead] *)
Definition handleHead (r : Request) : prog (Response any) :=
  if negb (String.eqb (rq_Method r) "GET") then mret (http_Error "Method not allowed" 405)
  else
    got ← call CLedgerHead;
    match (got : result (option (Z * string * Z))) with
    | Err _ => mret (http_Error "Internal server error" 500)
    | Ok None => mret (json_ok [] (go_map [("seq_num", ANumber "0"); ("hash", AString "")]))
    | Ok (Some (seq, hash, ts)) => mret (json_ok [] (head_json seq hash ts))
    end.

(** [Handler.acquireFullScan] and the deferred reset, around a full-chain operation. *)
Definition with_full_scan (scan : prog (Response any)) : prog (Response any) :=
  acquired ← call CAcquireScan;
  if negb (acquired : bool)
  then mret (http_Error (json_error "a ledger verification or export is already in progress") 429)
  else
    resp ← scan;
    _ ← call CReleaseScan;
    mret resp.

(** [Handler.handleExport]: one line per entry the stream delivered; an error truncates
    the export. *)
Definition ndjson (entries : list LedgerEntry) : string :=
  foldr (λ e text, json_text (entry_json e) +:+ newline +:+ text) "" entries.
Definition after_seq (q : list (string * string)) : option Z :=
  let v := query_get q "after_seq" in
  if String.eqb v "" then Some 0
  else match parse_int64 v with
       | Some n => if n <? 0 then None else Some n
       | None => None
       end.
Definition handleExport (r : Request) : prog (Response any) :=
  if negb (String.eqb (rq_Method r) "GET") then mret (http_Error "Method not allowed" 405)
  else match after_seq (rq_Query r) with
  | None => mret (http_Error (json_error "after_seq must be a non-negative sequence number") 400)
  | Some after =>
      with_full_scan
        (streamed ← call (CLedgerStream after);
         mret (mkResponse 200 [("Content-Type", "application/x-ndjson")]
                 (BText (ndjson (streamed : list LedgerEntry * option error).1))))
  end.

(** [parseAnchor] *)
Definition anchor_fields : list (field Anchor) :=
  [("seq_num", into_int64 (λ n a, mkAnchor n (an_Hash a))); ("hash", into_string (λ h a, mkAnchor (an_SeqNum a) h))].
Definition parseAnchor (r : Request) (stream : BodyStream) : option (option Anchor) :=
  if String.eqb (rq_Method r) "POST" && negb (content_length r =? 0) then
    match decode_first anchor_fields (take_bytes (Z.shiftl 1 10) (bs_bytes stream)) (mkAnchor 0 "") with
    | None => None
    | Some a =>
        if (an_SeqNum a =? 0) && String.eqb (an_Hash a) "" then Some None
        else if (an_SeqNum a <? 1) || String.eqb (an_Hash a) "" then None
        else Some (Some a)
    end
  else
    let seq := query_get (rq_Query r) "anchor_seq" in
    let hash := query_get (rq_Query r) "anchor_hash" in
    if String.eqb seq "" && String.eqb hash "" then Some None
    else match parse_int64 seq with
         | Some n => if (n <? 1) || String.eqb hash "" then None else Some (Some (mkAnchor n hash))
         | None => None
         end.

(** [Handler.handleVerify] *)
Definition handleVerify (r : Request) (stream : BodyStream) : prog (Response any) :=
  if negb (String.eqb (rq_Method r) "GET") && negb (String.eqb (rq_Method r) "POST")
  then mret (http_Error "Method not allowed" 405)
  else match parseAnchor r stream with
  | None => mret (http_Error (json_error "invalid anchor") 400)
  | Some anchor =>
      with_full_scan
        (verified ← call (CVerifyChain anchor);
         match (verified : result VerifyReport) with
         | Err _ => mret (http_Error "Internal server error" 500)
         | Ok report => mret (json_ok [] (report_json report))
         end)
  end.

(** [Handler.ServeHTTP] *)
Definition ServeHTTP (r : Request) (stream : BodyStream) : prog (Response any) :=
  let p := rq_Path r in
  if String.eqb p "/verify" || String.eqb p "/verify/" then handleVerify r stream
  else if String.eqb p "/head" || String.eqb p "/head/" then handleHead r
  else if String.eqb p "/export" || String.eqb p "/export/" then handleExport r
  else if String.eqb p "" || String.eqb p "/" then handleQuery r
  else mret (http_Error (json_error "not found") 404).
End handler.

(** ** Paging enumerates the ledger *)

(** Newest first: the rows in strictly decreasing order. *)
Definition seq_gt (a b : LedgerEntry) : Prop := le_SeqNum b < le_SeqNum a.

Lemma order_desc_sorted t : chain_ok t → StronglySorted seq_gt (reverse (order_asc t)).
Proof.
  intros [_ Hn]. induction (order_asc t) as [|e rows IH] using rev_ind; [constructor|].
  apply numbered_snoc in Hn as [Hn He]. rewrite reverse_snoc. apply StronglySorted_cons. split; [|by apply IH].
  apply Forall_forall. intros x Hx. rewrite elem_of_reverse in Hx. apply numbered_bound in Hx; [|done].
  unfold seq_gt. lia.
Qed.

Lemma sorted_filter {A} (R : A → A → Prop) (P : A → Prop) `{∀ x, Decision (P x)} (l : list A) :
  StronglySorted R l → StronglySorted R (filter P l).
Proof.
  induction 1 as [|x l Hs IH Hf]; [constructor|]. destruct (decide (P x)).
  - rewrite filter_cons_True by done. constructor; [done|]. apply Forall_forall.
    intros y [_ Hy]%list_elem_of_filter. rewrite Forall_forall in Hf. auto.
  - by rewrite filter_cons_False.
Qed.

Lemma drop_filter_seq (l : list LedgerEntry) k e :
  StronglySorted seq_gt l → last (take k l) = Some e →
  filter (λ x, le_SeqNum x < le_SeqNum e) l = drop k l.
Proof.
  intros Hs Hl. rewrite <- (take_drop k l) at 1. rewrite <- (take_drop k l) in Hs.
  apply StronglySorted_app in Hs as (Hlt & Hs1 & _). apply last_Some in Hl as [pre Ep].
  rewrite filter_app, (list_filter_none _ (take k l)), (list_filter_all _ (drop k l)); [done| |].
  - intros x Hx. apply Hlt; [|done]. rewrite Ep. set_solver.
  - intros x Hx Hlt'. rewrite Ep in Hx, Hs1. apply StronglySorted_app in Hs1 as (Hlt1 & _ & _).
    apply elem_of_app in Hx as [Hx|Hx%list_elem_of_singleton]; [|subst; lia].
    specialize (Hlt1 x e Hx ltac:(set_solver)). unfold seq_gt in Hlt1. lia.
Qed.

Definition page_before (p : PageQuery) : Z := if pq_BeforeSeq p <=? 0 then max_int64 else pq_BeforeSeq p.

Lemma Page_take p t :
  1 <= pq_Limit p <= maxPageSize →
  Page p t = take (Z.to_nat (pq_Limit p)) (filter (page_match (page_before p) p) (reverse (order_asc t))).
Proof.
  unfold maxPageSize. intros Hl. unfold Page, ListLedgerPage. fold (page_before p).
  unfold wrap32. rewrite Z.mod_small by lia. do 2 f_equal. lia.
Qed.

Lemma page_match_refine before n p q t :
  n <= before → pq_Agent q = pq_Agent p → pq_Decision q = pq_Decision p → pq_Tool q = pq_Tool p →
  filter (page_match n q) (reverse (order_asc t))
  = filter (λ x, le_SeqNum x < n) (filter (page_match before p) (reverse (order_asc t))).
Proof.
  intros Hn E1 E2 E3. rewrite list_filter_filter. apply list_filter_iff. unfold page_match.
  rewrite E1, E2, E3. intros x. intuition lia.
Qed.

(** The filters of a query, without its position. *)
Definition page_filter (p : PageQuery) (e : LedgerEntry) : Prop :=
  (pq_Agent p = "" ∨ le_Agent e = pq_Agent p)
  ∧ (pq_Decision p = "" ∨ le_Decision e = pq_Decision p)
  ∧ (pq_Tool p = "" ∨ le_Tool e = pq_Tool p).

#[export] Instance page_filter_dec p e : Decision (page_filter p e).
Proof. unfold page_filter. apply _. Defined.

Lemma page_match_all p t :
  chain_ok t → has_room t →
  filter (page_match max_int64 p) (reverse (order_asc t)) = filter (page_filter p) (reverse (order_asc t)).
Proof.
  intros [_ Hn] Hr. assert (∀ x, x ∈ reverse (order_asc t) → le_SeqNum x < max_int64) as Hlt.
  { intros x Hx. rewrite elem_of_reverse in Hx. apply numbered_bound in Hx; [|done].
    rewrite length_order_asc in Hx. unfold has_room in Hr. lia. }
  induction (reverse (order_asc t)) as [|x l IH]; [done|].
  assert (le_SeqNum x < max_int64) by (apply Hlt; by left).
  specialize (IH (λ y Hy, Hlt y (list_elem_of_further _ _ _ Hy))).
  destruct (decide (page_filter p x)) as [Hp|Hp].
  - rewrite !filter_cons_True by (done || by split). by f_equal.
  - rewrite !filter_cons_False by (done || by intros [_ ?]). done.
Qed.

Section paging.
Context `{UnicodeTables}.
Variable time_text : Z → string.
Variable content_length : Request → Z.

(** The store over a table, when nothing fails. *)
Definition table_env (t : list LedgerEntry) (c : cmd) (s : unit) : ans c * unit :=
  match c return ans c * unit with
  | CLedgerPage p => (Ok (Page p t), s)
  | CLedgerHead => (Head None t, s)
  | CLedgerStream after => ((stream_rows after t, None), s)
  | CVerifyChain anchor => (VerifyChain anchor (λ _, None) t, s)
  | c => (quiet_answer c, s)
  end.
Definition serve (t : list LedgerEntry) (r : Request) : Response any :=
  (run (table_env t) (ServeHTTP time_text content_length r (mkStream "" None)) tt).1.2.

(** A client that passes every [X-Next-Before] it receives back as [before]. *)
Definition page_request (limit : Z) (agent decision tool : string) (before : option string) : Request :=
  mkRequest "GET" "/"
    ([("agent", agent); ("decision", decision); ("tool", tool); ("limit", pretty limit)]
     ++ match before with Some b => [("before", b)] | None => [] end) ∅ "" None.
Definition page_body (resp : Response any) : list any :=
  match rs_Body resp with BJson (AArray vs) => vs | _ => [] end.
Fixpoint crawl (fuel : nat) (t : list LedgerEntry) (limit : Z) (agent decision tool : string) (before : option string)
    : list any :=
  match fuel with
  | O => []
  | S f =>
      let resp := serve t (page_request limit agent decision tool before) in
      page_body resp ++ match member "X-Next-Before" (rs_Header resp) with
                        | Some n => crawl f t limit agent decision tool (Some n)
                        | None => []
                        end
  end.

(** The page a request of the client asks for. *)
Lemma parse_page_request limit agent decision tool before :
  1 <= limit <= maxPageSize → (before = 0 ∨ 1 <= before <= max_int64) →
  parse_page (rq_Query (page_request limit agent decision tool (if before =? 0 then None else Some (pretty before))))
  = inl (mkPageQuery before limit agent decision tool).
Proof.
  unfold maxPageSize. intros L B. unfold parse_page, page_request.
  assert (∀ n, 1 <= n → String.eqb (pretty n) "" = false) as N.
  { intros n Hn. apply String.eqb_neq, GoTime.pretty_Z_nonempty. lia. }
  assert ((limit <? 1) || (maxPageSize <? limit) = false) as Lim.
  { apply orb_false_intro; apply Z.ltb_ge; unfold maxPageSize; lia. }
  assert (parse_int64 (pretty limit) = Some limit) as PL by (apply GoTime.parse_int64_pretty; unfold max_int64; lia).
  destruct (Z.eqb_spec before 0) as [->|Nz]; cbn; rewrite N, PL, Lim by lia; [done|].
  rewrite N, GoTime.parse_int64_pretty by lia. destruct (Z.ltb_spec before 1); [lia|done].
Qed.

(** What the client receives for a page. *)
Lemma serve_page t limit agent decision tool before :
  1 <= limit <= maxPageSize → (before = 0 ∨ 1 <= before <= max_int64) →
  let p := mkPageQuery before limit agent decision tool in
  let resp := serve t (page_request limit agent decision tool (if before =? 0 then None else Some (pretty before))) in
  page_body resp = map (entry_json time_text) (Page p t)
  ∧ member "X-Next-Before" (rs_Header resp) = pretty <$> next_before p (Page p t).
Proof.
  intros L B p resp. unfold resp, serve. cbn [ServeHTTP rq_Path page_request String.eqb orb].
  set (r := page_request _ _ _ _ _). unfold ServeHTTP. change (rq_Path r) with "/". cbn [String.eqb Ascii.eqb Bool.eqb orb].
  unfold handleQuery. change (rq_Method r) with "GET". cbn [negb String.eqb Ascii.eqb Bool.eqb].
  unfold r. rewrite parse_page_request by done. cbn. unfold p.
  split; [done|]. by destruct (next_before _ _).
Qed.

Lemma crawl_from fuel t limit agent decision tool before :
  chain_ok t → has_room t → 1 <= limit <= maxPageSize → (before = 0 ∨ 1 <= before <= max_int64) →
  let p := mkPageQuery before limit agent decision tool in
  (length (filter (page_match (page_before p) p) (reverse (order_asc t))) < fuel)%nat →
  crawl fuel t limit agent decision tool (if before =? 0 then None else Some (pretty before))
  = map (entry_json time_text) (filter (page_match (page_before p) p) (reverse (order_asc t))).
Proof.
  intros Hc Hr Hl. revert before. induction fuel as [|f IH]; intros before Hb p Hf; [lia|]. cbn [crawl].
  destruct (serve_page t limit agent decision tool before Hl Hb) as [-> ->]. fold p.
  assert (1 <= pq_Limit p) as Hp by apply Hl.
  rewrite Page_take by done. set (m := filter _ _) in *. unfold next_before.
  destruct (Z.eqb_spec (Z.of_nat (length (take (Z.to_nat (pq_Limit p)) m))) (pq_Limit p)) as [El|El].
  - destruct (last (take (Z.to_nat (pq_Limit p)) m)) as [e|] eqn:Elast.
    2:{ apply last_None in Elast. rewrite Elast in El. simpl in El. lia. }
    cbn [fmap option_fmap option_map].
    assert (e ∈ m) as Hm.
    { apply last_Some in Elast as [pre Ep]. rewrite <- (take_drop (Z.to_nat (pq_Limit p)) m), Ep. set_solver. }
    assert (e ∈ m) as Hm'%list_elem_of_filter by done. destruct Hm' as [Hpm He].
    rewrite elem_of_reverse in He. apply numbered_bound in He; [|apply Hc].
    rewrite length_order_asc in He. unfold has_room in Hr.
    specialize (IH (le_SeqNum e) ltac:(lia)). set (q := mkPageQuery (le_SeqNum e) limit agent decision tool) in *.
    assert (page_before q = le_SeqNum e) as Hq.
    { unfold page_before, q. simpl. destruct (Z.leb_spec (le_SeqNum e) 0); [lia|done]. }
    assert (filter (page_match (page_before q) q) (reverse (order_asc t)) = drop (Z.to_nat (pq_Limit p)) m) as Hd.
    { assert (le_SeqNum e <= page_before p) as Hle by apply Z.lt_le_incl, Hpm.
      rewrite Hq, (page_match_refine (page_before p) _ p q t Hle) by reflexivity.
      apply drop_filter_seq; [|done]. by apply sorted_filter, order_desc_sorted. }
    cbv zeta in IH. rewrite Hd in IH. destruct (Z.eqb_spec (le_SeqNum e) 0); [lia|]. rewrite IH.
    + by rewrite <- map_app, take_drop.
    + rewrite length_drop. rewrite length_take in El. lia.
  - cbn [fmap option_fmap option_map]. rewrite app_nil_r, take_ge; [done|]. rewrite length_take in El. lia.
Qed.

(** C33: paging is complete and duplicate-free.  A client that sends [GET /api/v1/ledger] with any
    admissible limit and any filters, and keeps passing the [X-Next-Before] header it receives back as
    [before], receives every matching entry of the ledger exactly once, newest first, after at most one
    request more than there are entries; it never stops early and never loops. *)
Theorem paging_complete (t : list LedgerEntry) (limit : Z) (agent decision tool : string) (fuel : nat)
    (Hc : chain_ok t) (Hr : has_room t) (Hl : 1 <= limit <= maxPageSize) (Hf : (length t < fuel)%nat) :
  crawl fuel t limit agent decision tool None
  = map (entry_json time_text) (filter (page_filter (mkPageQuery 0 limit agent decision tool)) (reverse (order_asc t))).
Proof.
  rewrite <- page_match_all by done.
  apply (crawl_from fuel t limit agent decision tool 0 Hc Hr Hl (or_introl eq_refl)).
  eapply Nat.le_lt_trans; [apply length_filter|]. by rewrite length_reverse, length_order_asc.
Qed.
End paging.

(** ** One full-chain operation at a time *)

(** Whether a request holds the flag, from its calls. *)
Definition hold_step (h : bool) (e : event) : bool :=
  match e with Ev CAcquireScan x => h || x | Ev CReleaseScan _ => false | _ => h end.
Definition holds (tr : list event) : bool := foldl hold_step false tr.

Lemma holds_snoc tr e : holds (tr ++ [e]) = hold_step (holds tr) e.
Proof. unfold holds. by rewrite foldl_app. Qed.

(** The flag, over the calls of every request. *)
Definition flag_step (b : bool) (e : entry) (b' : bool) : Prop :=
  match en_event e with
  | Ev CAcquireScan x => x = negb b ∧ b' = true
  | Ev CReleaseScan _ => b' = false
  | _ => b' = b
  end.
Abbreviation flag_after := (after flag_step false).

(** Full-chain operations and the reset need the flag. *)
Definition scan_guard (h : list event) (c : cmd) : Prop :=
  match c with
  | CLedgerStream _ | CVerifyChain _ | CReleaseScan => holds h = true
  | CAcquireScan | CLedgerPage _ | CLedgerHead => True
  | _ => False
  end.

Section scans.
Context `{UnicodeTables}.
Variable time_text : Z → string.
Variable content_length : Request → Z.

Definition scan_request (x : Request * BodyStream) : program := Prog (ServeHTTP time_text content_length x.1 x.2).

Lemma serve_safe r stream : safe scan_guard [] (ServeHTTP time_text content_length r stream).
Proof.
  unfold ServeHTTP, handleVerify, handleHead, handleExport, handleQuery.
  destruct (_ || _).
  { destruct (negb _ && _); [done|]. destruct (parseAnchor _ _ _) as [anchor|]; [|done].
    split; [done|]. intros [|]; [|done]. split; [done|]. by intros [rep|err]; (split; [done|]). }
  destruct (_ || _).
  { destruct (negb _); [done|]. split; [done|]. by intros [[[[seq hash] ts]|]|err]. }
  destruct (_ || _).
  { destruct (negb _); [done|]. destruct (after_seq _); [|done].
    split; [done|]. intros [|]; [|done]. split; [done|]. intros x. by split. }
  destruct (_ || _); [|done]. destruct (negb _); [done|]. destruct (parse_page _) as [page|]; [|done].
  split; [done|]. by intros [es|err].
Qed.

Lemma serve_passive r stream : only passive (ServeHTTP time_text content_length r stream).
Proof. eapply safe_mono; [|apply serve_safe]. intros h c G. by destruct c. Qed.

(** A request that has ended holds nothing. *)
Lemma serve_releases r stream tr resp : runs (ServeHTTP time_text content_length r stream) tr resp → holds tr = false.
Proof.
  unfold ServeHTTP, handleVerify, handleHead, handleExport, handleQuery. intros R.
  assert (∀ c (k : ans c → prog (Response any)) t a, (∀ x, ∃ v, k x = Ret v) →
    runs (with_full_scan (Do c k)) t a → holds t = false) as W.
  { intros c k t a K (ok & t1 & -> & R1). destruct ok; [|by destruct R1 as [-> _]].
    destruct R1 as (x & t2 & -> & R1). destruct (K x) as [v Kv]. cbn in R1. rewrite Kv in R1.
    by destruct R1 as (u & t3 & -> & [-> _]). }
  destruct (_ || _).
  { destruct (negb _ && _); [by destruct R as [-> _]|]. destruct (parseAnchor _ _ _) as [anchor|]; [|by destruct R as [-> _]].
    eapply (W (CVerifyChain anchor)); [|exact R]. intros [rep|err]; eauto. }
  destruct (_ || _).
  { destruct (negb _); [by destruct R as [-> _]|]. destruct R as (x & t1 & -> & R).
    destruct x as [[[[seq hash] ts]|]|err]; by destruct R as [-> _]. }
  destruct (_ || _).
  { destruct (negb _); [by destruct R as [-> _]|]. destruct (after_seq _); [|by destruct R as [-> _]].
    eapply (W (CLedgerStream _)); [|exact R]. intros x. eauto. }
  destruct (_ || _); [|by destruct R as [-> _]]. destruct (negb _); [by destruct R as [-> _]|].
  destruct (parse_page _) as [page|]; [|by destruct R as [-> _]]. destruct R as (x & t1 & -> & R).
  destruct x; by destruct R as [-> _].
Qed.

(** The flag is set exactly while one request holds it. *)
Definition flag_ok (log : list entry) (b : bool) : Prop :=
  (∀ i, holds (events_of i log) = true → b = true)
  ∧ (∀ i j, holds (events_of i log) = true → holds (events_of j log) = true → i = j)
  ∧ (b = true → ∃ i, holds (events_of i log) = true).

Lemma flag_ok_call log b e b' :
  flag_ok log b → scan_guard (events_of (en_task e) log) (ev_cmd (en_event e)) → flag_step b e b' →
  flag_ok (log ++ [e]) b'.
Proof.
  intros (O & U & X) G S. unfold flag_step in S.
  assert (∀ i, holds (events_of i (log ++ [e]))
          = if decide (en_task e = i) then hold_step (holds (events_of i log)) (en_event e) else holds (events_of i log)) as H'.
  { intros i. rewrite events_of_snoc. destruct (decide (en_task e = i)); [apply holds_snoc|done]. }
  destruct (en_event e) as [c x]. unfold flag_ok. setoid_rewrite H'. cbn [ev_cmd] in *.
  destruct c; cbn in S; cbn [hold_step]; try (subst b'; split_and!;
    [intros i; destruct (decide (en_task e = i)); apply O
    |intros i j; destruct (decide (en_task e = i)), (decide (en_task e = j)); apply U
    |intros E; destruct (X E) as [i Hi]; exists i; by destruct (decide (en_task e = i))]).
  - destruct S as [-> ->]. split_and!; [done| |].
    + intros i j. destruct b; cbn.
      * rewrite !orb_false_r. destruct (decide (en_task e = i)), (decide (en_task e = j)); apply U.
      * intros Hi Hj. destruct (decide (en_task e = i)) as [<-|]; [|by specialize (O i Hi)].
        destruct (decide (en_task e = j)) as [<-|]; [done|by specialize (O j Hj)].
    + intros _. destruct b; cbn.
      * destruct (X eq_refl) as [i Hi]. exists i. destruct (decide (en_task e = i)); [by rewrite Hi|done].
      * exists (en_task e). rewrite decide_True by done. apply orb_true_r.
  - subst b'. cbn in G. split_and!; [| |done].
    + intros i. destruct (decide (en_task e = i)); [done|]. intros Hi. by destruct (n (U _ _ G Hi)).
    + intros i j. destruct (decide (en_task e = i)); [done|]. intros Hi. by destruct (n (U _ _ G Hi)).
Qed.

Lemma flag_invariant requests log b :
  interleaves scan_request requests log → flag_after log b → flag_ok log b.
Proof.
  intros I F.
  assert (∀ l1 e l2, log = l1 ++ e :: l2 → scan_guard (events_of (en_task e) l1) (ev_cmd (en_event e))) as G.
  { intros l1 e l2 E. edestruct (interleaves_safe _ _ _ I (λ _, scan_guard) l1 e l2) as (tk & _ & G); [|done|done].
    intros [r stream]. apply serve_safe. }
  clear I. induction F as [|log b e b' F IH S]; [done|]. apply (flag_ok_call log b e b'); [|by apply (G log e [])|done].
  apply IH. intros l1 e' l2 ->. by apply (G l1 e' (l2 ++ [e])); rewrite <- app_assoc.
Qed.

(** C34: one full-chain scan at a time, and the flag is never left behind.  However the
    requests to the ledger API interleave, a request that streams or verifies the chain
    holds the flag, and no other request does at that moment; and once every request has
    been answered the flag is free again. *)
Theorem one_full_scan requests log b :
  interleaves scan_request requests log → flag_after log b →
  (∀ l1 e l2 j, log = l1 ++ e :: l2 →
     match ev_cmd (en_event e) with CLedgerStream _ | CVerifyChain _ => True | _ => False end →
     holds (events_of (en_task e) l1) = true ∧ (holds (events_of j l1) = true → j = en_task e))
  ∧ ((∀ i x, requests !! i = Some x → ∃ resp, runs (ServeHTTP time_text content_length x.1 x.2) (events_of i log) resp) →
     b = false).
Proof.
  intros I F. split.
  - intros l1 e l2 j E S.
    edestruct (interleaves_safe _ _ _ I (λ _, scan_guard) l1 e l2) as (tk & _ & G); [|done|].
    { intros [r stream]. apply serve_safe. }
    assert (holds (events_of (en_task e) l1) = true) as Hh by (by destruct (ev_cmd (en_event e))).
    split; [done|]. intros Hj. rewrite E in I, F. destruct (after_prefix _ _ _ _ _ F) as [b1 F1].
    by apply (flag_invariant _ _ _ (interleaves_prefix _ _ _ _ I) F1).
  - intros A. destruct b; [|done]. destruct (flag_invariant _ _ _ I F) as (_ & _ & X). destruct (X eq_refl) as [i Hi].
    destruct (requests !! i) as [x|] eqn:L; [|by rewrite (interleaves_idle _ _ _ _ I L) in Hi].
    destruct (A i x L) as [resp R]. apply serve_releases in R. congruence.
Qed.
End scans.

#[local] Existing Instance ascii_tables.

Lemma paging_complete_witness :
  crawl GoTime.format_us (λ _, 0) 3 sample2 1 "" "deny" "" None
  = map (entry_json GoTime.format_us) (filter (page_filter (mkPageQuery 0 1 "" "deny" "")) (reverse (order_asc sample2)))
  ∧ length (crawl GoTime.format_us (λ _, 0) 3 sample2 1 "" "deny" "" None) = 1%nat.
Proof.
  split; [|vm_compute; reflexivity].
  apply (paging_complete GoTime.format_us (λ _, 0) sample2 1 "" "deny" "" 3).
  - vm_compute. repeat split.
  - vm_compute. reflexivity.
  - vm_compute. split; congruence.
  - vm_compute. repeat constructor.
Defined.

(** A verification, and an export that is turned away meanwhile. *)
Definition sample_scans : list (Request * BodyStream) :=
  [(mkRequest "GET" "/verify" [] ∅ "" None, mkStream "" None); (mkRequest "GET" "/export" [] ∅ "" None, mkStream "" None)].
Definition sample_report : VerifyReport := mkReport true 0 0 "" 0 "".
Definition sample_scan_log : list entry :=
  [mkEntry 0 0 (Ev CAcquireScan true); mkEntry 0 1 (Ev CAcquireScan false);
   mkEntry 0 0 (Ev (CVerifyChain None) (Ok sample_report)); mkEntry 0 0 (Ev CReleaseScan tt)].

Lemma sample_scans_interleave : interleaves (scan_request GoTime.format_us (λ _, 0)) sample_scans sample_scan_log.
Proof.
  split.
  - intros e J. unfold sample_scan_log in J. rewrite !elem_of_cons in J.
    destruct J as [-> |[-> |[-> |[-> |J]]]]; [by eexists..|]. by apply not_elem_of_nil in J.
  - intros [|[|i]] tk [= <-]; cbn [scan_request program_steps fst snd]; eexists; apply runs_steps;
      (eapply (run_runs (λ c (n : nat), match c return ans c * nat with
         | CAcquireScan => (Nat.eqb n 0, n) | c => (quiet_answer c, n) end) _ _ _ _ _)).
    + instantiate (3 := 0%nat). reflexivity.
    + instantiate (3 := 1%nat). reflexivity.
Qed.

Lemma sample_flag : flag_after sample_scan_log false.
Proof.
  unfold sample_scan_log.
  apply (after_call _ _ [_; _; _] true); [|done]. apply (after_call _ _ [_; _] true); [|done].
  apply (after_call _ _ [_] true); [|done]. apply (after_call _ _ [] false); [apply after_start|done].
Qed.

Lemma one_full_scan_witness :
  holds (events_of 0 (take 2 sample_scan_log)) = true
  ∧ (holds (events_of 1 (take 2 sample_scan_log)) = true → 1%nat = 0%nat).
Proof.
  exact (proj1 (one_full_scan GoTime.format_us (λ _, 0) sample_scans sample_scan_log false sample_scans_interleave sample_flag)
           (take 2 sample_scan_log) (mkEntry 0 0 (Ev (CVerifyChain None) (Ok sample_report)))
           [mkEntry 0 0 (Ev CReleaseScan tt)] 1%nat eq_refl I).
Defined.

End LedgerHandler.
