(* ===== verification/QStore.v ===== *)
(** * The quarantine store

    [internal/quarantine/store.go] over the queries of [internal/db/quarantine.sql.go].
    The table maps a row's UUID, in canonical form, to the row.  Every statement is
    one atomic update; what can go wrong with it is an argument: it fails without
    effect, or takes effect and its acknowledgement is lost.  [github.com/google/uuid]
    and PostgreSQL's [JSONB] text form are parameters. *)

From S2P Require Import Prelude GoStrings Types Mcp.
From stdpp Require Import base tactics strings list gmap sorting.
From Stdlib Require Import ZArith Lia.

Local Open Scope Z_scope.

Import Mcp.

(** [uuid.Parse] followed by [UUID.String], which prints the canonical form; parsing
    the canonical form gives it back.  [uuid_error] is what the error says otherwise. *)
Class UuidLib : Type := {
  uuid_Parse : string → option string;
  uuid_error : string → string;
  uuid_Parse_canonical : ∀ s id, uuid_Parse s = Some id → uuid_Parse id = Some id
}.

Module QStore.

Definition StatusPending : string := "pending".
Definition StatusApproved : string := "approved".
Definition StatusReplaying : string := "replaying".
Definition StatusReplayed : string := "replayed".
Definition StatusReplayFailed : string := "replay_failed".
Definition StatusDenied : string := "denied".

Definition ErrAlreadyResolved : error := mkErr (Some SAlreadyResolved) "quarantine item already resolved".
Definition ErrNotFound : error := mkErr (Some SNotFound) "quarantine item not found".
Definition ErrStaleTransition : error :=
  mkErr (Some SStaleTransition) "quarantine entry not in expected state for transition".
Definition ErrNoRows : error := mkErr (Some SNoRows) "sql: no rows in result set".

Definition ErrDuplicateKey : error := errors_New "duplicate key value violates unique constraint".

Abbreviation table := (gmap string Quarantine).

(** ** The statements of [quarantine.sql.go] *)

(** A row with its mutable columns replaced. *)
Definition q_set (q : Quarantine) (status : string) (resolved_at : option Z)
    (resolved_by reason : option string) (attempts : Z) (replayed_at : option Z) : Quarantine :=
  mkQuarantine (q_ID q) (q_AgentID q) (q_ToolName q) (q_Payload q) status (q_CreatedAt q)
    resolved_at resolved_by reason attempts replayed_at (q_RequestHeaders q) (q_PolicyRule q) (q_Explanation q).

Definition set_status (q : Quarantine) (status : string) (attempts : Z) (replayed_at : option Z) : Quarantine :=
  q_set q status (q_ResolvedAt q) (q_ResolvedBy q) (q_Reason q) attempts replayed_at.

(** [UPDATE quarantine SET ... WHERE id = $1 AND guard]: rows affected and new table. *)
Definition update_where (id : string) (guard : Quarantine → bool) (f : Quarantine → Quarantine) (t : table)
    : Z * table :=
  match t !! id with
  | Some q => if guard q then (1, <[id := f q]> t) else (0, t)
  | None => (0, t)
  end.

Definition in_status (ss : list string) (q : Quarantine) : bool := bool_decide (q_Status q ∈ ss).

Definition ApproveQuarantineEntry (id status : string) (resolved_at : Z) (resolved_by : option string)
    : table → Z * table :=
  update_where id (in_status [StatusPending; StatusReplayFailed])
    (λ q, q_set q status (Some resolved_at) resolved_by (q_Reason q) 0 (q_ReplayedAt q)).

Definition DenyQuarantineEntry (id status : string) (resolved_at : Z) (resolved_by reason : option string)
    : table → Z * table :=
  update_where id (in_status [StatusPending; StatusReplayFailed])
    (λ q, q_set q status (Some resolved_at) resolved_by reason (q_Attempts q) (q_ReplayedAt q)).

Definition MarkReplayFailed_sql (id : string) : table → Z * table :=
  update_where id (in_status [StatusReplaying])
    (λ q, set_status q StatusReplayFailed (q_Attempts q) (q_ReplayedAt q)).

Definition MarkReplayed_sql (id : string) (now : Z) : table → Z * table :=
  update_where id (in_status [StatusReplaying])
    (λ q, set_status q StatusReplayed (q_Attempts q + 1) (Some now)).

Definition ReturnToApproved_sql (id : string) : table → Z * table :=
  update_where id (in_status [StatusReplaying])
    (λ q, set_status q StatusApproved (q_Attempts q + 1) (q_ReplayedAt q)).

Definition recover_row (q : Quarantine) : Quarantine :=
  if in_status [StatusReplaying] q then set_status q StatusApproved (q_Attempts q + 1) (q_ReplayedAt q) else q.
Definition RecoverStuckReplays_sql (t : table) : Z * table :=
  (Z.of_nat (size (filter (λ e, in_status [StatusReplaying] e.2 = true) t)), recover_row <$> t).

(** [ORDER BY created_at, id] *)
Definition row_le (a b : Quarantine) : Prop :=
  q_CreatedAt a < q_CreatedAt b ∨ q_CreatedAt a = q_CreatedAt b ∧ Is_true (String.leb (q_ID a) (q_ID b)).
#[export] Instance row_le_dec a b : Decision (row_le a b).
Proof. unfold row_le. apply _. Defined.

Definition rows_with (status : string) (t : table) : list Quarantine :=
  merge_sort row_le (List.filter (in_status [status]) (map snd (map_to_list t))).

(** [FOR UPDATE SKIP LOCKED]: [locked] are the rows another transaction holds. *)
Definition claim_candidates (limit : Z) (locked : gset string) (t : table) : list Quarantine :=
  take (Z.to_nat limit) (List.filter (λ q, negb (bool_decide (q_ID q ∈ locked))) (rows_with StatusApproved t)).

Definition claim_row (q : Quarantine) : Quarantine :=
  set_status q StatusReplaying (q_Attempts q) (q_ReplayedAt q).

Definition claim_all (qs : list Quarantine) (t : table) : table :=
  foldl (λ t q, <[q_ID q := claim_row q]> t) t qs.

(** The statement and the rows it returns. *)
Definition ClaimApprovedForReplay (limit : Z) (locked : gset string) (t : table) : list Quarantine * table :=
  let qs := claim_candidates limit locked t in (map claim_row qs, claim_all qs t).

Definition CreateQuarantineEntry (id agent tool payload : string) (created_at : Z) (headers rule explanation : string)
    (t : table) : table :=
  <[id := mkQuarantine id agent tool payload StatusPending created_at None None None 0 None headers rule explanation]> t.

Definition GetQuarantineEntry (id : string) (t : table) : result Quarantine :=
  match t !! id with Some q => Ok q | None => Err ErrNoRows end.
Definition GetQuarantineEntryForReplay (id : string) (t : table) : result Quarantine :=
  match t !! id with Some q => Ok q | None => Err ErrNoRows end.

Definition ListQuarantineByStatus (status : string) (t : table) : list Quarantine :=
  take 500 (rows_with status t).

(** ** The store *)

(** What happens to a statement: it works, fails before taking effect, or takes effect
    and the caller sees an error. *)
Inductive fault : Type :=
  | Good
  | Failed (e : error)
  | Lost (e : error).

Definition exec {A} (f : fault) (r : A * table) (t : table) : result A * table :=
  match f with
  | Good => (Ok r.1, r.2)
  | Failed e => (Err e, t)
  | Lost e => (Err e, r.2)
  end.

(** [sql.NullString{String: s, Valid: s != EmptyString}] *)
Definition null_string (s : string) : option string := if String.eqb s "" then None else Some s.

(** [requireAffected] *)
Definition requireAffected (r : result Z) (op : string) : option error :=
  match r with
  | Err e => Some (errorf_w ("failed to " +:+ op) e)
  | Ok n => if n =? 0 then Some (errorf_w op ErrStaleTransition) else None
  end.

Section store.
Context `{UnicodeTables} `{UuidLib}.
(** The text PostgreSQL returns for a [JSONB] value it was given as text. *)
Variable jsonb : string → string.

(** The error [parseQuarantineID] returns. *)
Definition err_invalid_id (id : string) : error :=
  errorf_w ("invalid quarantine id " +:+ go_quote id) (errors_New (uuid_error id)).

(** [Store.Create]; [new_id] is the UUID the database generates. *)
Definition Create (f : fault) (new_id : string) (now : Z) (agentID toolName payload : string)
    (headers : Header) (rule explanation : string) (t : table) : result string * table :=
  let requestHeaders := marshal_header (CaptureReplayHeaders headers) in
  if bool_decide (is_Some (t !! new_id)) then (Err ErrDuplicateKey, t) else
  exec f (new_id, CreateQuarantineEntry new_id agentID toolName payload now (jsonb requestHeaders)
                    rule explanation t) t.

(** [Store.Get] and [Store.GetForReplay]; [fails] is a database error. *)
Definition Get (fails : option error) (id : string) (t : table) : result QuarantineEntry :=
  match uuid_Parse id with
  | None => Err ErrNotFound
  | Some qid =>
      match fails with
      | Some e => Err e
      | None =>
          match GetQuarantineEntry qid t with
          | Ok m => Ok (ToQuarantineEntry m)
          | Err e => if errors_Is e SNoRows then Err ErrNotFound else Err e
          end
      end
  end.
Definition GetForReplay (fails : option error) (id : string) (t : table) : result QuarantineEntry :=
  match uuid_Parse id with
  | None => Err ErrNotFound
  | Some qid =>
      match fails with
      | Some e => Err e
      | None =>
          match GetQuarantineEntryForReplay qid t with
          | Ok m => Ok (ToQuarantineEntry m)
          | Err e => Err e
          end
      end
  end.

(** [Store.List] *)
Definition List_ (fails : option error) (status : string) (t : table) : result (list QuarantineEntry) :=
  match fails with
  | Some e => Err e
  | None => Ok (map ToQuarantineEntry (ListQuarantineByStatus status t))
  end.

(** The outcome of [Approve] and [Deny] from the statement's. *)
Definition resolution (op : string) (r : result Z) : option error :=
  match r with
  | Err e => Some (errorf_w op e)
  | Ok n => if n =? 0 then Some ErrAlreadyResolved else None
  end.

(** [Store.Approve] *)
Definition Approve (f : fault) (now : Z) (id approvedBy : string) (t : table) : option error * table :=
  match uuid_Parse id with
  | None => (Some ErrNotFound, t)
  | Some qid =>
      let res := exec f (ApproveQuarantineEntry qid StatusApproved now (null_string approvedBy) t) t in
      (resolution "failed to approve quarantine entry" res.1, res.2)
  end.

(** [Store.Deny] *)
Definition Deny (f : fault) (now : Z) (id deniedBy reason : string) (t : table) : option error * table :=
  match uuid_Parse id with
  | None => (Some ErrNotFound, t)
  | Some qid =>
      let res := exec f (DenyQuarantineEntry qid StatusDenied now (null_string deniedBy) (null_string reason) t) t in
      (resolution "failed to deny quarantine entry" res.1, res.2)
  end.

(** A guarded transition of one claimed row. *)
Definition transition (op : string) (stmt : string → table → Z * table) (f : fault) (id : string) (t : table)
    : option error * table :=
  match uuid_Parse id with
  | None => (Some (err_invalid_id id), t)
  | Some qid =>
      let res := exec f (stmt qid t) t in (requireAffected res.1 op, res.2)
  end.

(** [Store.MarkReplayFailed], [Store.MarkReplayed], [Store.ReturnToApproved] *)
Definition MarkReplayFailed : fault → string → table → option error * table :=
  transition "mark replay failed" MarkReplayFailed_sql.
Definition MarkReplayed (now : Z) : fault → string → table → option error * table :=
  transition "mark replayed" (λ id, MarkReplayed_sql id now).
Definition ReturnToApproved : fault → string → table → option error * table :=
  transition "return to approved" ReturnToApproved_sql.

(** [Store.ClaimApproved] *)
Definition ClaimApproved (f : fault) (limit : Z) (locked : gset string) (t : table)
    : result (list QuarantineEntry) * table :=
  let res := exec f (ClaimApprovedForReplay limit locked t) t in
  (rbind res.1 (λ ms, Ok (map ToQuarantineEntry ms)), res.2).

(** [RETURNING] lists the claimed rows in whatever order the update visits them. *)
Definition listed {A} (x y : result (list A)) : Prop :=
  match x, y with Ok l, Ok l' => l ≡ₚ l' | Err e, Err e' => e = e' | _, _ => False end.

Lemma listed_refl {A} (x : result (list A)) : listed x x.
Proof. by destruct x; cbn. Qed.

(** [Store.RecoverStuckReplays] *)
Definition RecoverStuckReplays (f : fault) (t : table) : result Z * table :=
  exec f (RecoverStuckReplays_sql t) t.
End store.

(** ** The lifecycle a row promises *)

(** Status and attempts of a held action. *)
Inductive lifecycle : string * Z → string * Z → Prop :=
  | lc_approve s a :
      s = StatusPending ∨ s = StatusReplayFailed → lifecycle (s, a) (StatusApproved, 0)
  | lc_deny s a :
      s = StatusPending ∨ s = StatusReplayFailed → lifecycle (s, a) (StatusDenied, a)
  | lc_claim a : lifecycle (StatusApproved, a) (StatusReplaying, a)
  | lc_done a : lifecycle (StatusReplaying, a) (StatusReplayed, a + 1)
  | lc_fail a : lifecycle (StatusReplaying, a) (StatusReplayFailed, a)
  | lc_retry a : lifecycle (StatusReplaying, a) (StatusApproved, a + 1).

Definition row_state (q : Quarantine) : string * Z := (q_Status q, q_Attempts q).

(** The columns that describe the held request. *)
Definition same_request (q q' : Quarantine) : Prop :=
  q_ID q' = q_ID q ∧ q_AgentID q' = q_AgentID q ∧ q_ToolName q' = q_ToolName q
  ∧ q_Payload q' = q_Payload q ∧ q_CreatedAt q' = q_CreatedAt q
  ∧ q_RequestHeaders q' = q_RequestHeaders q ∧ q_PolicyRule q' = q_PolicyRule q
  ∧ q_Explanation q' = q_Explanation q.

Definition row_moves (q q' : Quarantine) : Prop :=
  same_request q q' ∧ (q' = q ∨ lifecycle (row_state q) (row_state q')).

(** Rows are keyed by their own id. *)
Definition table_wf (t : table) : Prop := map_Forall (λ id q, q_ID q = id) t.

(** Every row stays, moving along the lifecycle; new rows are pending. *)
Definition table_moves (t t' : table) : Prop :=
  ∀ id, match t !! id, t' !! id with
        | Some q, Some q' => row_moves q q'
        | None, Some q' => q_Status q' = StatusPending ∧ q_Attempts q' = 0 ∧ q_ID q' = id
        | None, None => True
        | Some _, None => False
        end.

(** The operations of the store, with what happens to their statements. *)
Inductive op : Type :=
  | OCreate (f : fault) (new_id : string) (now : Z) (agentID toolName payload : string) (headers : Header)
      (rule explanation : string)
  | OApprove (f : fault) (now : Z) (id approvedBy : string)
  | ODeny (f : fault) (now : Z) (id deniedBy reason : string)
  | OClaim (f : fault) (limit : Z) (locked : gset string)
  | OReplayed (f : fault) (now : Z) (id : string)
  | OFailed (f : fault) (id : string)
  | OReturn (f : fault) (id : string)
  | ORecover (f : fault).

Section refinement.
Context `{UnicodeTables} `{UuidLib}.
Variable jsonb : string → string.

Definition apply_op (o : op) (t : table) : table :=
  match o with
  | OCreate f i now a n p h r e => (Create jsonb f i now a n p h r e t).2
  | OApprove f now id by_ => (Approve f now id by_ t).2
  | ODeny f now id by_ why => (Deny f now id by_ why t).2
  | OClaim f limit locked => (ClaimApproved f limit locked t).2
  | OReplayed f now id => (MarkReplayed now f id t).2
  | OFailed f id => (MarkReplayFailed f id t).2
  | OReturn f id => (ReturnToApproved f id t).2
  | ORecover f => (RecoverStuckReplays f t).2
  end.

Lemma row_moves_refl q : row_moves q q.
Proof. split; [by repeat split|by left]. Qed.

Lemma table_moves_refl t : table_moves t t.
Proof. intros id. destruct (t !! id); [apply row_moves_refl|done]. Qed.

Lemma exec_moves {A} f (r : A * table) t : table_moves t r.2 → table_moves t (exec f r t).2.
Proof. destruct f; simpl; auto using table_moves_refl. Qed.

Lemma update_where_moves id guard f t :
  (∀ q, guard q = true → row_moves q (f q)) → table_moves t (update_where id guard f t).2.
Proof.
  intros G. unfold update_where. destruct (t !! id) as [q|] eqn:L; [|apply table_moves_refl].
  destruct (guard q) eqn:E; [|apply table_moves_refl]. intros i. simpl.
  destruct (decide (i = id)) as [->|N].
  - rewrite L, lookup_insert, decide_True by done. by apply G.
  - rewrite lookup_insert_ne by done. destruct (t !! i); [apply row_moves_refl|done].
Qed.

Lemma in_status_true ss q : in_status ss q = true ↔ q_Status q ∈ ss.
Proof. apply bool_decide_eq_true. Qed.

Lemma claim_row_moves q : q_Status q = StatusApproved → row_moves q (claim_row q).
Proof. intros E. split; [by repeat split|right]. unfold row_state. simpl. rewrite E. constructor. Qed.

Lemma claim_all_lookup qs t id :
  table_wf t → (∀ q, q ∈ qs → t !! q_ID q = Some q) →
  claim_all qs t !! id
  = match t !! id with
    | Some q => if bool_decide (q ∈ qs) then Some (claim_row q) else Some q
    | None => None
    end.
Proof.
  clear jsonb. unfold claim_all. intros W. induction qs as [|q qs IH] using rev_ind; intros F.
  { simpl. by destruct (t !! id). }
  rewrite foldl_app. simpl.
  assert (t !! q_ID q = Some q) as Lq by (apply F, elem_of_app; right; by left).
  destruct (decide (id = q_ID q)) as [->|N].
  - rewrite lookup_insert, decide_True, Lq, bool_decide_true; [done| |done].
    apply elem_of_app. right. by left.
  - rewrite lookup_insert_ne by done. rewrite IH by (intros q' I; apply F, elem_of_app; by left).
    destruct (t !! id) as [q'|] eqn:L; [|done].
    assert (q' ≠ q) as Nq by (intros ->; apply N; symmetry; by apply W).
    rewrite (bool_decide_ext (q' ∈ qs ++ [q]) (q' ∈ qs)); [done|]. set_solver.
Qed.

Lemma rows_with_elem s t q :
  q ∈ rows_with s t ↔ q_Status q = s ∧ ∃ id, t !! id = Some q.
Proof.
  unfold rows_with. rewrite merge_sort_Permutation, list_elem_of_In, filter_In, <- list_elem_of_In.
  rewrite in_status_true, list_elem_of_singleton. split.
  - intros [I E]. split; [done|]. apply list_elem_of_fmap in I as ([id q'] & -> & I).
    exists id. by apply elem_of_map_to_list.
  - intros [E [id L]]. split; [|done]. apply list_elem_of_fmap. exists (id, q). split; [done|].
    by apply elem_of_map_to_list.
Qed.

Lemma claim_candidates_elem limit locked t q :
  table_wf t → q ∈ claim_candidates limit locked t →
  t !! q_ID q = Some q ∧ q_Status q = StatusApproved ∧ q_ID q ∉ locked.
Proof.
  unfold claim_candidates. intros W I. apply elem_of_take in I as (i & I & _).
  apply list_elem_of_lookup_2 in I.
  apply list_elem_of_In, filter_In in I as [I U]. apply list_elem_of_In, rows_with_elem in I as [E [id L]].
  split_and!; [|done|by apply negb_true_iff, bool_decide_eq_false in U]. by rewrite (W id q L).
Qed.

Lemma claim_moves limit locked t :
  table_wf t → table_moves t (ClaimApprovedForReplay limit locked t).2.
Proof.
  intros W id. simpl. rewrite claim_all_lookup by (done || (intros q I; by eapply claim_candidates_elem)).
  destruct (t !! id) as [q|]; [|done]. case_bool_decide as I; [|apply row_moves_refl].
  apply claim_row_moves. by eapply claim_candidates_elem.
Qed.

Lemma recover_moves t : table_moves t (RecoverStuckReplays_sql t).2.
Proof.
  intros id. simpl. rewrite lookup_fmap. destruct (t !! id) as [q|]; [|done]. simpl.
  unfold recover_row. destruct (in_status [StatusReplaying] q) eqn:E; [|apply row_moves_refl].
  apply in_status_true, list_elem_of_singleton in E. split; [by repeat split|right].
  unfold row_state. simpl. rewrite E. constructor.
Qed.

Lemma resolve_guard q : in_status [StatusPending; StatusReplayFailed] q = true →
  q_Status q = StatusPending ∨ q_Status q = StatusReplayFailed.
Proof. rewrite in_status_true. set_solver. Qed.

Lemma claimed_guard q : in_status [StatusReplaying] q = true → q_Status q = StatusReplaying.
Proof. rewrite in_status_true. set_solver. Qed.

Lemma transition_moves name stmt f id t :
  (∀ i t, table_moves t (stmt i t).2) → table_moves t (transition name stmt f id t).2.
Proof.
  intros S. unfold transition. destruct (uuid_Parse id) as [qid|]; [|apply table_moves_refl].
  apply exec_moves, S.
Qed.

(** A guarded update of a claimed row along the lifecycle. *)
Lemma claimed_update_moves id status delta replayed t :
  (∀ a, lifecycle (StatusReplaying, a) (status, a + delta)) →
  table_moves t (update_where id (in_status [StatusReplaying])
                   (λ q, set_status q status (q_Attempts q + delta) (replayed q)) t).2.
Proof.
  intros L. apply update_where_moves. intros q E. apply claimed_guard in E.
  split; [by repeat split|right]. unfold row_state. simpl. rewrite E. apply L.
Qed.

Lemma apply_op_moves o t : table_wf t → table_moves t (apply_op o t).
Proof.
  intros W. destruct o; cbn [apply_op].
  - unfold Create. case_bool_decide as N; [apply table_moves_refl|]. apply exec_moves. intros id.
    unfold CreateQuarantineEntry. simpl. destruct (decide (id = new_id)) as [->|Ne].
    + rewrite lookup_insert, decide_True by done. destruct (t !! new_id); [destruct N; eauto|done].
    + rewrite lookup_insert_ne by done. destruct (t !! id); [apply row_moves_refl|done].
  - unfold Approve. destruct (uuid_Parse id) as [qid|]; [|apply table_moves_refl].
    apply exec_moves, update_where_moves. intros q G. apply resolve_guard in G.
    split; [by repeat split|right]. by constructor.
  - unfold Deny. destruct (uuid_Parse id) as [qid|]; [|apply table_moves_refl].
    apply exec_moves, update_where_moves. intros q G. apply resolve_guard in G.
    split; [by repeat split|right]. by constructor.
  - by apply exec_moves, claim_moves.
  - apply transition_moves. intros i u. apply (claimed_update_moves i StatusReplayed 1 (λ _, Some now)).
    intros a. constructor.
  - apply transition_moves. intros i u. unfold MarkReplayFailed_sql. apply update_where_moves.
    intros q G. apply claimed_guard in G. split; [by repeat split|right]. unfold row_state. simpl. rewrite G. constructor.
  - apply transition_moves. intros i u. apply (claimed_update_moves i StatusApproved 1 q_ReplayedAt).
    intros a. constructor.
  - apply exec_moves, recover_moves.
Qed.

Lemma moves_wf t t' : table_wf t → table_moves t t' → table_wf t'.
Proof.
  intros W M id q' L'. specialize (M id). rewrite L' in M. destruct (t !! id) as [q|] eqn:L.
  - destruct M as [(I & _) _]. rewrite I. by apply W.
  - naive_solver.
Qed.

Lemma ops_wf ops : table_wf (foldl (λ t o, apply_op o t) ∅ ops).
Proof.
  induction ops as [|o ops IH] using rev_ind; [apply map_Forall_empty|].
  rewrite foldl_app. simpl. eapply moves_wf; [exact IH|]. by apply apply_op_moves.
Qed.

(** C16: the store implements the lifecycle.  Any sequence of operations, with any of
    their statements failing or losing its acknowledgement, keeps every row: its
    request (agent, tool, payload, headers, rule) never changes, each operation moves
    its status and attempts by one edge of the lifecycle or not at all, and only new
    pending rows appear. *)
Theorem store_refines_lifecycle (ops : list op) (o : op) :
  let t := foldl (λ t o, apply_op o t) ∅ ops in
  table_wf t ∧ table_moves t (apply_op o t).
Proof.
  intros t. assert (table_wf t) as W by apply ops_wf. split; [done|by apply apply_op_moves].
Qed.

(** Resolutions are final.  Once a row is denied or replayed, no later operation
    changes it in any way: a denied action can never be replayed, a replayed one never
    again. *)
Theorem resolved_rows_final (ops later : list op) (id : string) (q : Quarantine) :
  let t := foldl (λ t o, apply_op o t) ∅ ops in
  t !! id = Some q → q_Status q = StatusDenied ∨ q_Status q = StatusReplayed →
  foldl (λ t o, apply_op o t) t later !! id = Some q.
Proof.
  intros t L F.
  assert (table_wf t) as W by apply ops_wf. clearbody t. revert t L W. induction later as [|o later IH]; intros t L W; [done|]. simpl.
  pose proof (apply_op_moves o t W) as M. apply IH; [|by eapply moves_wf].
  specialize (M id). rewrite L in M. destruct (apply_op o t !! id) as [q'|]; [|done].
  destruct M as [_ [-> |M]]; [done|]. exfalso. unfold row_state in M.
  inv M; destruct F as [F|F]; rewrite F in *; naive_solver.
Qed.

(** ** Transitions are never silent *)

Lemma update_where_rows id guard f t n t' :
  update_where id guard f t = (n, t') →
  (n = 0 ∧ t' = t ∧ ∀ q, t !! id = Some q → guard q = false)
  ∨ (n = 1 ∧ ∃ q, t !! id = Some q ∧ guard q = true ∧ t' = <[id := f q]> t).
Proof.
  unfold update_where. destruct (t !! id) as [q|]; [|naive_solver].
  destruct (guard q) eqn:G; intros [= <- <-]; naive_solver.
Qed.

(** What a transition answers, and where it leads. *)
Definition op_answer (o : op) (t : table) : option error :=
  match o with
  | OApprove f now id by_ => (Approve f now id by_ t).1
  | ODeny f now id by_ why => (Deny f now id by_ why t).1
  | OReplayed f now id => (MarkReplayed now f id t).1
  | OFailed f id => (MarkReplayFailed f id t).1
  | OReturn f id => (ReturnToApproved f id t).1
  | _ => None
  end.
Definition op_target (o : op) : option (fault * string * string) :=
  match o with
  | OApprove f _ id _ => Some (f, id, StatusApproved)
  | ODeny f _ id _ _ => Some (f, id, StatusDenied)
  | OReplayed f _ id => Some (f, id, StatusReplayed)
  | OFailed f id => Some (f, id, StatusReplayFailed)
  | OReturn f id => Some (f, id, StatusApproved)
  | _ => None
  end.

(** Each transition is a guarded update; the answer is nil exactly when its statement
    was acknowledged and hit the row. *)
Lemma transition_shape o t f id target :
  op_target o = Some (f, id, target) →
  (uuid_Parse id = None ∧ op_answer o t ≠ None ∧ apply_op o t = t)
  ∨ ∃ qid guard upd,
      uuid_Parse id = Some qid
      ∧ apply_op o t = (exec f (update_where qid guard upd t) t).2
      ∧ (op_answer o t = None ↔ (exec f (update_where qid guard upd t) t).1 = Ok 1)
      ∧ ∀ q, guard q = true → lifecycle (row_state q) (row_state (upd q)) ∧ q_Status (upd q) = target.
Proof.
  assert (∀ m (r : Z * table), (r.1 = 0 ∨ r.1 = 1) →
    (resolution m (exec f r t).1 = None ↔ (exec f r t).1 = Ok 1)
    ∧ (requireAffected (exec f r t).1 m = None ↔ (exec f r t).1 = Ok 1)) as Ans.
  { intros m [n u] [E|E]; simpl in E; subst; destruct f; simpl; naive_solver. }
  assert (∀ qid g u, (update_where qid g u t).1 = 0 ∨ (update_where qid g u t).1 = 1) as Rows.
  { intros qid g u. unfold update_where. destruct (t !! qid) as [q|]; [|by left]. destruct (g q); auto. }
  destruct o; simpl; intros [= <- <- <-];
    unfold Approve, Deny, MarkReplayed, MarkReplayFailed, ReturnToApproved, transition;
    (destruct (uuid_Parse id0) as [qid|]; [right|left; done]);
    (exists qid; eexists _, _; split_and!; [done|reflexivity|apply Ans, Rows|]);
    intros q G; (apply resolve_guard in G || apply claimed_guard in G);
    unfold row_state; cbn; try (split; [by constructor|done]); rewrite G; split; done || constructor.
Qed.

(** C25: transitions are never silent.  When approve, deny, mark replayed, mark failed or
    release answers nil, the row it names made exactly that edge of the lifecycle and
    nothing else changed; when it answers an error and the database worked, the table
    is untouched, and only a lost acknowledgement can hide an effect. *)
Theorem transitions_truthful (o : op) (t : table) (f : fault) (id target : string) :
  op_target o = Some (f, id, target) →
  (op_answer o t = None →
   ∃ qid q q', uuid_Parse id = Some qid ∧ t !! qid = Some q ∧ apply_op o t = <[qid := q']> t
     ∧ lifecycle (row_state q) (row_state q') ∧ q_Status q' = target)
  ∧ (op_answer o t ≠ None → (∀ e, f ≠ Lost e) → apply_op o t = t).
Proof.
  intros T. destruct (transition_shape o t f id target T)
    as [(_ & N & E)|(qid & guard & upd & P & E & A & G)]; [done|]. rewrite A, E.
  destruct (update_where qid guard upd t) as [n t'] eqn:U. apply update_where_rows in U.
  split.
  - intros R. destruct f; simpl in *; try done.
    destruct U as [(-> & _ & _)|(-> & q & L & Gq & ->)]; [done|].
    destruct (G q Gq) as [Lc Ls]. exists qid, q, (upd q). done.
  - intros R NL. destruct f as [|e|e]; simpl in *; [|done|by destruct (NL e)].
    destruct U as [(-> & -> & _)|(-> & _)]; done.
Qed.

(** ** Claims *)

Lemma NoDup_rows_with s t : table_wf t → NoDup (map q_ID (rows_with s t)).
Proof.
  intros W. unfold rows_with. rewrite merge_sort_Permutation.
  assert (∀ l : list (string * Quarantine), NoDup (l.*1) → (∀ e, e ∈ l → q_ID e.2 = e.1) →
          NoDup (map q_ID (List.filter (in_status [s]) (map snd l)))) as H1.
  { clear. induction l as [|[k q] l IH]; simpl; [constructor|]. intros [N1 N2]%NoDup_cons F.
    assert (NoDup (map q_ID (List.filter (in_status [s]) (map snd l)))) as IH' by (apply IH; set_solver).
    destruct (in_status [s] q); [|done]. simpl. apply NoDup_cons. split; [|done].
    intros I. apply N1. apply list_elem_of_fmap in I as (q' & E & I).
    apply list_elem_of_In, filter_In in I as [I _]. apply list_elem_of_In, list_elem_of_fmap in I as ([k' x] & -> & I).
    pose proof (F (k, q) (list_elem_of_here _ _)) as Ek.
    pose proof (F (k', x) (list_elem_of_further _ _ _ I)) as Ex. simpl in *. rewrite <- Ek, E, Ex.
    change k' with (k', x).1. by apply list_elem_of_fmap_2. }
  apply H1; [apply NoDup_fst_map_to_list|]. intros [k q] I. apply elem_of_map_to_list in I. by apply W.
Qed.

Lemma NoDup_candidates limit locked t : table_wf t → NoDup (map q_ID (claim_candidates limit locked t)).
Proof.
  intros W. unfold claim_candidates. rewrite <- firstn_map.
  eapply sublist_NoDup; [|apply sublist_take]. by apply NoDup_map_filter, NoDup_rows_with.
Qed.

(** Claims are exclusive.  A successful claim takes at most [limit] distinct rows,
    each approved and unlocked; each is returned with its own stored request and its
    row is 'replaying' afterwards, no other row changes, and no row it took can be taken
    by a following claim, whatever that one's limit and locks. *)
Theorem claims_exclusive (limit : Z) (locked : gset string) (t t' : table) (es : list QuarantineEntry) :
  table_wf t → ClaimApproved Good limit locked t = (Ok es, t') →
  NoDup (map qe_ID es) ∧ Z.of_nat (length es) <= Z.max 0 limit
  ∧ (∀ e, e ∈ es → ∃ q, t !! qe_ID e = Some q ∧ q_Status q = StatusApproved ∧ (qe_ID e ∉ locked)
       ∧ e = ToQuarantineEntry (claim_row q) ∧ t' !! qe_ID e = Some (claim_row q))
  ∧ (∀ id, id ∉ map qe_ID es → t' !! id = t !! id)
  ∧ (∀ limit2 locked2 es2 t2, ClaimApproved Good limit2 locked2 t' = (Ok es2, t2) →
       ∀ id, id ∈ map qe_ID es → id ∉ map qe_ID es2).
Proof.
  intros W E. unfold ClaimApproved in E. simpl in E. injection E as <- <-.
  set (qs := claim_candidates limit locked t).
  assert (∀ q, q ∈ qs → t !! q_ID q = Some q) as Lk by (intros q I; by eapply claim_candidates_elem).
  assert (map qe_ID (map ToQuarantineEntry (map claim_row qs)) = map q_ID qs) as Ids by (by rewrite !map_map).
  assert (∀ id, id ∈ map q_ID qs → ∃ q, q ∈ qs ∧ id = q_ID q ∧ claim_all qs t !! id = Some (claim_row q)) as Took.
  { intros id I. apply list_elem_of_fmap in I as (q & -> & I). exists q. split_and!; try done.
    rewrite claim_all_lookup by done. rewrite (Lk q I). by rewrite bool_decide_true. }
  rewrite Ids. split_and!.
  - by apply NoDup_candidates.
  - rewrite !length_map. unfold qs, claim_candidates. rewrite length_take. lia.
  - intros e I. apply list_elem_of_fmap in I as (q1 & -> & I). apply list_elem_of_fmap in I as (q & -> & I).
    destruct (claim_candidates_elem limit locked t q W I) as (L & S & U). exists q. split_and!; try done.
    simpl. rewrite claim_all_lookup by done. rewrite L. by rewrite bool_decide_true.
  - intros id N. rewrite claim_all_lookup by done. destruct (t !! id) as [q|] eqn:L; [|done].
    rewrite bool_decide_false; [done|]. intros I. apply N. rewrite <- (W id q L). by apply list_elem_of_fmap_2.
  - intros limit2 locked2 es2 t2 E2 id I I2. unfold ClaimApproved in E2. simpl in E2. injection E2 as <- _.
    rewrite !map_map in I2. change (id ∈ map q_ID (claim_candidates limit2 locked2 (claim_all qs t))) in I2.
    apply list_elem_of_fmap in I2 as (q2 & -> & I2).
    assert (table_wf (claim_all qs t)) as W' by (eapply moves_wf; [exact W|apply (claim_moves limit locked t W)]).
    destruct (claim_candidates_elem limit2 locked2 _ q2 W' I2) as (L2 & S2 & _).
    destruct (Took _ I) as (q & _ & _ & L). rewrite L2 in L. injection L as ->. done.
Qed.

(** C26: what is quarantined is what is replayed.  Creating an item and reading it back
    gives the agent, tool, body, policy rule and explanation as they came, pending since
    then, with no attempts, no resolution and no replay.  For headers as [net/http] builds
    them whose captured text is UTF-8, the stored metadata decodes to exactly the captured
    headers, whatever form the column returns the object in. *)
Theorem stored_request_roundtrip (msg : string → string) (t : table) (new_id : string) (now : Z)
    (agentID toolName payload : string) (headers : Header) (rule explanation : string) :
  uuid_Parse new_id = Some new_id → t !! new_id = None →
  ∃ t' e,
    Create jsonb Good new_id now agentID toolName payload headers rule explanation t = (Ok new_id, t')
    ∧ Get None new_id t' = Ok e
    ∧ e = mkQuarantineEntry new_id agentID toolName payload "pending" now None "" "" 0 None (qe_RequestHeaders e)
            rule explanation
    ∧ (canonical_keys headers → header_utf8 (CaptureReplayHeaders headers) →
       same_object (marshal_header (CaptureReplayHeaders headers)) (jsonb (marshal_header (CaptureReplayHeaders headers))) →
       DecodeReplayHeaders msg (qe_RequestHeaders e) = Ok (CaptureReplayHeaders headers)).
Proof.
  intros P N. unfold Create. rewrite bool_decide_false by (rewrite N; by intros [? ?]).
  unfold CreateQuarantineEntry. cbn [exec fst snd]. eexists _, _. split; [reflexivity|]. split.
  { unfold Get, GetQuarantineEntry. rewrite P, lookup_insert, decide_True by done. reflexivity. }
  split; [done|]. by apply replay_headers_roundtrip.
Qed.
End refinement.

(** ** Witnesses: identifiers are their own canonical form *)

#[local] Existing Instance ascii_tables.
#[export, refine] Instance plain_uuid : UuidLib :=
  {| uuid_Parse s := if String.eqb s "" then None else Some s; uuid_error _ := "invalid UUID length: 0" |}.
Proof. intros s id. by destruct (String.eqb_spec s ""); intros [= <-]; destruct (String.eqb_spec s ""). Defined.

Definition sample_create : op :=
  OCreate Good "q1" 10 "agent-7" "search" "{}" (list_to_map [("Accept", ["*/*"])]) "rule" "why".
Definition sample_table (ops : list op) : table := foldl (λ t o, apply_op (λ s, s) o t) ∅ (sample_create :: ops).

Lemma resolved_rows_final_witness :
  q_Status <$> sample_table [ODeny Good 11 "q1" "rev" ""; OApprove Good 12 "q1" "rev"; OClaim Good 10 ∅] !! "q1"
  = Some StatusDenied.
Proof.
  pose proof (resolved_rows_final (λ s, s) [sample_create; ODeny Good 11 "q1" "rev" ""]
    [OApprove Good 12 "q1" "rev"; OClaim Good 10 ∅] "q1") as F.
  change (q_Status <$> foldl (λ t o, apply_op (λ s, s) o t) (foldl (λ t o, apply_op (λ s, s) o t) ∅
    [sample_create; ODeny Good 11 "q1" "rev" ""]) [OApprove Good 12 "q1" "rev"; OClaim Good 10 ∅] !! "q1"
    = Some StatusDenied).
  erewrite F; [|vm_compute; reflexivity|by left]. reflexivity.
Defined.

Lemma transitions_truthful_witness :
  op_answer (OApprove Good 11 "q1" "rev") (sample_table []) = None
  ∧ ∃ qid q q', sample_table [] !! qid = Some q
      ∧ apply_op (λ s, s) (OApprove Good 11 "q1" "rev") (sample_table []) = <[qid := q']> (sample_table [])
      ∧ q_Status q' = StatusApproved.
Proof.
  split; [vm_compute; reflexivity|].
  destruct (transitions_truthful (λ s, s) (OApprove Good 11 "q1" "rev") (sample_table []) Good "q1" StatusApproved
    eq_refl) as [T _].
  destruct T as (qid & q & q' & _ & L & E & _ & S); [vm_compute; reflexivity|]. by exists qid, q, q'.
Defined.

Lemma claims_exclusive_witness :
  ∃ es t', ClaimApproved Good 10 ∅ (sample_table [OApprove Good 11 "q1" "rev"]) = (Ok es, t')
    ∧ map qe_ID es = ["q1"] ∧ NoDup (map qe_ID es).
Proof.
  eexists _, _. split; [reflexivity|]. split; [vm_compute; reflexivity|].
  eapply (claims_exclusive 10 ∅ (sample_table [OApprove Good 11 "q1" "rev"])); [|reflexivity].
  apply (ops_wf (λ s, s) [sample_create; OApprove Good 11 "q1" "rev"]).
Defined.

Lemma stored_request_roundtrip_witness :
  ∃ t' e, Create (λ s, s) Good "q9" 3 "agent-7" "search" "{}" sample_headers "rule" "why" ∅ = (Ok "q9", t')
    ∧ Get None "q9" t' = Ok e ∧ qe_Payload e = "{}" ∧ qe_Explanation e = "why"
    ∧ DecodeReplayHeaders (λ s, s) (qe_RequestHeaders e) = Ok (CaptureReplayHeaders sample_headers).
Proof.
  destruct (stored_request_roundtrip (λ s, s) (λ s, s) ∅ "q9" 3 "agent-7" "search" "{}" sample_headers "rule" "why")
    as (t' & e & C & G & P & D); [reflexivity|reflexivity|].
  exists t', e. split_and!; [done|done|by rewrite P|by rewrite P|]. apply D.
  - apply sample_canonical.
  - intros k vs L. rewrite CaptureReplayHeaders_lookup in L by apply sample_canonical.
    destruct (sample_headers !! k) as [[|v ws]|] eqn:E; try done.
    destruct (replay_safe (to_lower k)); [|done]. injection L as <-.
    apply elem_of_list_to_map_2 in E.
    repeat (apply elem_of_cons in E as [[= -> -> ->]|E]; [split; [reflexivity|repeat constructor]|]).
    by apply elem_of_nil in E.
  - eexists _, _. split_and!; [vm_compute; reflexivity|vm_compute; reflexivity|done].
Defined.
End QStore.
