(* ===== verification/QTypes.v ===== *)
(** * The rows of the quarantine table

    The shape every stored row has: what its status says about the columns that record
    its resolution and its replay. *)

From S2P Require Import Prelude GoStrings Types QStore.
From stdpp Require Import base tactics strings list gmap.
From Stdlib Require Import ZArith Lia.

Local Open Scope Z_scope.

Import QStore.

Module QTypes.

Record row_typed (q : Quarantine) : Prop := mkTyped {
  ty_status : q_Status q ∈ [StatusPending; StatusApproved; StatusReplaying; StatusReplayed; StatusReplayFailed; StatusDenied];
  ty_attempts : 0 <= q_Attempts q;
  ty_pending : q_Status q = StatusPending → q_Attempts q = 0 ∧ q_ResolvedAt q = None ∧ q_ResolvedBy q = None ∧ q_Reason q = None;
  ty_resolved : q_Status q ≠ StatusPending → is_Some (q_ResolvedAt q);
  ty_replayed : q_Status q = StatusReplayed → is_Some (q_ReplayedAt q) ∧ 1 <= q_Attempts q;
  ty_unreplayed : q_Status q ≠ StatusReplayed → q_ReplayedAt q = None
}.

Definition table_typed (t : table) : Prop := table_wf t ∧ map_Forall (λ _ q, row_typed q) t.

(** Typing a concrete status: the cases that do not apply close themselves. *)
Ltac type_row := constructor; cbn; try set_solver; try (intros; done); try (intros; split; [eauto|lia]); try eauto; try lia.

Lemma resolve_typed q status now by_ reason a :
  row_typed q → in_status [StatusPending; StatusReplayFailed] q = true → 0 <= a →
  status = StatusApproved ∨ status = StatusDenied →
  row_typed (q_set q status (Some now) by_ reason a (q_ReplayedAt q)).
Proof.
  intros T G A S. apply resolve_guard in G.
  assert (q_ReplayedAt q = None) as R by (apply (ty_unreplayed q T); destruct G as [-> | ->]; done).
  destruct S as [-> | ->]; type_row.
Qed.

Lemma replaying_typed q status delta replayed :
  row_typed q → q_Status q = StatusReplaying →
  (status = StatusReplayed ∧ delta = 1 ∧ is_Some replayed)
  ∨ (status ∈ [StatusApproved; StatusReplayFailed] ∧ 0 <= delta ∧ replayed = q_ReplayedAt q) →
  row_typed (set_status q status (q_Attempts q + delta) replayed).
Proof.
  intros T S K. pose proof (ty_attempts q T) as A.
  assert (is_Some (q_ResolvedAt q)) as Rs by (apply (ty_resolved q T); rewrite S; done).
  assert (q_ReplayedAt q = None) as Rp by (apply (ty_unreplayed q T); rewrite S; done).
  destruct K as [(-> & -> & R)|([-> |[-> |[]%not_elem_of_nil]%elem_of_cons]%elem_of_cons & D & ->)]; type_row.
Qed.

Lemma claim_typed q : row_typed q → q_Status q = StatusApproved → row_typed (claim_row q).
Proof.
  intros T S. pose proof (ty_attempts q T) as A.
  assert (is_Some (q_ResolvedAt q)) as Rs by (apply (ty_resolved q T); rewrite S; done).
  assert (q_ReplayedAt q = None) as Rp by (apply (ty_unreplayed q T); rewrite S; done).
  type_row.
Qed.

(** ** Every operation keeps the shape *)

Lemma update_typed id guard f t :
  (∀ q, row_typed q → guard q = true → row_typed (f q)) →
  map_Forall (λ _ q, row_typed q) t → map_Forall (λ _ q, row_typed q) (update_where id guard f t).2.
Proof.
  intros F T. unfold update_where. destruct (t !! id) as [q|] eqn:L; [|done]. destruct (guard q) eqn:G; [|done].
  apply map_Forall_insert_2; [|done]. apply F; [by eapply T|done].
Qed.

Lemma exec_typed {A} f (r : A * table) t :
  map_Forall (λ _ q, row_typed q) t → map_Forall (λ _ q, row_typed q) r.2 → map_Forall (λ _ q, row_typed q) (exec f r t).2.
Proof. by destruct f. Qed.

Section ops.
Context `{UnicodeTables} `{UuidLib}.
Variable jsonb : string → string.

Lemma transition_typed name stmt f id t :
  (∀ i u, map_Forall (λ _ q, row_typed q) u → map_Forall (λ _ q, row_typed q) (stmt i u).2) →
  map_Forall (λ _ q, row_typed q) t → map_Forall (λ _ q, row_typed q) (transition name stmt f id t).2.
Proof.
  intros S T. unfold transition. destruct (uuid_Parse id) as [qid|]; [|done]. apply exec_typed; [done|by apply S].
Qed.

Lemma apply_op_typed o t : table_typed t → map_Forall (λ _ q, row_typed q) (apply_op jsonb o t).
Proof.
  intros [W T]. destruct o; cbn [apply_op].
  - unfold Create. case_bool_decide; [done|]. apply exec_typed; [done|]. apply map_Forall_insert_2; [|done]. type_row.
  - unfold Approve. destruct (uuid_Parse id); [|done]. apply exec_typed; [done|]. apply update_typed; [|done].
    intros q Tq G. apply resolve_typed; auto. lia.
  - unfold Deny. destruct (uuid_Parse id); [|done]. apply exec_typed; [done|]. apply update_typed; [|done].
    intros q Tq G. apply resolve_typed; auto. by apply ty_attempts.
  - apply exec_typed; [done|]. intros id q. simpl.
    rewrite claim_all_lookup by (done || (intros q' I; by eapply claim_candidates_elem)).
    destruct (t !! id) as [q0|] eqn:L; [|done]. case_bool_decide as I; intros [= <-]; [|by eapply T].
    apply claim_typed; [by eapply T|]. by eapply claim_candidates_elem.
  - apply transition_typed; [|done]. intros i u Tu. apply update_typed; [|done]. intros q Tq G. apply claimed_guard in G.
    apply (replaying_typed q StatusReplayed 1 (Some now)); eauto.
  - apply transition_typed; [|done]. intros i u Tu. apply update_typed; [|done]. intros q Tq G. apply claimed_guard in G.
    rewrite <- (Z.add_0_r (q_Attempts q)). apply replaying_typed; [done|done|]. right. split_and!; [set_solver|lia|done].
  - apply transition_typed; [|done]. intros i u Tu. apply update_typed; [|done]. intros q Tq G. apply claimed_guard in G.
    apply replaying_typed; [done|done|]. right. split_and!; [set_solver|lia|done].
  - apply exec_typed; [done|]. intros id q. simpl. rewrite lookup_fmap. destruct (t !! id) as [q0|] eqn:L; [|done].
    intros [= <-]. unfold recover_row. destruct (in_status [StatusReplaying] q0) eqn:G; [|by eapply T].
    apply claimed_guard in G. apply replaying_typed; [by eapply T|done|]. right. split_and!; [set_solver|lia|done].
Qed.

(** C39: every row any sequence of store operations leaves, whatever fails, is well
    typed: keyed by its id, in one of the six statuses, with a count of attempts that is
    not negative; a pending row has no resolution and no attempts, every other row has the
    time it was resolved, and exactly replayed rows have the time they were replayed. *)
Theorem rows_well_typed (ops : list op) : table_typed (foldl (λ t o, apply_op jsonb o t) ∅ ops).
Proof.
  induction ops as [|o ops IH] using rev_ind; [split; apply map_Forall_empty|].
  rewrite foldl_app. cbn [foldl]. split; [|by apply apply_op_typed].
  eapply moves_wf; [exact (proj1 IH)|]. apply apply_op_moves, (proj1 IH).
Qed.
End ops.
End QTypes.
