(* ===== verification/QLog.v ===== *)
(** * The quarantine table behind a log

    What the calls of a log do to the table of [QStore], statement by statement, each of
    which may fail or lose its acknowledgement, and where its rows come from: the call
    that held them and, once they may run, the call that approved them. *)

From S2P Require Import Prelude GoStrings Types Mcp Effects Interleave QStore.
From stdpp Require Import base tactics strings list gmap.
From Stdlib Require Import ZArith Lia.

Local Open Scope Z_scope.

Import Mcp QStore.

Module QLog.

Section store.
Context `{UnicodeTables} `{UuidLib}.
Variable jsonb : string → string.

(** The answer of the store to a call, and the table it leaves. *)
Definition store_step (t : table) (e : entry) (t' : table) : Prop :=
  match en_event e with
  | Ev (CCreate agent tool payload headers rule explanation) x =>
      ∃ f new_id now, uuid_Parse new_id = Some new_id
        ∧ Create jsonb f new_id now agent tool payload headers rule explanation t = (x, t')
  | Ev (CGet id) x => (∃ fails, x = Get fails id t) ∧ t' = t
  | Ev (CList status) x => (∃ fails, x = List_ fails status t) ∧ t' = t
  | Ev (CApprove id by_) x => ∃ f now, Approve f now id by_ t = (x, t')
  | Ev (CDeny id by_ reason) x => ∃ f now, Deny f now id by_ reason t = (x, t')
  | Ev (CClaim limit) x => ∃ f locked y, ClaimApproved f limit locked t = (y, t') ∧ listed x y
  | Ev (CMarkReplayed id) x => ∃ f now, MarkReplayed now f id t = (x, t')
  | Ev (CMarkReplayFailed id) x => ∃ f, MarkReplayFailed f id t = (x, t')
  | Ev (CReturnToApproved id) x => ∃ f, ReturnToApproved f id t = (x, t')
  | Ev CRecover x => ∃ f, RecoverStuckReplays f t = (x, t')
  | _ => t' = t
  end.
Abbreviation table_after := (after store_step ∅).

(** A status that an approval leads to. *)
Definition live : list string := [StatusApproved; StatusReplaying; StatusReplayed; StatusReplayFailed].

(** The row a held request becomes. *)
Definition held_as (c : cmd) (q : Quarantine) : Prop :=
  match c with
  | CCreate agent tool payload headers rule explanation =>
      q_AgentID q = agent ∧ q_ToolName q = tool ∧ q_Payload q = payload ∧ q_PolicyRule q = rule
      ∧ q_Explanation q = explanation ∧ q_RequestHeaders q = jsonb (marshal_header (CaptureReplayHeaders headers))
  | _ => False
  end.
Definition approved_as (c : cmd) (id : string) (q : Quarantine) : Prop :=
  match c with
  | CApprove id' by_ => uuid_Parse id' = Some id ∧ q_ResolvedBy q = null_string by_
  | _ => False
  end.

Lemma held_as_same c q q' : same_request q q' → held_as c q → held_as c q'.
Proof. unfold same_request. destruct c; simpl; intuition congruence. Qed.

(** What one call can do to one row. *)
Definition row_change (c : cmd) (id : string) (q q' : Quarantine) : Prop :=
  same_request q q'
  ∧ (q' = q ∨ q_Status q' = StatusDenied ∨ approved_as c id q'
     ∨ q_Status q ∈ live ∧ q_ResolvedBy q' = q_ResolvedBy q).

Lemma row_change_refl c id q : row_change c id q q.
Proof. split; [by repeat split|by left]. Qed.

(** Every row of [t'] is new, held by the call, or a row of [t] the call changed. *)
Definition rows_change (c : cmd) (t t' : table) : Prop :=
  ∀ id q', t' !! id = Some q' →
    (t !! id = None ∧ held_as c q' ∧ q_Status q' = StatusPending)
    ∨ ∃ q, t !! id = Some q ∧ row_change c id q q'.

Lemma rows_change_refl c t : rows_change c t t.
Proof. intros id q' L. right. exists q'. split; [done|apply row_change_refl]. Qed.

Lemma exec_change {A} c f (r : A * table) t : rows_change c t r.2 → rows_change c t (exec f r t).2.
Proof. destruct f; simpl; auto using rows_change_refl. Qed.

Lemma update_change c id guard f t :
  (∀ q, guard q = true → row_change c id q (f q)) → rows_change c t (update_where id guard f t).2.
Proof.
  intros G. unfold update_where. destruct (t !! id) as [q|] eqn:L; [|apply rows_change_refl].
  destruct (guard q) eqn:E; [|apply rows_change_refl]. intros i q' L'. right. simpl in L'.
  apply lookup_insert_Some in L' as [[<- <-]|[N L']]; [exists q; auto|]. exists q'. split; [done|apply row_change_refl].
Qed.

Lemma replaying_change c id q status attempts replayed :
  in_status [StatusReplaying] q = true → row_change c id q (set_status q status attempts replayed).
Proof.
  intros S%in_status_true. split; [by repeat split|]. right. right. right. split; [|done]. set_solver.
Qed.

Lemma transition_change c op stmt f id t :
  (∀ qid, rows_change c t (stmt qid t).2) → rows_change c t (transition op stmt f id t).2.
Proof.
  intros G. unfold transition. destruct (uuid_Parse id) as [qid|]; [|apply rows_change_refl]. by apply exec_change.
Qed.

Lemma claim_change c limit locked t : table_wf t → rows_change c t (ClaimApprovedForReplay limit locked t).2.
Proof.
  intros W id q' L. simpl in L. rewrite claim_all_lookup in L by (done || (intros q I; by eapply claim_candidates_elem)).
  destruct (t !! id) as [q|] eqn:E; [|done]. right. exists q. split; [done|].
  case_bool_decide as I; injection L as <-; [|apply row_change_refl].
  apply claim_candidates_elem in I as (_ & S & _); [|done]. split; [by repeat split|].
  right. right. right. split; [rewrite S; set_solver|done].
Qed.

Lemma recover_change c t : rows_change c t (RecoverStuckReplays_sql t).2.
Proof.
  intros id q' L. simpl in L. rewrite lookup_fmap in L. destruct (t !! id) as [q|] eqn:E; [|done]. injection L as <-.
  right. exists q. split; [done|]. unfold recover_row. destruct (in_status [StatusReplaying] q) eqn:S; [|apply row_change_refl].
  by apply replaying_change.
Qed.

(** The table an operation leaves. *)
Ltac leaves E := apply (f_equal snd) in E; cbn [snd] in E; subst.

(** What a call does to the table is an operation of the store, or nothing. *)
Lemma store_step_op t e t' : store_step t e t' → t' = t ∨ ∃ o, t' = apply_op jsonb o t.
Proof.
  unfold store_step. destruct (en_event e) as [c x]. destruct c; try (intros ->; by left);
    try (intros [_ ->]; by left).
  - intros (f & i & now & _ & E). leaves E.
    right. by exists (OCreate f i now agentID toolName payload headers rule explanation).
  - intros (f & now & E). leaves E. right. by exists (OApprove f now id approvedBy).
  - intros (f & now & E). leaves E. right. by exists (ODeny f now id deniedBy reason).
  - intros (f & locked & y & E & _). leaves E. right. by exists (OClaim f limit locked).
  - intros (f & now & E). leaves E. right. by exists (OReplayed f now id).
  - intros (f & E). leaves E. right. by exists (OFailed f id).
  - intros (f & E). leaves E. right. by exists (OReturn f id).
  - intros (f & E). leaves E. right. by exists (ORecover f).
Qed.

Lemma store_step_change t e t' : table_wf t → store_step t e t' → rows_change (ev_cmd (en_event e)) t t'.
Proof.
  intros W. unfold store_step. destruct (en_event e) as [c x]. cbn [ev_cmd].
  destruct c; try (intros ->; apply rows_change_refl); try (intros [_ ->]; apply rows_change_refl).
  - intros (f & i & now & _ & E). leaves E. unfold Create. case_bool_decide as N; [apply rows_change_refl|].
    apply exec_change. intros id q' L. unfold CreateQuarantineEntry in L. simpl in L.
    apply lookup_insert_Some in L as [[<- <-]|[_ L]]; [left|right; exists q'; split; [done|apply row_change_refl]].
    apply eq_None_not_Some in N. by split_and!.
  - intros (f & now & E). leaves E. unfold Approve.
    destruct (uuid_Parse id) as [qid|] eqn:P; [|apply rows_change_refl]. apply exec_change, update_change. intros q _.
    split; [by repeat split|]. right. right. left. done.
  - intros (f & now & E). leaves E. unfold Deny.
    destruct (uuid_Parse id) as [qid|] eqn:P; [|apply rows_change_refl]. apply exec_change, update_change. intros q _.
    split; [by repeat split|]. right. by left.
  - intros (f & locked & y & E & _). leaves E. by apply exec_change, claim_change.
  - intros (f & now & E). leaves E. apply transition_change. intros qid. apply update_change.
    intros q. apply replaying_change.
  - intros (f & E). leaves E. apply transition_change. intros qid. apply update_change.
    intros q. apply replaying_change.
  - intros (f & E). leaves E. apply transition_change. intros qid. apply update_change.
    intros q. apply replaying_change.
  - intros (f & E). leaves E. apply exec_change, recover_change.
Qed.

(** Where a row comes from: the call that held it and, if it may run or has run, the
    approval it carries, which came later. *)
Definition row_origin (log : list entry) (id : string) (q : Quarantine) : Prop :=
  ∃ l0 c l1, log = l0 ++ c :: l1 ∧ held_as (ev_cmd (en_event c)) q
    ∧ (q_Status q ∈ live → ∃ l2 a l3, l1 = l2 ++ a :: l3 ∧ approved_as (ev_cmd (en_event a)) id q).

Lemma not_live s : s = StatusPending ∨ s = StatusDenied → s ∉ live.
Proof. intros [-> | ->]; apply (bool_decide_eq_false _); vm_compute; reflexivity. Qed.

Lemma approved_as_same c id q q' : q_ResolvedBy q' = q_ResolvedBy q → approved_as c id q → approved_as c id q'.
Proof. destruct c; simpl; try done. intros -> [? ?]. done. Qed.

Lemma origin_snoc log e id q q' :
  row_change (ev_cmd (en_event e)) id q q' → row_origin log id q → row_origin (log ++ [e]) id q'.
Proof.
  intros [S K] (l0 & c & l1 & -> & C & A). exists l0, c, (l1 ++ [e]). split; [by rewrite <- app_assoc|].
  split; [by eapply held_as_same|]. intros V.
  assert (q_Status q ∈ live → q_ResolvedBy q' = q_ResolvedBy q →
    ∃ l2 a l3, l1 ++ [e] = l2 ++ a :: l3 ∧ approved_as (ev_cmd (en_event a)) id q') as Keep.
  { intros V' R. destruct (A V') as (l2 & a & l3 & -> & Ap). exists l2, a, (l3 ++ [e]).
    split; [by rewrite <- app_assoc|by eapply approved_as_same]. }
  destruct K as [-> |[D|[Ap|[V' R]]]]; [by apply Keep| | |by apply Keep].
  - exfalso. by apply (not_live (q_Status q')); [right|].
  - by exists l1, e, [].
Qed.

Lemma table_origins log t : table_after log t → table_wf t ∧ ∀ id q, t !! id = Some q → row_origin log id q.
Proof.
  intros F. induction F as [|log t e t' F [W IH] S]; [split; [apply map_Forall_empty|done]|]. split.
  - destruct (store_step_op _ _ _ S) as [-> |[o ->]]; [done|]. eapply moves_wf; [done|by apply apply_op_moves].
  - intros id q' L. destruct (store_step_change _ _ _ W S _ _ L) as [(_ & C & P)|(q & L0 & K)].
    + exists log, e, []. split_and!; [done|done|]. intros V. exfalso. by apply (not_live (q_Status q')); [left|].
    + by eapply origin_snoc; [|apply IH].
Qed.

(** A claimed item: held by one call, approved by a later one, as it is now claimed. *)
Lemma claimed_traced log t l1 e l2 limit es item :
  table_after log t → log = l1 ++ e :: l2 → en_event e = Ev (CClaim limit) (Ok es) → item ∈ es →
  ∃ l0 c l3 a l4 tool headers rule explanation id by_ x y,
    l1 = l0 ++ c :: l3 ++ a :: l4
    ∧ en_event c = Ev (CCreate (qe_AgentID item) tool (qe_Payload item) headers rule explanation) x
    ∧ qe_RequestHeaders item = jsonb (marshal_header (CaptureReplayHeaders headers))
    ∧ en_event a = Ev (CApprove id by_) y ∧ uuid_Parse id = Some (qe_ID item) ∧ qe_ResolvedBy item = by_
    ∧ qe_Status item = StatusReplaying.
Proof.
  intros F -> E J. destruct (after_split _ _ _ _ _ _ F) as (t1 & t2 & F1 & S). destruct (table_origins _ _ F1) as [W O].
  unfold store_step in S. rewrite E in S. destruct S as (f & locked & es' & S & Pm). unfold ClaimApproved in S.
  destruct f; simpl in S; injection S as <- _; try done. cbn in Pm. rewrite Pm in J.
  apply list_elem_of_fmap in J as (q' & -> & J). apply list_elem_of_fmap in J as (q & -> & J).
  apply claim_candidates_elem in J as (L & St & _); [|done].
  destruct (O _ _ L) as (l0 & c & l3 & -> & C & A). destruct A as (l4 & a & l5 & -> & A); [rewrite St; set_solver|].
  destruct (en_event c) as [cc x] eqn:Ec. destruct cc; try done. cbn in C. destruct C as (<- & _ & <- & _ & _ & Hh).
  destruct (en_event a) as [ac y] eqn:Ea. destruct ac; try done. cbn in A. destruct A as [P R].
  exists l0, c, l4, a, l5. do 8 eexists. split_and!; try done.
  cbn. rewrite R. unfold null_string. by destruct (String.eqb_spec approvedBy "") as [-> |].
Qed.
End store.
Abbreviation table_after jsonb := (after (store_step jsonb) ∅).
End QLog.
