(* ===== verification/Notify.v ===== *)
(** * Held-action notifications

    [internal/notify/notify.go] over the queries of [internal/db/notify.sql.go]: the
    Slack and webhook channels, the outbox table, and the worker that drains it, as
    programs over the outbox, the quarantine table, the clock and the endpoints.
    [NotifySys] runs a pass of the worker; [NotifyConc] interleaves any number of them. *)

From S2P Require Import Prelude GoStrings GoTime Sha256 Types GoJsonEnc Effects QStore.
From stdpp Require Import base tactics strings list gmap pretty sorting.
From Stdlib Require Import ZArith Lia Ascii.

Local Open Scope Z_scope.

Module Notify.

Record HeldAction : Type := mkHeld {
  ha_ID : string;
  ha_Agent : string;
  ha_Tool : string;
  ha_Rule : string;
  ha_Explanation : string;
  ha_HeldAt : Z;
  ha_ReviewURL : string
}.

(** The [Channel] interface. *)
Record Channel : Type := mkChannel {
  ch_Name : string;
  ch_Send : HeldAction → prog (option error)
}.

(** [post]: an [Err] answer is a URL that does not parse or a failed exchange; a
    redirect is an answer like any other. *)
Definition post (url body : string) (headers : list (string * string)) : prog (option error) :=
  let h := foldl (λ h kv, header_set kv.1 kv.2 h)
             (header_set "User-Agent" "Elodea-Notifier/1" (header_set "Content-Type" "application/json" ∅))
             headers in
  answered ← call (CPost url body h);
  match (answered : result Z) with
  | Err err => mret (Some err)
  | Ok status =>
      if (status <? 200) || (299 <? status)
      then mret (Some (errors_New ("endpoint answered " +:+ pretty status)))
      else mret None
  end.

(** ** The Slack channel *)

(** [slackEscape] *)
Definition escape_byte (c : ascii) : string :=
  if byte_val c =? 38 then "&amp;" else if byte_val c =? 60 then "&lt;" else if byte_val c =? 62 then "&gt;"
  else String c "".
Fixpoint slackEscape (s : string) : string :=
  match s with
  | EmptyString => ""
  | String c s' => escape_byte c +:+ slackEscape s'
  end.

Definition nl : string := String (byte_of 10) "".

Definition slack_text (kind text : string) : any := go_map [("type", AString kind); ("text", AString text)].
Definition slack_section (text : string) : any :=
  go_map [("type", AString "section"); ("text", slack_text "mrkdwn" text)].

Definition slack_summary (a : HeldAction) : string :=
  slackEscape (ha_Agent a) +:+ " wants to run " +:+ slackEscape (ha_Tool a) +:+ ". Held by "
  +:+ slackEscape (ha_Rule a) +:+ ".".
Definition slack_fields (a : HeldAction) : string :=
  "*Agent*" +:+ nl +:+ slackEscape (ha_Agent a) +:+ nl +:+ "*Tool*" +:+ nl +:+ "`" +:+ slackEscape (ha_Tool a)
  +:+ "`" +:+ nl +:+ "*Rule*" +:+ nl +:+ "`" +:+ slackEscape (ha_Rule a) +:+ "`".
Definition slack_held (a : HeldAction) : string :=
  "Held " +:+ GoTime.format_minute (ha_HeldAt a) +:+ " · " +:+ ha_ID a.

Definition slack_blocks (a : HeldAction) : list any :=
  [slack_section ":hourglass: *An agent action is waiting for review*"; slack_section (slack_fields a)]
  ++ (if String.eqb (ha_Explanation a) "" then [] else [slack_section (slackEscape (ha_Explanation a))])
  ++ (if String.eqb (ha_ReviewURL a) "" then []
      else [go_map [("type", AString "actions");
                    ("elements", AArray [go_map [("type", AString "button"); ("style", AString "primary");
                                                 ("url", AString (ha_ReviewURL a));
                                                 ("text", slack_text "plain_text" "Review in Elodea")]])]])
  ++ [go_map [("type", AString "context"); ("elements", AArray [slack_text "mrkdwn" (slack_held a)])]].

Definition slack_body (a : HeldAction) : string :=
  json_text (go_map [("text", AString (slack_summary a)); ("blocks", AArray (slack_blocks a))]).

(** [NewSlack] and [Slack.Send] *)
Definition NewSlack (webhookURL : string) : Channel :=
  mkChannel "slack" (λ a, post webhookURL (slack_body a) []).

(** ** The webhook channel *)

Definition EventHeld : string := "action.held".

(** [Sign] *)
Definition Sign (secret timestamp body : string) : string :=
  "sha256=" +:+ hex_encode (Sha256.hmac256 secret (timestamp +:+ "." +:+ body)).

Section webhook.
(** [Time.MarshalJSON], without the quotes, in the location the driver gives the
    timestamp; it fails on a year of more than four digits. *)
Variable time_json : Z → result string.

Definition webhook_body (a : HeldAction) : result string :=
  rbind (time_json (ha_HeldAt a)) (λ held,
    Ok (json_text (AObject
      [("type", AString EventHeld);
       ("action", AObject
          ([("id", AString (ha_ID a)); ("agent", AString (ha_Agent a)); ("tool", AString (ha_Tool a));
            ("rule", AString (ha_Rule a)); ("explanation", AString (ha_Explanation a));
            ("held_at", AString held)]
           ++ (if String.eqb (ha_ReviewURL a) "" then [] else [("review_url", AString (ha_ReviewURL a))])))]))).

Definition webhook_headers (secret ts body : string) (a : HeldAction) : list (string * string) :=
  [("X-Elodea-Event", EventHeld); ("X-Elodea-Delivery", ha_ID a); ("X-Elodea-Timestamp", ts)]
  ++ (if 0 <? strlen secret then [("X-Elodea-Signature", Sign secret ts body)] else []).

(** [NewWebhook] and [Webhook.Send] *)
Definition NewWebhook (url secret : string) : Channel :=
  mkChannel "webhook" (λ a,
    match webhook_body a with
    | Err err => mret (Some err)
    | Ok body =>
        now ← call CNow;
        let ts := pretty ((now : Z) / GoTime.second) in
        post url body (webhook_headers secret ts body a)
    end).
End webhook.

(** ** The worker *)

Definition maxAttempts : Z := 8.
Definition batchSize : Z := 25.

Record Worker : Type := mkWorker {
  wk_channels : gmap string Channel;
  wk_names : list string;
  wk_consoleURL : string
}.

(** [NewWorker] *)
Definition NewWorker (channels : list Channel) (consoleURL : string) : Worker :=
  foldl (λ w c, mkWorker (<[ch_Name c := c]> (wk_channels w)) (wk_names w ++ [ch_Name c]) (wk_consoleURL w))
    (mkWorker ∅ [] (trim_right_set is_slash consoleURL)) channels.

(** [backoff] *)
Definition backoff (attempts : Z) : Z :=
  let d := wrap64 (Z.shiftl (15 * GoTime.second) (Z.max (wrap32 (attempts - 1)) 0)) in
  Z.min d GoTime.hour.

(** [truncate] *)
Definition truncate (s : string) (n : nat) : string :=
  if (String.length s <=? n)%nat then s else take_str n s.

Section worker.
Context `{UuidLib}.
Variable w : Worker.

(** [Worker.markDelivered]: an error is logged. *)
Definition markDelivered (id channel : string) : prog unit :=
  _ ← call (CMarkDelivered id channel); mret tt.

(** [Worker.fail] *)
Definition fail (id channel : string) (attempts : Z) (cause : error) : prog unit :=
  now ← call CNow;
  _ ← call (CMarkFailed ((now : Z) + backoff attempts) (truncate (err_text cause) 500) id channel);
  mret tt.

(** The notification of a held action. *)
Definition held_action (id : string) (entry : Quarantine) : HeldAction :=
  mkHeld id (q_AgentID entry) (q_ToolName entry) (q_PolicyRule entry) (q_Explanation entry) (q_CreatedAt entry)
    (if String.eqb (wk_consoleURL w) "" then "" else wk_consoleURL w +:+ "/#inbox").

(** [Worker.deliver] *)
Definition deliver (row : ClaimDueNotificationsRow) : prog unit :=
  match uuid_Parse (cd_QuarantineID row) with
  | None => mret tt
  | Some id =>
      match wk_channels w !! cd_Channel row with
      | None => markDelivered id (cd_Channel row)
      | Some channel =>
          read ← call (CGetRow id);
          match (read : result Quarantine) with
          | Err err => fail id (cd_Channel row) (cd_Attempts row) (errorf_w "read held action" err)
          | Ok entry =>
              if negb (String.eqb (q_Status entry) "pending") then markDelivered id (cd_Channel row)
              else
                sent ← ch_Send channel (held_action (cd_QuarantineID row) entry);
                match sent with
                | Some err => fail id (cd_Channel row) (cd_Attempts row) err
                | None => markDelivered id (cd_Channel row)
                end
          end
      end
  end.

Fixpoint deliver_all (rows : list ClaimDueNotificationsRow) : prog unit :=
  match rows with
  | [] => mret tt
  | row :: rest => _ ← deliver row; deliver_all rest
  end.

(** [Worker.ProcessOnce] *)
Definition ProcessOnce : prog unit :=
  match wk_names w with
  | [] => mret tt
  | names =>
      queued ← call (CEnqueueHeld names);
      match (queued : option error) with
      | Some _ => mret tt
      | None =>
          due ← call (CClaimDue maxAttempts batchSize);
          match (due : result (list ClaimDueNotificationsRow)) with
          | Err _ => mret tt
          | Ok rows => deliver_all rows
          end
      end
  end.

(** [Worker.Run] for the ticks that fire before the context ends. *)
Fixpoint Run (ticks : nat) : prog unit :=
  match ticks with
  | O => ProcessOnce
  | S n => _ ← Run n; ProcessOnce
  end.
End worker.

(** ** The statements of [notify.sql.go] *)

(** The outbox by its primary key, the held action's id and the channel. *)
Abbreviation outbox := (gmap (string * string) NotificationOutbox).

Definition set_delivery (r : NotificationOutbox) (attempts next : Z) : NotificationOutbox :=
  mkOutbox (ob_CreatedAt r) attempts next (ob_DeliveredAt r) (ob_LastError r).

(** The keys [SELECT q.id, ch] yields. *)
Definition pending_ids (q : QStore.table) : list string :=
  map fst (map_to_list (filter (λ e, q_Status e.2 = "pending") q)).
Definition held_keys (channels : list string) (q : QStore.table) : list (string * string) :=
  concat (map (λ id, map (pair id) channels) (pending_ids q)).

(** [EnqueueHeldNotifications]; [ON CONFLICT DO NOTHING] keeps the rows there are. *)
Definition EnqueueHeldNotifications (channels : list string) (now : Z) (q : QStore.table) (o : outbox) : outbox :=
  o ∪ list_to_map (map (λ k, (k, mkOutbox now 0 now None "")) (held_keys channels q)).

Definition is_due (max now : Z) (r : NotificationOutbox) : bool :=
  bool_decide (ob_DeliveredAt r = None) && (ob_Attempts r <? max) && (ob_NextAttemptAt r <=? now).

Definition created_le (a b : (string * string) * NotificationOutbox) : Prop := ob_CreatedAt a.2 <= ob_CreatedAt b.2.
#[export] Instance created_le_dec a b : Decision (created_le a b).
Proof. unfold created_le. apply _. Defined.

(** The rows a claim takes.  [ORDER BY created_at] leaves the order of rows created at
    the same time open: it is the order of [scan], the table as it is read.
    [FOR UPDATE SKIP LOCKED]: [locked] are the rows another transaction holds. *)
Definition due_rows (max batch now : Z) (locked : gset (string * string))
    (scan : list ((string * string) * NotificationOutbox)) : list ((string * string) * NotificationOutbox) :=
  take (Z.to_nat batch)
    (merge_sort created_le (List.filter (λ e, is_due max now e.2 && negb (bool_decide (e.1 ∈ locked))) scan)).

Definition lease : Z := 2 * GoTime.minute.
Definition lease_row (now : Z) (r : NotificationOutbox) : NotificationOutbox :=
  set_delivery r (ob_Attempts r + 1) (now + lease).

(** [ClaimDueNotifications] *)
Definition ClaimDueNotifications (max batch now : Z) (locked : gset (string * string))
    (scan : list ((string * string) * NotificationOutbox)) (o : outbox) : list ClaimDueNotificationsRow * outbox :=
  let due := due_rows max batch now locked scan in
  (map (λ e, mkDueRow e.1.1 e.1.2 (ob_Attempts e.2 + 1)) due,
   foldl (λ o e, <[e.1 := lease_row now e.2]> o) o due).

(** [MarkNotificationDelivered] *)
Definition delivered_row (now : Z) (r : NotificationOutbox) : NotificationOutbox :=
  mkOutbox (ob_CreatedAt r) (ob_Attempts r) (ob_NextAttemptAt r) (Some now) "".
Definition MarkNotificationDelivered (now : Z) (id channel : string) : outbox → outbox :=
  alter (delivered_row now) (id, channel).

(** [MarkNotificationFailed] *)
Definition failed_row (next : Z) (lastError : string) (r : NotificationOutbox) : NotificationOutbox :=
  mkOutbox (ob_CreatedAt r) (ob_Attempts r) next (ob_DeliveredAt r) lastError.
Definition MarkNotificationFailed (next : Z) (lastError id channel : string) : outbox → outbox :=
  alter (failed_row next lastError) (id, channel).

(** What a claim leaves behind. *)
Lemma lease_lookup (now : Z) (due : list ((string * string) * NotificationOutbox)) (o : outbox) k :
  (∀ k r, (k, r) ∈ due → o !! k = Some r) →
  foldl (λ o e, <[e.1 := lease_row now e.2]> o) o due !! k
  = if bool_decide (k ∈ due.*1) then lease_row now <$> o !! k else o !! k.
Proof.
  induction due as [|[k' r'] due IH] using rev_ind; intros D; [done|].
  rewrite foldl_app, fmap_app. cbn [foldl fst snd]. destruct (decide (k = k')) as [->|N].
  - rewrite lookup_insert_eq, bool_decide_true by set_solver. by rewrite (D k' r') by set_solver.
  - rewrite lookup_insert_ne by done. rewrite IH by (intros; apply D; set_solver).
    assert (k ∈ due.*1 ++ [(k', r')].*1 ↔ k ∈ due.*1) as E by set_solver. by rewrite (bool_decide_ext _ _ E).
Qed.

(** ** The bound on retries *)

(** [backoff] doubles from 15 s without overflow for every attempt the worker makes. *)
Lemma backoff_attempts a : 1 <= a <= maxAttempts → backoff a = 15 * GoTime.second * 2 ^ (a - 1).
Proof.
  unfold maxAttempts. intros B.
  assert (a = 1 ∨ a = 2 ∨ a = 3 ∨ a = 4 ∨ a = 5 ∨ a = 6 ∨ a = 7 ∨ a = 8) as C by lia.
  by repeat destruct C as [-> |C]; [..|subst]; vm_compute.
Qed.

(** The waits between the eight attempts add up to 31 min 45 s. *)
Example backoff_total : foldr Z.add 0 (map (λ a, backoff a) [1; 2; 3; 4; 5; 6; 7]) = 1905 * GoTime.second.
Proof. reflexivity. Qed.

(** ** Slack text is inert *)

Lemma bytes_all_app p s t : bytes_all p (s +:+ t) = bytes_all p s && bytes_all p t.
Proof. induction s as [|c s IH]; [done|]. rewrite app_str_cons. simpl. rewrite IH. by rewrite andb_assoc. Qed.

(** No angle bracket survives [slackEscape], so no link or mention can be written. *)
Lemma slackEscape_inert s :
  bytes_all (λ c, negb ((byte_val c =? 60) || (byte_val c =? 62))) (slackEscape s) = true.
Proof.
  induction s as [|c s IH]; [done|]. simpl. rewrite bytes_all_app, IH, andb_true_r. unfold escape_byte.
  destruct (Z.eqb_spec (byte_val c) 38); [done|]. destruct (Z.eqb_spec (byte_val c) 60) as [|N]; [done|].
  destruct (Z.eqb_spec (byte_val c) 62) as [|M]; [done|]. simpl.
  rewrite (proj2 (Z.eqb_neq _ _) N), (proj2 (Z.eqb_neq _ _) M). done.
Qed.

End Notify.
