(* ===== verification/NotifySys.v ===== *)
(** * A pass of the notification worker

    What [Notify.ProcessOnce] achieves against a healthy database and channels that
    work: the run is evaluated statement by statement against the tables. *)

From S2P Require Import Prelude GoStrings GoTime Types Effects QStore Notify.
From stdpp Require Import base tactics strings list gmap sorting.
From Stdlib Require Import ZArith Lia.

Local Open Scope Z_scope.

Import Notify.

Module NotifySys.

(** ** A healthy pass *)

Record db_state : Type := mkDb { db_quarantine : QStore.table; db_outbox : outbox }.

Section pass.
Context `{UuidLib}.
(** The time of the pass, and what the endpoints answer. *)
Variable now : Z.
Variable endpoint : string → string → Header → result Z.

Definition pass_env (c : cmd) (s : db_state) : ans c * db_state :=
  match c return ans c * db_state with
  | CNow => (now, s)
  | CPost url body h => (endpoint url body h, s)
  | CGetRow id => (QStore.GetQuarantineEntry id (db_quarantine s), s)
  | CEnqueueHeld channels =>
      (None, mkDb (db_quarantine s) (EnqueueHeldNotifications channels now (db_quarantine s) (db_outbox s)))
  | CClaimDue max batch =>
      let '(rows, o) := ClaimDueNotifications max batch now ∅ (map_to_list (db_outbox s)) (db_outbox s) in
      (Ok rows, mkDb (db_quarantine s) o)
  | CMarkDelivered id channel =>
      (None, mkDb (db_quarantine s) (MarkNotificationDelivered now id channel (db_outbox s)))
  | CMarkFailed next err id channel =>
      (None, mkDb (db_quarantine s) (MarkNotificationFailed next err id channel (db_outbox s)))
  | c => (quiet_answer c, s)
  end.

Definition final {A} (p : prog A) (s : db_state) : db_state := (run pass_env p s).2.
Definition value {A} (p : prog A) (s : db_state) : A := (run pass_env p s).1.2.

Lemma final_bind {A B} (p : prog A) (f : A → prog B) s : final (p ≫= f) s = final (f (value p s)) (final p s).
Proof.
  unfold final, value. rewrite run_bind. destruct (run pass_env p s) as [[tr a] s']. simpl.
  by destruct (run pass_env (f a) s') as [[? ?] ?].
Qed.

Lemma pass_call {B} c (f : ans c → prog B) s :
  value (call c ≫= f) s = value (f (pass_env c s).1) (pass_env c s).2
  ∧ final (call c ≫= f) s = final (f (pass_env c s).1) (pass_env c s).2.
Proof.
  unfold value, final, call. cbn. destruct (pass_env c s) as [x s']. simpl.
  by destruct (run pass_env (f x) s') as [[? ?] ?].
Qed.
Lemma final_call {B} c (f : ans c → prog B) s :
  final (call c ≫= f) s = final (f (pass_env c s).1) (pass_env c s).2.
Proof. apply pass_call. Qed.
Lemma value_call {B} c (f : ans c → prog B) s :
  value (call c ≫= f) s = value (f (pass_env c s).1) (pass_env c s).2.
Proof. apply pass_call. Qed.

(** The calls of a run; [made p s]: a run that starts in [s] makes all the calls of one of [p]. *)
Definition trace {A} (p : prog A) (s : db_state) : list event := (run pass_env p s).1.1.
Lemma trace_bind {A B} (p : prog A) (f : A → prog B) s :
  trace (p ≫= f) s = trace p s ++ trace (f (value p s)) (final p s).
Proof.
  unfold trace, final, value. rewrite run_bind. destruct (run pass_env p s) as [[tr a] s']. simpl.
  by destruct (run pass_env (f a) s') as [[? ?] ?].
Qed.

Definition makes {A B} (p : prog A) (s : db_state) (sub : prog B) : Prop :=
  ∃ s' pre post, trace p s = pre ++ trace sub s' ++ post.

Lemma makes_refl {A} (p : prog A) s : makes p s p.
Proof. exists s, [], []. by rewrite app_nil_r. Qed.
Lemma makes_l {A B C} (p : prog A) (f : A → prog B) s (sub : prog C) : makes p s sub → makes (p ≫= f) s sub.
Proof.
  intros (s' & pre & post & E). eexists s', pre, _. rewrite trace_bind, E. by rewrite <- !app_assoc.
Qed.
Lemma makes_r {A B C} (p : prog A) (f : A → prog B) s (sub : prog C) :
  makes (f (value p s)) (final p s) sub → makes (p ≫= f) s sub.
Proof.
  intros (s' & pre & post & E). exists s', (trace p s ++ pre), post. rewrite trace_bind, E. by rewrite <- !app_assoc.
Qed.

(** A channel that works: [Send] reports no error and leaves the database alone. *)
Definition channel_works (c : Channel) : Prop := ∀ a s, value (ch_Send c a) s = None ∧ final (ch_Send c a) s = s.

(** Endpoints that accept everything make the two channels work. *)
Definition accepting : Prop := ∀ url body h, ∃ status, endpoint url body h = Ok status ∧ 200 <= status <= 299.

Lemma post_works url body hs s : accepting → value (post url body hs) s = None ∧ final (post url body hs) s = s.
Proof.
  intros A. unfold post. rewrite (value_call (CPost _ _ _)), (final_call (CPost _ _ _)). cbn [pass_env fst snd]. edestruct A as (st & -> & B).
  destruct (Z.ltb_spec st 200); [lia|]. by destruct (Z.ltb_spec 299 st); [lia|].
Qed.

Lemma NewSlack_works url : accepting → channel_works (NewSlack url).
Proof. intros A a s. by apply post_works. Qed.

Lemma NewWebhook_works time_json url secret :
  accepting → (∀ t, is_ok (time_json t) = true) → channel_works (NewWebhook time_json url secret).
Proof.
  intros A T a s. unfold NewWebhook, webhook_body. cbn [ch_Send]. specialize (T (ha_HeldAt a)).
  destruct (time_json (ha_HeldAt a)) as [held|]; [|done]. cbn [rbind].
  rewrite (value_call CNow), (final_call CNow). by apply post_works.
Qed.

(** Foreign keys and the type of the id column. *)
Definition outbox_wf (s : db_state) : Prop :=
  ∀ k r, db_outbox s !! k = Some r → is_Some (db_quarantine s !! k.1) ∧ uuid_Parse k.1 = Some k.1.

Variable w : Worker.
Hypothesis works : map_Forall (λ _ c, channel_works c) (wk_channels w).

(** Delivering a row marks it, whether it is sent, no longer pending, or for a channel
    that is not configured any more. *)
Lemma deliver_works id channel attempts s :
  uuid_Parse id = Some id → is_Some (db_quarantine s !! id) →
  final (deliver w (mkDueRow id channel attempts)) s
  = mkDb (db_quarantine s) (MarkNotificationDelivered now id channel (db_outbox s)).
Proof.
  intros P [q Q]. unfold deliver. cbn [cd_QuarantineID cd_Channel cd_Attempts]. rewrite P.
  assert (∀ s', final (markDelivered id channel) s'
                = mkDb (db_quarantine s') (MarkNotificationDelivered now id channel (db_outbox s'))) as M by done.
  destruct (wk_channels w !! channel) as [c|] eqn:C; [|apply M].
  rewrite (final_call (CGetRow _)). cbn [pass_env fst snd]. unfold QStore.GetQuarantineEntry. rewrite Q. destruct (negb _); [apply M|].
  rewrite final_bind. destruct (works channel c C (held_action w id q) s) as [-> ->]. apply M.
Qed.

(** A pending item is sent on the row's channel. *)
Lemma deliver_sends id channel attempts s q c :
  uuid_Parse id = Some id → db_quarantine s !! id = Some q → q_Status q = "pending" →
  wk_channels w !! channel = Some c →
  makes (deliver w (mkDueRow id channel attempts)) s (ch_Send c (held_action w id q)).
Proof.
  intros P Q S C. unfold deliver. cbn [cd_QuarantineID cd_Channel cd_Attempts]. rewrite P, C.
  apply (makes_r (call (CGetRow id))). cbn. unfold QStore.GetQuarantineEntry. rewrite Q. rewrite S. cbn.
  apply makes_l, makes_refl.
Qed.

Fixpoint mark_keys (keys : list (string * string)) (o : outbox) : outbox :=
  match keys with
  | [] => o
  | k :: keys' => mark_keys keys' (MarkNotificationDelivered now k.1 k.2 o)
  end.

Lemma mark_keys_lookup keys o k :
  mark_keys keys o !! k = if bool_decide (k ∈ keys) then delivered_row now <$> o !! k else o !! k.
Proof.
  revert o. induction keys as [|k' keys IH]; intros o; [done|]. cbn [mark_keys].
  rewrite IH. unfold MarkNotificationDelivered. rewrite <- (surjective_pairing k').
  destruct (decide (k = k')) as [->|N].
  - rewrite lookup_alter_eq, (bool_decide_true (k' ∈ k' :: keys)) by set_solver.
    case_bool_decide; [|done]. by destruct (o !! k').
  - rewrite lookup_alter_ne by done. assert (k ∈ k' :: keys ↔ k ∈ keys) as E by set_solver.
    by rewrite (bool_decide_ext _ _ E).
Qed.

Lemma deliver_all_works rows s :
  (∀ row, row ∈ rows → uuid_Parse (cd_QuarantineID row) = Some (cd_QuarantineID row)
                       ∧ is_Some (db_quarantine s !! cd_QuarantineID row)) →
  final (deliver_all w rows) s
  = mkDb (db_quarantine s) (mark_keys (map (λ row, (cd_QuarantineID row, cd_Channel row)) rows) (db_outbox s)).
Proof.
  revert s. induction rows as [|row rows IH]; intros s P; [by destruct s|]. cbn [deliver_all].
  rewrite final_bind. destruct (P row ltac:(by left)) as [P1 P2]. destruct row as [id ch at_]. simpl in P1, P2.
  rewrite (deliver_works id ch at_ s P1 P2), IH; [done|]. intros row I. apply P. by right.
Qed.

Definition due_now (o : outbox) : list ((string * string) * NotificationOutbox) :=
  filter (λ e, is_due maxAttempts now e.2 = true) (map_to_list o).

(** A claim takes every due row when no more than a batch is due. *)
Lemma due_rows_all o k r :
  (length (due_now o) ≤ Z.to_nat batchSize)%nat →
  (k, r) ∈ due_rows maxAttempts batchSize now ∅ (map_to_list o)
  ↔ o !! k = Some r ∧ is_due maxAttempts now r = true.
Proof.
  intros L.
  assert (due_rows maxAttempts batchSize now ∅ (map_to_list o)
          = take (Z.to_nat batchSize) (merge_sort created_le (due_now o))) as ->.
  { unfold due_rows, due_now. do 2 f_equal. generalize (map_to_list o). clear. intros l.
    induction l as [|[k r] l IH]; [done|]. cbn [List.filter]. rewrite IH, bool_decide_false by set_solver.
    simpl. rewrite andb_true_r.
    destruct (is_due _ _ r) eqn:D; [rewrite filter_cons_True by done|rewrite filter_cons_False by (simpl; congruence)];
      done. }
  rewrite take_ge.
  - rewrite (merge_sort_Permutation created_le). unfold due_now. rewrite list_elem_of_filter, elem_of_map_to_list.
    simpl. tauto.
  - by rewrite (Permutation_length (merge_sort_Permutation created_le _)).
Qed.

Lemma deliver_all_sends rows s row q c :
  (∀ row, row ∈ rows → uuid_Parse (cd_QuarantineID row) = Some (cd_QuarantineID row)
                       ∧ is_Some (db_quarantine s !! cd_QuarantineID row)) →
  row ∈ rows → db_quarantine s !! cd_QuarantineID row = Some q → q_Status q = "pending" →
  wk_channels w !! cd_Channel row = Some c →
  makes (deliver_all w rows) s (ch_Send c (held_action w (cd_QuarantineID row) q)).
Proof.
  revert s. induction rows as [|row' rows IH]; intros s P I Q S C; [by apply not_elem_of_nil in I|].
  cbn [deliver_all]. destruct (P row' ltac:(by left)) as [P1 P2]. apply elem_of_cons in I as [->|I].
  - apply makes_l. destruct row' as [id ch at_]. by apply deliver_sends.
  - apply makes_r. destruct row' as [id ch at_]. rewrite deliver_works by done.
    apply IH; try done. intros r R. apply P. by right.
Qed.

(** ** The pass *)

Definition enqueued (s : db_state) : outbox :=
  EnqueueHeldNotifications (wk_names w) now (db_quarantine s) (db_outbox s).
Definition claimed (s : db_state) : list ((string * string) * NotificationOutbox) :=
  due_rows maxAttempts batchSize now ∅ (map_to_list (enqueued s)).

Lemma ProcessOnce_parts s :
  wk_names w ≠ [] →
  let s1 := mkDb (db_quarantine s) (foldl (λ o e, <[e.1 := lease_row now e.2]> o) (enqueued s) (claimed s)) in
  let rows := map (λ e, mkDueRow e.1.1 e.1.2 (ob_Attempts e.2 + 1)) (claimed s) in
  final (ProcessOnce w) s = final (deliver_all w rows) s1
  ∧ ∀ B (sub : prog B), makes (deliver_all w rows) s1 sub → makes (ProcessOnce w) s sub.
Proof.
  intros N. unfold ProcessOnce. destruct (wk_names w) as [|n ns] eqn:E; [done|]. rewrite <- E. split.
  - rewrite (final_call (CEnqueueHeld _)). cbn [pass_env fst snd]. rewrite (final_call (CClaimDue _ _)). done.
  - intros B sub M. apply (makes_r (call (CEnqueueHeld _))). cbn [pass_env].
    apply (makes_r (call (CClaimDue _ _))). exact M.
Qed.

Lemma enqueued_lookup s k r :
  outbox_wf s → (∀ id, is_Some (db_quarantine s !! id) → uuid_Parse id = Some id) → enqueued s !! k = Some r →
  uuid_Parse k.1 = Some k.1 ∧ is_Some (db_quarantine s !! k.1).
Proof.
  intros W C E. unfold enqueued, EnqueueHeldNotifications in E. apply lookup_union_Some_raw in E as [E|[_ E]].
  - destruct (W k r E); auto.
  - apply elem_of_list_to_map_2 in E. apply list_elem_of_fmap in E as (k' & [= -> _] & I).
    unfold held_keys in I. apply list_elem_of_In, in_concat in I as (l & I & J). apply in_map_iff in I as (id & <- & I).
    apply in_map_iff in J as (ch & <- & _). unfold pending_ids in I. apply in_map_iff in I as ([id' q] & <- & I).
    apply list_elem_of_In, elem_of_map_to_list, map_lookup_filter_Some in I as [I _]. simpl. eauto.
Qed.

Lemma held_enqueued s id q name :
  db_quarantine s !! id = Some q → q_Status q = "pending" → name ∈ wk_names w → is_Some (enqueued s !! (id, name)).
Proof.
  intros Q S N. unfold enqueued, EnqueueHeldNotifications. apply lookup_union_is_Some.
  destruct (decide (is_Some (db_outbox s !! (id, name)))) as [D|D]; [by left|right].
  apply not_eq_None_Some. intros E. apply not_elem_of_list_to_map_2 in E. apply E.
  rewrite <- list_fmap_compose. apply list_elem_of_fmap. exists (id, name). split; [done|].
  unfold held_keys. apply list_elem_of_In, in_concat. exists (map (pair id) (wk_names w)). split.
  - apply in_map_iff. exists id. split; [done|]. unfold pending_ids. apply in_map_iff. exists (id, q). split; [done|].
    by apply list_elem_of_In, elem_of_map_to_list, map_lookup_filter_Some.
  - by apply in_map, list_elem_of_In.
Qed.

(** The situation of a healthy pass that a batch can hold. *)
Definition passable (s : db_state) : Prop :=
  outbox_wf s ∧ (∀ id, is_Some (db_quarantine s !! id) → uuid_Parse id = Some id)
  ∧ (length (due_now (enqueued s)) ≤ Z.to_nat batchSize)%nat.

Lemma claimed_keys s k :
  passable s → k ∈ (claimed s).*1 ↔ ∃ r, enqueued s !! k = Some r ∧ is_due maxAttempts now r = true.
Proof.
  intros (_ & _ & L). rewrite list_elem_of_fmap. split.
  - intros ([k' r] & -> & I). exists r. by apply due_rows_all.
  - intros (r & I). exists (k, r). split; [done|]. by apply due_rows_all.
Qed.

Definition claimed_rows (s : db_state) : list ClaimDueNotificationsRow :=
  map (λ e, mkDueRow e.1.1 e.1.2 (ob_Attempts e.2 + 1)) (claimed s).

Lemma claimed_rows_ok s row :
  passable s → row ∈ claimed_rows s →
  uuid_Parse (cd_QuarantineID row) = Some (cd_QuarantineID row) ∧ is_Some (db_quarantine s !! cd_QuarantineID row).
Proof.
  intros (W & C & L) I. apply list_elem_of_fmap in I as ([k r] & -> & I).
  apply due_rows_all in I as [I _]; [|done]. by apply (enqueued_lookup s k r).
Qed.

(** The outbox a pass leaves. *)
Lemma pass_outbox s k :
  passable s → wk_names w ≠ [] →
  db_outbox (final (ProcessOnce w) s) !! k
  = if bool_decide (k ∈ (claimed s).*1) then delivered_row now <$> (lease_row now <$> enqueued s !! k)
    else enqueued s !! k.
Proof.
  intros P N. destruct (ProcessOnce_parts s N) as [-> _].
  rewrite deliver_all_works by (intros row I; exact (claimed_rows_ok s row P I)). cbn [db_outbox].
  assert (map (λ row, (cd_QuarantineID row, cd_Channel row)) (claimed_rows s) = (claimed s).*1) as E.
  { unfold claimed_rows. rewrite map_map. apply map_ext. by intros [[? ?] ?]. }
  unfold claimed_rows in E. rewrite E, mark_keys_lookup, lease_lookup; [by case_bool_decide|].
  intros k' r I. destruct P as (_ & _ & L). by apply due_rows_all in I as [? _].
Qed.

(** C37: one pass of the worker with a healthy database, working channels and at most a
    batch of due rows leaves no pending item unannounced.  Every due row is marked
    delivered, and where its item is pending and its channel configured the channel's
    [Send] has run for it; every pending item has a row for every configured channel
    that is delivered, out of attempts, or waiting for its next attempt. *)
Theorem pass_delivers s :
  passable s → wk_names w ≠ [] →
  let s' := final (ProcessOnce w) s in
  (∀ k r, enqueued s !! k = Some r → is_due maxAttempts now r = true →
     db_outbox s' !! k = Some (delivered_row now (lease_row now r))
     ∧ ∀ q c, db_quarantine s !! k.1 = Some q → q_Status q = "pending" → wk_channels w !! k.2 = Some c →
         makes (ProcessOnce w) s (ch_Send c (held_action w k.1 q)))
  ∧ (∀ id q name, db_quarantine s !! id = Some q → q_Status q = "pending" → name ∈ wk_names w →
       ∃ r, db_outbox s' !! (id, name) = Some r
            ∧ (is_Some (ob_DeliveredAt r) ∨ maxAttempts <= ob_Attempts r ∨ now < ob_NextAttemptAt r)).
Proof.
  intros P N s'. split.
  - intros k r E U. split.
    + unfold s'. rewrite pass_outbox by done. rewrite bool_decide_true; [by rewrite E|].
      apply claimed_keys; [exact P|]. by exists r.
    + intros q c Q S K. apply (ProcessOnce_parts s N).
      apply (deliver_all_sends _ _ (mkDueRow k.1 k.2 (ob_Attempts r + 1))); try done.
      { intros row I. exact (claimed_rows_ok s row P I). }
      apply list_elem_of_fmap. exists (k, r). split; [done|]. destruct P as (_ & _ & L). by apply due_rows_all.
  - intros id q name Q S K. destruct (held_enqueued s id q name Q S K) as [r E].
    unfold s'. rewrite pass_outbox by done. case_bool_decide as B.
    + rewrite E. eexists. split; [done|]. left. by eexists.
    + exists r. split; [done|]. destruct (ob_DeliveredAt r) as [d|] eqn:V; [left; by eexists|].
      destruct (Z.ltb_spec (ob_Attempts r) maxAttempts) as [A|A]; [|by right; left].
      destruct (Z.leb_spec (ob_NextAttemptAt r) now) as [X|X]; [|by right; right].
      exfalso. apply B, claimed_keys; [done|]. exists r. split; [done|]. unfold is_due.
      rewrite V, bool_decide_true by done. apply andb_true_intro.
      split; [by apply andb_true_intro; split; [|apply Z.ltb_lt]|by apply Z.leb_le].
Qed.

End pass.

#[local] Existing Instance QStore.plain_uuid.

(** A pending item, a healthy Slack endpoint, and an outbox that is still empty. *)
Definition sample_item : Quarantine :=
  mkQuarantine "q-1" "agent-7" "wire_transfer" "{}" "pending" 0 None None None 0 None "{}" "limits" "over the limit".
Definition sample_worker : Worker := NewWorker [NewSlack "https://hooks.example/T1"] "https://elodea.example/".
Definition sample_db : db_state := mkDb {[ "q-1" := sample_item ]} ∅.
Definition always_200 (url body : string) (h : Header) : result Z := Ok 200.

Lemma pass_delivers_witness :
  db_outbox (final 5 always_200 (ProcessOnce sample_worker) sample_db) !! ("q-1", "slack")
  = Some (mkOutbox 5 1 (5 + lease) (Some 5) "")
  ∧ makes 5 always_200 (ProcessOnce sample_worker) sample_db
      (ch_Send (NewSlack "https://hooks.example/T1") (held_action sample_worker "q-1" sample_item)).
Proof.
  assert (map_Forall (λ _ c, channel_works 5 always_200 c) (wk_channels sample_worker)) as Wk.
  { intros n c E. unfold sample_worker in E. simpl in E. apply lookup_insert_Some in E as [[_ <-]|[_ E]]; [|done].
    apply NewSlack_works. intros u b h. exists 200. split; [done|lia]. }
  assert (passable 5 sample_worker sample_db) as P.
  { split; [intros k r E; done|]. split; [|vm_compute; lia]. intros id [q E]. unfold sample_db in E. cbn [db_quarantine] in E.
    apply lookup_singleton_Some in E as [<- _]. reflexivity. }
  destruct (pass_delivers 5 always_200 sample_worker Wk sample_db P ltac:(done)) as [D _].
  destruct (D ("q-1", "slack") (mkOutbox 5 0 5 None "")) as [D1 D2]; [reflexivity..|].
  split; [exact D1|]. by apply D2.
Defined.

End NotifySys.
