(* ===== verification/NotifyConc.v ===== *)
(** * Notification workers in the running system

    Any number of workers share the outbox.  A state holds the clock, the quarantine
    table, the outbox and the deliveries in flight; a step lets time pass, moves the
    quarantine table, queues items, claims due rows, makes one call of a delivery, or
    kills one.  Statements fail or lose their acknowledgement.  With [timely] set, time
    never passes the lease of a delivery in flight.  A ghost field records which claims
    have posted. *)

From S2P Require Import Prelude GoStrings GoTime Types Effects QStore Notify.
From stdpp Require Import base tactics strings list gmap sorting.
From Stdlib Require Import ZArith Lia.

Local Open Scope Z_scope.

Import Notify.

Module NotifyConc.

(** A claimed row and when it was claimed. *)
Record flight : Type := mkFlight { fl_row : ClaimDueNotificationsRow; fl_at : Z }.
Definition row_key (row : ClaimDueNotificationsRow) : string * string := (cd_QuarantineID row, cd_Channel row).
Definition fl_key (f : flight) : string * string := row_key (fl_row f).

Record state : Type := mkState {
  s_now : Z;
  s_quarantine : QStore.table;
  s_outbox : outbox;
  s_running : list (flight * prog unit);
  s_sends : list ClaimDueNotificationsRow
}.

Definition active {A} (p : prog A) : bool := match p with Ret _ => false | Do _ _ => true end.
Definition is_post (c : cmd) : bool := match c with CPost _ _ _ | CSlack _ _ _ _ => true | _ => false end.

(** A statement that returns only an error, on a table. *)
Definition exec_update (upd : outbox → outbox) (o : outbox) (x : option error) (o' : outbox) : Prop :=
  match x with None => o' = upd o | Some _ => o' = o ∨ o' = upd o end.

(** The answer to a call of a delivery and the outbox it leaves; a call a delivery does
    not make has none. *)
Definition delivery_call (now : Z) (q : QStore.table) (o : outbox) (c : cmd) (x : ans c) (o' : outbox) : Prop :=
  match c return ans c → Prop with
  | CNow => λ x, x = now ∧ o' = o
  | CGetRow id => λ x, (x = QStore.GetQuarantineEntry id q ∨ ∃ e, x = Err e) ∧ o' = o
  | CPost _ _ _ | CSlack _ _ _ _ => λ _, o' = o
  | CMarkDelivered id ch => λ x, exec_update (MarkNotificationDelivered now id ch) o x o'
  | CMarkFailed next err id ch => λ x, exec_update (MarkNotificationFailed next err id ch) o x o'
  | _ => λ _, False
  end x.

Definition initial (now : Z) : state := mkState now ∅ ∅ [] [].

Section system.
Context `{UuidLib}.
Variable w : Worker.
Variable timely : bool.

(** Ids of a UUID column are canonical. *)
Definition canonical_ids (q : QStore.table) : Prop := ∀ id, is_Some (q !! id) → uuid_Parse id = Some id.

Inductive step : state → state → Prop :=
  | st_time s now' :
      s_now s <= now' →
      (timely = true → ∀ f p, (f, p) ∈ s_running s → active p = true → now' < fl_at f + lease) →
      step s (mkState now' (s_quarantine s) (s_outbox s) (s_running s) (s_sends s))
  | st_quarantine s q' :
      QStore.table_moves (s_quarantine s) q' → canonical_ids q' →
      step s (mkState (s_now s) q' (s_outbox s) (s_running s) (s_sends s))
  | st_enqueue s channels :
      step s (mkState (s_now s) (s_quarantine s)
                (EnqueueHeldNotifications channels (s_now s) (s_quarantine s) (s_outbox s)) (s_running s) (s_sends s))
  | st_claim s locked scan rows o' :
      scan ≡ₚ map_to_list (s_outbox s) →
      ClaimDueNotifications maxAttempts batchSize (s_now s) locked scan (s_outbox s) = (rows, o') →
      step s (mkState (s_now s) (s_quarantine s) o'
                (s_running s ++ map (λ row, (mkFlight row (s_now s), deliver w row)) rows) (s_sends s))
  | st_claim_lost s locked scan rows o' :
      scan ≡ₚ map_to_list (s_outbox s) →
      ClaimDueNotifications maxAttempts batchSize (s_now s) locked scan (s_outbox s) = (rows, o') →
      step s (mkState (s_now s) (s_quarantine s) o' (s_running s) (s_sends s))
  | st_call s i f c k x o' :
      s_running s !! i = Some (f, Do c k) → delivery_call (s_now s) (s_quarantine s) (s_outbox s) c x o' →
      step s (mkState (s_now s) (s_quarantine s) o' (<[i := (f, k x)]> (s_running s))
                (if is_post c then s_sends s ++ [fl_row f] else s_sends s))
  | st_crash s i f p :
      s_running s !! i = Some (f, p) →
      step s (mkState (s_now s) (s_quarantine s) (s_outbox s) (<[i := (f, Ret tt)]> (s_running s)) (s_sends s)).

Inductive reachable (start : Z) : state → Prop :=
  | reach_init : reachable start (initial start)
  | reach_step s s' : reachable start s → step s s' → reachable start s'.

(** ** What a channel promises the worker *)

(** Only the clock and the endpoint are used. *)
Fixpoint endpoint_only {A} (p : prog A) : Prop :=
  match p with
  | Ret _ => True
  | Do c k => match c with CNow | CPost _ _ _ | CSlack _ _ _ _ => True | _ => False end ∧ ∀ x, endpoint_only (k x)
  end.

Class ChannelOk (c : Channel) : Prop := {
  channel_posts : ∀ a, calls_le is_post 1 (ch_Send c a);
  channel_endpoint : ∀ a, endpoint_only (ch_Send c a)
}.

Lemma post_ok url body hs : calls_le is_post 1 (post url body hs) ∧ endpoint_only (post url body hs).
Proof.
  unfold post. split; simpl.
  - intros [st|e]; [by destruct (_ || _)|done].
  - split; [done|]. intros [st|e]; [by destruct (_ || _)|done].
Qed.

#[export] Instance NewSlack_ok url : ChannelOk (NewSlack url).
Proof. split; intros a; apply post_ok. Qed.

#[export] Instance NewWebhook_ok time_json url secret : ChannelOk (NewWebhook time_json url secret).
Proof.
  split; intros a; unfold NewWebhook; cbn [ch_Send]; destruct (webhook_body time_json a); try done; cbn -[post].
  - intros now. apply post_ok.
  - split; [done|]. intros now. apply post_ok.
Qed.

Hypothesis channels_ok : map_Forall (λ _ c, ChannelOk c) (wk_channels w).

Lemma endpoint_passive {A} (p : prog A) : endpoint_only p → only passive p.
Proof.
  induction p as [a|c k IH]; [done|]. intros [E S]. split; [by destruct c|]. intros x. exact (safe_any _ _ _ _ (IH x (S x))).
Qed.

(** The loop touches the outbox and the endpoints only. *)
Lemma Run_passive ticks : only passive (Run w ticks).
Proof.
  assert (∀ id ch a e, only passive (fail id ch a e)) as F by (intros; split; [done|]; by split).
  assert (∀ row, only passive (deliver w row)) as D.
  { intros row. unfold deliver. destruct (uuid_Parse _) as [id|]; [|done].
    destruct (wk_channels w !! cd_Channel row) as [ch|] eqn:L; [|by split]. split; [done|].
    intros [q|e]; [|exact (safe_any _ _ _ _ (F _ _ _ _))]. cbn [prog_mbind prog_bind]. destruct (negb _); [by split|].
    apply (safe_any _ []). apply (only_bind _ (ch_Send ch (held_action w (cd_QuarantineID row) q))).
    - pose proof (channels_ok _ _ L : ChannelOk ch). apply endpoint_passive, channel_endpoint.
    - intros [e|]; [apply F|by split]. }
  assert (∀ rows, only passive (deliver_all w rows)) as Da.
  { intros rows. induction rows as [|row rows IH]; [done|]. by apply only_bind. }
  assert (only passive (ProcessOnce w)) as P.
  { unfold ProcessOnce. destruct (wk_names w); [done|]. split; [done|]. intros [|]; [done|]. split; [done|].
    intros [rows|]; [|done]. exact (safe_any _ _ _ _ (Da rows)). }
  induction ticks as [|n IH]; [done|]. by apply only_bind.
Qed.

(** ** One delivery: at most one post, then at most one mark, of its own row *)

Fixpoint marks_own {A} (key : string * string) (p : prog A) : Prop :=
  match p with
  | Ret _ => True
  | Do c k =>
      match c return (ans c → prog A) → Prop with
      | CMarkDelivered id ch => λ k, (id, ch) = key ∧ ∀ x, active (k x) = false
      | CMarkFailed _ _ id ch => λ k, (id, ch) = key ∧ ∀ x, active (k x) = false
      | _ => λ k, ∀ x, marks_own key (k x)
      end k
  end.

Lemma endpoint_marks {A B} key (p : prog A) (f : A → prog B) :
  endpoint_only p → (∀ a, marks_own key (f a)) → marks_own key (p ≫= f).
Proof.
  intros E F. induction p as [a|c k IH]; [apply F|]. destruct E as [C E]. simpl.
  destruct c; try done; intros x; apply IH, E.
Qed.

Lemma deliver_posts row : calls_le is_post 1 (deliver w row).
Proof.
  unfold deliver. destruct (uuid_Parse _); [|done]. destruct (wk_channels w !! _) as [c|] eqn:C; [|done].
  intros [q|e]; [|done]. cbn -[held_action]. destruct (negb _); [done|]. apply calls_le_bind_l; [|by intros []].
  apply (channels_ok _ _ C).
Qed.

Lemma deliver_marks row :
  uuid_Parse (cd_QuarantineID row) = Some (cd_QuarantineID row) → marks_own (row_key row) (deliver w row).
Proof.
  intros P. unfold deliver. rewrite P. destruct (wk_channels w !! _) as [c|] eqn:C; [|done].
  intros [q|e]; [|done]. cbn -[held_action]. destruct (negb _); [done|]. apply endpoint_marks; [apply (channels_ok _ _ C)|].
  by intros [].
Qed.

(** ** What a claim takes *)

Lemma due_rows_elem (max batch now : Z) (locked : gset (string * string)) (scan : list ((string * string) * NotificationOutbox)) (o : outbox) k r :
  scan ≡ₚ map_to_list o → (k, r) ∈ due_rows max batch now locked scan →
  o !! k = Some r ∧ is_due max now r = true.
Proof.
  intros S I. unfold due_rows in I. apply elem_of_take in I as (i & I & _). apply list_elem_of_lookup_2 in I.
  rewrite (merge_sort_Permutation created_le) in I. apply list_elem_of_In, filter_In in I as [I D].
  apply andb_prop in D as [D _]. split; [|done]. apply list_elem_of_In in I. rewrite S in I.
  by apply elem_of_map_to_list in I.
Qed.

Lemma due_rows_NoDup (max batch now : Z) (locked : gset (string * string)) (scan : list ((string * string) * NotificationOutbox)) (o : outbox) :
  scan ≡ₚ map_to_list o → NoDup (due_rows max batch now locked scan).*1.
Proof.
  intros S. unfold due_rows. rewrite fmap_take. eapply sublist_NoDup; [|apply sublist_take].
  rewrite (merge_sort_Permutation created_le). apply NoDup_map_filter.
  change (NoDup scan.*1). rewrite S. apply NoDup_fst_map_to_list.
Qed.

(** ** The outbox only grows, and so do the attempts *)

Definition outbox_le (o o' : outbox) : Prop :=
  (∀ k r, o !! k = Some r → ∃ r', o' !! k = Some r' ∧ ob_Attempts r <= ob_Attempts r')
  ∧ (∀ k r', o' !! k = Some r' → o !! k = None → 0 <= ob_Attempts r').

Lemma outbox_le_refl o : outbox_le o o.
Proof. split; [intros k r E; exists r; split; [done|lia]|intros; congruence]. Qed.

Lemma enqueue_le (channels : list string) (now : Z) (q : QStore.table) (o : outbox) : outbox_le o (EnqueueHeldNotifications channels now q o).
Proof.
  unfold EnqueueHeldNotifications. split.
  - intros k r E. exists r. split; [by apply lookup_union_Some_l|lia].
  - intros k r E N. rewrite lookup_union_r in E by done. apply elem_of_list_to_map_2 in E.
    apply list_elem_of_fmap in E as (k' & [= _ ->] & _). simpl. lia.
Qed.

Lemma alter_le (k : string * string) (f : NotificationOutbox → NotificationOutbox) (o : outbox) : (∀ r, ob_Attempts (f r) = ob_Attempts r) → outbox_le o (alter f k o).
Proof.
  intros F. split.
  - intros k' r E. destruct (decide (k = k')) as [<-|N].
    + exists (f r). rewrite lookup_alter_eq, E. split; [done|]. rewrite F. lia.
    + exists r. rewrite lookup_alter_ne by done. split; [done|lia].
  - intros k' r' E N. destruct (decide (k = k')) as [<-|M].
    + by rewrite lookup_alter_eq, N in E.
    + rewrite lookup_alter_ne in E by done. congruence.
Qed.

Lemma claim_le (now : Z) (locked : gset (string * string)) (scan : list ((string * string) * NotificationOutbox))
    (o : outbox) (rows : list ClaimDueNotificationsRow) o' :
  scan ≡ₚ map_to_list o → ClaimDueNotifications maxAttempts batchSize now locked scan o = (rows, o') → outbox_le o o'.
Proof.
  intros S E. injection E as _ <-. split.
  - intros k r L. rewrite lease_lookup by (intros; by eapply due_rows_elem). rewrite L.
    case_bool_decide; eexists; (split; [done|]); simpl; lia.
  - intros k r L N. rewrite lease_lookup in L by (intros; by eapply due_rows_elem). rewrite N in L.
    by case_bool_decide.
Qed.

Lemma exec_update_le upd o x o' : outbox_le o (upd o) → exec_update upd o x o' → outbox_le o o'.
Proof. intros U. destruct x; simpl; [intros [->| ->]|intros ->]; auto using outbox_le_refl. Qed.

Lemma delivery_call_le (now : Z) (q : QStore.table) (o : outbox) (c : cmd) (x : ans c) o' : delivery_call now q o c x o' → outbox_le o o'.
Proof.
  destruct c; simpl; try done; intros D.
  - destruct D as [_ ->]. apply outbox_le_refl.
  - eapply exec_update_le; [|exact D]. by apply alter_le.
  - eapply exec_update_le; [|exact D]. by apply alter_le.
  - destruct D as [_ ->]. apply outbox_le_refl.
  - subst. apply outbox_le_refl.
  - subst. apply outbox_le_refl.
Qed.

(** ** At most eight posts per item and channel *)

Definition claim_ok (o : outbox) (row : ClaimDueNotificationsRow) : Prop :=
  ∃ r, o !! row_key row = Some r ∧ 1 <= cd_Attempts row <= ob_Attempts r ∧ cd_Attempts row <= maxAttempts.

Lemma claim_ok_le o o' row : outbox_le o o' → claim_ok o row → claim_ok o' row.
Proof. intros [L _] (r & E & B & M). destruct (L _ _ E) as (r' & E' & B'). exists r'. split; [done|lia]. Qed.

Definition rows_of (running : list (flight * prog unit)) : list ClaimDueNotificationsRow := map (λ r, fl_row r.1) running.

Record inv (s : state) : Prop := mkInv {
  inv_nonneg : map_Forall (λ _ r, 0 <= ob_Attempts r) (s_outbox s);
  inv_rows : Forall (claim_ok (s_outbox s)) (rows_of (s_running s));
  inv_sent : Forall (claim_ok (s_outbox s)) (s_sends s);
  inv_nodup : NoDup (rows_of (s_running s));
  inv_sends : NoDup (s_sends s);
  inv_posts : Forall (λ r, calls_le is_post 0 r.2 ∨ (fl_row r.1 ∉ s_sends s) ∧ calls_le is_post 1 r.2) (s_running s)
}.

Lemma inv_outbox (now : Z) (q : QStore.table) (o : outbox) (s : state) :
  inv s → outbox_le (s_outbox s) o → inv (mkState now q o (s_running s) (s_sends s)).
Proof.
  intros I L. destruct I. constructor; simpl; try done.
  - intros k r E. destruct (s_outbox s !! k) as [r0|] eqn:E0; [|by apply L in E].
    destruct (proj1 L k r0 E0) as (r' & E' & B). pose proof (inv_nonneg0 k r0 E0) as N. simpl in N.
    replace r with r' by congruence. lia.
  - eapply Forall_impl; [done|]. intros row. by apply claim_ok_le.
  - eapply Forall_impl; [done|]. intros row. by apply claim_ok_le.
Qed.

Lemma rows_of_insert running i f p p' :
  running !! i = Some (f, p) → rows_of (<[i := (f, p')]> running) = rows_of running.
Proof.
  intros E. unfold rows_of. rewrite list_fmap_insert. simpl. apply list_insert_id. by rewrite list_lookup_fmap, E.
Qed.

Lemma posts_crash s i f p :
  inv s → s_running s !! i = Some (f, p) →
  inv (mkState (s_now s) (s_quarantine s) (s_outbox s) (<[i := (f, Ret tt)]> (s_running s)) (s_sends s)).
Proof.
  intros [I1 I2 I3 I4 I5 I6] L. constructor; simpl; rewrite ?(rows_of_insert _ _ _ _ _ L); try done.
  apply Forall_insert; [done|]. by left.
Qed.

Lemma posts_call s i f c k (x : ans c) :
  inv s → s_running s !! i = Some (f, Do c k) →
  inv (mkState (s_now s) (s_quarantine s) (s_outbox s) (<[i := (f, k x)]> (s_running s))
         (if is_post c then s_sends s ++ [fl_row f] else s_sends s)).
Proof.
  intros [I1 I2 I3 I4 I5 I6] L. pose proof (Forall_lookup_1 _ _ _ _ I6 L) as P. simpl in P.
  pose proof (Forall_lookup_1 _ _ i _ I2 ltac:(unfold rows_of; by rewrite list_lookup_fmap, L)) as C.
  constructor; simpl; rewrite ?(rows_of_insert _ _ _ _ _ L); try done.
  - destruct (is_post c); [|done]. apply Forall_app. by split; [|apply Forall_singleton].
  - destruct (is_post c) eqn:E; [|done]. destruct P as [[]|[P _]]. apply NoDup_app. split_and!; [done| |apply NoDup_singleton].
    intros row J ->%list_elem_of_singleton. by apply P.
  - destruct (is_post c) eqn:E.
    + destruct P as [[]|[P1 P2]]. apply Forall_lookup_2. intros j [f' p'] J.
      destruct (decide (i = j)) as [<-|N].
      * rewrite list_lookup_insert_eq in J by (by eapply lookup_lt_Some). injection J as <- <-. left. apply P2.
      * rewrite list_lookup_insert_ne in J by done.
        destruct (Forall_lookup_1 _ _ _ _ I6 J) as [Q|[Q1 Q2]]; [by left|right]. split; [|done]. simpl in *.
        rewrite elem_of_app, list_elem_of_singleton. intros [Q|Q]; [done|]. apply N.
        apply (NoDup_lookup _ _ _ (fl_row f) I4); unfold rows_of; rewrite list_lookup_fmap; [by rewrite L|rewrite J].
        simpl. by rewrite Q.
    + apply Forall_insert; [done|]. simpl. destruct P as [P|[P1 P2]]; [left; apply P|right; split; [done|apply P2]].
Qed.

(** The rows a claim returns are new. *)
Lemma claim_fresh (now : Z) (locked : gset (string * string)) (scan : list ((string * string) * NotificationOutbox))
    (o : outbox) (rows : list ClaimDueNotificationsRow) o' :
  map_Forall (λ _ r, 0 <= ob_Attempts r) o → scan ≡ₚ map_to_list o →
  ClaimDueNotifications maxAttempts batchSize now locked scan o = (rows, o') →
  NoDup (map row_key rows) ∧ ∀ row, row ∈ rows →
    claim_ok o' row ∧ ¬ claim_ok o row
    ∧ ∃ r, o !! row_key row = Some r ∧ is_due maxAttempts now r = true
           ∧ o' !! row_key row = Some (lease_row now r).
Proof.
  intros N S E. injection E as <- <-. split.
  - rewrite map_map. erewrite map_ext; [exact (due_rows_NoDup maxAttempts batchSize now locked scan o S)|].
    by intros [[? ?] ?].
  - intros row I. apply list_elem_of_fmap in I as ([[id ch] r] & -> & I).
    destruct (due_rows_elem _ _ _ _ _ o _ _ S I) as [L D]. unfold row_key; cbn [cd_QuarantineID cd_Channel fst snd].
    assert (foldl (λ o e, <[e.1:=lease_row now e.2]> o) o (due_rows maxAttempts batchSize now locked scan) !! (id, ch)
            = Some (lease_row now r)) as L'.
    { rewrite lease_lookup by (intros; by eapply due_rows_elem). rewrite L, bool_decide_true; [done|].
      apply list_elem_of_fmap. by exists ((id, ch), r). }
    pose proof (N (id, ch) r L) as N'. simpl in N'. pose proof D as D'. unfold is_due in D'.
    apply andb_prop in D' as [D' _]. apply andb_prop in D' as [_ D']. apply Z.ltb_lt in D'.
    split_and!; [..|by exists r].
    + exists (lease_row now r). split; [exact L'|]. simpl. lia.
    + intros (r0 & E0 & B & _). unfold row_key in E0. cbn [cd_QuarantineID cd_Channel fst snd] in E0.
      replace r0 with r in B by congruence. simpl in B. lia.
Qed.

Lemma inv_step s s' : inv s → step s s' → inv s'.
Proof.
  intros I S. destruct S as [s now' _ _|s q' _ _|s chs|s locked scan rows o' P E|s locked scan rows o' P E
                            |s i f c k x o' L D|s i f p L].
  - by apply inv_outbox, outbox_le_refl.
  - by apply inv_outbox, outbox_le_refl.
  - apply inv_outbox, enqueue_le. done.
  - pose proof (claim_le _ _ _ _ _ _ P E) as G. pose proof (claim_fresh _ _ _ _ _ _ (inv_nonneg s I) P E) as [N F].
    destruct (inv_outbox (s_now s) (s_quarantine s) o' s I G) as [I1 I2 I3 I4 I5 I6]. simpl in *.
    assert (rows_of (s_running s ++ map (λ row, (mkFlight row (s_now s), deliver w row)) rows)
            = rows_of (s_running s) ++ rows) as R.
    { unfold rows_of. rewrite map_app, map_map. f_equal. apply map_id. }
    constructor; simpl; try done; rewrite ?R.
    + apply Forall_app. split; [done|]. apply Forall_forall. intros row J. by apply F.
    + apply NoDup_app. split_and!; [done| |].
      * intros row J J'. apply F in J' as (_ & J' & _). apply J'. destruct I as [_ Ir _ _ _ _].
        rewrite Forall_forall in Ir. by apply Ir.
      * by eapply NoDup_fmap_1.
    + apply Forall_app. split; [done|]. apply Forall_map, Forall_forall. intros row J. right. simpl. split.
      * intros J'. apply F in J as (_ & J & _). apply J. destruct I as [_ _ Is _ _ _].
        rewrite Forall_forall in Is. by apply Is.
      * apply deliver_posts.
  - by apply inv_outbox, (claim_le _ _ _ _ _ _ P E).
  - pose proof (inv_outbox (s_now s) (s_quarantine s) o' s I (delivery_call_le _ _ _ _ _ _ D)) as J.
    by apply (posts_call _ i f c k x) in J.
  - by apply (posts_crash s i f p).
Qed.

Lemma reachable_posts start s : reachable start s → inv s.
Proof. induction 1; [|by eapply inv_step]. constructor; cbn; try constructor. apply map_Forall_empty. Qed.

(** C11: delivery attempts are bounded.  Whatever the number of workers, the
    interleaving, the failures and the crashes, at most [maxAttempts] notifications are
    posted for one held action on one channel, each from its own claim. *)
Theorem notifications_bounded start s id channel :
  reachable start s →
  Z.of_nat (length (filter (λ row, row_key row = (id, channel)) (s_sends s))) <= maxAttempts ∧ NoDup (s_sends s).
Proof.
  intros R. destruct (reachable_posts start s R) as [_ _ C _ N _]. rewrite Forall_forall in C. split; [|done].
  replace maxAttempts with (maxAttempts - 1 + 1) by lia.
  apply (length_bounded cd_Attempts); [by vm_compute|by apply NoDup_filter|..].
  - intros [i1 c1 a1] [i2 c2 a2] [E1 _]%list_elem_of_filter [E2 _]%list_elem_of_filter A. unfold row_key in *. by simplify_eq/=.
  - intros row [_ J]%list_elem_of_filter. destruct (C row J) as (r & _ & B & M). lia.
Qed.

(** ** No two deliveries of one notification at a time, while leases hold *)

Record excl (s : state) : Prop := mkExcl {
  ex_ids : canonical_ids (s_quarantine s);
  ex_keys : ∀ k r, s_outbox s !! k = Some r → uuid_Parse k.1 = Some k.1;
  ex_lease : ∀ f p, (f, p) ∈ s_running s → active p = true →
    marks_own (fl_key f) p ∧ s_now s < fl_at f + lease
    ∧ ob_NextAttemptAt <$> s_outbox s !! fl_key f = Some (fl_at f + lease);
  ex_uniq : ∀ i j f p f' p', s_running s !! i = Some (f, p) → s_running s !! j = Some (f', p') →
    active p = true → active p' = true → fl_key f = fl_key f' → i = j
}.

(** An outbox that keeps the leases of the deliveries in flight keeps [excl]. *)
Lemma excl_outbox s o' :
  excl s → (∀ k r, o' !! k = Some r → uuid_Parse k.1 = Some k.1) →
  (∀ f p, (f, p) ∈ s_running s → active p = true →
     ob_NextAttemptAt <$> o' !! fl_key f = ob_NextAttemptAt <$> s_outbox s !! fl_key f) →
  excl (mkState (s_now s) (s_quarantine s) o' (s_running s) (s_sends s)).
Proof.
  intros [X1 X2 X3 X4] K F. constructor; simpl; try done. intros f p J A. rewrite (F f p J A). by apply X3.
Qed.

(** Replacing a delivery in flight by what is left of it keeps [excl]. *)
Lemma excl_insert s i f p p' sends :
  excl s → s_running s !! i = Some (f, p) → active p = true → marks_own (fl_key f) p' →
  excl (mkState (s_now s) (s_quarantine s) (s_outbox s) (<[i := (f, p')]> (s_running s)) sends).
Proof.
  intros [X1 X2 X3 X4] L A M.
  assert (∀ j f1 p1, <[i := (f, p')]> (s_running s) !! j = Some (f1, p1) →
            j = i ∧ f1 = f ∧ p1 = p' ∨ j ≠ i ∧ s_running s !! j = Some (f1, p1)) as R.
  { intros j f1 p1 J. apply list_lookup_insert_Some in J as [(-> & [= -> ->] & _)|[N J]]; auto. }
  constructor; simpl; try done.
  - intros f1 p1 (j & J)%list_elem_of_lookup A1. apply R in J as [(-> & -> & ->)|[_ J]].
    + destruct (X3 f p (list_elem_of_lookup_2 _ _ _ L) A) as (_ & T & N). done.
    + apply X3; [by eapply list_elem_of_lookup_2|done].
  - intros j1 j2 f1 p1 f2 p2 J1 J2 A1 A2 E. apply R in J1 as [(-> & -> & ->)|[N1 J1]], J2 as [(-> & -> & ->)|[N2 J2]];
      [done| | |by eapply X4]; exfalso.
    + by apply N2, (X4 j2 i f2 p2 f p).
    + by apply N1, (X4 j1 i f1 p1 f p).
Qed.

Lemma enqueue_keys s channels k r :
  excl s → EnqueueHeldNotifications channels (s_now s) (s_quarantine s) (s_outbox s) !! k = Some r →
  uuid_Parse k.1 = Some k.1.
Proof.
  intros X E. apply lookup_union_Some_raw in E as [E|[_ E]]; [by eapply ex_keys|].
  apply elem_of_list_to_map_2 in E. apply list_elem_of_fmap in E as (k' & [= -> _] & J).
  apply (ex_ids s X). unfold held_keys in J. apply list_elem_of_In, in_concat in J as (l & I & J).
  apply in_map_iff in I as (id & <- & I). apply in_map_iff in J as (ch & <- & _).
  apply in_map_iff in I as ([id' q] & <- & I).
  apply list_elem_of_In, elem_of_map_to_list, map_lookup_filter_Some in I as [I _]. by exists q.
Qed.

(** A claim takes no row whose delivery is in flight. *)
Lemma claim_excl s locked (scan : list ((string * string) * NotificationOutbox)) rows o' :
  excl s → scan ≡ₚ map_to_list (s_outbox s) →
  ClaimDueNotifications maxAttempts batchSize (s_now s) locked scan (s_outbox s) = (rows, o') →
  excl (mkState (s_now s) (s_quarantine s) o' (s_running s) (s_sends s))
  ∧ ∀ f p row, (f, p) ∈ s_running s → active p = true → row ∈ rows → fl_key f ≠ row_key row.
Proof.
  intros X P E. injection E as <- <-.
  assert (∀ f p e, (f, p) ∈ s_running s → active p = true →
            e ∈ due_rows maxAttempts batchSize (s_now s) locked scan → fl_key f ≠ e.1) as F.
  { intros f p [k r] J A I Q. simpl in Q. subst k. apply (due_rows_elem _ _ _ _ _ (s_outbox s)) in I as [L D]; [|done].
    destruct (ex_lease s X f p J A) as (_ & T & N). rewrite L in N. injection N as N. unfold is_due in D.
    apply andb_prop in D as [_ D]. apply Z.leb_le in D. lia. }
  split.
  - apply excl_outbox; [done|..].
    + intros k r L. rewrite lease_lookup in L by (intros; by eapply due_rows_elem).
      case_bool_decide; [apply fmap_Some in L as (r0 & L & _)|]; by eapply ex_keys.
    + intros f p J A. rewrite lease_lookup by (intros; by eapply due_rows_elem).
      rewrite bool_decide_false; [done|]. intros (e & Q & I)%list_elem_of_fmap. by destruct (F f p e J A I).
  - intros f p row J A I. apply list_elem_of_fmap in I as (e & -> & I). pose proof (F f p e J A I) as N.
    destruct e as [[? ?] ?]. exact N.
Qed.

(** A mark ends its delivery, and no other delivery of that row is in flight. *)
Lemma excl_mark s i f p p' g o' sends :
  excl s → s_running s !! i = Some (f, p) → active p = true → active p' = false →
  o' = s_outbox s ∨ o' = alter g (fl_key f) (s_outbox s) →
  excl (mkState (s_now s) (s_quarantine s) o' (<[i := (f, p')]> (s_running s)) sends).
Proof.
  intros X L A A' O. assert (marks_own (fl_key f) p') as M by by destruct p'.
  pose proof (excl_insert s i f p p' sends X L A M) as Y. apply (excl_outbox _ o') in Y; [done|..]; simpl.
  - intros k r E. destruct O as [->| ->]; [by eapply ex_keys|].
    apply lookup_alter_Some in E as [(_ & r0 & E & _)|[_ E]]; by eapply ex_keys.
  - intros f1 p1 (j & J)%list_elem_of_lookup A1. destruct O as [->| ->]; [done|].
    rewrite lookup_alter_ne; [done|]. intros E.
    apply list_lookup_insert_Some in J as [(_ & [= _ <-] & _)|[N J]]; [congruence|].
    by apply N, (ex_uniq s X i j f p f1 p1).
Qed.

Lemma excl_call s i f c k x o' sends :
  excl s → s_running s !! i = Some (f, Do c k) →
  delivery_call (s_now s) (s_quarantine s) (s_outbox s) c x o' →
  excl (mkState (s_now s) (s_quarantine s) o' (<[i := (f, k x)]> (s_running s)) sends).
Proof.
  intros X L D. pose proof (ex_lease s X f (Do c k) (list_elem_of_lookup_2 _ _ _ L) eq_refl) as (M & _).
  assert (∀ upd y, exec_update upd (s_outbox s) y o' → o' = s_outbox s ∨ o' = upd (s_outbox s)) as U.
  { intros upd [e|]; simpl; auto. }
  destruct c; try done; simpl in D, M.
  - destruct D as [_ ->]. by apply (excl_insert s i f (Do CNow k)).
  - destruct M as [Q M]. eapply (excl_mark s i f (Do _ k)); [done..|apply M|]. rewrite <- Q. by eapply U.
  - destruct M as [Q M]. eapply (excl_mark s i f (Do _ k)); [done..|apply M|]. rewrite <- Q. by eapply U.
  - destruct D as [_ ->]. by apply (excl_insert s i f (Do (CGetRow id) k)).
  - subst o'. by apply (excl_insert s i f (Do (CPost url body headers) k)).
  - subst o'. by apply (excl_insert s i f (Do (CSlack verb url token body) k)).
Qed.

Lemma excl_crash s i f p :
  excl s → s_running s !! i = Some (f, p) →
  excl (mkState (s_now s) (s_quarantine s) (s_outbox s) (<[i := (f, Ret tt)]> (s_running s)) (s_sends s)).
Proof.
  intros X L. destruct (active p) eqn:A.
  - eapply excl_insert; try done.
  - destruct p as [[]|]; [|done]. rewrite list_insert_id by done. by destruct s.
Qed.

Lemma excl_claim s locked (scan : list ((string * string) * NotificationOutbox)) rows o' :
  map_Forall (λ _ r, 0 <= ob_Attempts r) (s_outbox s) → excl s → scan ≡ₚ map_to_list (s_outbox s) →
  ClaimDueNotifications maxAttempts batchSize (s_now s) locked scan (s_outbox s) = (rows, o') →
  excl (mkState (s_now s) (s_quarantine s) o'
          (s_running s ++ map (λ row, (mkFlight row (s_now s), deliver w row)) rows) (s_sends s)).
Proof.
  intros G X P E. destruct (claim_excl s locked scan rows o' X P E) as [[X1 X2 X3 X4] F]. simpl in *.
  destruct (claim_fresh _ _ _ _ _ _ G P E) as [N C].
  assert (∀ f p, (f, p) ∈ map (λ row, (mkFlight row (s_now s), deliver w row)) rows →
            ∃ row, row ∈ rows ∧ f = mkFlight row (s_now s) ∧ p = deliver w row) as R.
  { intros f p (row & [= -> ->] & I)%list_elem_of_fmap. eauto. }
  constructor; simpl; try done.
  - intros f p [J|J]%elem_of_app A; [by apply X3|]. apply R in J as (row & J & -> & ->).
    destruct (C row J) as (_ & _ & r & L & _ & L'). split; [|split].
    + apply deliver_marks. by apply (ex_keys s X _ r L).
    + simpl. assert (0 < lease) by by vm_compute. lia.
    + unfold fl_key; simpl. by rewrite L'.
  - intros i j f p f' p' I J A A' Q. apply lookup_app_Some in I as [I|[LI I]], J as [J|[LJ J]]; [by eapply X4|..].
    + exfalso. apply list_elem_of_lookup_2, R in J as (row & J & -> & ->).
      by apply (F f p row (list_elem_of_lookup_2 _ _ _ I)).
    + exfalso. apply list_elem_of_lookup_2, R in I as (row & I & -> & ->).
      by apply (F f' p' row (list_elem_of_lookup_2 _ _ _ J)).
    + rewrite list_lookup_fmap in I, J. apply fmap_Some in I as (r1 & I & [= -> ->]), J as (r2 & J & [= -> ->]).
      assert (i - length (s_running s) = j - length (s_running s))%nat; [|lia].
      apply (NoDup_lookup _ _ _ (row_key r1) N); rewrite list_lookup_fmap; [by rewrite I|rewrite J]. simpl. by f_equal.
Qed.

Lemma excl_step s s' : timely = true → inv s → excl s → step s s' → excl s'.
Proof.
  intros T I X S. destruct S as [s now' G U|s q' _ C|s chs|s locked scan rows o' P E|s locked scan rows o' P E
                                |s i f c k x o' L D|s i f p L].
  - destruct X as [X1 X2 X3 X4]. constructor; simpl; try done. intros f p J A.
    destruct (X3 f p J A) as (M & _ & N). split; [done|]. split; [by eapply U|done].
  - destruct X as [X1 X2 X3 X4]. by constructor.
  - apply excl_outbox; [done|by intros k r; apply enqueue_keys|]. intros f p J A.
    destruct (ex_lease s X f p J A) as (_ & _ & N). apply fmap_Some in N as (r & N & _).
    unfold EnqueueHeldNotifications. by rewrite (lookup_union_Some_l _ _ _ _ N), N.
  - by eapply excl_claim, E; [apply I|..].
  - by apply (claim_excl s locked scan rows o' X P E).
  - by eapply excl_call.
  - by eapply excl_crash.
Qed.

Definition in_flight (s : state) : list (string * string) :=
  map (λ r, fl_key r.1) (List.filter (λ r, active r.2) (s_running s)).

(** C38: while every delivery ends within its lease, no notification is being delivered
    twice at the same time: the deliveries in flight, of all workers, are for different
    held actions or different channels. *)
Theorem deliveries_exclusive start s : timely = true → reachable start s → NoDup (in_flight s).
Proof.
  intros T R. assert (excl s) as X.
  { induction R as [|s s' R IH S].
    - constructor; simpl; try done; [by intros id [q E]|intros f0 p0 J; by apply not_elem_of_nil in J].
    - eapply excl_step; try done. by eapply reachable_posts. }
  apply NoDup_map_filter_lookup. intros i j [f p] [f' p']. apply (ex_uniq s X).
Qed.

End system.

(** ** Witnesses: queue, claim, read, post *)

#[local] Existing Instance QStore.plain_uuid.

Definition sample_item (id : string) : Quarantine :=
  mkQuarantine id "agent-7" "wire_transfer" "{}" "pending" 0 None None None 0 None "{}" "limits" "over the limit".
Definition sample_worker : Worker := NewWorker [NewSlack "https://hooks.example/T1"] "".
Definition sample_table : QStore.table := {[ "q-1" := sample_item "q-1"; "q-2" := sample_item "q-2" ]}.

Definition queued : state :=
  mkState 0 sample_table (EnqueueHeldNotifications ["slack"] 0 sample_table ∅) [] [].
Definition claim_all (s : state) : state :=
  let '(rows, o) := ClaimDueNotifications maxAttempts batchSize (s_now s) ∅ (map_to_list (s_outbox s)) (s_outbox s) in
  mkState (s_now s) (s_quarantine s) o
    (s_running s ++ map (λ row, (mkFlight row (s_now s), deliver sample_worker row)) rows) (s_sends s).

Lemma sample_channels : map_Forall (λ _ c, ChannelOk c) (wk_channels sample_worker).
Proof.
  intros n c E. unfold sample_worker in E. simpl in E. apply lookup_insert_Some in E as [[_ <-]|[_ E]]; [|done]. apply _.
Qed.

Lemma queued_reachable timely : reachable sample_worker timely 0 queued.
Proof.
  apply (reach_step _ _ _ (mkState 0 sample_table ∅ [] [])); [|apply (st_enqueue sample_worker timely)].
  eapply reach_step; [apply reach_init|]. apply (st_quarantine sample_worker timely (initial 0) sample_table).
  - intros id. unfold initial. cbn [s_quarantine]. rewrite lookup_empty. destruct (sample_table !! id) as [q|] eqn:E; [|done].
    unfold sample_table in E. apply lookup_insert_Some in E as [[<- <-]|[_ E]]; [done|].
    by apply lookup_singleton_Some in E as [<- <-].
  - intros id [q E]. unfold sample_table in E. apply lookup_insert_Some in E as [[<- _]|[_ E]]; [done|]. by apply lookup_singleton_Some in E as [<- _].
Qed.

Lemma claim_all_reachable timely s : reachable sample_worker timely 0 s → reachable sample_worker timely 0 (claim_all s).
Proof.
  intros R. eapply reach_step; [exact R|]. unfold claim_all.
  destruct (ClaimDueNotifications _ _ _ _ _ _) as [rows o] eqn:E. by eapply (st_claim sample_worker timely).
Qed.

(** Two items claimed at once are both in flight. *)
Lemma deliveries_exclusive_witness :
  in_flight (claim_all queued) = [("q-1", "slack"); ("q-2", "slack")] ∧ NoDup (in_flight (claim_all queued)).
Proof.
  split; [vm_compute; reflexivity|].
  apply (deliveries_exclusive sample_worker true sample_channels 0); [reflexivity|].
  apply claim_all_reachable, queued_reachable.
Defined.

(** Without the timing assumption the lease expires under a slow delivery, and another
    claim starts a second delivery of the same notification. *)
Lemma lease_overlap : ∃ s, reachable sample_worker false 0 s ∧ ¬ NoDup (in_flight s).
Proof.
  exists (claim_all (let s := claim_all queued in mkState lease (s_quarantine s) (s_outbox s) (s_running s) (s_sends s))).
  split.
  - apply claim_all_reachable. eapply reach_step; [apply claim_all_reachable, queued_reachable|].
    apply (st_time sample_worker false (claim_all queued)); [by vm_compute|done].
  - intros N. assert (bool_decide (NoDup (in_flight (claim_all (let s := claim_all queued in
      mkState lease (s_quarantine s) (s_outbox s) (s_running s) (s_sends s))))) = false) as B by (vm_compute; reflexivity).
    by apply bool_decide_eq_false in B.
Qed.

(** The first delivery makes a call that leaves the outbox alone. *)
Definition call_first (answer : ∀ c, ans c) (s : state) : state :=
  match s_running s !! O with
  | Some (f, Do c k) =>
      mkState (s_now s) (s_quarantine s) (s_outbox s) (<[O := (f, k (answer c))]> (s_running s))
        (if is_post c then s_sends s ++ [fl_row f] else s_sends s)
  | _ => s
  end.

Definition sample_answer (c : cmd) : ans c :=
  match c return ans c with CGetRow id => QStore.GetQuarantineEntry id sample_table | c => quiet_answer c end.

Definition reads_or_posts (s : state) : bool :=
  match s_running s !! O with Some (_, Do (CGetRow _ | CPost _ _ _) _) => true | _ => false end.

Lemma call_first_reachable timely s :
  reads_or_posts s = true → s_quarantine s = sample_table →
  reachable sample_worker timely 0 s → reachable sample_worker timely 0 (call_first sample_answer s).
Proof.
  unfold reads_or_posts, call_first. intros D Q R. destruct (s_running s !! O) as [[f [|c k]]|] eqn:E; [done| |done].
  eapply reach_step; [exact R|]. apply (st_call sample_worker timely s O f c k); [done|].
  destruct c; try done; simpl. rewrite Q. by split; [left|].
Qed.

(** The first delivery has read its item and posted. *)
Definition posted : state := call_first sample_answer (call_first sample_answer (claim_all queued)).

Lemma posted_reachable : reachable sample_worker true 0 posted.
Proof.
  do 2 (apply call_first_reachable; [vm_compute; reflexivity|reflexivity|]). apply claim_all_reachable, queued_reachable.
Qed.

Lemma notifications_bounded_witness :
  length (filter (λ row, row_key row = ("q-1", "slack")) (s_sends posted)) = 1%nat
  ∧ Z.of_nat (length (filter (λ row, row_key row = ("q-1", "slack")) (s_sends posted))) <= maxAttempts.
Proof.
  split; [vm_compute; reflexivity|].
  apply (notifications_bounded sample_worker true sample_channels 0 posted "q-1" "slack"), posted_reachable.
Defined.

End NotifyConc.
