(* ===== verification/QHandler.v ===== *)
(** * The reviewers' quarantine API

    [internal/quarantine/handler.go] and [QuarantineEntry.MarshalJSON] of
    [internal/db/compat.go].  The store and the ledger answer arbitrarily. *)

From S2P Require Import Prelude GoStrings GoTime Sha256 Types GoJson GoBase64 Effects Auth ProxyIngress Proxy QStore.
From stdpp Require Import base tactics strings list gmap pretty.
From Stdlib Require Import ZArith Lia.

Local Open Scope Z_scope.

Import Auth QStore.

Module QHandler.

Definition maxDenyBodyBytes : Z := Z.shiftl 1 10.

Definition ErrAuditUnavailable : error :=
  mkErr (Some SAuditUnavailable) "decision recorded but audit unavailable".

Definition validStatuses : list string :=
  [StatusPending; StatusApproved; StatusReplaying; StatusReplayed; StatusReplayFailed; StatusDenied].

(** [payloadHash] *)
Definition payloadHash (payload : string) : string := Sha256.hex256 payload.

(** The response of [http.Error] once the handler has set its content type: the
    call replaces it. *)
Definition error_response (msg : string) (code : Z) : Response any := http_Error (json_error msg) code.

(** [Handler.writeStoreError] *)
Definition writeStoreError (err : error) : Response any :=
  if errors_Is err SNotFound then error_response "quarantine item not found" 404
  else if errors_Is err SAlreadyResolved then error_response "quarantine item already resolved" 409
  else error_response "internal server error" 500.

(** [Handler.writeDecisionError] *)
Definition writeDecisionError (err : error) : Response any :=
  if errors_Is err SAuditUnavailable then error_response "decision recorded but audit unavailable" 503
  else writeStoreError err.

(** [reviewerIdentity] *)
Definition reviewerIdentity (r : Request) : option string :=
  match FromContext r with
  | Some ident =>
      if negb (String.eqb (id_Role ident) RoleReviewer) && negb (String.eqb (id_Role ident) RoleAdmin)
      then None else Some (id_ID ident)
  | None => None
  end.

Section handler.
Context `{UnicodeTables}.
(** Whether a ledger store is wired, and how [encoding/json] writes a [time.Time]. *)
Variable has_ledger : bool.
Variable time_text : Z → string.

(** [QuarantineEntry.MarshalJSON]; it fails when the stored headers are not JSON. *)
Definition MarshalJSON (e : QuarantineEntry) : option any :=
  let nullableTime t := match t with Some t => AString (time_text t) | None => ANil end in
  let headers := if String.eqb (qe_RequestHeaders e) "" then "{}" else qe_RequestHeaders e in
  match json_tree (coerce_utf8 headers) with
  | None => None
  | Some hs => Some (AObject
      [("ID", AString (qe_ID e)); ("AgentID", AString (qe_AgentID e)); ("ToolName", AString (qe_ToolName e));
       ("Payload", AString (b64_encode (qe_Payload e))); ("Status", AString (qe_Status e));
       ("CreatedAt", AString (time_text (qe_CreatedAt e))); ("ResolvedAt", nullableTime (qe_ResolvedAt e));
       ("ResolvedBy", AString (qe_ResolvedBy e)); ("Reason", AString (qe_Reason e));
       ("Attempts", ANumber (pretty (qe_Attempts e))); ("ReplayedAt", nullableTime (qe_ReplayedAt e));
       ("RequestHeaders", hs); ("PolicyRule", AString (qe_PolicyRule e)); ("Explanation", AString (qe_Explanation e))])
  end.

(** [json.NewEncoder(w).Encode]: a value that does not marshal leaves the body empty. *)
Definition encode_response (v : option any) : Response any :=
  mkResponse 200 [("Content-Type", "application/json")] (match v with Some v => BJson v | None => BNone end).

(** [Handler.appendLedger] *)
Definition appendLedger (entry : QuarantineEntry) (reviewerID decision rule : string) : prog (option error) :=
  if has_ledger then
    appended ← call (CAppend (mkLedger 0 GoTime.zero_time reviewerID (qe_ToolName entry) decision rule
                                (payloadHash (qe_Payload entry)) "" "" (qe_ID entry) ""));
    match (appended : option error) with
    | Some _ => mret (Some ErrAuditUnavailable)
    | None => mret None
    end
  else mret None.

(** [Handler.Approve] and [Handler.Deny] *)
Definition Handler_Approve (id reviewerID : string) : prog (option error) :=
  got ← call (CGet id);
  match (got : result QuarantineEntry) with
  | Err err => mret (Some err)
  | Ok entry =>
      approved ← call (CApprove id reviewerID);
      match (approved : option error) with
      | Some err => mret (Some err)
      | None => appendLedger entry reviewerID "approved" "hitl_approval"
      end
  end.
Definition Handler_Deny (id reviewerID reason : string) : prog (option error) :=
  got ← call (CGet id);
  match (got : result QuarantineEntry) with
  | Err err => mret (Some err)
  | Ok entry =>
      denied ← call (CDeny id reviewerID reason);
      match (denied : option error) with
      | Some err => mret (Some err)
      | None => appendLedger entry reviewerID "denied" "hitl_denial"
      end
  end.

(** The answer to a decision; [encoding/json] writes the keys of a map in order. *)
Definition decided (status id : string) (err : option error) : Response any :=
  match err with
  | Some e => writeDecisionError e
  | None => encode_response (Some (AObject [("id", AString id); ("status", AString status)]))
  end.

(** [Handler.approveEntry] *)
Definition approveEntry (r : Request) (id : string) : prog (Response any) :=
  match reviewerIdentity r with
  | None => mret (error_response "reviewer or admin role required" 403)
  | Some reviewerID =>
      err ← Handler_Approve id reviewerID;
      mret (decided "approved" id err)
  end.

(** The members of the deny body whose name matches [reason]: the last string wins,
    [null] leaves the field alone, another type is an error. *)
Fixpoint reason_members (ms : list (string * any)) (reason : string) : option string :=
  match ms with
  | [] => Some reason
  | (k, v) :: rest =>
      if String.eqb k "reason" || equal_fold k "reason" then
        match v with
        | AString s => reason_members rest s
        | ANil => reason_members rest reason
        | _ => None
        end
      else reason_members rest reason
  end.

(** The two [Decode] calls of [denyEntry]: nothing, or exactly one value of the right
    shape, within the size cap. *)
Definition deny_reason (stream : BodyStream) : option string :=
  match Proxy.read_body maxDenyBodyBytes stream with
  | Err _ => None
  | Ok body =>
      match lex LBase (coerce_utf8 body) with
      | Some [] => Some ""
      | _ =>
          match json_tree (coerce_utf8 body) with
          | Some (AObject ms) => reason_members ms ""
          | Some ANil => Some ""
          | _ => None
          end
      end
  end.

(** [Handler.denyEntry] *)
Definition denyEntry (r : Request) (stream : BodyStream) (id : string) : prog (Response any) :=
  match reviewerIdentity r with
  | None => mret (error_response "reviewer or admin role required" 403)
  | Some reviewerID =>
      match deny_reason stream with
      | None => mret (error_response "invalid request body" 400)
      | Some reason =>
          err ← Handler_Deny id reviewerID reason;
          mret (decided "denied" id err)
      end
  end.

(** [Handler.listPending] *)
Definition listPending (r : Request) : prog (Response any) :=
  let q := query_get (rq_Query r) "status" in
  let status := if String.eqb q "" then StatusPending else q in
  if negb (bool_decide (status ∈ validStatuses)) then mret (error_response "unknown status" 400)
  else
    listed ← call (CList status);
    match (listed : result (list QuarantineEntry)) with
    | Err _ => mret (error_response "internal server error" 500)
    | Ok entries => mret (encode_response (AArray <$> mapM MarshalJSON entries))
    end.

(** [Handler.getEntry] *)
Definition getEntry (id : string) : prog (Response any) :=
  got ← call (CGet id);
  match (got : result QuarantineEntry) with
  | Err err => mret (writeStoreError err)
  | Ok entry => mret (encode_response (MarshalJSON entry))
  end.

(** [Handler.ServeHTTP] *)
Definition ServeHTTP (r : Request) (stream : BodyStream) : prog (Response any) :=
  let path := trim_prefix (trim_prefix (rq_Path r) "/api/v1/quarantine") "/" in
  if String.eqb (rq_Method r) "GET" && String.eqb path "" then listPending r
  else if String.eqb (rq_Method r) "GET" && negb (String.eqb path "") then getEntry path
  else if String.eqb (rq_Method r) "POST" && has_suffix path "/approve" then
    approveEntry r (trim_suffix path "/approve")
  else if String.eqb (rq_Method r) "POST" && has_suffix path "/deny" then
    denyEntry r stream (trim_suffix path "/deny")
  else mret (error_response "not found" 404).

(** ** What reviewers' requests do *)

(** The decisions submitted to the store: kind, item, reviewer, answer. *)
Definition resolved_of (e : event) : list (string * string * string * option error) :=
  match e with
  | Ev (CApprove id by_) x => [("approved", id, by_, x)]
  | Ev (CDeny id by_ _) x => [("denied", id, by_, x)]
  | _ => []
  end.
Definition resolved (tr : list event) := concat (map resolved_of tr).

(** The ledger entry of a decision on [entry]. *)
Definition hitl_entry (reviewerID kind : string) (entry : QuarantineEntry) : LedgerEntry :=
  mkLedger 0 GoTime.zero_time reviewerID (qe_ToolName entry) kind
    (if String.eqb kind "approved" then "hitl_approval" else "hitl_denial")
    (payloadHash (qe_Payload entry)) "" "" (qe_ID entry) "".

Lemma runs_appendLedger entry by_ kind rule tr err :
  runs (appendLedger entry by_ kind rule) tr err →
  resolved tr = []
  ∧ ((err = None ∧ appended tr = (if has_ledger then
        [mkLedger 0 GoTime.zero_time by_ (qe_ToolName entry) kind rule (payloadHash (qe_Payload entry)) "" ""
           (qe_ID entry) ""] else []))
     ∨ (has_ledger = true ∧ err = Some ErrAuditUnavailable ∧ appended tr = [])).
Proof.
  unfold appendLedger. destruct has_ledger.
  - intros R. apply runs_call in R as ([e|] & tr' & -> & R); destruct R as [-> ->]; split; auto.
  - intros [-> ->]. auto.
Qed.

(** What a decision does: nothing, or one submission to the store and, once that is
    accepted, its ledger entry. *)
Definition decision_made (kind id by_ : string) (tr : list event) (err : option error) : Prop :=
  (resolved tr = [] ∧ appended tr = [] ∧ err ≠ None)
  ∨ ∃ entry x tail, tr = Ev (CGet id) (Ok entry) :: tail ∧ resolved tr = [(kind, id, by_, x)]
      ∧ match x with
        | Some e => appended tr = [] ∧ err = Some e
        | None =>
            (err = None ∧ appended tr = (if has_ledger then [hitl_entry by_ kind entry] else []))
            ∨ (has_ledger = true ∧ err = Some ErrAuditUnavailable ∧ appended tr = [])
        end.

(** Both decisions have one shape: fetch, submit, record. *)
Lemma runs_submit kind id by_ (submit : cmd) (answer : ans submit → option error) rule tr err :
  (∀ x, resolved_of (Ev submit x) = [(kind, id, by_, answer x)]) →
  (∀ x, appended_of (Ev submit x) = []) →
  rule = (if String.eqb kind "approved" then "hitl_approval" else "hitl_denial") →
  runs (got ← call (CGet id);
        match (got : result QuarantineEntry) with
        | Err err => mret (Some err)
        | Ok entry =>
            x ← call submit;
            match answer x with
            | Some err => mret (Some err)
            | None => appendLedger entry by_ kind rule
            end
        end) tr err →
  decision_made kind id by_ tr err.
Proof.
  intros Rs Ap -> R. apply runs_call in R as ([entry|e] & t' & -> & R).
  2: { destruct R as [-> ->]. by left. }
  right. apply runs_call in R as (x & t'' & -> & R). exists entry, (answer x), (Ev submit x :: t'').
  assert (∀ t, resolved (Ev (CGet id) (Ok entry) :: Ev submit x :: t) = (kind, id, by_, answer x) :: resolved t) as ->.
  { intros t. unfold resolved. cbn [map concat]. by rewrite Rs. }
  assert (∀ t, appended (Ev (CGet id) (Ok entry) :: Ev submit x :: t) = appended t) as ->.
  { intros t. unfold appended. cbn [map concat]. by rewrite Ap. }
  destruct (answer x) as [e|] eqn:A; cbn [prog_mbind prog_bind] in R; rewrite A in R.
  { destruct R as [-> ->]. done. }
  apply runs_appendLedger in R as (-> & [[-> E]|(L & -> & E)]); (split_and!; [done..|]); rewrite E; auto.
Qed.

Lemma runs_Approve id by_ tr err : runs (Handler_Approve id by_) tr err → decision_made "approved" id by_ tr err.
Proof. by apply (runs_submit "approved" id by_ (CApprove id by_) (λ x, x)). Qed.
Lemma runs_Deny id by_ reason tr err : runs (Handler_Deny id by_ reason) tr err → decision_made "denied" id by_ tr err.
Proof. by apply (runs_submit "denied" id by_ (CDeny id by_ reason) (λ x, x)). Qed.

(** *** What a request asks for and what it gets *)

(** A decision, with the reason given for a denial. *)
Inductive verdict : Type := Approval | Denial (reason : string).
Definition verdict_name (v : verdict) : string := match v with Approval => "approved" | Denial _ => "denied" end.
Definition verdict_rule (v : verdict) : string := match v with Approval => "hitl_approval" | Denial _ => "hitl_denial" end.

(** The path names the item and the decision, with or without the API's prefix. *)
Definition asks (path : string) (v : verdict) (id : string) : Prop :=
  ∃ rest name,
    (path = "/api/v1/quarantine" +:+ rest ∨ (∀ r, path ≠ "/api/v1/quarantine" +:+ r) ∧ rest = path)
    ∧ (rest = "/" +:+ name ∨ (∀ r, rest ≠ "/" +:+ r) ∧ name = rest)
    ∧ name = id +:+ match v with Approval => "/approve" | Denial _ => "/deny" end.

(** The body of a denial: nothing, or a short JSON object with the reason. *)
Definition reason_given (stream : BodyStream) (reason : string) : Prop :=
  bs_err stream = None ∧ strlen (bs_bytes stream) <= 1024
  ∧ (bs_bytes stream = "" ∧ reason = ""
     ∨ json_tree (coerce_utf8 (bs_bytes stream)) = Some (AObject [("reason", AString reason)])).

(** The submission to the store with its answer, and its ledger entry. *)
Definition submitted (v : verdict) (id by_ : string) (x : option error) : event :=
  match v with Approval => Ev (CApprove id by_) x | Denial reason => Ev (CDeny id by_ reason) x end.
Definition recorded (v : verdict) (by_ : string) (entry : QuarantineEntry) (x : option error) : event :=
  Ev (CAppend (mkLedger 0 GoTime.zero_time by_ (qe_ToolName entry) (verdict_name v) (verdict_rule v)
                 (Sha256.hex256 (qe_Payload entry)) "" "" (qe_ID entry) "")) x.

(** What a failure is reported as. *)
Definition refusal_status (e : error) : Z :=
  match err_root e with
  | Some SNotFound => 404
  | Some SAlreadyResolved => 409
  | Some SAuditUnavailable => 503
  | _ => 500
  end.

(** Every call of a decision and its answer. *)
Definition decision_outcome (v : verdict) (id by_ : string) (tr : list event) (resp : Response any) : Prop :=
  (∃ e, tr = [Ev (CGet id) (Err e)] ∧ rs_Status resp = refusal_status e)
  ∨ (∃ entry e, tr = [Ev (CGet id) (Ok entry); submitted v id by_ (Some e)] ∧ rs_Status resp = refusal_status e)
  ∨ (∃ entry e, has_ledger = true ∧ rs_Status resp = 503
       ∧ tr = [Ev (CGet id) (Ok entry); submitted v id by_ None; recorded v by_ entry (Some e)])
  ∨ ∃ entry,
      tr = [Ev (CGet id) (Ok entry); submitted v id by_ None] ++ (if has_ledger then [recorded v by_ entry None] else [])
      ∧ resp = mkResponse 200 [("Content-Type", "application/json")]
                 (BJson (AObject [("id", AString id); ("status", AString (verdict_name v))])).

Lemma refusal_reported err : rs_Status (writeDecisionError err) = refusal_status err.
Proof.
  unfold writeDecisionError, writeStoreError, errors_Is, refusal_status.
  destruct (err_root err) as [[]|]; reflexivity.
Qed.

Definition Handler_Decide (v : verdict) (id by_ : string) : prog (option error) :=
  match v with Approval => Handler_Approve id by_ | Denial reason => Handler_Deny id by_ reason end.

Lemma runs_Decide v id by_ tr resp :
  runs (err ← Handler_Decide v id by_; mret (decided (verdict_name v) id err)) tr resp → decision_outcome v id by_ tr resp.
Proof.
  intros R. apply runs_bind in R as (t1 & t2 & err & -> & R & [-> ->]). rewrite app_nil_r.
  assert (∃ got tr', t1 = Ev (CGet id) got :: tr' ∧ match got with
    | Err e => tr' = [] ∧ err = Some e
    | Ok entry => ∃ x tr2, tr' = submitted v id by_ x :: tr2 ∧ match x with
        | Some e => tr2 = [] ∧ err = Some e
        | None => runs (appendLedger entry by_ (verdict_name v) (verdict_rule v)) tr2 err end end) as (got & tr' & -> & K).
  { destruct v as [|reason]; destruct R as (got & tr' & -> & R); exists got, tr'; (split; [done|]);
      (destruct got as [entry|e]; [|by destruct R]); destruct R as (x & tr2 & -> & R); exists x, tr2; (split; [done|]);
      by destruct x. }
  destruct got as [entry|e]; [|destruct K as [-> ->]; left; exists e; split; [done|apply refusal_reported]].
  right. destruct K as (x & tr2 & -> & K). destruct x as [e|].
  { destruct K as [-> ->]. left. exists entry, e. split; [done|apply refusal_reported]. }
  right. unfold appendLedger in K. destruct has_ledger eqn:L.
  - destruct K as (y & tr3 & -> & K). destruct y as [e|]; destruct K as [-> ->]; [left|right].
    + by exists entry, e.
    + by exists entry.
  - destruct K as [-> ->]. right. by exists entry.
Qed.

Lemma trim_prefix_cases s p : s = p +:+ trim_prefix s p ∨ (∀ r, s ≠ p +:+ r) ∧ trim_prefix s p = s.
Proof.
  unfold trim_prefix. destruct (has_prefix s p) eqn:E; [left; by apply has_prefix_drop|]. right. split; [|done].
  intros r ->. by rewrite has_prefix_append in E.
Qed.

(** The path the handler works on. *)
Definition item_path (r : Request) : string := trim_prefix (trim_prefix (rq_Path r) "/api/v1/quarantine") "/".

Lemma asks_path r v id :
  asks (rq_Path r) v id ↔ item_path r = id +:+ match v with Approval => "/approve" | Denial _ => "/deny" end.
Proof.
  unfold asks, item_path. split.
  - intros (rest & name & R & N & <-).
    assert (trim_prefix (rq_Path r) "/api/v1/quarantine" = rest) as ->.
    { destruct R as [->|[R ->]]; [apply trim_prefix_append|]. by destruct (trim_prefix_cases (rq_Path r) "/api/v1/quarantine") as [?%R|[_ ?]]. }
    destruct N as [->|[N ->]]; [apply trim_prefix_append|]. by destruct (trim_prefix_cases rest "/") as [?%N|[_ ?]].
  - intros E. exists (trim_prefix (rq_Path r) "/api/v1/quarantine"), (item_path r). split_and!; [|apply trim_prefix_cases|exact E].
    destruct (trim_prefix_cases (rq_Path r) "/api/v1/quarantine") as [?|[? ->]]; [by left|by right].
Qed.

Lemma last_byte a b x y : a +:+ String x "" = b +:+ String y "" → x = y.
Proof.
  revert b. induction a as [|c a IH]; intros [|d b] E; rewrite ?app_str_cons in E.
  - by injection E.
  - destruct b; rewrite ?app_str_cons in E; discriminate E.
  - destruct a; rewrite ?app_str_cons in E; discriminate E.
  - injection E as _ E. by eapply IH.
Qed.

Lemma deny_not_approve id : has_suffix (id +:+ "/deny") "/approve" = false.
Proof.
  apply not_true_iff_false. intros [r E]%has_suffix_iff.
  change "/approve" with ("/approv" +:+ "e") in E. change "/deny" with ("/den" +:+ "y") in E. rewrite <- !app_str_assoc in E.
  apply last_byte in E. discriminate E.
Qed.

Lemma reason_read stream reason : reason_given stream reason → deny_reason stream = Some reason.
Proof.
  intros (E & L & B). unfold deny_reason, Proxy.read_body, maxDenyBodyBytes.
  destruct (Z.ltb_spec (Z.max 0 (Z.shiftl 1 10)) (strlen (bs_bytes stream))) as [G|_]; [change (1024 < strlen (bs_bytes stream)) in G; lia|].
  rewrite E. destruct B as [[-> ->]|J]; [reflexivity|]. rewrite J. apply json_tree_spec in J as [-> _]. reflexivity.
Qed.

(** Every call of the handler: a decision is submitted by an authenticated reviewer, on the
    item and of the kind the path names, after the item was read. *)
Definition review_guard (r : Request) (hist : list event) (c : cmd) : Prop :=
  match c with
  | CApprove id by_ =>
      rq_Method r = "POST" ∧ reviewerIdentity r = Some by_ ∧ asks (rq_Path r) Approval id ∧ ∃ entry, hist = [Ev (CGet id) (Ok entry)]
  | CDeny id by_ reason =>
      rq_Method r = "POST" ∧ reviewerIdentity r = Some by_ ∧ asks (rq_Path r) (Denial reason) id
      ∧ ∃ entry, hist = [Ev (CGet id) (Ok entry)]
  | CGet _ | CList _ | CAppend _ => True
  | _ => False
  end.

Lemma append_guarded r hist entry by_ kind rule : safe (review_guard r) hist (appendLedger entry by_ kind rule).
Proof. unfold appendLedger. destruct has_ledger; [|done]. split; [done|]. by intros [|]. Qed.

Lemma suffix_path r suffix : has_suffix (item_path r) suffix = true → item_path r = trim_suffix (item_path r) suffix +:+ suffix.
Proof. intros [p ->]%has_suffix_iff. by rewrite trim_suffix_append. Qed.

Lemma reviews_guarded r stream : safe (review_guard r) [] (ServeHTTP r stream).
Proof.
  unfold ServeHTTP. fold (item_path r). cbn zeta. destruct (String.eqb (rq_Method r) "GET" && String.eqb _ "").
  { unfold listPending. destruct (negb _); [done|]. split; [done|]. by intros []. }
  destruct (String.eqb (rq_Method r) "GET" && _). { split; [done|]. by intros []. }
  destruct (String.eqb_spec (rq_Method r) "POST") as [M|]; [|done]. cbn [andb].
  destruct (has_suffix _ "/approve") eqn:Sa.
  { unfold approveEntry. destruct (reviewerIdentity r) as [by_|] eqn:I; [|done]. apply safe_map.
    split; [done|]. intros [entry|]; [|done]. split; [|intros [|]; [done|apply append_guarded]].
    split_and!; eauto. by apply asks_path, suffix_path. }
  destruct (has_suffix _ "/deny") eqn:Sd; [|done]. unfold denyEntry.
  destruct (reviewerIdentity r) as [by_|] eqn:I; [|done]. destruct (deny_reason stream) as [reason|]; [|done]. apply safe_map.
  split; [done|]. intros [entry|]; [|done]. split; [|intros [|]; [done|apply append_guarded]].
  split_and!; eauto. by apply asks_path, suffix_path.
Qed.

Lemma reviewer_known r ident :
  rq_Identity r = Some ident → id_Role ident = RoleReviewer ∨ id_Role ident = RoleAdmin → reviewerIdentity r = Some (id_ID ident).
Proof. unfold reviewerIdentity, FromContext. intros ->. by intros [-> | ->]. Qed.

Lemma reviewer_proven r rid :
  reviewerIdentity r = Some rid →
  ∃ ident, rq_Identity r = Some ident ∧ rid = id_ID ident ∧ (id_Role ident = RoleReviewer ∨ id_Role ident = RoleAdmin).
Proof.
  unfold reviewerIdentity, FromContext. destruct (rq_Identity r) as [ident|]; [|done].
  destruct (String.eqb_spec (id_Role ident) RoleReviewer), (String.eqb_spec (id_Role ident) RoleAdmin); intros [= <-]; eauto.
Qed.

Lemma serve_post r stream :
  rq_Method r = "POST" →
  ServeHTTP r stream
  = (if has_suffix (item_path r) "/approve" then approveEntry r (trim_suffix (item_path r) "/approve")
     else if has_suffix (item_path r) "/deny" then denyEntry r stream (trim_suffix (item_path r) "/deny")
     else mret (error_response "not found" 404)).
Proof. intros M. unfold ServeHTTP. rewrite M. reflexivity. Qed.

(** Every other request reads at most. *)
Lemma serve_other r stream tr resp :
  rq_Method r ≠ "POST" → runs (ServeHTTP r stream) tr resp → resolved tr = [] ∧ appended tr = [].
Proof.
  intros M R. unfold ServeHTTP in R. rewrite (proj2 (String.eqb_neq _ _) M) in R. cbn [andb] in R.
  destruct (_ && String.eqb _ "").
  { unfold listPending in R. destruct (negb _); [by destruct R as [-> _]|].
    apply runs_call in R as ([]& t & -> & R); by destruct R as [-> _]. }
  destruct (String.eqb (rq_Method r) "GET" && _); [|by destruct R as [-> _]].
  apply runs_call in R as ([]& t & -> & R); by destruct R as [-> _].
Qed.

(** A POST does nothing, or decides as its path and its reviewer say. *)
Lemma post_decides r stream tr resp :
  rq_Method r = "POST" → runs (ServeHTTP r stream) tr resp →
  tr = [] ∨ ∃ rid v id, reviewerIdentity r = Some rid ∧ asks (rq_Path r) v id
    ∧ match v with Approval => True | Denial reason => deny_reason stream = Some reason end.
Proof.
  intros M R. rewrite (serve_post _ _ M) in R. unfold approveEntry, denyEntry in R.
  destruct (reviewerIdentity r) as [rid|]; [|left; destruct (has_suffix (item_path r) "/approve"), (has_suffix (item_path r) "/deny"); by destruct R as [-> _]].
  destruct (has_suffix (item_path r) "/approve") eqn:Sa.
  { right. exists rid, Approval, (trim_suffix (item_path r) "/approve"). split_and!; [done| |done]. by apply asks_path, suffix_path. }
  destruct (has_suffix (item_path r) "/deny") eqn:Sd; [|left; by destruct R as [-> _]].
  destruct (deny_reason stream) as [reason|]; [|left; by destruct R as [-> _]].
  right. exists rid, (Denial reason), (trim_suffix (item_path r) "/deny"). split_and!; [done| |done]. by apply asks_path, suffix_path.
Qed.

(** A POST on a decision's path is that decision. *)
Lemma serve_decision r stream v id rid :
  rq_Method r = "POST" → reviewerIdentity r = Some rid → asks (rq_Path r) v id →
  match v with Approval => True | Denial reason => deny_reason stream = Some reason end →
  ServeHTTP r stream = (err ← Handler_Decide v id rid; mret (decided (verdict_name v) id err)).
Proof.
  intros M I A D. apply asks_path in A. rewrite (serve_post _ _ M), A. destruct v as [|reason].
  - rewrite (proj2 (has_suffix_iff _ _)) by eauto. rewrite trim_suffix_append. unfold approveEntry. by rewrite I.
  - rewrite deny_not_approve, (proj2 (has_suffix_iff _ _)) by eauto. rewrite trim_suffix_append.
    unfold denyEntry. by rewrite I, D.
Qed.

End handler.

(** ** Witness *)

#[local] Existing Instance ascii_tables.

Definition sample_entry : QuarantineEntry :=
  mkQuarantineEntry "q1" "agent-7" "search" "{}" StatusPending 0 None "" "" 0 None "{}" "rule" "why".
Definition sample_env (c : cmd) (s : Z) : ans c * Z :=
  match c as c return ans c * Z with
  | CGet _ => (Ok sample_entry, s)
  | c => Proxy.sample_env ActionAllow c s
  end.
Definition sample_approval : Request :=
  mkRequest "POST" "/api/v1/quarantine/q1/approve" [] ∅ "" (Some (mkIdentity "rev" RoleReviewer)).

End QHandler.
