(* ===== verification/GoMux.v ===== *)
(** * [http.ServeMux] and [http.StripPrefix]

    Patterns without hosts and without named wildcards: an optional method and a path,
    which matches the path itself or, when it ends in a slash, the tree below it.
    Matching is by unescaped segments of the escaped path, literal segments before
    trees, a pattern of the method before one without. *)

From S2P Require Import Prelude GoStrings Types GoUrl Effects Proxy.
From stdpp Require Import base tactics strings list gmap.
From Stdlib Require Import ZArith Lia Ascii.

Local Open Scope Z_scope.

Module GoMux.

(** ** Requests as the server hands them out *)

(** The request, its body, and the parts of the URL the mux reads. *)
Record Inbound : Type := mkInbound {
  in_req : Request;
  in_body : BodyStream;
  in_EscapedPath : string;
  in_RawPath : string;
  in_RawQuery : string
}.
Abbreviation Handler := (Inbound → prog (Response any)).

Definition with_req (x : Inbound) (r : Request) : Inbound :=
  mkInbound r (in_body x) (in_EscapedPath x) (in_RawPath x) (in_RawQuery x).

Definition NotFound : Response any := http_Error "404 page not found" 404.

(** [http.StripPrefix] *)
Definition strip_request (prefix : string) (x : Inbound) : Inbound :=
  let r := in_req x in
  mkInbound (mkRequest (rq_Method r) (trim_prefix (rq_Path r) prefix) (rq_Query r) (rq_Header r) (rq_Body r) (rq_Identity r))
    (in_body x) (in_EscapedPath x) (trim_prefix (in_RawPath x) prefix) (in_RawQuery x).
Definition StripPrefix (prefix : string) (h : Handler) : Handler := λ x,
  if (String.length (trim_prefix (rq_Path (in_req x)) prefix) <? String.length (rq_Path (in_req x)))%nat
     && (String.eqb (in_RawPath x) ""
         || (String.length (trim_prefix (in_RawPath x) prefix) <? String.length (in_RawPath x))%nat)
  then h (strip_request prefix x)
  else mret NotFound.

(** ** Paths *)

(** [path.Clean] of a rooted path, by its segments. *)
Definition clean_step (acc : list string) (seg : string) : list string :=
  if String.eqb seg "" || String.eqb seg "." then acc
  else if String.eqb seg ".." then removelast acc
  else acc ++ [seg].
Definition join_path (segs : list string) : string := "/" +:+ String.concat "/" segs.

(** [cleanPath] *)
Definition cleanPath (p : string) : string :=
  let p := if has_prefix p "/" then p else "/" +:+ p in
  let segs := foldl clean_step [] (split_byte (byte_of 47) p) in
  join_path segs +:+ (if has_suffix p "/" && negb (bool_decide (segs = [])) then "/" else "").

(** [url.PathUnescape], and the text itself when it has a malformed escape. *)
Fixpoint path_unescape (s : string) : option string :=
  match s with
  | EmptyString => Some ""
  | String c s' =>
      if byte_val c =? 37 then
        match s' with
        | String a (String b s'') =>
            match GoJson.hex_value a, GoJson.hex_value b with
            | Some x, Some y => String (byte_of (16 * x + y)) <$> path_unescape s''
            | _, _ => None
            end
        | _ => None
        end
      else String c <$> path_unescape s'
  end.
Definition segment (s : string) : string := default s (path_unescape s).

(** The segments of a rooted path, unescaped, and whether it ends in a slash. *)
Definition path_segments (p : string) : list string * bool :=
  let raw := tail (split_byte (byte_of 47) p) in
  if bool_decide (last raw = Some "") then (map segment (removelast raw), true) else (map segment raw, false).

(** ** Patterns *)

Record Pattern : Type := mkPattern { pt_method : string; pt_segs : list string; pt_tree : bool }.
#[export] Instance pattern_eq_dec : EqDecision Pattern.
Proof. solve_decision. Defined.

(** A pattern written as in the program. *)
Definition pattern (method path : string) : Pattern :=
  let '(segs, tree) := path_segments path in mkPattern method segs tree.

Definition pattern_matches (p : Pattern) (segs : list string) (slash : bool) : bool :=
  if pt_tree p then
    bool_decide (take (length (pt_segs p)) segs = pt_segs p)
    && (slash || (length (pt_segs p) <? length segs)%nat)
  else bool_decide (segs = pt_segs p) && negb slash.

(** Literal segments win over trees at every position: the most segments, and of a path
    and a tree with the same, the path. *)
Definition rank (p : Pattern) : nat := 2 * length (pt_segs p) + (if pt_tree p then 0 else 1).

Section mux.
Context {A : Type}.
Variable entries : list (Pattern * A).

Definition best (cands : list (Pattern * A)) : option (Pattern * A) :=
  foldl (λ acc e, match acc with
                  | Some b => if (rank b.1 <? rank e.1)%nat then Some e else acc
                  | None => Some e
                  end) None cands.
Definition tree_match (method path : string) : option (Pattern * A) :=
  let '(segs, slash) := path_segments path in
  best (List.filter (λ e, String.eqb (pt_method e.1) method && pattern_matches e.1 segs slash) entries).

(** [routingNode.match]: the method's patterns, [GET]'s for [HEAD], those of any method. *)
Definition match_request (method path : string) : option (Pattern * A) :=
  match (if String.eqb method "" then None else tree_match method path) with
  | Some e => Some e
  | None =>
      match (if String.eqb method "HEAD" then tree_match "GET" path else None) with
      | Some e => Some e
      | None => tree_match "" path
      end
  end.

(** [exactMatch] *)
Definition exactMatch (e : option (Pattern * A)) (path : string) : bool :=
  match e with
  | None => false
  | Some (p, _) => if pt_tree p then has_suffix path "/" && (length (path_segments path).1 =? length (pt_segs p))%nat else true
  end.

Inductive found : Type :=
  | Found (h : A)
  | Moved (path : string)
  | NotAllowed (allow : list string)
  | Missing.

(** [ServeMux.findHandler]: a tree without its slash and a path that is not clean are
    redirected; otherwise the methods another pattern would take decide between 405 and
    404; the program's patterns take one method each, so the list is sorted as it is. *)
Definition allowed_methods (path : string) : list string :=
  let '(segs, slash) := path_segments path in
  let ms := map (λ e, pt_method e.1) (List.filter (λ e, pattern_matches e.1 segs slash) entries) in
  if bool_decide ("GET" ∈ ms) then ms ++ ["HEAD"] else ms.
Definition findHandler (method rawpath escaped : string) : found :=
  let path := if String.eqb method "CONNECT" then escaped else cleanPath escaped in
  let e := match_request method path in
  if negb (exactMatch e path) && negb (has_suffix path "/")
     && exactMatch (match_request method (path +:+ "/")) (path +:+ "/")
  then Moved (cleanPath rawpath +:+ "/")
  else if negb (String.eqb path escaped) then Moved path
  else match e with
       | Some (_, h) => Found h
       | None => if bool_decide (allowed_methods path = []) then Missing else NotAllowed (allowed_methods path)
       end.
End mux.
Arguments Found {A} h.
Arguments Moved {A} path.
Arguments NotAllowed {A} allow.
Arguments Missing {A}.

(** [ServeMux.ServeHTTP]; [redirect] answers with a redirection to a path and a query,
    and [serve] is the handler an entry stands for. *)
Definition mux_serve {A} (redirect : string → string → Response any) (serve : A → Handler)
    (entries : list (Pattern * A)) : Handler := λ x,
  match findHandler entries (rq_Method (in_req x)) (rq_Path (in_req x)) (in_EscapedPath x) with
  | Found h => serve h x
  | Moved path => mret (redirect path (in_RawQuery x))
  | NotAllowed allow =>
      let r := http_Error "Method Not Allowed" 405 in
      mret (mkResponse (rs_Status r) (("Allow", String.concat ", " allow) :: rs_Header r) (rs_Body r))
  | Missing => mret NotFound
  end.

Example clean_paths :
  map cleanPath [""; "/"; "/a//b/../c/"; "/api/v1/../../x"; "a/."] = ["/"; "/"; "/a/c/"; "/x"; "/a"].
Proof. reflexivity. Qed.

(** ** A found handler is one of the entries *)

Lemma best_elem {A} (cands : list (Pattern * A)) e : best cands = Some e → e ∈ cands.
Proof.
  unfold best. induction cands as [|c cands IH] using rev_ind; [done|].
  rewrite foldl_app. cbn [foldl]. destruct (foldl _ None cands) as [b|].
  - destruct (rank b.1 <? rank c.1)%nat; intros [= <-]; apply elem_of_app; [right; by left|left; by apply IH].
  - intros [= <-]. apply elem_of_app. right. by left.
Qed.

Lemma match_request_elem {A} (entries : list (Pattern * A)) method path e :
  match_request entries method path = Some e → e ∈ entries.
Proof.
  assert (∀ m, tree_match entries m path = Some e → e ∈ entries) as T.
  { intros m. unfold tree_match. destruct (path_segments path) as [segs slash]. intros B%best_elem.
    apply list_elem_of_In in B. apply filter_In in B as [B _]. by apply list_elem_of_In. }
  unfold match_request. destruct (String.eqb method "").
  - destruct (if String.eqb method "HEAD" then _ else None) as [e'|] eqn:E; [|apply T]. intros [= <-].
    destruct (String.eqb method "HEAD"); [|done]. by apply T in E.
  - destruct (tree_match entries method path) as [e'|] eqn:E1; [intros [= <-]; by apply T in E1|].
    destruct (String.eqb method "HEAD"); [|apply T].
    destruct (tree_match entries "GET" path) as [e'|] eqn:E2; [intros [= <-]; by apply T in E2|apply T].
Qed.

Lemma findHandler_elem {A} (entries : list (Pattern * A)) method raw escaped h :
  findHandler entries method raw escaped = Found h →
  ∃ p, (p, h) ∈ entries ∧ match_request entries method escaped = Some (p, h).
Proof.
  unfold findHandler. set (path := if String.eqb method "CONNECT" then escaped else cleanPath escaped).
  destruct (negb (exactMatch _ _) && _ && _); [done|]. destruct (String.eqb_spec path escaped) as [->|]; [|done].
  cbn [negb]. destruct (match_request entries method escaped) as [[p h']|] eqn:E; [|by destruct (bool_decide _)].
  intros [= <-]. exists p. split; [by eapply match_request_elem|done].
Qed.

Lemma runs_mux {A} redirect (serve : A → Handler) (entries : list (Pattern * A)) x tr resp :
  runs (mux_serve redirect serve entries x) tr resp →
  tr = []
  ∨ ∃ p h, (p, h) ∈ entries ∧ match_request entries (rq_Method (in_req x)) (in_EscapedPath x) = Some (p, h)
      ∧ runs (serve h x) tr resp.
Proof.
  unfold mux_serve. destruct (findHandler _ _ _ _) as [h| | |] eqn:F; intros R; try (left; apply R).
  apply findHandler_elem in F as (p & I & M). right. by exists p, h.
Qed.
End GoMux.
