(* ===== verification/SlackApp.v ===== *)
(** * Approve and deny from Slack

    [internal/slackapp/slackapp.go]: the app as a notification channel, and its
    interactivity endpoint.  The cache of Slack users' emails is shared by the requests:
    [CEmailGet] and [CEmailPut] are its locked accesses.  The message update that follows
    a decision is returned as a program of its own, since it runs after the response.
    [SlackLog] follows the cache through any interleaving of requests. *)

From S2P Require Import Prelude GoStrings GoTime Sha256 Types GoJson GoJsonEnc GoUrl GoDecode Effects Proxy QStore QHandler Notify NotifyConc.
From stdpp Require Import base tactics strings list gmap pretty.
From Stdlib Require Import ZArith Lia Ascii.

Local Open Scope Z_scope.

Import Notify QHandler.

Module SlackApp.

Definition actionApprove : string := "elodea_approve".
Definition actionDeny : string := "elodea_deny".
Definition maxSignatureAge : Z := 5 * GoTime.minute.
Definition maxBody : Z := Z.shiftl 256 10.
Definition emailCacheTTL : Z := 10 * GoTime.minute.
Definition defaultAPIBase : string := "https://slack.com/api".

(** The [Decider] interface. *)
Record Decider : Type := mkDecider {
  d_Approve : string → string → prog (option error);
  d_Deny : string → string → string → prog (option error)
}.

(** [quarantine.Handler] as a decider; [has_ledger] says whether a ledger is wired. *)
Definition quarantine_decider (has_ledger : bool) : Decider :=
  mkDecider (Handler_Approve has_ledger) (Handler_Deny has_ledger).

Record Config : Type := mkConfig {
  sc_BotToken : string;
  sc_SigningSecret : string;
  sc_ChannelID : string;
  sc_TeamID : string;
  sc_Reviewers : list string;
  sc_ConsoleURL : string;
  sc_APIBase : string
}.

(** [App], without the email cache. *)
Record App : Type := mkApp {
  app_cfg : Config;
  app_reviewers : list string;
  app_decider : Decider;
  app_apiBase : string
}.

Section app.
Context `{UnicodeTables} `{UrlLib}.
(** The text of a JSON error. *)
Variable decode_message : string → string.

(** [New] *)
Definition New (cfg : Config) (decider : Decider) : App :=
  let reviewers := filter (λ r, r ≠ "") (map (λ r, to_lower (trim_space r)) (sc_Reviewers cfg)) in
  let apiBase := trim_right_set is_slash (sc_APIBase cfg) in
  mkApp cfg reviewers decider (if String.eqb apiBase "" then defaultAPIBase else apiBase).

(** [escape], [section], [contextBlock], [plain] *)
Definition escape (s : string) : string := slackEscape s.
Definition section (text : string) : any := slack_section text.
Definition contextBlock (text : string) : any :=
  go_map [("type", AString "context"); ("elements", AArray [slack_text "mrkdwn" text])].
Definition plain (text : string) : any := slack_text "plain_text" text.

(** ** The channel *)

Definition approve_button (id : string) : any :=
  go_map [("type", AString "button"); ("action_id", AString actionApprove); ("style", AString "primary");
          ("value", AString id); ("text", plain "Approve");
          ("confirm", go_map [("title", plain "Approve this action?"); ("confirm", plain "Approve");
                              ("deny", plain "Cancel");
                              ("text", plain "It will run once, after Elodea re-checks current policy.")])].
Definition deny_button (id : string) : any :=
  go_map [("type", AString "button"); ("action_id", AString actionDeny); ("style", AString "danger");
          ("value", AString id); ("text", plain "Deny")].

(** [App.heldBlocks] *)
Definition heldBlocks (action : HeldAction) : list any :=
  let elements :=
    [approve_button (ha_ID action); deny_button (ha_ID action)]
    ++ (if String.eqb (ha_ReviewURL action) "" then []
        else [go_map [("type", AString "button"); ("action_id", AString "elodea_open");
                      ("url", AString (ha_ReviewURL action)); ("text", plain "Open in console")]]) in
  [section ":hourglass: *An agent action is waiting for review*"; section (slack_fields action)]
  ++ (if String.eqb (ha_Explanation action) "" then [] else [section (escape (ha_Explanation action))])
  ++ [go_map [("type", AString "actions"); ("block_id", AString "elodea_decision"); ("elements", AArray elements)];
      contextBlock (slack_held action)].

Variable a : App.

(** What [App.callAPI] makes of an answer; the part of the method before its query names
    the error. *)
Definition api_result {S} (method : string) (fs : list (field S)) (zero : S) (answered : result (Z * string))
    : result S :=
  match answered with
  | Err err => Err err
  | Ok (status, text) =>
      if negb (status =? 200)
      then Err (errors_New ("slack " +:+ (cut_or (byte_of 63) method).1 +:+ " answered " +:+ pretty status))
      else match decode_first fs (take_bytes (Z.shiftl 1 20) text) zero with
           | Some s => Ok s
           | None => Err (errors_New (decode_message text))
           end
  end.

(** [App.callAPI] *)
Definition callAPI {S} (method : string) (body : option string) (fs : list (field S)) (zero : S) : prog (result S) :=
  answered ← call (CSlack (match body with Some _ => "POST" | None => "GET" end)
                     (app_apiBase a +:+ "/" +:+ method) (sc_BotToken (app_cfg a)) body);
  mret (api_result method fs zero answered).

Record postResponse : Type := mkPosted { pr_OK : bool; pr_Error : string }.
Definition post_fields : list (field postResponse) :=
  [("ok", into_bool (λ b s, mkPosted b (pr_Error s))); ("error", into_string (λ e s, mkPosted (pr_OK s) e))].

Definition held_message (action : HeldAction) : string :=
  json_text (go_map [("channel", AString (sc_ChannelID (app_cfg a))); ("text", AString (slack_summary action));
                     ("blocks", AArray (heldBlocks action))]).

(** [App.Send] *)
Definition Send (action : HeldAction) : prog (option error) :=
  answered ← callAPI "chat.postMessage" (Some (held_message action)) post_fields (mkPosted false "");
  match answered with
  | Err err => mret (Some err)
  | Ok resp =>
      if negb (pr_OK resp) then mret (Some (errors_New ("slack chat.postMessage: " +:+ pr_Error resp)))
      else mret None
  end.

(** The app as a [notify.Channel], under its [Name]. *)
Definition channel : Channel := mkChannel "slack_app" Send.

(** ** Signatures *)

(** [Sign] *)
Definition Sign (secret timestamp body : string) : string :=
  "v0=" +:+ hex_encode (Sha256.hmac256 secret ("v0:" +:+ timestamp +:+ ":" +:+ body)).

(** [App.verify] *)
Definition verify (timestamp signature body : string) : prog bool :=
  match parse_int64 timestamp with
  | None => mret false
  | Some ts =>
      if String.eqb (sc_SigningSecret (app_cfg a)) "" then mret false
      else
        now ← call CNow;
        let age := GoTime.sub now (ts * GoTime.second) in
        if (maxSignatureAge <? age) || (age <? - maxSignatureAge) then mret false
        else mret (String.eqb (Sign (sc_SigningSecret (app_cfg a)) timestamp body) signature)
  end.

(** ** Slack users *)

Record userInfo : Type := mkUser {
  ui_OK : bool;
  ui_Error : string;
  ui_Deleted : bool;
  ui_IsBot : bool;
  ui_Email : string
}.
Definition no_user : userInfo := mkUser false "" false false "".
Definition profile_fields : list (field string) := [("email", into_string (λ e _, e))].
Definition user_fields : list (field userInfo) :=
  [("deleted", into_bool (λ b s, mkUser (ui_OK s) (ui_Error s) b (ui_IsBot s) (ui_Email s)));
   ("is_bot", into_bool (λ b s, mkUser (ui_OK s) (ui_Error s) (ui_Deleted s) b (ui_Email s)));
   ("profile", into_struct profile_fields ui_Email
                 (λ e s, mkUser (ui_OK s) (ui_Error s) (ui_Deleted s) (ui_IsBot s) e))].
Definition info_fields : list (field userInfo) :=
  [("ok", into_bool (λ b s, mkUser b (ui_Error s) (ui_Deleted s) (ui_IsBot s) (ui_Email s)));
   ("error", into_string (λ e s, mkUser (ui_OK s) e (ui_Deleted s) (ui_IsBot s) (ui_Email s)));
   ("user", into_struct user_fields id (λ u _, u))].

(** The email an answer of [users.info] vouches for. *)
Definition info_email (resp : userInfo) : result string :=
  if negb (ui_OK resp) then Err (errors_New ("slack users.info: " +:+ ui_Error resp))
  else if ui_Deleted resp || ui_IsBot resp then Err (errors_New "deactivated or bot account")
  else if String.eqb (ui_Email resp) ""
       then Err (errors_New "no email on the Slack profile (does the app have users:read.email?)")
  else Ok (to_lower (ui_Email resp)).

Definition info_method (userID : string) : string := "users.info?user=" +:+ query_escape userID.

(** [App.email] past the cache: ask Slack, then remember. *)
Definition ask_email (userID : string) : prog (result string) :=
  answered ← callAPI (info_method userID) None info_fields no_user;
  match rbind answered info_email with
  | Err err => mret (Err err)
  | Ok email =>
      now ← call CNow;
      _ ← call (CEmailPut userID email ((now : Z) + emailCacheTTL));
      mret (Ok email)
  end.

(** [App.email] *)
Definition email (userID : string) : prog (result string) :=
  if String.eqb userID "" then mret (Err (errors_New "no user in payload"))
  else
    cached ← call (CEmailGet userID);
    match (cached : option (string * Z)) with
    | Some (em, expires) =>
        now ← call CNow;
        if (now : Z) <? expires then mret (Ok em) else ask_email userID
    | None => ask_email userID
    end.

(** ** Interactions *)

Record action : Type := mkAction { ac_ActionID : string; ac_Value : string }.
Record interaction : Type := mkInteraction {
  in_Type : string;
  in_Team : string;
  in_User : string;
  in_ResponseURL : string;
  in_Actions : slice action;
  in_Blocks : slice any
}.
Definition no_interaction : interaction := mkInteraction "" "" "" "" (mkSlice 0 []) (mkSlice 0 []).

Definition id_fields : list (field string) := [("id", into_string (λ e _, e))].
Definition action_fields : list (field action) :=
  [("action_id", into_string (λ x s, mkAction x (ac_Value s))); ("value", into_string (λ x s, mkAction (ac_ActionID s) x))].
Definition message_fields : list (field (slice any)) := [("blocks", into_slice (λ v _, Some v) ANil id (λ x _, x))].
Definition interaction_fields : list (field interaction) :=
  [("type", into_string (λ x s, mkInteraction x (in_Team s) (in_User s) (in_ResponseURL s) (in_Actions s) (in_Blocks s)));
   ("team", into_struct id_fields in_Team
      (λ x s, mkInteraction (in_Type s) x (in_User s) (in_ResponseURL s) (in_Actions s) (in_Blocks s)));
   ("user", into_struct id_fields in_User
      (λ x s, mkInteraction (in_Type s) (in_Team s) x (in_ResponseURL s) (in_Actions s) (in_Blocks s)));
   ("response_url", into_string
      (λ x s, mkInteraction (in_Type s) (in_Team s) (in_User s) x (in_Actions s) (in_Blocks s)));
   ("actions", into_slice (decode_struct action_fields) (mkAction "" "") in_Actions
      (λ x s, mkInteraction (in_Type s) (in_Team s) (in_User s) (in_ResponseURL s) x (in_Blocks s)));
   ("message", into_struct message_fields in_Blocks
      (λ x s, mkInteraction (in_Type s) (in_Team s) (in_User s) (in_ResponseURL s) (in_Actions s) x))].

(** The interaction in a request body: a form whose [payload] is JSON. *)
Definition read_interaction (raw : string) : option interaction :=
  let '(form, ok) := parse_query raw in
  if negb ok then None
  else unmarshal interaction_fields (query_get form "payload") no_interaction.

Record outcome : Type := mkOutcome { oc_text : string; oc_resolved : bool }.

(** What [decide] reports for the decider's answer. *)
Definition decided_outcome (approve : bool) (email : string) (err : option error) : outcome :=
  let verb := if approve then "approved" else "denied" in
  match err with
  | None =>
      if approve
      then mkOutcome (":white_check_mark: Approved by " +:+ escape email
                      +:+ ". Elodea re-checks current policy, then runs it once.") true
      else mkOutcome (":x: Denied by " +:+ escape email +:+ ". It will not run.") true
  | Some e =>
      if errors_Is e SAlreadyResolved
      then mkOutcome ":information_source: Someone already decided this action. See the console for who and when." true
      else if errors_Is e SNotFound then mkOutcome ":information_source: This action no longer exists." true
      else if errors_Is e SAuditUnavailable
      then mkOutcome (":warning: Your decision (" +:+ verb
                      +:+ ") was saved, but the audit log was unavailable. Tell your Elodea operator.") true
      else mkOutcome ":warning: Elodea couldn't record that decision. Nothing was changed; try again or use the console."
             false
  end.

(** [App.decide] *)
Definition decide (slackUser actionID id : string) : prog outcome :=
  who ← email slackUser;
  match who with
  | Err _ =>
      mret (mkOutcome (":warning: Elodea couldn't confirm who you are in Slack, so nothing was changed. "
                       +:+ "Try again, or use the console.") false)
  | Ok email =>
      if negb (bool_decide (email ∈ app_reviewers a))
      then mret (mkOutcome (":no_entry: " +:+ escape email
                            +:+ " isn't on Elodea's reviewer list, so nothing was changed.") false)
      else
        let approve := String.eqb actionID actionApprove in
        err ← (if approve then d_Approve (app_decider a) id email
               else d_Deny (app_decider a) id email "Denied in Slack");
        mret (decided_outcome approve email err)
  end.

(** [App.resolvedBlocks] *)
Definition block_id (b : any) : option string := decode_struct [("block_id", into_string (λ x _, x))] b "".
Definition resolvedBlocks (original : list any) (o : outcome) : list any :=
  filter (λ b, ¬ (oc_resolved o = true ∧ block_id b = Some "elodea_decision")) original ++ [section (oc_text o)].

(** [slackHost] *)
Definition slackHost (u : ParsedURL) : bool :=
  if negb (String.eqb (pu_Scheme u) "https") then false
  else
    let host := hostname (pu_Host u) in
    existsb (λ domain, String.eqb host domain || has_suffix host ("." +:+ domain)) ["slack.com"; "slack-gov.com"].

(** [App.respond] *)
Definition respond (responseURL : string) (o : outcome) (blocks : list any) : prog unit :=
  match url_Parse responseURL with
  | None => mret tt
  | Some u =>
      if negb (slackHost u) then mret tt
      else
        let payload :=
          if oc_resolved o
          then go_map [("text", AString (oc_text o)); ("replace_original", ABool true); ("blocks", AArray blocks)]
          else go_map [("text", AString (oc_text o)); ("replace_original", ABool false);
                       ("response_type", AString "ephemeral")] in
        _ ← call (CReply responseURL payload);
        mret tt
  end.

Definition acknowledged : Response any := mkResponse 200 [] BNone.

(** A response with nothing done and nothing to follow. *)
Definition stop (resp : Response any) : prog (Response any * prog unit) := mret (resp, Ret tt).

(** [App.ServeHTTP] past the signature: the response, and the message update that runs
    afterwards. *)
Definition handle (raw : string) : prog (Response any * prog unit) :=
  match read_interaction raw with
  | None => stop (http_Error "bad request" 400)
  | Some i =>
      if negb (String.eqb (sc_TeamID (app_cfg a)) "") && negb (String.eqb (in_Team i) (sc_TeamID (app_cfg a)))
      then stop (http_Error "unknown workspace" 403)
      else
        match slice_list (in_Actions i) with
        | [] => stop acknowledged
        | act :: _ =>
            if negb (String.eqb (in_Type i) "block_actions") then stop acknowledged
            else if negb (String.eqb (ac_ActionID act) actionApprove) && negb (String.eqb (ac_ActionID act) actionDeny)
            then stop acknowledged
            else
              o ← decide (in_User i) (ac_ActionID act) (ac_Value act);
              mret (acknowledged,
                    if String.eqb (in_ResponseURL i) "" then Ret tt
                    else respond (in_ResponseURL i) o (resolvedBlocks (slice_list (in_Blocks i)) o))
        end
  end.

(** [App.ServeHTTP] *)
Definition ServeHTTP (r : Request) (stream : BodyStream) : prog (Response any * prog unit) :=
  if negb (String.eqb (rq_Method r) "POST") then stop (http_Error "method not allowed" 405)
  else
    match Proxy.read_body maxBody stream with
    | Err _ => stop (http_Error "request too large" 413)
    | Ok raw =>
        verified ← verify (header_get (rq_Header r) "X-Slack-Request-Timestamp")
                          (header_get (rq_Header r) "X-Slack-Signature") raw;
        if negb verified then stop (http_Error "invalid signature" 401)
        else handle raw
    end.

(** A request with what follows it, as the server runs it. *)
Definition interact (r : Request) (stream : BodyStream) : prog (Response any) :=
  served ← ServeHTTP r stream;
  _ ← served.2;
  mret served.1.

(** ** Who an email belongs to *)

(** Slack answered that [user] is an active person with this email. *)
Definition vouches (user em : string) (e : event) : Prop :=
  match e with
  | Ev (CSlack verb url token body) x =>
      verb = "GET" ∧ url = app_apiBase a +:+ "/" +:+ info_method user ∧ token = sc_BotToken (app_cfg a)
      ∧ body = None ∧ rbind (api_result (info_method user) info_fields no_user x) info_email = Ok em
  | _ => False
  end.

(** How [email] came by its answer: from the cache, before the entry expired, or from
    Slack. *)
Definition confirmed (tr : list event) (user em : string) : Prop :=
  (∃ expires now, tr = [Ev (CEmailGet user) (Some (em, expires)); Ev CNow now] ∧ now < expires)
  ∨ ∃ pre e now, tr = pre ++ [e; Ev CNow now; Ev (CEmailPut user em (now + emailCacheTTL)) tt] ∧ vouches user em e.

(** Calls that decide nothing and record nothing. *)
Definition idle (c : cmd) : Prop :=
  match c with CApprove _ _ | CDeny _ _ _ | CAppend _ => False | _ => True end.

Lemma idle_events tr : (∀ c x, Ev c x ∈ tr → idle c) → resolved tr = [] ∧ appended tr = [].
Proof.
  intros N. induction tr as [|[c x] tr IH]; [done|]. destruct IH as [R A]; [intros c' x' J; apply (N c' x'); by right|].
  specialize (N c x ltac:(by left)). unfold resolved, appended in *. cbn [map concat]. rewrite R, A, !app_nil_r.
  by destruct c.
Qed.

Lemma idle_runs {A} (p : prog A) tr x : only idle p → runs p tr x → resolved tr = [] ∧ appended tr = [].
Proof. intros S R. apply idle_events. intros c y J. by eapply only_runs. Qed.

Lemma ask_idle u : only idle (ask_email u).
Proof. unfold ask_email, callAPI. split; [done|]. intros x. cbn. destruct (rbind _ info_email); [|done]. by split. Qed.

Lemma email_idle u : only idle (email u).
Proof.
  unfold email. destruct (String.eqb u ""); [done|]. split; [done|]. intros [[em ex]|].
  - split; [done|]. intros now. cbn [prog_mbind prog_bind]. destruct (_ <? _); [done|].
    exact (safe_any idle _ _ (ask_email u) (ask_idle u)).
  - exact (safe_any idle _ _ (ask_email u) (ask_idle u)).
Qed.

Lemma runs_ask u tr em :
  runs (ask_email u) tr (Ok em) →
  ∃ e now, tr = [e; Ev CNow now; Ev (CEmailPut u em (now + emailCacheTTL)) tt] ∧ vouches u em e.
Proof.
  unfold ask_email, callAPI. intros (y & t1 & -> & R). cbn in R.
  destruct (rbind _ info_email) as [em'|err] eqn:E; [|by destruct R].
  destruct R as (now & t2 & -> & [] & t3 & -> & [-> [= ->]]). eexists _, now. split; [reflexivity|]. by split_and!.
Qed.

Lemma runs_email u tr em : runs (email u) tr (Ok em) → confirmed tr u em.
Proof.
  unfold email. destruct (String.eqb u ""); [by intros [_ ?]|]. intros (c & t1 & -> & R).
  destruct c as [[em' ex]|]; cbn in R.
  - destruct R as (now & t2 & -> & R). destruct (Z.ltb_spec now ex) as [B|B].
    + destruct R as [-> [= ->]]. left. eauto.
    + destruct (runs_ask _ _ _ R) as (e & n & -> & V). right.
      by exists [Ev (CEmailGet u) (Some (em', ex)); Ev CNow now], e, n.
  - destruct (runs_ask _ _ _ R) as (e & n & -> & V). right. by exists [Ev (CEmailGet u) None], e, n.
Qed.

Lemma runs_verify timestamp signature body tr ok :
  runs (verify timestamp signature body) tr ok →
  (resolved tr = [] ∧ appended tr = [])
  ∧ (ok = true → ∃ ts now, tr = [Ev CNow now] ∧ parse_int64 timestamp = Some ts
       ∧ sc_SigningSecret (app_cfg a) ≠ "" ∧ Z.abs (now - ts * GoTime.second) <= maxSignatureAge
       ∧ signature = Sign (sc_SigningSecret (app_cfg a)) timestamp body).
Proof.
  unfold verify. destruct (parse_int64 timestamp) as [ts|]; [|intros [-> ->]; done].
  destruct (String.eqb_spec (sc_SigningSecret (app_cfg a)) "") as [|S]; [intros [-> ->]; done|].
  intros R. apply runs_call in R as (now & t' & -> & R). cbn [prog_mbind prog_bind] in R.
  destruct (Z.ltb_spec maxSignatureAge (GoTime.sub now (ts * GoTime.second))) as [|B1]; [by destruct R as [-> ->]|].
  destruct (Z.ltb_spec (GoTime.sub now (ts * GoTime.second)) (- maxSignatureAge)) as [|B2]; [by destruct R as [-> ->]|].
  destruct R as [-> ->]. split; [done|]. intros E%String.eqb_eq. exists ts, now. split_and!; try done.
  unfold GoTime.sub, maxSignatureAge, GoTime.minute, GoTime.second, min_int64, max_int64 in *. lia.
Qed.

(** ** What a click does *)

(** The update of the message goes to Slack, over HTTPS, or nowhere. *)
Definition updates_slack (follow : prog unit) : Prop :=
  ∀ tr, runs follow tr tt →
    tr = [] ∨ ∃ url payload x u, tr = [Ev (CReply url payload) x] ∧ url_Parse url = Some u ∧ slackHost u = true.

Lemma respond_slack url o blocks : updates_slack (respond url o blocks).
Proof.
  intros tr R. unfold respond in R. destruct (url_Parse url) as [u|] eqn:P; [|left; by destruct R].
  destruct (slackHost u) eqn:S; [|left; by destruct R]. right.
  apply runs_call in R as (x & t & -> & [-> _]). eauto 10.
Qed.

(** A decision of [handle]: the click, the person, and what the store was told. *)
Definition click_decided (has_ledger : bool) (raw : string) (tr1 tr2 : list event) : Prop :=
  ∃ i act rest em kind err,
    read_interaction raw = Some i ∧ (sc_TeamID (app_cfg a) = "" ∨ in_Team i = sc_TeamID (app_cfg a))
    ∧ slice_list (in_Actions i) = act :: rest
    ∧ (ac_ActionID act = actionApprove ∧ kind = "approved" ∨ ac_ActionID act = actionDeny ∧ kind = "denied")
    ∧ em ∈ app_reviewers a ∧ confirmed tr1 (in_User i) em
    ∧ decision_made has_ledger kind (ac_Value act) em tr2 err.

Lemma runs_decide has_ledger user actionID id tr o :
  app_decider a = quarantine_decider has_ledger → runs (decide user actionID id) tr o →
  (resolved tr = [] ∧ appended tr = [])
  ∨ ∃ em err tr1 tr2, em ∈ app_reviewers a ∧ tr = tr1 ++ tr2 ∧ confirmed tr1 user em
      ∧ resolved tr1 = [] ∧ appended tr1 = []
      ∧ decision_made has_ledger (if String.eqb actionID actionApprove then "approved" else "denied") id em tr2 err.
Proof.
  intros D R. unfold decide in R. apply runs_bind in R as (t1 & t2 & who & -> & R1 & R2).
  destruct (idle_runs _ _ _ (email_idle user) R1) as [S1 S2].
  destruct who as [em|e].
  2: { destruct R2 as [-> ->]. rewrite app_nil_r. auto. }
  case_bool_decide as M; cbn [negb] in R2.
  2: { destruct R2 as [-> ->]. rewrite app_nil_r. auto. }
  apply runs_bind in R2 as (t3 & t4 & err & -> & R2 & [-> ->]). rewrite app_nil_r.
  right. exists em, err, t1, t3. apply runs_email in R1. split_and!; auto.
  rewrite D in R2. destruct (String.eqb actionID actionApprove); [exact (runs_Approve _ _ _ _ _ R2)|exact (runs_Deny _ _ _ _ _ _ R2)].
Qed.

Lemma runs_handle has_ledger raw tr resp follow :
  app_decider a = quarantine_decider has_ledger → runs (handle raw) tr (resp, follow) →
  updates_slack follow
  ∧ ((resolved tr = [] ∧ appended tr = [])
     ∨ rs_Status resp = 200 ∧ ∃ tr1 tr2, tr = tr1 ++ tr2 ∧ resolved tr1 = [] ∧ appended tr1 = []
         ∧ click_decided has_ledger raw tr1 tr2).
Proof.
  intros D R.
  assert (∀ resp0, runs (stop resp0) tr (resp, follow) → updates_slack follow ∧ resolved tr = [] ∧ appended tr = []) as St.
  { intros resp0 [-> [= -> ->]]. split_and!; try done. intros t [-> _]. by left. }
  assert (∀ resp0, runs (stop resp0) tr (resp, follow) → updates_slack follow
     ∧ ((resolved tr = [] ∧ appended tr = []) ∨ rs_Status resp = 200 ∧ ∃ tr1 tr2, tr = tr1 ++ tr2
         ∧ resolved tr1 = [] ∧ appended tr1 = [] ∧ click_decided has_ledger raw tr1 tr2)) as St'.
  { intros resp0 R0. destruct (St resp0 R0). auto. }
  unfold handle in R. destruct (read_interaction raw) as [i|] eqn:I; [|by eapply St'].
  destruct (negb (String.eqb (sc_TeamID _) "") && _) eqn:T; [by eapply St'|].
  destruct (slice_list (in_Actions i)) as [|act rest] eqn:A; [by eapply St'|].
  destruct (negb (String.eqb (in_Type i) _)); [by eapply St'|].
  destruct (negb (String.eqb (ac_ActionID act) actionApprove) && _) eqn:K; [by eapply St'|]. clear St St'.
  apply runs_bind in R as (t1 & t2 & o & -> & R1 & [-> [= -> ->]]). rewrite app_nil_r.
  apply (runs_decide has_ledger) in R1; [|done]. split.
  { destruct (String.eqb (in_ResponseURL i) ""); [intros t [-> _]; by left|apply respond_slack]. }
  destruct R1 as [S2|(em & err & tr1 & tr2 & M & -> & F & S3 & S4 & S5)]; [by left|right]. split; [done|].
  exists tr1, tr2. split_and!; try done.
  exists i, act, rest, em, (if String.eqb (ac_ActionID act) actionApprove then "approved" else "denied"), err.
  split_and!; try done.
  - destruct (String.eqb_spec (sc_TeamID (app_cfg a)) ""); [by left|right].
    by destruct (String.eqb_spec (in_Team i) (sc_TeamID (app_cfg a))).
  - destruct (String.eqb_spec (ac_ActionID act) actionApprove); [by left|right].
    by destruct (String.eqb_spec (ac_ActionID act) actionDeny).
Qed.

(** The request carried Slack's signature over its timestamp and body, and the timestamp
    was within the replay window of the clock. *)
Definition signed_by_slack (r : Request) (stream : BodyStream) (now : Z) : Prop :=
  let timestamp := header_get (rq_Header r) "X-Slack-Request-Timestamp" in
  rq_Method r = "POST" ∧ bs_err stream = None ∧ strlen (bs_bytes stream) <= maxBody
  ∧ sc_SigningSecret (app_cfg a) ≠ ""
  ∧ header_get (rq_Header r) "X-Slack-Signature" = Sign (sc_SigningSecret (app_cfg a)) timestamp (bs_bytes stream)
  ∧ ∃ ts, parse_int64 timestamp = Some ts ∧ Z.abs (now - ts * GoTime.second) <= maxSignatureAge.

Lemma runs_ServeHTTP has_ledger r stream tr resp follow :
  app_decider a = quarantine_decider has_ledger → runs (ServeHTTP r stream) tr (resp, follow) →
  updates_slack follow
  ∧ ((resolved tr = [] ∧ appended tr = [])
     ∨ ∃ now tr1 tr2, tr = Ev CNow now :: tr1 ++ tr2 ∧ signed_by_slack r stream now ∧ rs_Status resp = 200
         ∧ resolved tr1 = [] ∧ appended tr1 = [] ∧ click_decided has_ledger (bs_bytes stream) tr1 tr2).
Proof.
  intros D R.
  assert (∀ resp0, runs (stop resp0) tr (resp, follow) → updates_slack follow ∧ resolved tr = [] ∧ appended tr = []) as St.
  { intros resp0 [-> [= -> ->]]. split_and!; try done. intros t [-> _]. by left. }
  unfold ServeHTTP in R. destruct (String.eqb_spec (rq_Method r) "POST") as [P|]; cbn [negb] in R.
  2: { apply St in R as [? ?]. auto. }
  unfold Proxy.read_body in R. destruct (Z.ltb_spec (Z.max 0 maxBody) (strlen (bs_bytes stream))) as [|B].
  { apply St in R as [? ?]. auto. }
  destruct (bs_err stream) as [e|] eqn:Er. { apply St in R as [? ?]. auto. }
  apply runs_bind in R as (t1 & t2 & ok & -> & R1 & R2). apply runs_verify in R1 as [[V1 V2] V].
  destruct ok; cbn [negb] in R2.
  2: { destruct R2 as [-> [= -> ->]]. rewrite app_nil_r. split_and!; [intros t [-> _]; by left|by left]. }
  destruct (V eq_refl) as (ts & now & -> & Pt & Se & Ag & Sg). cbn [app].
  apply (runs_handle has_ledger) in R2 as (S2 & S3); [|done]. split; [done|].
  destruct S3 as [[S3 S4]|(S3 & tr1 & tr2 & -> & S4 & S5 & S6)]; [by left|right]. exists now, tr1, tr2. split_and!; try done.
  unfold signed_by_slack. split_and!; try done. by exists ts.
Qed.
End app.

(** The app keeps a channel's promises to the notification worker. *)
#[export] Instance channel_ok `{UnicodeTables} decode_message a : NotifyConc.ChannelOk (channel decode_message a).
Proof.
  split; intros act; unfold channel, Send, callAPI; simpl.
  - intros y. by destruct (api_result _ _ _ _ _); [destruct (negb _)|].
  - split; [done|]. intros y. by destruct (api_result _ _ _ _ _); [destruct (negb _)|].
Qed.
End SlackApp.
