(* ===== verification/SlackLog.v ===== *)
(** * Slack decisions through any interleaving of requests

    The email cache of [internal/slackapp/slackapp.go] is shared by all requests.  A log
    holds the calls of any number of them in the order they were made; [cache_step] is
    what a call does to the cache, whose accesses are under a lock. *)

From S2P Require Import Prelude GoStrings GoTime Sha256 Types GoJson GoJsonEnc GoUrl GoDecode Effects Interleave Proxy QStore QHandler SlackApp.
From stdpp Require Import base tactics strings list gmap.
From Stdlib Require Import ZArith Lia.

Local Open Scope Z_scope.

Import QHandler SlackApp.

Module SlackLog.

(** The map [App.emails]. *)
Abbreviation emails := (gmap string (string * Z)).
Definition cache_step (cache : emails) (e : entry) (cache' : emails) : Prop :=
  match en_event e with
  | Ev (CEmailGet u) x => x = cache !! u ∧ cache' = cache
  | Ev (CEmailPut u em expires) _ => cache' = <[u := (em, expires)]> cache
  | _ => cache' = cache
  end.
Abbreviation cache_after := (after cache_step ∅).

(** The cache a log leads to, computed. *)
Fixpoint cache_from (cache : emails) (log : list entry) : option emails :=
  match log with
  | [] => Some cache
  | e :: log' =>
      match en_event e with
      | Ev (CEmailGet u) x => if bool_decide ((x : option (string * Z)) = cache !! u) then cache_from cache log' else None
      | Ev (CEmailPut u em expires) _ => cache_from (<[u := (em, expires)]> cache) log'
      | _ => cache_from cache log'
      end
  end.

Lemma cache_from_after log0 cache log cache' :
  cache_after log0 cache → cache_from cache log = Some cache' → cache_after (log0 ++ log) cache'.
Proof.
  revert log0 cache. induction log as [|e log IH]; intros log0 cache F C.
  - injection C as <-. by rewrite app_nil_r.
  - assert (∃ c1, cache_step cache e c1 ∧ cache_from c1 log = Some cache') as (c1 & S & C1).
    { cbn in C. unfold cache_step. destruct (en_event e) as [c x]. destruct c; eauto.
      case_bool_decide as B; [eauto|done]. }
    change (e :: log) with ([e] ++ log). rewrite app_assoc. apply (IH _ c1); [|done]. by apply (after_call _ _ log0 cache).
Qed.

(** Every entry was put there. *)
Lemma cache_origin log cache u em expires :
  cache_after log cache → cache !! u = Some (em, expires) →
  ∃ l0 c l3 x, log = l0 ++ c :: l3 ∧ en_event c = Ev (CEmailPut u em expires) x.
Proof.
  intros F. induction F as [|log cache e cache' F IH S]; [done|]. intros L.
  assert (cache !! u = Some (em, expires) → ∃ l0 c l3 x, log ++ [e] = l0 ++ c :: l3 ∧ en_event c = Ev (CEmailPut u em expires) x) as K.
  { intros L'. destruct (IH L') as (l0 & c & l3 & x & -> & C). exists l0, c, (l3 ++ [e]), x. by rewrite <- app_assoc. }
  unfold cache_step in S. destruct (en_event e) as [c x] eqn:E.
  destruct c; cbn in S; try (subst cache'; by apply K); [destruct S as [_ ->]; by apply K|].
  subst cache'. apply lookup_insert_Some in L as [[-> [= -> ->]]|[_ L]]; [|by apply K].
  exists log, e, [], x. by rewrite E.
Qed.

Section log.
Context `{UnicodeTables} `{UrlLib}.
Variable decode_message : string → string.
Variable a : App.

(** What a request has seen when it puts an entry: Slack's answer, then the clock. *)
Definition put_guard (h : list event) (c : cmd) : Prop :=
  match c with
  | CEmailPut u em expires =>
      ∃ pre e now, h = pre ++ [e; Ev CNow now] ∧ vouches decode_message a u em e ∧ expires = now + emailCacheTTL
  | _ => True
  end.

Definition no_put (c : cmd) : Prop := match c with CEmailPut _ _ _ => False | _ => True end.
Lemma no_put_safe {A} h (p : prog A) : only no_put p → safe put_guard h p.
Proof. intros S. apply (safe_mono (λ _, no_put)); [by intros h' []|]. by eapply safe_any. Qed.

Lemma ask_safe h u : safe put_guard h (ask_email decode_message a u).
Proof.
  unfold ask_email, callAPI. split; [done|]. intros x. cbn.
  destruct (rbind _ info_email) as [em|] eqn:E; [|done]. split; [done|]. intros now. split; [|done].
  eexists h, _, now. rewrite <- app_assoc. split; [reflexivity|]. split; [|done]. by split_and!.
Qed.

Lemma email_safe h u : safe put_guard h (email decode_message a u).
Proof.
  unfold email. destruct (String.eqb u ""); [done|]. split; [done|]. intros [[em ex]|]; [|apply ask_safe].
  split; [done|]. intros now. cbn [prog_mbind prog_bind]. destruct (_ <? _); [done|apply ask_safe].
Qed.

Lemma decider_no_put has_ledger id by_ reason :
  only no_put (Handler_Approve has_ledger id by_) ∧ only no_put (Handler_Deny has_ledger id by_ reason).
Proof.
  split; (split; [done|]); intros [entry|]; try done; (split; [done|]); intros [err|]; try done;
    cbn; unfold appendLedger; (destruct has_ledger; [|done]); split; try done; by intros [|].
Qed.

(** What follows a response only replies, to a host of Slack's. *)
Definition reply_only (c : cmd) : Prop :=
  match c with CReply url _ => ∃ u, url_Parse url = Some u ∧ slackHost u = true | _ => False end.

Lemma respond_only url o blocks : only reply_only (respond url o blocks).
Proof.
  unfold respond. destruct (url_Parse url) as [u|] eqn:P; [|done]. destruct (slackHost u) eqn:S; [|done].
  split; [by exists u|done].
Qed.

Lemma ServeHTTP_follow r stream : returns (λ p, only reply_only p.2) (ServeHTTP decode_message a r stream).
Proof.
  unfold ServeHTTP. destruct (negb _); [done|]. destruct (Proxy.read_body _ _); [|done].
  apply returns_bind. intros [|]; [|done]. cbn [negb]. unfold handle.
  destruct (read_interaction _) as [i|]; [|done]. destruct (_ && _); [done|].
  destruct (slice_list _); [done|]. destruct (negb _); [done|]. destruct (_ && _); [done|].
  apply returns_bind. intros o. cbn. destruct (String.eqb _ ""); [done|apply respond_only].
Qed.

(** A request makes its calls under a guard if the parts of it do. *)
Lemma interact_safe_parts (Q : list event → cmd → Prop) has_ledger r stream h :
  app_decider a = quarantine_decider has_ledger →
  (∀ h c, match c with CNow => True | c => reply_only c end → Q h c) →
  (∀ h u, safe Q h (email decode_message a u)) →
  (∀ h id by_, safe Q h (Handler_Approve has_ledger id by_)) →
  (∀ h id by_ reason, safe Q h (Handler_Deny has_ledger id by_ reason)) →
  safe Q h (interact decode_message a r stream).
Proof.
  intros D QN QE QA QD. apply (safe_bind_returns _ (λ p, only reply_only p.2)); [apply ServeHTTP_follow| |].
  - intros h'. unfold ServeHTTP. destruct (negb _); [done|]. destruct (Proxy.read_body _ _); [|done].
    apply safe_bind.
    + intros h2. unfold verify. destruct (parse_int64 _); [|done]. destruct (String.eqb _ ""); [done|].
      split; [by apply QN|]. intros now. cbn. by destruct (_ || _).
    + intros ok h2. destruct ok; [|done]. cbn [negb]. unfold handle.
      destruct (read_interaction _) as [i|]; [|done]. destruct (_ && _); [done|].
      destruct (slice_list _); [done|]. destruct (negb _); [done|]. destruct (_ && _); [done|].
      apply safe_bind; [|done]. intros h3. apply safe_bind; [intros h4; apply QE|].
      intros [em|] h4; [|done]. destruct (negb _); [done|]. rewrite D.
      apply safe_bind; [|done]. intros h5. cbn [quarantine_decider d_Approve d_Deny].
      destruct (String.eqb _ actionApprove); [apply QA|apply QD].
  - intros [resp follow] h' Fo. apply safe_bind; [|done]. intros h2.
    apply (safe_mono (λ _, reply_only)); [intros h3 c R; apply QN; destruct c; done|by eapply safe_any].
Qed.

Lemma interact_safe has_ledger r stream :
  app_decider a = quarantine_decider has_ledger → safe put_guard [] (interact decode_message a r stream).
Proof.
  intros D. apply (interact_safe_parts _ has_ledger); [done|intros h c R; by destruct c|intros; apply email_safe|..];
    intros; apply no_put_safe; [apply (decider_no_put has_ledger id by_ "")|apply (decider_no_put has_ledger id by_ reason)].
Qed.

(** [user] had been vouched for, as [em], less than the cache's lifetime before [i] read
    the clock. *)
Definition vouched (l : list entry) (i : nat) (user em : string) : Prop :=
  ∃ l0 v l3 t now, l = l0 ++ v :: l3 ∧ vouches decode_message a user em (en_event v)
    ∧ Ev CNow t ∈ events_of (en_task v) l3 ∧ Ev CNow now ∈ events_of i l ∧ now < t + emailCacheTTL.

(** All entries of the cache were put there as the app does. *)
Definition puts_guarded (log : list entry) : Prop :=
  ∀ l1 e l2, log = l1 ++ e :: l2 → put_guard (events_of (en_task e) l1) (ev_cmd (en_event e)).

Lemma vouched_app l l' i user em : vouched l i user em → vouched (l ++ l') i user em.
Proof.
  intros (l0 & v & l3 & t & now & -> & V & T & N & B). exists l0, v, (l3 ++ l'), t, now.
  split_and!; [by rewrite <- app_assoc|done| | |done]; rewrite (events_of_app _ _ l'); apply elem_of_app; by left.
Qed.

(** Where a put comes from. *)
Lemma put_vouched log l1 e l2 u em expires x :
  puts_guarded log → log = l1 ++ e :: l2 → en_event e = Ev (CEmailPut u em expires) x →
  ∃ l0 v l3 t, l1 = l0 ++ v :: l3 ∧ vouches decode_message a u em (en_event v) ∧ en_task v = en_task e
    ∧ events_of (en_task v) l3 = [Ev CNow t] ∧ expires = t + emailCacheTTL.
Proof.
  intros G E X. specialize (G _ _ _ E). rewrite X in G. destruct G as (pre & v & t & Ev' & V & ->).
  destruct (events_of_split _ _ pre v [Ev CNow t] Ev') as (l0 & v' & l3 & -> & E0 & <- & T).
  exists l0, v', l3, t. split_and!; try done. rewrite events_of_app, E0 in Ev'. apply app_inv_head in Ev'.
  rewrite <- T in Ev'. rewrite events_of_cons in Ev'. rewrite <- T in T. congruence.
Qed.

(** An answer of [email], in a log. *)
Lemma confirmed_vouched log cache l1 l2 i h tr user em :
  puts_guarded log → cache_after log cache → log = l1 ++ l2 → events_of i l1 = h ++ tr →
  confirmed decode_message a tr user em → vouched l1 i user em.
Proof.
  intros G F E Ev' [(expires & now & -> & B)|(pre & v & now & -> & V)].
  - destruct (events_of_split _ _ h _ _ Ev') as (l0 & g & l3 & -> & Eh & Eg & Tg).
    rewrite <- app_assoc in E. rewrite E in F. destruct (after_split _ _ _ _ _ _ F) as (c1 & c2 & F1 & S).
    unfold cache_step in S. rewrite Eg in S. destruct S as [S _].
    destruct (cache_origin _ _ _ _ _ F1 (eq_sym S)) as (p0 & p & p3 & x & -> & P).
    rewrite <- app_assoc in E. destruct (put_vouched _ _ _ _ _ _ _ _ G E P) as (q0 & v & q3 & t & -> & V & T & N & ->).
    assert (Ev CNow now ∈ events_of i (((q0 ++ v :: q3) ++ p :: p3) ++ g :: l3)) as J.
    { rewrite Ev'. apply elem_of_app. right. right. by left. }
    exists q0, v, (q3 ++ p :: p3 ++ g :: l3), t, now. split_and!; try done.
    + by rewrite <- !app_assoc.
    + rewrite events_of_app, N. by left.
  - rewrite app_assoc in Ev'. destruct (events_of_split _ _ _ _ _ Ev') as (l0 & v' & l3 & -> & Eh & <- & Tv).
    assert (events_of i l3 = [Ev CNow now; Ev (CEmailPut user em (now + emailCacheTTL)) tt]) as E3.
    { rewrite events_of_app, Eh in Ev'. apply app_inv_head in Ev'. rewrite <- Tv in Ev'. rewrite events_of_cons in Ev'.
      rewrite <- Tv. congruence. }
    exists l0, v', l3, now, now. rewrite Tv, E3. split_and!; try done; [by left| |].
    + rewrite events_of_app. apply elem_of_app. right. unfold events_of at 1. cbn.
      rewrite (proj2 (Nat.eqb_eq _ _) Tv). cbn. right. change (Ev CNow now ∈ events_of i l3). rewrite E3. by left.
    + assert (0 < emailCacheTTL) by by vm_compute. lia.
Qed.

(** Replies go to hosts of Slack's only. *)
Definition reply_guard (h : list event) (c : cmd) : Prop :=
  match c with CReply _ _ => reply_only c | _ => True end.

Lemma interact_replies has_ledger r stream :
  app_decider a = quarantine_decider has_ledger → safe reply_guard [] (interact decode_message a r stream).
Proof.
  intros D.
  assert (∀ (A : Type) h (p : prog A), only (λ c, reply_guard [] c) p → safe reply_guard h p) as K.
  { intros A h p S. apply (safe_mono (λ _ c, reply_guard [] c)); [done|by eapply safe_any]. }
  apply (interact_safe_parts _ has_ledger); [done|intros h c R; by destruct c|..]; intros; apply K.
  - unfold email. destruct (String.eqb u ""); [done|].
    assert (only (λ c, reply_guard [] c) (ask_email decode_message a u)) as S.
    { unfold ask_email, callAPI. split; [done|]. intros x. cbn. destruct (rbind _ info_email); [|done]. by split. }
    split; [done|]. intros [[em ex]|]; [|eapply safe_any, S]. split; [done|]. intros now. cbn [prog_mbind prog_bind].
    destruct (_ <? _); [done|]. exact (safe_any _ _ _ _ S).
  - split; [done|]. intros [entry|]; [|done]. split; [done|]. intros [err|]; [done|].
    cbn. unfold appendLedger. destruct has_ledger; [|done]. split; [done|]. by intros [|].
  - split; [done|]. intros [entry|]; [|done]. split; [done|]. intros [err|]; [done|].
    cbn. unfold appendLedger. destruct has_ledger; [|done]. split; [done|]. by intros [|].
Qed.

(** A whole request: the click, and the reply after it. *)
Lemma runs_interact has_ledger r stream tr resp :
  app_decider a = quarantine_decider has_ledger → runs (interact decode_message a r stream) tr resp →
  (resolved tr = [] ∧ appended tr = [])
  ∨ ∃ now tr1 tr2 tr3, tr = Ev CNow now :: tr1 ++ tr2 ++ tr3 ∧ signed_by_slack a r stream now ∧ rs_Status resp = 200
      ∧ resolved tr1 = [] ∧ appended tr1 = [] ∧ resolved tr3 = [] ∧ appended tr3 = []
      ∧ click_decided decode_message a has_ledger (bs_bytes stream) tr1 tr2.
Proof.
  intros D R. apply runs_bind in R as (t1 & t3 & [resp' follow] & -> & R1 & R2).
  apply runs_bind in R2 as (t4 & t5 & [] & -> & R2 & [-> ->]). rewrite app_nil_r.
  assert (resolved t4 = [] ∧ appended t4 = []) as [F1 F2].
  { apply (idle_runs follow t4 tt); [|done].
    apply (safe_mono (λ _, reply_only)); [intros h c; by destruct c|].
    exact (returns_runs _ _ _ _ (ServeHTTP_follow r stream) R1). }
  apply (runs_ServeHTTP decode_message a has_ledger) in R1 as [_ S]; [|done].
  destruct S as [[S1 S2]|(now & tr1 & tr2 & -> & Si & St & S1 & S2 & K)].
  - left. unfold resolved, appended in *. by rewrite !map_app, !concat_app, S1, S2, F1, F2.
  - right. exists now, tr1, tr2, t4. rewrite <- app_comm_cons, <- app_assoc. by split_and!.
Qed.

(** The calls of a request to the endpoint. *)
Definition slack_call (c : cmd) : Prop :=
  match c with
  | CNow | CEmailGet _ | CEmailPut _ _ _ | CSlack _ _ _ _ | CGet _ | CApprove _ _ | CDeny _ _ _ | CAppend _ | CReply _ _ => True
  | _ => False
  end.

Lemma interact_calls has_ledger r stream :
  app_decider a = quarantine_decider has_ledger → only slack_call (interact decode_message a r stream).
Proof.
  intros D. apply (interact_safe_parts _ has_ledger); [done|intros h c R; by destruct c|..]; intros h.
  - intros u. unfold email. destruct (String.eqb u ""); [done|].
    assert (only slack_call (ask_email decode_message a u)) as S.
    { unfold ask_email, callAPI. split; [done|]. intros x. cbn. destruct (rbind _ info_email); [|done]. by split. }
    split; [done|]. intros [[em ex]|]; [|exact (safe_any _ _ _ _ S)]. split; [done|]. intros now. cbn [prog_mbind prog_bind].
    destruct (_ <? _); [done|]. exact (safe_any _ _ _ _ S).
  - intros id by_. split; [done|]. intros [entry|]; [|done]. split; [done|]. intros [err|]; [done|].
    cbn. unfold appendLedger. destruct has_ledger; [|done]. split; [done|]. by intros [|].
  - intros id by_ reason. split; [done|]. intros [entry|]; [|done]. split; [done|]. intros [err|]; [done|].
    cbn. unfold appendLedger. destruct has_ledger; [|done]. split; [done|]. by intros [|].
Qed.

(** An approval submitted from a click: what the request has seen by then. *)
Lemma approved_click has_ledger r stream tr resp pre id by_ y post :
  app_decider a = quarantine_decider has_ledger → runs (interact decode_message a r stream) tr resp →
  tr = pre ++ Ev (CApprove id by_) y :: post →
  ∃ now tr1 tr2 x act rest, pre = Ev CNow now :: tr1 ++ tr2 ∧ signed_by_slack a r stream now
    ∧ read_interaction (bs_bytes stream) = Some x ∧ (sc_TeamID (app_cfg a) = "" ∨ in_Team x = sc_TeamID (app_cfg a))
    ∧ slice_list (in_Actions x) = act :: rest ∧ ac_ActionID act = actionApprove ∧ ac_Value act = id
    ∧ by_ ∈ app_reviewers a ∧ confirmed decode_message a tr1 (in_User x) by_.
Proof.
  intros D R E.
  assert (∀ p q, resolved (p ++ Ev (CApprove id by_) y :: q) = resolved p ++ ("approved", id, by_, y) :: resolved q) as Rs.
  { intros p q. unfold resolved. by rewrite map_app, concat_app. }
  destruct (runs_interact has_ledger _ _ _ _ D R)
    as [[N _]|(now & tr1 & tr2 & tr3 & E' & S & _ & R1 & _ & R3 & _ & (x & act & rest & em & kind & err & K))].
  { rewrite E, Rs in N. by destruct (resolved pre). }
  destruct K as (P & T & A & Ki & M & C & Dm). rewrite E' in E. destruct pre as [|e pre]; [done|].
  cbn [app] in E. injection E as <- E.
  destruct (split_call _ _ _ _ _ E) as [(q & E1 & _)|(p & -> & E1)].
  { rewrite E1, Rs in R1. by destruct (resolved pre). }
  destruct (split_call _ _ _ _ _ E1) as [(q & E2 & _)|(p' & -> & E2)].
  2: { rewrite E2, Rs in R3. by destruct (resolved p'). }
  destruct Dm as [(N & _)|(entry & z & tail & _ & N & _)]; rewrite E2, Rs in N; [by destruct (resolved p)|].
  assert (resolved p = [] ∧ kind = "approved" ∧ ac_Value act = id ∧ em = by_) as (_ & -> & <- & <-).
  { destruct (resolved p); cbn in N; [by simplify_eq|]. injection N as _ N. by destruct l. }
  exists now, tr1, p, x, act, rest. split_and!; try done. destruct Ki as [[? _]|[_ ?]]; done.
Qed.

Definition slack_request (x : Request * BodyStream) : program := Prog (interact decode_message a x.1 x.2).

Lemma requests_guarded has_ledger requests log :
  app_decider a = quarantine_decider has_ledger → interleaves slack_request requests log → puts_guarded log.
Proof.
  intros D I l1 e l2 E. edestruct (interleaves_safe _ _ _ I (λ _, put_guard) l1 e l2) as (tk & _ & G); [|done|done].
  intros [r stream]. by apply (interact_safe has_ledger).
Qed.
End log.

Section decisions.
Context `{UnicodeTables} `{UrlLib}.
Variable decode_message : string → string.

(** C9: a click in Slack decides only what Slack and the reviewer list allow.  However the
    requests to the endpoint interleave and share the email cache, a request that reaches
    the store's approve or deny, or writes to the ledger, is a POST with Slack's signature
    over its body made within five minutes of the clock, from the configured workspace, on
    an approve or deny button; the decision is that button's, recorded once, under an email
    that is on the configured reviewer list and that Slack had confirmed for the clicking
    user, as an active person, less than ten minutes before.  Whatever the request, the
    message update goes to an HTTPS address of Slack or nowhere. *)
Theorem slack_decisions (cfg : Config) (has_ledger : bool) (requests : list (Request * BodyStream)) (log : list entry)
    (cache : emails) (i : nat) (r : Request) (stream : BodyStream) (resp : Response any) :
  let a := New cfg (quarantine_decider has_ledger) in
  interleaves (slack_request decode_message a) requests log → cache_after log cache →
  requests !! i = Some (r, stream) → runs (interact decode_message a r stream) (events_of i log) resp →
  (∀ url payload x, Ev (CReply url payload) x ∈ events_of i log → ∃ u, url_Parse url = Some u ∧ slackHost u = true)
  ∧ ((resolved (events_of i log) = [] ∧ appended (events_of i log) = [])
     ∨ ∃ now l1 l2 tr1 tr2 tr3 x act rest em kind err,
         log = l1 ++ l2 ∧ events_of i l1 = Ev CNow now :: tr1 ∧ events_of i l2 = tr2 ++ tr3
         ∧ signed_by_slack a r stream now ∧ rs_Status resp = 200
         ∧ read_interaction (bs_bytes stream) = Some x
         ∧ (sc_TeamID cfg = "" ∨ in_Team x = sc_TeamID cfg) ∧ slice_list (in_Actions x) = act :: rest
         ∧ (ac_ActionID act = actionApprove ∧ kind = "approved" ∨ ac_ActionID act = actionDeny ∧ kind = "denied")
         ∧ em ∈ app_reviewers a ∧ vouched decode_message a l1 i (in_User x) em
         ∧ decision_made has_ledger kind (ac_Value act) em tr2 err
         ∧ resolved (tr1 ++ tr3) = [] ∧ appended (tr1 ++ tr3) = []).
Proof.
  intros a I F L R. split.
  { intros url payload x J. apply list_elem_of_split in J as (t1 & t2 & E).
    exact (safe_runs _ _ [] _ _ _ _ _ _ (interact_replies decode_message a has_ledger r stream eq_refl) R E). }
  destruct (runs_interact decode_message a has_ledger _ _ _ _ eq_refl R)
    as [?|(now & tr1 & tr2 & tr3 & E & S & St & R1 & A1 & R3 & A3 & (x & act & rest & em & kind & err & K))]; [by left|right].
  destruct K as (P & T & A & Ki & M & C & D).
  rewrite app_comm_cons in E. destruct (events_of_split_app _ _ _ _ E) as (l1 & l2 & El & E1 & E2).
  exists now, l1, l2, tr1, tr2, tr3, x, act, rest, em, kind, err. split_and!; try done.
  - by eapply (confirmed_vouched _ _ log cache l1 l2 i [Ev CNow now] tr1); [eapply requests_guarded|..].
  - unfold resolved in *. by rewrite map_app, concat_app, R1, R3.
  - rewrite appended_app. by rewrite A1, A3.
Qed.
End decisions.

(** ** Witness: a reviewer approves from Slack *)

#[local] Existing Instance ascii_tables.
#[local] Instance no_urls : UrlLib := {| url_Parse _ := None |}.

Definition sample_cfg : Config := mkConfig "xoxb" "8f742231b10e8888" "C1" "T1" [" Rev@example.com"] "" "".
Definition sample_app : App := New sample_cfg (quarantine_decider true).
Definition sample_body : string :=
  "payload=" +:+ query_escape (json_text (AObject
    [("type", AString "block_actions"); ("team", AObject [("id", AString "T1")]);
     ("user", AObject [("id", AString "U7")]);
     ("actions", AArray [AObject [("action_id", AString "elodea_approve"); ("value", AString "q-1")]])])).
Definition sample_request : Request :=
  mkRequest "POST" "/integrations/slack/interactions" []
    {[ "X-Slack-Request-Timestamp" := ["1531420618"];
       "X-Slack-Signature" := [Sign "8f742231b10e8888" "1531420618" sample_body] ]} sample_body None.
Definition sample_user : string :=
  json_text (AObject [("ok", ABool true); ("user", AObject [("profile", AObject [("email", AString "Rev@Example.com")])])]).
Definition sample_env (c : cmd) (s : unit) : ans c * unit :=
  match c return ans c * unit with
  | CNow => (1531420700 * GoTime.second, s)
  | CSlack _ _ _ _ => (Ok (200, sample_user), s)
  | CGet id => (Ok (mkQuarantineEntry id "agent" "pay" "{}" "pending" 0 None "" "" 0 None "{}" "" ""), s)
  | c => (quiet_answer c, s)
  end.
Definition sample_result : list event * Response any * unit :=
  run sample_env (interact id sample_app sample_request (mkStream sample_body None)) tt.
Definition sample_log : list entry := map (mkEntry 0 0) sample_result.1.1.

Lemma sample_click_runs :
  runs (interact id sample_app sample_request (mkStream sample_body None)) (events_of 0 sample_log) sample_result.1.2.
Proof.
  unfold sample_log. rewrite events_of_stamp. cbn [Nat.eqb].
  apply (run_runs sample_env _ tt _ _ sample_result.2). change (sample_result = (sample_result.1, sample_result.2)).
  by destruct sample_result.
Qed.

Lemma sample_click_interleaves :
  interleaves (slack_request id sample_app) [(sample_request, mkStream sample_body None)] sample_log.
Proof.
  split.
  - intros e J. unfold sample_log in J. apply list_elem_of_fmap in J as (ev & -> & _). by eexists.
  - intros [|i] tk [= <-]. cbn [slack_request program_steps fst snd]. exists (Ret sample_result.1.2).
    apply runs_steps. exact sample_click_runs.
Qed.

Lemma slack_decisions_witness :
  resolved sample_result.1.1 = [("approved", "q-1", "rev@example.com", None)]
  ∧ ∃ now l1 l2 tr1, sample_log = l1 ++ l2 ∧ events_of 0 l1 = Ev CNow now :: tr1
      ∧ signed_by_slack sample_app sample_request (mkStream sample_body None) now
      ∧ vouched id sample_app l1 0 "U7" "rev@example.com".
Proof.
  assert (resolved sample_result.1.1 = [("approved", "q-1", "rev@example.com", None)]) as E
    by (vm_compute; reflexivity).
  split; [exact E|].
  assert (∃ cache, cache_after sample_log cache) as [cache F].
  { destruct (cache_from ∅ sample_log) as [cache|] eqn:C; [|by vm_compute in C]. exists cache.
    exact (cache_from_after [] _ _ _ (after_start _ _) C). }
  destruct (slack_decisions id sample_cfg true _ sample_log cache 0 _ _ _ sample_click_interleaves F eq_refl sample_click_runs)
    as [_ [[N _]|D]].
  - unfold sample_log in N. rewrite events_of_stamp in N. cbn [Nat.eqb] in N. rewrite E in N. discriminate N.
  - destruct D as (now & l1 & l2 & tr1 & tr2 & tr3 & x & act & rest & em & kind & err & L & E1 & E2 & S & _ & P & _ & A & _ & M & V & _).
    exists now, l1, l2, tr1. split; [exact L|]. split; [exact E1|]. split; [exact S|].
    assert (em = "rev@example.com") as <-.
    { assert (app_reviewers sample_app = ["rev@example.com"]) as Rs by (vm_compute; reflexivity).
      change (em ∈ app_reviewers sample_app) in M. rewrite Rs in M. by apply list_elem_of_singleton in M. }
    assert (in_User x = "U7") as <-; [|exact V].
    assert (in_User <$> read_interaction sample_body = Some "U7") as U by (vm_compute; reflexivity).
    change (read_interaction sample_body = Some x) in P. rewrite P in U. by injection U.
Defined.
End SlackLog.
