(* ===== verification/PolicyStore.v ===== *)
(** * The policy files API

    [internal/policystore/store.go] and [handler.go].  [List] is a function of what
    [filepath.WalkDir] shows of the directory; the handler is a program over the store
    and the engine.  How [time.Time] reads its JSON text and how the elapsed time is
    written are parameters. *)

From S2P Require Import Prelude GoStrings GoTime Types GoJson GoJsonEnc GoDecode Mcp Effects Auth Proxy.
From stdpp Require Import base tactics strings list gmap sorting.
From Stdlib Require Import ZArith Lia Ascii.

Local Open Scope Z_scope.

Import Auth Mcp.

Module PolicyStore.

(** ** The store *)

(** A call of the walk's function: the path as the walk spells it and relative to the
    root ([filepath.Rel], which does not fail on a path below the root it was walked
    from), and what the walk, the context, the entry and the file say. *)
Record WalkStep : Type := mkStep {
  ws_full : string;
  ws_path : string;
  ws_walkErr : option error;
  ws_ctxErr : option error;
  ws_dir : bool;
  ws_info : result Z;
  ws_content : result string
}.

(** [DirEntry.Name]: the last element of the path. *)
Definition base_name (path : string) : string := default "" (last (split_byte (byte_of 47) path)).

Section store.
Context `{UnicodeTables}.

(** [parseMetadata]: the title, the trigger and the action. *)
Definition meta_line (acc : string * string * string) (line : string) : string * string * string :=
  let '(title, trigger, action) := acc in
  let line := trim_space line in
  if has_prefix line "# Title:" then (trim_space (trim_prefix line "# Title:"), trigger, action)
  else if has_prefix line "# Trigger:" then (title, trim_space (trim_prefix line "# Trigger:"), action)
  else if has_prefix line "# Action:" then (title, trigger, trim_space (trim_prefix line "# Action:"))
  else acc.
Definition prose_line (line : string) : bool :=
  has_prefix (trim_space line) "# " && contains_letter (trim_space line).
Definition parseMetadata (content : string) : string * string * string :=
  let lines := split_byte (byte_of 10) content in
  let '(title, trigger, action) := foldl meta_line ("", "", "") lines in
  let title := if negb (String.eqb title "") then title
               else match List.find prose_line lines with
                    | Some line => trim_prefix (trim_space line) "# "
                    | None => ""
                    end in
  (title, trigger, action).

Definition is_policy (name : string) : bool := has_suffix name ".rego" || has_suffix name ".rego.disabled".
Definition policy_id (path : string) : string := trim_suffix (trim_suffix path ".rego.disabled") ".rego".

Local Open Scope go_scope.

(** The function given to [WalkDir]: at most one policy more. *)
Definition visit (w : WalkStep) : result (list Policy) :=
  match ws_walkErr w, ws_ctxErr w with
  | Some e, _ => Err e
  | None, Some e => Err e
  | None, None =>
      if ws_dir w || negb (is_policy (base_name (ws_path w))) then Ok []
      else
        modTime ←? (match ws_info w with
                    | Ok t => Ok t
                    | Err e => Err (errorf_w ("read policy metadata for " +:+ go_quote (ws_full w)) e)
                    end) ;;
        content ←? (match ws_content w with
                    | Ok c => Ok c
                    | Err e => Err (errorf_w ("read policy " +:+ go_quote (ws_full w)) e)
                    end) ;;
        let id := policy_id (ws_path w) in
        let '(title, trigger, action) := parseMetadata content in
        Ok [mkPolicy id (if String.eqb title "" then id else title) trigger action
              (has_suffix (base_name (ws_path w)) ".rego") modTime modTime content]
  end.
Fixpoint visit_all (walk : list WalkStep) : result (list Policy) :=
  match walk with
  | [] => Ok []
  | w :: rest => p ←? visit w ;; ps ←? visit_all rest ;; Ok (p ++ ps)
  end.

(** [sort.Slice] by id; policies with the same id keep the order of the walk here. *)
Definition id_le (a b : Policy) : Prop := Is_true (String.leb (po_ID a) (po_ID b)).
#[local] Instance id_le_dec a b : Decision (id_le a b).
Proof. unfold id_le. apply _. Defined.

(** [Store.List] *)
Definition List (walk : list WalkStep) : result (list Policy) :=
  match visit_all walk with
  | Err e => Err (errorf_w "walk policy directory" e)
  | Ok policies => Ok (merge_sort id_le policies)
  end.

(** ** What is listed *)

(** A policy file that was read. *)
Definition policy_of (w : WalkStep) : option Policy :=
  if ws_dir w || negb (is_policy (base_name (ws_path w))) then None
  else match ws_info w, ws_content w with
       | Ok modTime, Ok content =>
           let '(title, trigger, action) := parseMetadata content in
           let id := policy_id (ws_path w) in
           Some (mkPolicy id (if String.eqb title "" then id else title) trigger action
                   (has_suffix (base_name (ws_path w)) ".rego") modTime modTime content)
       | _, _ => None
       end.

(** Nothing went wrong at a step. *)
Definition readable (w : WalkStep) : Prop :=
  ws_walkErr w = None ∧ ws_ctxErr w = None
  ∧ (ws_dir w = false → is_policy (base_name (ws_path w)) = true → is_ok (ws_info w) = true ∧ is_ok (ws_content w) = true).

Lemma visit_spec w ps : visit w = Ok ps ↔ readable w ∧ ps = option_list (policy_of w).
Proof.
  unfold visit, readable, policy_of. destruct (ws_walkErr w); [naive_solver|]. destruct (ws_ctxErr w); [naive_solver|].
  destruct (ws_dir w), (is_policy (base_name (ws_path w))); simpl; try naive_solver.
  destruct (ws_info w), (ws_content w); simpl; try naive_solver.
  destruct (parseMetadata a0) as [[title trigger] action]. naive_solver.
Qed.

Lemma visit_all_spec walk ps : visit_all walk = Ok ps ↔ Forall readable walk ∧ ps = omap policy_of walk.
Proof.
  revert ps. induction walk as [|w walk IH]; intros ps; simpl; [split; [|by intros [_ ->]]; intros [= <-]; split; [apply Forall_nil_2|done]|].
  rewrite rbind_ok, Forall_cons. setoid_rewrite rbind_ok. setoid_rewrite visit_spec. setoid_rewrite IH. split.
  - intros (a & [R ->] & b & [F ->] & [= <-]). split; [done|]. by destruct (policy_of w).
  - intros [[R F] ->]. eexists. split; [done|]. eexists. split; [done|]. by destruct (policy_of w).
Qed.

#[local] Instance id_le_total : Total id_le.
Proof. intros a b. unfold id_le. destruct (String.leb_total (po_ID a) (po_ID b)) as [E|E]; rewrite E; auto. Qed.

(** The console's policy list is complete and ordered: [List] succeeds exactly when
    nothing along the walk failed, and then returns, in the order of their ids, one entry
    for every [.rego] and [.rego.disabled] file met, enabled when it ends in [.rego]. *)
Theorem policy_list_exact (walk : list WalkStep) :
  (is_ok (List walk) = true ↔ Forall readable walk)
  ∧ ∀ ps, List walk = Ok ps →
      Sorted id_le ps ∧ ps ≡ₚ omap policy_of walk
      ∧ ∀ w, w ∈ walk → ws_dir w = false → is_policy (base_name (ws_path w)) = true →
          ∃ p, p ∈ ps ∧ po_ID p = policy_id (ws_path w) ∧ Ok (po_Code p) = ws_content w
            ∧ po_Enabled p = has_suffix (base_name (ws_path w)) ".rego".
Proof.
  assert (∀ ps, List walk = Ok ps ↔ Forall readable walk ∧ ps = merge_sort id_le (omap policy_of walk)) as K.
  { intros ps. unfold List. destruct (visit_all walk) as [qs|e] eqn:V.
    - apply visit_all_spec in V as [F ->]. naive_solver.
    - split; [done|]. intros [F _]. exfalso. pose proof (proj2 (visit_all_spec walk _) (conj F eq_refl)). congruence. }
  split.
  - unfold is_ok. destruct (List walk) as [ps|e] eqn:L.
    + split; [intros _; by apply (K ps)|done].
    + split; [done|]. intros F. pose proof (proj2 (K _) (conj F eq_refl)). congruence.
  - intros ps [F ->]%K. split_and!; [apply Sorted_merge_sort, _|apply merge_sort_Permutation|].
    intros w I D P. rewrite Forall_forall in F. destruct (F w I) as (_ & _ & R). destruct (R D P) as [Ri Rc].
    destruct (ws_info w) as [t|] eqn:Wi, (ws_content w) as [content|] eqn:Wc; try done.
    destruct (parseMetadata content) as [[title trigger] action] eqn:M.
    assert (policy_of w = Some (mkPolicy (policy_id (ws_path w)) (if String.eqb title "" then policy_id (ws_path w) else title)
        trigger action (has_suffix (base_name (ws_path w)) ".rego") t t content)) as E.
    { unfold policy_of. by rewrite D, P, Wi, Wc, M. }
    eexists. split; [rewrite merge_sort_Permutation; apply list_elem_of_omap; exists w; split; [done|exact E]|]. done.
Qed.

End store.

(** ** The handler *)

Section handler.
Context `{UnicodeTables}.

Definition maxSimulationBodyBytes : Z := Z.shiftl 1 20.

(** [time.Time.UnmarshalJSON] on the text of a value that is not [null], and
    [json.Marshal] of a time and of the elapsed milliseconds. *)
Variable parse_time : string → option Z.
Variable time_text : Z → string.
Variable latency_text : Z → string.

(** [types.EvalInput] as the decoder fills it. *)
Definition with_Protocol (x : string) (i : EvalInput) : EvalInput :=
  mkEvalInput x (ei_ProtocolVersion i) (ei_Tool i) (ei_Arguments i) (ei_Agent i) (ei_Timestamp i) (ei_RawMethod i).
Definition with_ProtocolVersion (x : string) (i : EvalInput) : EvalInput :=
  mkEvalInput (ei_Protocol i) x (ei_Tool i) (ei_Arguments i) (ei_Agent i) (ei_Timestamp i) (ei_RawMethod i).
Definition with_Tool (x : string) (i : EvalInput) : EvalInput :=
  mkEvalInput (ei_Protocol i) (ei_ProtocolVersion i) x (ei_Arguments i) (ei_Agent i) (ei_Timestamp i) (ei_RawMethod i).
Definition with_Arguments (x : option (list (string * any))) (i : EvalInput) : EvalInput :=
  mkEvalInput (ei_Protocol i) (ei_ProtocolVersion i) (ei_Tool i) x (ei_Agent i) (ei_Timestamp i) (ei_RawMethod i).
Definition with_Agent (x : string) (i : EvalInput) : EvalInput :=
  mkEvalInput (ei_Protocol i) (ei_ProtocolVersion i) (ei_Tool i) (ei_Arguments i) x (ei_Timestamp i) (ei_RawMethod i).
Definition with_Timestamp (x : Z) (i : EvalInput) : EvalInput :=
  mkEvalInput (ei_Protocol i) (ei_ProtocolVersion i) (ei_Tool i) (ei_Arguments i) (ei_Agent i) x (ei_RawMethod i).
Definition with_RawMethod (x : string) (i : EvalInput) : EvalInput :=
  mkEvalInput (ei_Protocol i) (ei_ProtocolVersion i) (ei_Tool i) (ei_Arguments i) (ei_Agent i) (ei_Timestamp i) x.

(** A [map[string]any] is decoded into: members are added, [null] empties it. *)
Definition add_member (ms : list (string * any)) (m : string * any) : list (string * any) :=
  filter (λ e, e.1 ≠ m.1) ms ++ [m].
Definition into_arguments (v : any) (i : EvalInput) : option EvalInput :=
  match v with
  | AObject ms => Some (with_Arguments (Some (foldl add_member (default [] (ei_Arguments i)) ms)) i)
  | ANil => Some (with_Arguments None i)
  | _ => None
  end.
Definition into_time (v : any) (i : EvalInput) : option EvalInput :=
  match v with
  | ANil => Some i
  | v => (λ t, with_Timestamp t i) <$> parse_time (json_text v)
  end.
Definition eval_fields : list (field EvalInput) :=
  [("protocol", into_string with_Protocol); ("protocol_version", into_string with_ProtocolVersion);
   ("tool", into_string with_Tool); ("arguments", into_arguments); ("agent", into_string with_Agent);
   ("timestamp", into_time); ("raw_method", into_string with_RawMethod)].
Definition zero_input : EvalInput := mkEvalInput "" "" "" None "" GoTime.zero_time "".

(** [Handler.handleList] *)
Definition policy_json (p : Policy) : any :=
  AObject ([("id", AString (po_ID p)); ("title", AString (po_Title p)); ("trigger_rule", AString (po_TriggerRule p));
            ("action_type", AString (po_ActionType p)); ("enabled", ABool (po_Enabled p));
            ("created_at", AString (time_text (po_CreatedAt p))); ("updated_at", AString (time_text (po_UpdatedAt p)))]
           ++ if String.eqb (po_Code p) "" then [] else [("code", AString (po_Code p))]).
Definition handleList : prog (Response any) :=
  listed ← call CListPolicies;
  match (listed : result (list Policy)) with
  | Err _ => mret (http_Error "Internal server error" 500)
  | Ok policies =>
      version ← call CPolicyVersion;
      mret (json_ok [("X-Elodea-Policy-Version", version)] (AArray (map policy_json policies)))
  end.

(** [Handler.handleReload]; the version read for the log line is read again for the body. *)
Definition handleReload (r : Request) : prog (Response any) :=
  match FromContext r with
  | Some ident =>
      if negb (String.eqb (id_Role ident) RoleAdmin) then mret (http_Error (json_error "admin role required") 403)
      else
        previous ← call CPolicyVersion;
        err ← call CPolicyReload;
        match (err : option error) with
        | Some e =>
            mret (mkResponse 422 [("Content-Type", "application/json")]
                    (BJson (AObject [("detail", AString (err_text e));
                                     ("error", AString "policy bundle rejected; previous policy remains active");
                                     ("policy_version", AString previous)])))
        | None =>
            _ ← call CPolicyVersion;
            version ← call CPolicyVersion;
            ready ← call CPolicyReady;
            mret (json_ok [] (AObject [("policy_version", AString version); ("previous_version", AString previous);
                                       ("ready", ABool ready)]))
        end
  | None => mret (http_Error (json_error "admin role required") 403)
  end.

(** The input of a simulation, from the body. *)
Definition bad_body : Response any := http_Error "Invalid request body" 400.
Definition simulation_input (stream : BodyStream) : EvalInput + Response any :=
  match Proxy.read_body maxSimulationBodyBytes stream with
  | Err err => inr (if errors_Is err SMaxBytes then http_Error "Request body exceeds limit" 413 else bad_body)
  | Ok body =>
      match DecodeObject body with
      | Err _ => inr bad_body
      | Ok object =>
          let normalized := json_text (in_key_order (AObject object)) in
          match decode_first eval_fields normalized zero_input with
          | None => inr bad_body
          | Some input =>
              if String.eqb (ei_Tool input) "" || String.eqb (ei_Agent input) ""
              then inr (http_Error "tool and agent are required" 400) else inl input
          end
      end
  end.

(** [Handler.handleSimulate] *)
Definition decision_json (d : ProxyDecision) (elapsed : Z) : any :=
  AObject ([("action", AString (pd_Action d)); ("rule", AString (pd_Rule d));
            ("latency_ms", ANumber (latency_text elapsed)); ("explanation", AString (pd_Explanation d))]
           ++ if String.eqb (pd_PolicyVersion d) "" then [] else [("policy_version", AString (pd_PolicyVersion d))]).
Definition simulate (input : EvalInput) : prog (Response any) :=
  start ← call CNow;
  evaluated ← call (CEvaluate input);
  stop ← call CNow;
  match (evaluated : result ProxyDecision) with
  | Err _ => mret (http_Error "Internal server error" 500)
  | Ok d => mret (json_ok [] (decision_json d (GoTime.sub stop start)))
  end.
Definition handleSimulate (stream : BodyStream) : prog (Response any) :=
  match simulation_input stream with
  | inr resp => mret resp
  | inl input =>
      if GoTime.is_zero (ei_Timestamp input) then now ← call CNow; simulate (with_Timestamp now input)
      else simulate input
  end.

(** [Handler.ServeHTTP] *)
Definition ServeHTTP (r : Request) (stream : BodyStream) : prog (Response any) :=
  if String.eqb (rq_Method r) "POST" && has_suffix (rq_Path r) "/simulate" then handleSimulate stream
  else if String.eqb (rq_Method r) "POST" && has_suffix (rq_Path r) "/reload" then handleReload r
  else if String.eqb (rq_Method r) "GET" then handleList
  else if String.eqb (rq_Method r) "PATCH" || String.eqb (rq_Method r) "PUT" || String.eqb (rq_Method r) "POST" then
    mret (http_Error (json_error "policies are immutable; modify via version control") 405)
  else mret (http_Error "Method not allowed" 405).

(** ** What the handler does *)

(** The calls the API may make for a request. *)
Definition api_call (r : Request) (stream : BodyStream) (c : cmd) : Prop :=
  match c with
  | CPolicyReload =>
      rq_Method r = "POST" ∧ has_suffix (rq_Path r) "/reload" = true
      ∧ ∃ ident, FromContext r = Some ident ∧ id_Role ident = RoleAdmin
  | CEvaluate input =>
      rq_Method r = "POST" ∧ has_suffix (rq_Path r) "/simulate" = true
      ∧ strlen (bs_bytes stream) <= maxSimulationBodyBytes ∧ ei_Tool input ≠ "" ∧ ei_Agent input ≠ ""
      ∧ ∃ object decoded, DecodeObject (bs_bytes stream) = Ok object
          ∧ decode_first eval_fields (json_text (in_key_order (AObject object))) zero_input = Some decoded
          ∧ (input = decoded ∨ GoTime.is_zero (ei_Timestamp decoded) = true ∧ ∃ now, input = with_Timestamp now decoded)
  | CListPolicies | CPolicyVersion | CPolicyReady | CNow => True
  | _ => False
  end.

Lemma simulation_input_ok stream input :
  simulation_input stream = inl input →
  strlen (bs_bytes stream) <= maxSimulationBodyBytes ∧ ei_Tool input ≠ "" ∧ ei_Agent input ≠ ""
  ∧ ∃ object, DecodeObject (bs_bytes stream) = Ok object
      ∧ decode_first eval_fields (json_text (in_key_order (AObject object))) zero_input = Some input.
Proof.
  unfold simulation_input, Proxy.read_body.
  destruct (Z.ltb_spec (Z.max 0 maxSimulationBodyBytes) (strlen (bs_bytes stream))) as [|B]; [done|].
  destruct (bs_err stream); [done|]. destruct (DecodeObject (bs_bytes stream)) as [object|]; [|done].
  destruct (decode_first _ _ _) as [decoded|] eqn:D; [|done].
  destruct (String.eqb_spec (ei_Tool decoded) ""), (String.eqb_spec (ei_Agent decoded) ""); try done.
  intros [= <-]. split_and!; try done. by exists object.
Qed.

Lemma simulate_safe r stream input h :
  api_call r stream (CEvaluate input) → safe (λ _, api_call r stream) h (simulate input).
Proof. intros A. split; [done|]. intros t0. split; [done|]. intros d. split; [done|]. intros t1. by destruct d. Qed.

Lemma ServeHTTP_safe r stream : safe (λ _, api_call r stream) [] (ServeHTTP r stream).
Proof.
  unfold ServeHTTP. destruct (String.eqb_spec (rq_Method r) "POST") as [M|M]; cbn [andb].
  - destruct (has_suffix (rq_Path r) "/simulate") eqn:S1.
    { unfold handleSimulate. destruct (simulation_input stream) as [input|] eqn:I; [|done].
      apply simulation_input_ok in I as (B & T & A & object & D & E).
      destruct (GoTime.is_zero (ei_Timestamp input)) eqn:Z0.
      - split; [done|]. intros now. apply simulate_safe. split_and!; try done. exists object, input.
        split_and!; [done..|]. right. split; [done|]. by exists now.
      - apply simulate_safe. split_and!; try done. exists object, input. split_and!; [done..|]. by left. }
    destruct (has_suffix (rq_Path r) "/reload") eqn:S2.
    { unfold handleReload. destruct (FromContext r) as [ident|] eqn:F; [|done].
      destruct (String.eqb_spec (id_Role ident) RoleAdmin) as [A|]; [|done]. cbn [negb].
      split; [done|]. intros v. split; [split_and!; eauto|]. intros [e|]; [done|]. split; [done|]. intros v'.
      split; [done|]. intros v''. split; [done|]. by intros b. }
    by rewrite M.
  - destruct (String.eqb (rq_Method r) "GET"); [|by destruct (_ || _)].
    split; [done|]. intros [ps|]; [|done]. split; [done|]. by intros v.
Qed.

Lemma policies_passive r stream : only passive (ServeHTTP r stream).
Proof. eapply safe_mono; [|apply ServeHTTP_safe]. intros h c G. by destruct c. Qed.

(** C40: the policy API never changes what is enforced but by an admin's [POST] to
    [/reload]; a simulation evaluates only the input a [POST] to [/simulate] carries, of
    at most one mebibyte, decoded without duplicate keys, naming a tool and an agent, with
    the time filled in when it is zero; all else the handler calls only reads. *)
Theorem policy_api_guarded r stream tr p c x tr1 tr2 :
  steps (ServeHTTP r stream) tr p → tr = tr1 ++ Ev c x :: tr2 → api_call r stream c.
Proof. exact (safe_steps _ _ [] _ _ _ _ _ _ (ServeHTTP_safe r stream)). Qed.
End handler.

(** ** Closed examples *)

Section examples.
#[local] Existing Instance ascii_tables.

Definition nl : string := String (byte_of 10) "".
Definition sample_walk : list WalkStep :=
  [mkStep "policies/b/deny.rego" "b/deny.rego" None None false (Ok 7) (Ok ("# =====" +:+ nl +:+ "# No deletes" +:+ nl +:+ "package x"));
   mkStep "policies/README.md" "README.md" None None false (Ok 7) (Err (errors_New "unread"));
   mkStep "policies/a.rego.disabled" "a.rego.disabled" None None false (Ok 9) (Ok "# Title: Old rule")].

Example sample_list :
  List sample_walk
  = Ok [mkPolicy "a" "Old rule" "" "" false 9 9 "# Title: Old rule";
        mkPolicy "b/deny" "No deletes" "" "" true 7 7 ("# =====" +:+ nl +:+ "# No deletes" +:+ nl +:+ "package x")].
Proof. vm_compute. reflexivity. Qed.

Lemma policy_list_exact_witness : Forall readable sample_walk.
Proof. apply (proj1 (policy_list_exact sample_walk)). vm_compute. reflexivity. Defined.

Definition sample_simulation : BodyStream :=
  mkStream ("{" +:+ quoted "tool" +:+ ":" +:+ quoted "delete" +:+ "," +:+ quoted "Agent" +:+ ":" +:+ quoted "bot" +:+ "}") None.
Example sample_input :
  simulation_input (λ _, None) sample_simulation = inl (mkEvalInput "" "" "delete" None "bot" GoTime.zero_time "").
Proof. vm_compute. reflexivity. Qed.

Lemma policy_api_guarded_witness :
  let r := mkRequest "POST" "/reload" [] ∅ "" (Some (mkIdentity "root" RoleAdmin)) in
  api_call (λ _, None) r (mkStream "" None) CPolicyReload.
Proof.
  intros r. eapply (policy_api_guarded (λ _, None) (λ _, "") (λ _, "") r (mkStream "" None)
    [Ev CPolicyVersion "v1"; Ev CPolicyReload (Some (errors_New "compile"))] _ CPolicyReload (Some (errors_New "compile"))
    [Ev CPolicyVersion "v1"] []); [|reflexivity].
  right. exists "v1", [Ev CPolicyReload (Some (errors_New "compile"))]. split; [reflexivity|].
  right. exists (Some (errors_New "compile")), []. split; [reflexivity|]. left. split; reflexivity.
Defined.
End examples.
End PolicyStore.
