(* ===== verification/Dashboard.v ===== *)
(** * Dashboard statistics

    [internal/dashboard/handler.go] over [Store.Stats], [Store.List] and [Store.Query].
    The percentage is kept as a rational. *)

From S2P Require Import Prelude GoStrings Types Ledger Effects LedgerHandler QHandler.
From stdpp Require Import base tactics strings list pretty.
From Stdlib Require Import ZArith QArith Lqa Lia.

Local Open Scope Z_scope.

Module Dashboard.

Record statsResponse : Type := mkStats {
  sr_TotalActionsToday : Z;
  sr_PolicyViolations : Z;
  sr_PendingApprovals : list QuarantineEntry;
  sr_ComplianceStatus : Q;
  sr_RecentFeed : list LedgerEntry
}.

(** [complianceStatus] *)
Definition complianceStatus (total violations : Z) : Q :=
  if total =? 0 then inject_Z 100
  else ((1 - inject_Z violations / inject_Z total) * inject_Z 100)%Q.

Section handler.
(** How [encoding/json] writes a [time.Time], and the percentage. *)
Variable time_text : Z → string.
Variable percent_text : Q → string.

Definition stats_json (s : statsResponse) : option any :=
  match mapM (QHandler.MarshalJSON time_text) (sr_PendingApprovals s) with
  | None => None
  | Some pending =>
      Some (AObject [("total_actions_today", ANumber (pretty (sr_TotalActionsToday s)));
                     ("policy_violations", ANumber (pretty (sr_PolicyViolations s)));
                     ("pending_approvals", AArray pending);
                     ("compliance_status", ANumber (percent_text (sr_ComplianceStatus s)));
                     ("recent_feed", AArray (map (LedgerHandler.entry_json time_text) (sr_RecentFeed s)))])
  end.

(** [Handler.ServeHTTP] *)
Definition ServeHTTP (r : Request) : prog (Response any) :=
  if negb (String.eqb (rq_Method r) "GET") then mret (http_Error "Method not allowed" 405)
  else
    counted ← call CStats;
    match (counted : result (Z * Z)) with
    | Err _ => mret (http_Error "Internal server error" 500)
    | Ok (total, violations) =>
        listed ← call (CList "pending");
        match (listed : result (list QuarantineEntry)) with
        | Err _ => mret (http_Error "Internal server error" 500)
        | Ok pending =>
            queried ← call CQueryLedger;
            match (queried : result (list LedgerEntry)) with
            | Err _ => mret (http_Error "Internal server error" 500)
            | Ok recent =>
                mret (QHandler.encode_response
                        (stats_json (mkStats total violations pending (complianceStatus total violations) (take 10 recent))))
            end
        end
    end.

Lemma dashboard_passive r : only passive (ServeHTTP r).
Proof.
  unfold ServeHTTP. destruct (negb _); [done|]. split; [done|]. intros [[total violations]|]; [|done].
  split; [done|]. intros [pending|]; [|done]. split; [done|]. by intros [].
Qed.
End handler.

(** Violations are some of the day's actions, so the percentage is one. *)
Lemma stats_bounds today t : 0 <= (Ledger.Stats today t).2 <= (Ledger.Stats today t).1.
Proof.
  unfold Ledger.Stats, Ledger.CountTodayViolations, Ledger.CountTodayActions. cbn [fst snd]. split; [lia|].
  apply inj_le. induction t as [|e t IH]; [done|]. rewrite !filter_cons.
  destruct (decide (today <= le_Timestamp e ∧ _)) as [[L _]|_].
  - rewrite decide_True by done. cbn. lia.
  - destruct (decide (today <= le_Timestamp e)); cbn; lia.
Qed.

Lemma compliance_bounds total violations :
  0 <= violations <= total → (0 <= complianceStatus total violations <= 100)%Q.
Proof.
  intros B. unfold complianceStatus. destruct (Z.eqb_spec total 0) as [|N]; [by split|].
  assert (0 <= inject_Z violations / inject_Z total)%Q as L0.
  { apply Qle_shift_div_l; [change 0%Q with (inject_Z 0); rewrite <- Zlt_Qlt; lia|].
    rewrite Qmult_0_l. change 0%Q with (inject_Z 0). rewrite <- Zle_Qle. lia. }
  assert (inject_Z violations / inject_Z total <= 1)%Q as L1.
  { apply Qle_shift_div_r; [change 0%Q with (inject_Z 0); rewrite <- Zlt_Qlt; lia|].
    rewrite Qmult_1_l, <- Zle_Qle. lia. }
  generalize dependent (inject_Z violations / inject_Z total)%Q. intros q L0 L1.
  change (inject_Z 100) with 100%Q. split; lra.
Qed.

(** The stores over the tables. *)
Definition table_env (today : Z) (t : list LedgerEntry) (pending : list QuarantineEntry) (c : cmd) (s : unit)
    : ans c * unit :=
  match c return ans c * unit with
  | CStats => (Ok (Ledger.Stats today t), s)
  | CList _ => (Ok pending, s)
  | CQueryLedger => (Ok (Ledger.Query t), s)
  | c => (quiet_answer c, s)
  end.

(** What the dashboard shows of the tables: the counts of the day, a percentage between 0
    and 100, what is pending, and at most the ten newest entries. *)
Lemma dashboard_shows time_text percent_text r today t pending :
  rq_Method r = "GET" →
  ∃ s, (run (table_env today t pending) (ServeHTTP time_text percent_text r) tt).1.2
       = QHandler.encode_response (stats_json time_text percent_text s)
    ∧ sr_TotalActionsToday s = Ledger.CountTodayActions today t
    ∧ sr_PolicyViolations s = Ledger.CountTodayViolations today t
    ∧ (0 <= sr_ComplianceStatus s <= 100)%Q ∧ sr_PendingApprovals s = pending
    ∧ sr_RecentFeed s = take 10 (reverse (Ledger.order_asc t)).
Proof.
  intros M. unfold ServeHTTP. rewrite M. eexists. split; [reflexivity|]. split_and!; try done.
  - apply (compliance_bounds (Ledger.Stats today t).1 (Ledger.Stats today t).2), stats_bounds.
  - apply (compliance_bounds (Ledger.Stats today t).1 (Ledger.Stats today t).2), stats_bounds.
  - cbn. unfold Ledger.Query, Ledger.ListRecentLedgerEntries. by rewrite take_take.
Qed.
End Dashboard.
