(* ===== verification/Server.v ===== *)
(** * The HTTP surface and start-up

    [cmd/server/main.go]: the middlewares, the route table of [buildHTTPHandler], the
    probes, and the start-up loops.  The handlers behind the routes are fields of
    [httpDeps], as in the code; [CReady] reads the atomic readiness flag and [CAllow] asks
    the identity's [rate.Limiter].  [prometheusMiddleware] only counts and is left out.
    [main] is the sequence of stages it begins, with the failures of the stages and of the
    listener as arguments; what a goroutine does is the model of its component. *)

From S2P Require Import Prelude GoStrings GoTime Types GoUrl GoHttp Config Effects Auth Sso Proxy GoMux Notify SlackApp.
From stdpp Require Import base tactics strings list gmap.
From Stdlib Require Import ZArith Lia.

Local Open Scope Z_scope.

Import Config GoHttp Auth GoMux.

Module Server.

(** ** Middlewares *)

(** [originAllowed] *)
Definition originAllowed (origin : string) (allowedOrigins : list string) : bool :=
  existsb (λ allowed, String.eqb allowed "*" || String.eqb allowed origin) allowedOrigins.

(** Headers set on the writer before the handler runs. *)
Definition with_headers (hs : list (string * string)) (resp : Response any) : Response any :=
  mkResponse (rs_Status resp) (rs_Header resp ++ hs) (rs_Body resp).

(** [corsMiddleware] *)
Definition cors_headers (allowedOrigins : list string) (origin : string) : list (string * string) :=
  (if String.eqb origin "" then []
   else ("Access-Control-Allow-Origin", origin)
        :: (if bool_decide (origin ∈ allowedOrigins) then [("Access-Control-Allow-Credentials", "true")] else []))
  ++ [("Vary", "Origin"); ("Access-Control-Allow-Methods", "GET, POST, OPTIONS");
      ("Access-Control-Allow-Headers", "Content-Type, Authorization, " +:+ CSRFHeader);
      ("Access-Control-Expose-Headers", "X-Next-Before, X-Elodea-Policy-Version")].
Definition corsMiddleware (allowedOrigins : list string) (next : Handler) : Handler := λ x,
  let origin := header_get (rq_Header (in_req x)) "Origin" in
  if negb (String.eqb origin "") && negb (originAllowed origin allowedOrigins) then
    mret (http_Error ("{" +:+ quoted "error" +:+ ":" +:+ quoted "origin is not allowed" +:+ "}") 403)
  else
    let hs := cors_headers allowedOrigins origin in
    if String.eqb (rq_Method (in_req x)) "OPTIONS" then mret (mkResponse 200 hs BNone)
    else
      resp ← next x;
      mret (with_headers hs resp).

(** [rateLimiter.middleware] *)
Definition limiter_middleware (next : Handler) : Handler := λ x,
  match FromContext (in_req x) with
  | None => mret (http_Error (json_error "authenticated identity required for rate limiting") 500)
  | Some ident =>
      ok ← call (CAllow (id_ID ident));
      if negb (ok : bool) then mret (http_Error (json_error "rate limit exceeded") 429) else next x
  end.

(** *** The limiters

    [rateLimiter]: the map of the limiters made so far, which are shared; [NewLimiter] and
    [Allow], at a time, are those of the [rate] package.  [get] runs under the mutex. *)
Section limiters.
Context {Limiter : Type} (NewLimiter : Limiter) (Allow : Z → Limiter → bool * Limiter).

Definition rateLimiter : Type := gmap string Limiter.
Definition newRateLimiter : rateLimiter := ∅.
Definition rl_get (id : string) (rl : rateLimiter) : Limiter * rateLimiter :=
  match rl !! id with
  | Some l => (l, rl)
  | None => (NewLimiter, <[id := NewLimiter]> rl)
  end.
Definition allow (now : Z) (id : string) (rl : rateLimiter) : bool * rateLimiter :=
  let '(l, rl) := rl_get id rl in
  let '(ok, l) := Allow now l in
  (ok, <[id := l]> rl).

(** The answers to a sequence of calls, and those of one limiter on its own. *)
Fixpoint allow_all (calls : list (Z * string)) (rl : rateLimiter) : list (string * bool) :=
  match calls with
  | [] => []
  | (now, id) :: calls' => let '(ok, rl) := allow now id rl in (id, ok) :: allow_all calls' rl
  end.
Fixpoint bucket (times : list Z) (l : Limiter) : list bool :=
  match times with
  | [] => []
  | now :: times' => let '(ok, l) := Allow now l in ok :: bucket times' l
  end.

(** The limit is per identity: what the others ask for, and when, changes no answer. *)
Lemma limits_independent id calls rl :
  (filter (λ a, a.1 = id) (allow_all calls rl)).*2
  = bucket (filter (λ c, c.2 = id) calls).*1 (default NewLimiter (rl !! id)).
Proof.
  revert rl. induction calls as [|[now id'] calls IH]; intros rl; [done|]. cbn [allow_all].
  unfold allow, rl_get.
  assert (∀ l rl', (if decide (id' = id) then default NewLimiter (rl !! id) = l else True) →
    (∀ l', default NewLimiter (<[id' := l']> rl' !! id) = if decide (id' = id) then l' else default NewLimiter (rl !! id)) →
    (filter (λ a, a.1 = id)
       (let '(ok, rl0) := (let '(ok, l) := Allow now l in (ok, <[id' := l]> rl')) in (id', ok) :: allow_all calls rl0)).*2
    = bucket (filter (λ c, c.2 = id) ((now, id') :: calls)).*1 (default NewLimiter (rl !! id))) as K.
  { intros l rl' L S. destruct (Allow now l) as [ok l'] eqn:A. rewrite !filter_cons. cbn [fst snd].
    destruct (decide (id' = id)) as [->|]; cbn [fmap list_fmap fst snd bucket].
    - rewrite L, A, IH, S. done.
    - by rewrite IH, S. }
  unfold rateLimiter in *. destruct (rl !! id') as [l|] eqn:G; [apply (K l rl)|apply (K NewLimiter (<[id' := NewLimiter]> rl))];
    try intros l'; (destruct (decide (id' = id)) as [->|]; [|by rewrite ?lookup_insert_ne]).
  all: by rewrite ?G, ?lookup_insert_eq.
Qed.
End limiters.

(** [drainMiddleware]; [CReady] is whether there is a flag and it is set. *)
Definition drainMiddleware (next : Handler) : Handler := λ x,
  ready ← call CReady;
  if negb (ready : bool)
  then mret (http_Error ("{" +:+ quoted "error" +:+ ":" +:+ quoted "server is draining" +:+ "}") 503)
  else next x.

(** A middleware of package [auth] around a handler. *)
Definition on_request (mw : handler → handler) (next : Handler) : Handler := λ x,
  mw (λ r, next (with_req x r)) (in_req x).

(** ** The route table *)

(** The [ssoProvider] interface. *)
Record ssoProvider : Type := mkSso {
  sp_AuthenticateSession : SessionAuthenticator;
  sp_Routes : Handler;
  sp_ConfigHandler : Handler
}.

(** [httpDeps]; [hd_policyProbes] says whether the policy probes are wired, and
    [hd_metrics] is the Prometheus handler. *)
Record httpDeps : Type := mkDeps {
  hd_version : string;
  hd_startTime : Z;
  hd_proxy : Handler;
  hd_quarantine : Handler;
  hd_ledger : Handler;
  hd_policy : Handler;
  hd_dashboard : Handler;
  hd_identities : gmap string Identity;
  hd_allowedOrigins : list string;
  hd_policyProbes : bool;
  hd_slack : option Handler;
  hd_sso : option ssoProvider;
  hd_metrics : Handler;
  hd_metricsOnSeparateListener : bool
}.

Section build.
(** [json.Marshal] of [time.Since(start).Seconds()], and [http.RedirectHandler] on a
    path and a query. *)
Variable seconds_text : Z → string.
Variable redirect : string → string → Response any.
Variable d : httpDeps.

Definition publicChain (next : Handler) : Handler := corsMiddleware (hd_allowedOrigins d) next.
Definition agentChain (next : Handler) : Handler :=
  corsMiddleware (hd_allowedOrigins d)
    (drainMiddleware
       (on_request (Middleware (hd_identities d))
          (limiter_middleware (on_request (RequireRole [RoleAgent]) next)))).
Definition sessions : option SessionAuthenticator := sp_AuthenticateSession <$> hd_sso d.
Definition allowOrigin (origin : string) : bool := originAllowed origin (hd_allowedOrigins d).
Definition humanChain (next : Handler) : Handler :=
  corsMiddleware (hd_allowedOrigins d)
    (drainMiddleware
       (on_request (HumanMiddleware (hd_identities d) sessions allowOrigin) (on_request ReviewerOrAdmin next))).

Definition healthHandler : Handler := λ _,
  now ← call CNow;
  mret (json_ok [] (AObject [("status", AString "ok");
                             ("uptime_seconds", ANumber (seconds_text (GoTime.sub now (hd_startTime d))));
                             ("version", AString (hd_version d))])).

Definition not_ready (cause : string) (b : bool) : Response any :=
  mkResponse 503 [("Content-Type", "application/json")] (BJson (AObject [(cause, ABool b); ("ready", ABool false)])).
Definition readyzHandler : Handler := λ _,
  up ← call CReady;
  if negb (up : bool) then mret (not_ready "draining" true)
  else
    policy ← (if hd_policyProbes d then call CPolicyReady else mret true);
    if negb (policy : bool) then mret (not_ready "policy" false)
    else
      err ← call CPing;
      match (err : option error) with
      | Some _ => mret (not_ready "postgres" false)
      | None =>
          if hd_policyProbes d then
            version ← call CPolicyVersion;
            mret (json_ok [] (AObject [("policy_version", AString version); ("postgres", ABool true); ("ready", ABool true)]))
          else mret (json_ok [] (AObject [("postgres", ABool true); ("ready", ABool true)]))
      end.

Definition meHandler : Handler := λ x,
  let ident := default (mkIdentity "" "") (FromContext (in_req x)) in
  mret (json_ok [] (AObject [("id", AString (id_ID ident)); ("role", AString (id_Role ident))])).

Definition no_sso : Handler := λ _,
  mret (mkResponse 200 [("Content-Type", "application/json")] (BText ("{" +:+ quoted "sso" +:+ ":false}"))).

(** What a route serves, before its chain is put around it. *)
Inductive domain : Type := Public (h : Handler) | Human (h : Handler) | Agent (h : Handler).
Definition chain (dm : domain) : Handler :=
  match dm with Public h => publicChain h | Human h => humanChain h | Agent h => agentChain h end.

Definition both (path : string) (h : Handler) : list (Pattern * domain) :=
  [(pattern "" path, Human (StripPrefix path h)); (pattern "" (path +:+ "/"), Human (StripPrefix path h))].
Definition routes : list (Pattern * domain) :=
  [(pattern "" "/api/v1/health", Public healthHandler)]
  ++ match hd_slack d with
     | Some slack => [(pattern "" "/integrations/slack/interactions", Public (drainMiddleware slack))]
     | None => []
     end
  ++ match hd_sso d with
     | Some sso => [(pattern "" "/auth/", Public (sp_Routes sso)); (pattern "" "/api/v1/auth/config", Public (sp_ConfigHandler sso))]
     | None => [(pattern "" "/api/v1/auth/config", Public no_sso)]
     end
  ++ [(pattern "" "/readyz", Public readyzHandler)]
  ++ both "/api/v1/quarantine" (hd_quarantine d)
  ++ both "/api/v1/ledger" (hd_ledger d)
  ++ both "/api/v1/policies" (hd_policy d)
  ++ [(pattern "" "/api/v1/dashboard/stats", Human (hd_dashboard d));
      (pattern "" "/api/v1/me", Human meHandler);
      (pattern "" "/", Agent (hd_proxy d))]
  ++ (if hd_metricsOnSeparateListener d then [] else [(pattern "" "/metrics", Public (hd_metrics d))]).

(** [buildHTTPHandler] *)
Definition buildHTTPHandler : Handler :=
  mux_serve redirect chain routes.

(** ** Who reaches what *)

Lemma runs_cors origins next x tr resp :
  runs (corsMiddleware origins next x) tr resp →
  tr = [] ∧ rs_Status resp ∈ [200; 403]
  ∨ ∃ resp', runs (next x) tr resp' ∧ rq_Method (in_req x) ≠ "OPTIONS"
      ∧ (header_get (rq_Header (in_req x)) "Origin" = ""
         ∨ originAllowed (header_get (rq_Header (in_req x)) "Origin") origins = true)
      ∧ resp = with_headers (cors_headers origins (header_get (rq_Header (in_req x)) "Origin")) resp'.
Proof.
  unfold corsMiddleware. destruct (negb _ && negb _) eqn:O; [intros [-> ->]; left; split; [done|set_solver]|].
  destruct (String.eqb_spec (rq_Method (in_req x)) "OPTIONS") as [|M]; [intros [-> ->]; left; split; [done|set_solver]|].
  intros R. apply runs_bind in R as (tr1 & tr2 & resp' & -> & R & [-> ->]). right. exists resp'.
  rewrite app_nil_r. split_and!; try done.
  apply andb_false_iff in O as [O|O]; apply negb_false_iff in O; [left; by apply String.eqb_eq|by right].
Qed.

(** What a request behind the human chain's CORS check does. *)
Definition human_served (h : Handler) (x : Inbound) (tr : list event) (resp : Response any) : Prop :=
  (tr = [Ev CReady false] ∧ rs_Status resp = 503)
  ∨ ∃ tr', tr = Ev CReady true :: tr'
      ∧ ((denied resp ∧ session_calls sessions (in_req x) tr')
         ∨ ∃ id tr1 tr2, tr' = tr1 ++ tr2
             ∧ authenticates (hd_identities d) sessions allowOrigin (in_req x) tr1 id
             ∧ (id_Role id = RoleReviewer ∨ id_Role id = RoleAdmin)
             ∧ runs (h (with_req x (WithIdentity (in_req x) id))) tr2 resp).

(** What a request behind the agent chain's CORS check does. *)
Definition agent_served (h : Handler) (x : Inbound) (tr : list event) (resp : Response any) : Prop :=
  (tr = [Ev CReady false] ∧ rs_Status resp = 503)
  ∨ (tr = [Ev CReady true] ∧ denied resp)
  ∨ ∃ token id tr', header_get (rq_Header (in_req x)) "Authorization" = "Bearer " +:+ token
      ∧ hd_identities d !! token = Some id ∧ tr = Ev CReady true :: tr'
      ∧ ((tr' = [Ev (CAllow (id_ID id)) false] ∧ rs_Status resp = 429)
         ∨ ∃ tr2, tr' = Ev (CAllow (id_ID id)) true :: tr2
             ∧ ((id_Role id ≠ RoleAgent ∧ tr2 = [] ∧ denied resp)
                ∨ (id_Role id = RoleAgent ∧ runs (h (with_req x (WithIdentity (in_req x) id))) tr2 resp))).

Lemma on_request_role roles next x id :
  on_request (RequireRole roles) next (with_req x (WithIdentity (in_req x) id))
  = if bool_decide (id_Role id ∈ roles) then next (with_req x (WithIdentity (in_req x) id))
    else Ret (http_Error (json_error "insufficient role") 403).
Proof. reflexivity. Qed.

Lemma runs_human next x tr resp :
  runs (drainMiddleware (on_request (HumanMiddleware (hd_identities d) sessions allowOrigin)
          (on_request ReviewerOrAdmin next)) x) tr resp → human_served next x tr resp.
Proof.
  intros (b & tr' & -> & R). destruct b; [|left; by destruct R as [-> ->]]. right. exists tr'. split; [done|].
  apply (HumanMiddleware_runs (hd_identities d) sessions allowOrigin) in R
    as [?|(id & tr1 & tr2 & -> & A & R)]; [by left|].
  unfold ReviewerOrAdmin in R. rewrite on_request_role in R. case_bool_decide as I.
  - right. exists id, tr1, tr2. split_and!; try done. set_solver.
  - destruct R as [-> ->]. left. split; [by right|]. rewrite app_nil_r.
    destruct A as [[-> _]|(a & Hs & Ra & _)]; [by left|right; eauto].
Qed.

Lemma runs_agent next x tr resp :
  runs (drainMiddleware (on_request (Middleware (hd_identities d))
          (limiter_middleware (on_request (RequireRole [RoleAgent]) next))) x) tr resp → agent_served next x tr resp.
Proof.
  intros (b & tr' & -> & R). destruct b; [|left; by destruct R as [-> ->]]. right.
  change (runs (Middleware (hd_identities d)
    (λ r, limiter_middleware (on_request (RequireRole [RoleAgent]) next) (with_req x r)) (in_req x)) tr' resp) in R.
  destruct (Middleware_cases (hd_identities d)
    (λ r, limiter_middleware (on_request (RequireRole [RoleAgent]) next) (with_req x r)) (in_req x))
    as [(t & id & Ht & L & A)|(resp' & A & D)]; unfold admitted in A; rewrite A in R.
  - right. exists t, id, tr'. split_and!; try done. destruct R as (ok & tr2 & -> & R).
    destruct ok; [|left; by destruct R as [-> ->]]. right. exists tr2. split; [done|].
    change (runs (on_request (RequireRole [RoleAgent]) next (with_req x (WithIdentity (in_req x) id))) tr2 resp) in R.
    rewrite on_request_role in R. case_bool_decide as I.
    + right. split; [set_solver|done].
    + left. destruct R as [-> ->]. split_and!; [set_solver|done|by right].
  - destruct R as [-> ->]. left. done.
Qed.

(** What a route does behind the CORS check. *)
Definition domain_served (dm : domain) (x : Inbound) (tr : list event) (resp : Response any) : Prop :=
  match dm with
  | Public h => runs (h x) tr resp
  | Human h => human_served h x tr resp
  | Agent h => agent_served h x tr resp
  end.

(** A request that causes a call was routed to a handler through its chain. *)
Lemma runs_build x tr resp :
  runs (buildHTTPHandler x) tr resp →
  tr = []
  ∨ ∃ p dm resp', (p, dm) ∈ routes
      ∧ match_request routes (rq_Method (in_req x)) (in_EscapedPath x) = Some (p, dm)
      ∧ (header_get (rq_Header (in_req x)) "Origin" = "" ∨ allowOrigin (header_get (rq_Header (in_req x)) "Origin") = true)
      ∧ resp = with_headers (cors_headers (hd_allowedOrigins d) (header_get (rq_Header (in_req x)) "Origin")) resp'
      ∧ domain_served dm x tr resp'.
Proof.
  intros [?|(p & dm & I & M & R)]%runs_mux; [by left|].
  assert (∃ next, chain dm = corsMiddleware (hd_allowedOrigins d) next
          ∧ ∀ resp', runs (next x) tr resp' → domain_served dm x tr resp') as (next & C & K).
  { destruct dm as [h|h|h]; eexists; (split; [reflexivity|]); intros resp' R'; [done|by apply runs_human|by apply runs_agent]. }
  rewrite C in R. apply runs_cors in R as [[-> _]|(resp' & R & _ & O & ->)]; [by left|].
  right. exists p, dm, resp'. split_and!; [done|done|done|done|by apply K].
Qed.

(** The patterns served without authentication. *)
Definition public_patterns : list Pattern :=
  map (pattern "") ["/api/v1/health"; "/integrations/slack/interactions"; "/auth/"; "/api/v1/auth/config"; "/readyz"; "/metrics"].

Lemma public_routes p h : (p, Public h) ∈ routes → p ∈ public_patterns.
Proof.
  unfold routes. rewrite !elem_of_app.
  destruct (hd_slack d), (hd_sso d), (hd_metricsOnSeparateListener d); set_solver.
Qed.


(** A request with an [Authorization] header is never given to the session check. *)
Lemma HumanMiddleware_bearer identities sess ao next r :
  header_get (rq_Header r) "Authorization" ≠ "" →
  HumanMiddleware identities sess ao next r = Middleware identities next r.
Proof.
  intros N. unfold HumanMiddleware. destruct sess; [|done].
  by destruct (String.eqb_spec (header_get (rq_Header r) "Authorization") "").
Qed.

Lemma Middleware_bearer identities next r tok id :
  header_get (rq_Header r) "Authorization" = "Bearer " +:+ tok → identities !! tok = Some id →
  Middleware identities next r = next (WithIdentity r id).
Proof.
  intros H L. unfold Middleware. rewrite H. change bearer_prefix with "Bearer ". rewrite has_prefix_append.
  cbn [negb]. change (String.length "Bearer ") with 7%nat.
  change (drop_str 7 ("Bearer " +:+ tok)) with (drop_str (String.length "Bearer ") ("Bearer " +:+ tok)).
  by rewrite drop_str_append, lookupIdentity_lookup, L.
Qed.

End build.

(** C10: agents never review.  With a validated configuration and the token table [main]
    builds from it, a request that presents an agent's token is turned away from every
    human route, whatever its cookies: no handler behind the chain runs, no session is
    looked up, and the answer is the preflight's, 403, or 503 while draining. *)
Theorem agents_never_review `{UnicodeTables} `{UrlLib} (d : httpDeps) (allow_dev : bool) (c c' : Config.Config)
    (tok agent : string) (h : Handler) (x : Inbound) (tr : list event) (resp : Response any) :
  Validate allow_dev c = Ok c' → hd_identities d = identities c' →
  cf_APIKeys c !! tok = Some agent → header_get (rq_Header (in_req x)) "Authorization" = "Bearer " +:+ tok →
  runs (humanChain d h x) tr resp →
  (tr = [] ∨ ∃ b, tr = [Ev CReady b]) ∧ rs_Status resp ∈ [200; 403; 503].
Proof.
  intros [Ck ->]%Validate_ok Ed K A R.
  assert (identities (normalise c) !! tok = Some (mkIdentity agent RoleAgent)) as L.
  { apply (identities_spec (normalise c)); [exact (acc_tokens _ _ Ck)|]. by left. }
  apply runs_cors in R as [[-> S]|(resp' & R & _ & _ & ->)]; [split; [by left|set_solver]|].
  destruct R as (b & tr' & -> & R). destruct b; [|destruct R as [-> ->]; split; [eauto|set_solver]].
  change (runs (HumanMiddleware (hd_identities d) (sessions d) (allowOrigin d)
    (λ r, on_request ReviewerOrAdmin h (with_req x r)) (in_req x)) tr' resp') in R.
  rewrite HumanMiddleware_bearer in R by (rewrite A; done).
  rewrite (Middleware_bearer _ _ _ tok (mkIdentity agent RoleAgent)) in R by (rewrite ?Ed; done).
  unfold ReviewerOrAdmin in R. rewrite on_request_role in R.
  rewrite bool_decide_eq_false_2 in R by (vm_compute; set_solver). destruct R as [-> ->].
  split; [eauto|]. set_solver.
Qed.

(** [Service.Routes], and a service as the [ssoProvider] *)
Section sso.
Context `{UnicodeTables} `{UrlLib}.
Variable redirect : string → string → Response any.
Variable s : Sso.Service.
Variable AuthCodeURL : string → string → string → string.

Definition sso_Routes : Handler :=
  mux_serve redirect (λ h : Handler, h)
    [(pattern "GET" "/auth/login", λ x, Sso.login s AuthCodeURL (in_req x));
     (pattern "GET" "/auth/callback", λ x, Sso.callback s (in_req x));
     (pattern "POST" "/auth/logout", λ x, Sso.logout s (in_req x))].
Definition sso_provider : ssoProvider :=
  mkSso (Sso.AuthenticateSession s) sso_Routes (λ x, Sso.ConfigHandler s (in_req x)).
End sso.

(** ** Start-up *)

(** [connectPostgres]: [attempts] pings, two seconds apart, until one succeeds or the
    context ends; [attempt] counts from 1 in the code and down here.  [opened] is what
    [sql.Open] makes of the data source name. *)
Definition attempts : nat := 10.
Definition ctx_canceled : error := mkErr (Some SCanceled) "context canceled".
Fixpoint connect_loop (left : nat) : prog (option error) :=
  err ← call CPing;
  match (err : option error) with
  | None => mret None
  | Some e =>
      match left with
      | O => mret (Some (errorf_w "postgres unreachable after 10 attempts" e))
      | S n =>
          passed ← call (CWait (2 * GoTime.second));
          if negb (passed : bool) then mret (Some ctx_canceled) else connect_loop n
      end
  end.
Definition connectPostgres (opened : option error) : prog (option error) :=
  match opened with Some e => mret (Some e) | None => connect_loop (attempts - 1) end.

(** [reloadOnSignal] for the SIGHUPs received before the context ends. *)
Fixpoint reloadOnSignal (signals : nat) : prog unit :=
  match signals with
  | O => mret tt
  | S n =>
      err ← call CPolicyReload;
      _ ← (match (err : option error) with Some _ => mret "" | None => call CPolicyVersion end);
      reloadOnSignal n
  end.

(** The end of [main], once the signal came: readiness first, then the workers, then the
    wait in which the orchestrator notices, then the listeners.  [CWait] tells whether the
    time passed before the worker was done, which only the log shows; the drain timer is
    waited out. *)
Definition shutdown (cfg : Config.Config) : prog (option error) :=
  _ ← call CDrain;
  _ ← call CCancelWorkers;
  _ ← call (CWait (5 * GoTime.second));
  _ ← call (CSleep (cf_ShutdownDrainDelay cfg));
  _ ← (if String.eqb (cf_MetricsListenAddr cfg) "" then mret None else call (CShutdown true));
  call (CShutdown false).

Lemma shutdown_passive cfg : only passive (shutdown cfg).
Proof. unfold shutdown. by destruct (String.eqb _ ""); repeat split. Qed.

(** The listeners stop only after readiness was withdrawn and the workers were told. *)
Lemma shutdown_order cfg tr r pre metrics x post :
  runs (shutdown cfg) tr r → tr = pre ++ Ev (CShutdown metrics) x :: post →
  ∃ waited rest, pre = [Ev CDrain tt; Ev CCancelWorkers tt; Ev (CWait (5 * GoTime.second)) waited] ++ rest
    ∧ Ev (CSleep (cf_ShutdownDrainDelay cfg)) tt ∈ rest.
Proof.
  intros ([] & t1 & -> & [] & t2 & -> & waited & t3 & -> & [] & t4 & -> & _) E.
  do 4 (destruct pre as [|? pre]; [done|]; cbn in E; injection E as <- E).
  exists waited, (Ev (CSleep (cf_ShutdownDrainDelay cfg)) tt :: pre). split; [done|]. by left.
Qed.

(** [runHealthcheck]: the exit status. *)
Definition runHealthcheck (getenv : string → string) : prog Z :=
  let target := getenv "ELODEA_HEALTHCHECK_URL" in
  let target := if String.eqb target "" then "http://127.0.0.1:8080/api/v1/health" else target in
  got ← call (CHttpGet target);
  match (got : result Z) with
  | Err _ => mret 1
  | Ok status => mret (if negb (status =? 200) then 1 else 0)
  end.

(** The Slack app's settings and the notification channels [main] passes on. *)
Definition slack_config (cfg : Config.Config) : SlackApp.Config :=
  let sl := cf_Slack cfg in
  SlackApp.mkConfig (sl_BotToken sl) (sl_SigningSecret sl) (sl_ChannelID sl) (sl_TeamID sl) (sl_Reviewers sl)
    (cf_ConsoleURL cfg) (sl_APIBase sl).
Definition notify_channels (time_json : Z → result string) (cfg : Config.Config) (slackApp : option Notify.Channel)
    : list Notify.Channel :=
  let n := cf_Notify cfg in
  (if String.eqb (nc_SlackWebhookURL n) "" then [] else [Notify.NewSlack (nc_SlackWebhookURL n)])
  ++ (if String.eqb (nc_WebhookURL n) "" then []
      else [Notify.NewWebhook time_json (nc_WebhookURL n) (nc_WebhookSecret n)])
  ++ option_list slackApp.

(** *** The life of the process *)

(** The steps of [main], in the order they are begun; [SGo] are goroutines. *)
Inductive stage : Type :=
  | SHealthcheck | SLoad | SLogger | SConnect | SMigrate | SEngine | SQuarantineStore | SLedgerStore | SPolicyStore
  | SProxyHandler | SReady (b : bool) | SBuildHandler
  | SGoReloadOnSignal | SGoWatch (interval : Z) | SGoSso | SGoMetrics (addr : string) | SGoServe (addr : string) (tls : bool)
  | SGoReplayWorker | SGoNotifyWorker | SAwaitSignal | SCancelWorkers | SAwaitReplayWorker (atMost : Z)
  | SDrain (d : Z) | SShutdownMetrics | SShutdown | SCloseDatabase | SExit (code : Z).

(** Steps that may fail, one after the other; [logger.Fatal] and [os.Exit] end the
    process at the first that does, without the deferred calls. *)
Fixpoint attempt (fails : stage → bool) (todo : list stage) (rest : list stage) : list stage :=
  match todo with
  | [] => rest
  | s :: todo' => s :: (if fails s then [SExit 1] else attempt fails todo' rest)
  end.

(** [main] with the configuration [Load] returned; [port] is the flag. *)
Definition wired_channels (cfg : Config.Config) : bool :=
  negb (String.eqb (nc_SlackWebhookURL (cf_Notify cfg)) "") || negb (String.eqb (nc_WebhookURL (cf_Notify cfg)) "")
  || Slack_Enabled (cf_Slack cfg).
(** [logger.Fatal] in the goroutine of the listener ends the process whenever the listener
    fails, [failed] stages after it was started. *)
Definition until_failure (failed : option nat) (rest : list stage) : list stage :=
  match failed with
  | Some n => if (n <? length rest)%nat then take n rest ++ [SExit 1] else rest
  | None => rest
  end.
Definition serving (cfg : Config.Config) (port : string) (failed : option nat) : list stage :=
  (if OIDC_Enabled (cf_OIDC cfg) then [SGoSso] else [])
  ++ [SReady true; SBuildHandler]
  ++ (if String.eqb (cf_MetricsListenAddr cfg) "" then [] else [SGoMetrics (cf_MetricsListenAddr cfg)])
  ++ [SGoServe (if String.eqb port "" then cf_ListenAddr cfg else port)
        (negb (String.eqb (cf_TLSCertFile cfg) "") && negb (String.eqb (cf_TLSKeyFile cfg) ""))]
  ++ until_failure failed
       ([SGoReplayWorker]
        ++ (if wired_channels cfg then [SGoNotifyWorker] else [])
        ++ [SAwaitSignal; SReady false; SCancelWorkers; SAwaitReplayWorker (5 * GoTime.second); SDrain (cf_ShutdownDrainDelay cfg)]
        ++ (if String.eqb (cf_MetricsListenAddr cfg) "" then [] else [SShutdownMetrics])
        ++ [SShutdown; SCloseDatabase; SExit 0]).
Definition main (healthcheck : option Z) (loaded : result Config.Config) (port : string) (fails : stage → bool)
    (failed : option nat) : list stage :=
  match healthcheck with
  | Some status => [SHealthcheck; SExit status]
  | None =>
      match loaded with
      | Err _ => [SLoad; SExit 1]
      | Ok cfg =>
          SLoad :: attempt fails [SLogger; SConnect; SMigrate; SEngine]
            (SGoReloadOnSignal :: (if 0 <? cf_PolicyReloadInterval cfg then [SGoWatch (cf_PolicyReloadInterval cfg)] else [])
             ++ attempt fails [SQuarantineStore; SLedgerStore; SPolicyStore; SProxyHandler] (serving cfg port failed))
      end
  end.

(** The stages that act on requests, held actions or sessions. *)
Definition starts_work (s : stage) : Prop :=
  match s with SGoServe _ _ | SGoReplayWorker | SGoNotifyWorker | SGoSso => True | _ => False end.

Lemma attempt_cases fails todo rest :
  (∃ done bad after, todo = done ++ bad :: after ∧ attempt fails todo rest = done ++ [bad; SExit 1] ∧ fails bad = true)
  ∨ (attempt fails todo rest = todo ++ rest ∧ Forall (λ s, fails s = false) todo).
Proof.
  induction todo as [|s todo IH]; [right; split; [done|apply Forall_nil_2]|]. cbn. destruct (fails s) eqn:F.
  - left. by exists [], s, todo.
  - destruct IH as [(done & bad & after & -> & -> & Fb)|[-> Fa]].
    + left. by exists (s :: done), bad, after.
    + right. split; [done|]. by constructor.
Qed.

(** Nothing is served and no worker starts unless the configuration was accepted and every
    step of the start-up succeeded. *)
Lemma work_needs_setup healthcheck loaded port fails failed s :
  s ∈ main healthcheck loaded port fails failed → starts_work s →
  healthcheck = None ∧ is_ok loaded = true
  ∧ Forall (λ s, fails s = false)
      [SLogger; SConnect; SMigrate; SEngine; SQuarantineStore; SLedgerStore; SPolicyStore; SProxyHandler].
Proof.
  unfold main. intros I W. destruct healthcheck as [status|]; [set_solver|]. destruct loaded as [cfg|]; [|set_solver].
  split; [done|]. split; [done|]. apply elem_of_cons in I as [->|I]; [done|].
  destruct (attempt_cases fails [SLogger; SConnect; SMigrate; SEngine]
    (SGoReloadOnSignal :: (if 0 <? cf_PolicyReloadInterval cfg then [SGoWatch (cf_PolicyReloadInterval cfg)] else [])
     ++ attempt fails [SQuarantineStore; SLedgerStore; SPolicyStore; SProxyHandler] (serving cfg port failed)))
    as [(dn & bad & aft & E & E' & _)|[E F]].
  { rewrite E' in I. exfalso. apply elem_of_app in I as [I|I].
    - assert (s ∈ [SLogger; SConnect; SMigrate; SEngine]) as J by (rewrite E; apply elem_of_app; by left). set_solver.
    - assert (bad ∈ [SLogger; SConnect; SMigrate; SEngine]) as J by (rewrite E; apply elem_of_app; right; by left). set_solver. }
  rewrite E in I. destruct (attempt_cases fails [SQuarantineStore; SLedgerStore; SPolicyStore; SProxyHandler] (serving cfg port failed))
    as [(dn & bad & aft & E2 & E2' & _)|[E2 F2]].
  { rewrite E2' in I. exfalso.
    assert (s ∈ dn ++ [bad; SExit 1]) as J by (destruct (0 <? cf_PolicyReloadInterval cfg); set_solver).
    apply elem_of_app in J as [J|J].
    - assert (s ∈ [SQuarantineStore; SLedgerStore; SPolicyStore; SProxyHandler]) as K by (rewrite E2; apply elem_of_app; by left). set_solver.
    - assert (bad ∈ [SQuarantineStore; SLedgerStore; SPolicyStore; SProxyHandler]) as K by (rewrite E2; apply elem_of_app; right; by left). set_solver. }
  exact (Forall_app_2 _ _ _ F F2).
Qed.

(** *** The wait for the database *)

Definition is_ping (c : cmd) : bool := match c with CPing => true | _ => false end.
Definition is_wait (c : cmd) : bool := match c with CWait _ => true | _ => false end.

Lemma connect_bounded opened : calls_le is_ping 10 (connectPostgres opened) ∧ calls_le is_wait 9 (connectPostgres opened).
Proof.
  destruct opened as [e|]; [done|]. unfold connectPostgres. change (attempts - 1)%nat with 9%nat.
  assert (∀ n, calls_le is_ping (S n) (connect_loop n) ∧ calls_le is_wait n (connect_loop n)) as K; [|apply K].
  induction n as [|n [IH IW]]; cbn; (split; [intros [e|]|intros [e|]]); cbn; try done; by intros [|].
Qed.

(** A database that answers within the ten attempts is connected to. *)
Lemma connect_succeeds k n tr :
  (k ≤ n)%nat → tr = concat (repeat [Ev CPing (Some (errors_New "refused")); Ev (CWait (2 * GoTime.second)) true] k) ++ [Ev CPing None] →
  runs (connect_loop n) tr None.
Proof.
  intros L ->. revert n L. induction k as [|k IH]; intros n L.
  - destruct n; cbn; by exists None, [].
  - destruct n as [|n]; [lia|]. cbn. eexists _, _. split; [reflexivity|]. cbn. eexists _, _. split; [reflexivity|].
    cbn. apply IH. lia.
Qed.

(** ** Closed examples *)

Section examples.
#[local] Existing Instance ascii_tables.
#[local] Existing Instance plain_urls.

Definition ok_handler (name : string) : Handler := λ _, mret (json_ok [] (AString name)).
Definition sample_deps : httpDeps :=
  mkDeps "v1" 0 (ok_handler "proxy") (ok_handler "quarantine") (ok_handler "ledger") (ok_handler "policy")
    (ok_handler "dashboard") (identities (Config.with_slack ["carol@x.io"])) ["https://console.example.com"] true None None
    (ok_handler "metrics") false.
Definition sample_redirect (path query : string) : Response any := Redirect path 307.
Definition sample_request (method path tok : string) : Inbound :=
  mkInbound (mkRequest method path [] (if String.eqb tok "" then ∅ else {["Authorization" := ["Bearer " +:+ tok]]}) "" None)
    (mkStream "" None) path "" "".
Definition sample_serve (method path tok : string) : list event * Response any :=
  (run (λ c (s : unit), (quiet_answer c, s)) (buildHTTPHandler (λ _, "0") sample_redirect sample_deps
        (sample_request method path tok)) tt).1.
Definition served_by (r : list event * Response any) : Z * option string :=
  (rs_Status (snd r), match rs_Body (snd r) with BJson (AString s) => Some s | _ => None end).

(** Which handler serves what, for an agent, a reviewer and no token. *)
Example routing :
  map (λ p, served_by (sample_serve "POST" p "agent_token_0123456789abcdef"))
    ["/"; "/tools"; "/api/v1/quarantine"; "/api/v1/health/x"; "/metrics"; "/auth/login"; "/a/../b"; "/api/v1/%71uarantine"]
  = [(200, Some "proxy"); (200, Some "proxy"); (403, None); (200, Some "proxy"); (200, Some "metrics"); (200, Some "proxy");
     (307, None); (403, None)]
  ∧ map (λ p, served_by (sample_serve "GET" p "review_token_0123456789abcde"))
      ["/api/v1/quarantine/7"; "/api/v1/ledger"; "/api/v1/policies/"; "/api/v1/dashboard/stats"; "/"; "/api/v1/%71uarantine"]
    = [(200, Some "quarantine"); (200, Some "ledger"); (200, Some "policy"); (200, Some "dashboard"); (403, None); (404, None)]
  ∧ map (λ p, served_by (sample_serve "GET" p "")) ["/api/v1/me"; "/readyz"; "/"] = [(401, None); (200, None); (401, None)].
Proof. vm_compute. repeat split. Qed.

(** A reviewer's token on the agents' route: the limiter is asked first. *)
Example reviewer_limited :
  map (λ ok, let r := run (λ c (s : unit), (match c as c return ans c with CAllow _ => ok | c => quiet_answer c end, s))
                        (buildHTTPHandler (λ _, "0") sample_redirect sample_deps
                           (sample_request "POST" "/" "review_token_0123456789abcde")) tt in
             (map ev_cmd r.1.1, rs_Status r.1.2)) [false; true]
  = [([CReady; CAllow "alice"], 429); ([CReady; CAllow "alice"], 403)].
Proof. vm_compute. reflexivity. Qed.


Lemma agents_never_review_witness :
  rs_Status (snd (run (λ c (s : unit), (quiet_answer c, s))
    (humanChain sample_deps (ok_handler "quarantine")
       (sample_request "GET" "/api/v1/quarantine" "agent_token_0123456789abcdef")) tt).1) ∈ [200; 403; 503].
Proof.
  eapply (agents_never_review sample_deps false (Config.with_slack ["carol@x.io"])
    (normalise (Config.with_slack ["carol@x.io"])) "agent_token_0123456789abcdef" "bot@x.io" (ok_handler "quarantine")
    (sample_request "GET" "/api/v1/quarantine" "agent_token_0123456789abcdef") [Ev CReady true]).
  - vm_compute. reflexivity.
  - reflexivity.
  - reflexivity.
  - reflexivity.
  - apply (run_runs (λ c (s : unit), (quiet_answer c, s)) _ tt _ _ tt). vm_compute. reflexivity.
Defined.
End examples.
End Server.
