(* ===== verification/QWorker.v ===== *)
(** * The replay worker

    [internal/quarantine/worker.go]: one replay of a claimed entry, one pass over the
    claimed batch, one pass under the replay lock ([Store.WithReplayLock] of
    [store.go]), and the polling loop, as programs over the store, the ledger, the
    policy engine and the upstream. *)

From S2P Require Import Prelude GoStrings GoTime Sha256 Types Mcp Effects ProxyIngress Proxy QStore QHandler.
From stdpp Require Import base tactics strings list gmap pretty.
From Stdlib Require Import ZArith Lia.

Local Open Scope Z_scope.

Import Mcp QHandler.

Module QWorker.

Definition defaultMaxReplayAttempts : Z := 3.

(** [Worker].  The target URL is parsed for every replay; [wk_recheck] is the
    [PolicyRecheck], if one is configured; [wk_ledger] says whether a ledger is. *)
Record Worker : Type := mkWorker {
  wk_ledger : bool;
  wk_target : result URL;
  wk_targetAuthToken : string;
  wk_maxReplayAttempts : Z;
  wk_batchSize : Z;
  wk_recheck : option (string → string → Header → prog (result ProxyDecision))
}.

(** [NewWorker] and its options. *)
Definition NewWorker (ledger : bool) (target : result URL) (opts : list (Worker → Worker)) : Worker :=
  foldl (λ wk opt, opt wk) (mkWorker ledger target "" defaultMaxReplayAttempts 10 None) opts.
Definition WithTargetAuthToken (token : string) (wk : Worker) : Worker :=
  mkWorker (wk_ledger wk) (wk_target wk) token (wk_maxReplayAttempts wk) (wk_batchSize wk) (wk_recheck wk).
Definition WithPolicyRecheck (recheck : string → string → Header → prog (result ProxyDecision)) (wk : Worker) : Worker :=
  mkWorker (wk_ledger wk) (wk_target wk) (wk_targetAuthToken wk) (wk_maxReplayAttempts wk) (wk_batchSize wk)
    (Some recheck).

(** [outcomeLabel], which labels the replay metric. *)
Definition outcomeLabel (outcome : string) : string :=
  let prefix := "replay_upstream_" in
  if Nat.eqb (String.length outcome) (String.length prefix + 3) && has_prefix outcome prefix
  then prefix +:+ take_str 1 (drop_str (String.length prefix) outcome) +:+ "xx"
  else outcome.

Section worker.
Context `{UnicodeTables}.
(** The message of [json.Unmarshal] for a text it rejects. *)
Variable unmarshal_message : string → string.
Variable wk : Worker.

(** The human entry of the ledger for a replay of [entry]. *)
Definition replay_entry (entry : QuarantineEntry) (approvedBy decision : string) : LedgerEntry :=
  mkLedger 0 GoTime.zero_time approvedBy (qe_ToolName entry) decision "hitl_approval"
    (payloadHash (qe_Payload entry)) "" "" (qe_ID entry) "".

(** [Worker.appendLedger] *)
Definition appendLedger (entry : QuarantineEntry) (approvedBy decision : string) : prog (option error) :=
  if wk_ledger wk then call (CAppend (replay_entry entry approvedBy decision)) else mret None.

(** [Worker.recordLedger]: the error is logged. *)
Definition recordLedger (entry : QuarantineEntry) (approvedBy decision : string) : prog unit :=
  _ ← appendLedger entry approvedBy decision;
  mret tt.

(** The headers of a replay: the stored transport metadata, then Elodea's own. *)
Definition replay_headers (entry : QuarantineEntry) (approvedBy : string) (stored : Header) : Header :=
  let h := header_set "Idempotency-Key" ("kiterail-quarantine-" +:+ qe_ID entry)
           (header_set "X-Elodea-Approved-By" approvedBy
           (header_set "X-Elodea-Quarantine-ID" (qe_ID entry)
           (header_set "X-Elodea-Agent" (qe_AgentID entry)
           (header_set "Content-Type" "application/json" stored)))) in
  if String.eqb (wk_targetAuthToken wk) "" then h
  else header_set "Authorization" ("Bearer " +:+ wk_targetAuthToken wk) h.

(** [Worker.doReplay] *)
Definition doReplay (entry : QuarantineEntry) (approvedBy : string) : prog (string * option error) :=
  match wk_target wk with
  | Err err => mret ("replay_error", Some (errorf_w "failed to build replay request" err))
  | Ok url =>
      match DecodeReplayHeaders unmarshal_message (qe_RequestHeaders entry) with
      | Err err => mret ("replay_error", Some err)
      | Ok stored =>
          sent ← call (CSend (mkOut "POST" url (replay_headers entry approvedBy stored) (qe_Payload entry)));
          match (sent : result Z) with
          | Err err => mret ("replay_error", Some (errorf_w "upstream request failed" err))
          | Ok status =>
              if (status <? 200) || (300 <=? status)
              then mret ("replay_upstream_" +:+ pretty status,
                         Some (errors_New ("upstream returned " +:+ pretty status)))
              else mret ("approved_replayed", None)
          end
      end
  end.

(** [Worker.blockedByCurrentPolicy] when a recheck is configured. *)
Definition blockedByCurrentPolicy (recheck : string → string → Header → prog (result ProxyDecision))
    (entry : QuarantineEntry) (approvedBy : string) : prog bool :=
  let deny_on err := mkDecision ActionDeny "replay_recheck_error" (err_text err) "" in
  decision ← match DecodeReplayHeaders unmarshal_message (qe_RequestHeaders entry) with
             | Err err => mret (deny_on err)
             | Ok headers =>
                 checked ← recheck (qe_AgentID entry) (qe_Payload entry) headers;
                 match checked with
                 | Ok d => mret d
                 | Err err => mret (deny_on err)
                 end
             end;
  if negb (String.eqb (pd_Action decision) ActionDeny) then mret false
  else
    marked ← call (CMarkReplayFailed (qe_ID entry));
    match (marked : option error) with
    | Some _ => mret true
    | None =>
        if wk_ledger wk then
          _ ← call (CAppend (mkLedger 0 GoTime.zero_time approvedBy (qe_ToolName entry) "replay_blocked_by_policy"
                               (pd_Rule decision) (payloadHash (qe_Payload entry)) "" "" (qe_ID entry)
                               (pd_PolicyVersion decision)));
          mret true
        else mret true
    end.

Definition approved_by (entry : QuarantineEntry) : string :=
  if String.eqb (qe_ResolvedBy entry) "" then "unknown" else qe_ResolvedBy entry.

(** The replay proper, after the checks: write ahead, send, record, move on. *)
Definition replay_claimed (entry : QuarantineEntry) (approvedBy : string) : prog unit :=
  started ← appendLedger entry approvedBy "replay_started";
  match started with
  | Some _ => _ ← call (CReturnToApproved (qe_ID entry)); mret tt
  | None =>
      replayed ← doReplay entry approvedBy;
      let '(outcome, err) := replayed in
      match err with
      | None =>
          marked ← call (CMarkReplayed (qe_ID entry));
          match (marked : option error) with
          | Some _ => mret tt
          | None => recordLedger entry approvedBy "approved_replayed"
          end
      | Some _ =>
          _ ← recordLedger entry approvedBy outcome;
          if qe_Attempts entry >=? wk_maxReplayAttempts wk
          then _ ← call (CMarkReplayFailed (qe_ID entry)); mret tt
          else _ ← call (CReturnToApproved (qe_ID entry)); mret tt
      end
  end.

(** [Worker.processClaimed] *)
Definition processClaimed (entry : QuarantineEntry) : prog unit :=
  let approvedBy := approved_by entry in
  if qe_Attempts entry >? wk_maxReplayAttempts wk then
    marked ← call (CMarkReplayFailed (qe_ID entry));
    match (marked : option error) with
    | Some _ => mret tt
    | None => recordLedger entry approvedBy "replay_exhausted"
    end
  else
    match wk_recheck wk with
    | Some recheck =>
        blocked ← blockedByCurrentPolicy recheck entry approvedBy;
        if (blocked : bool) then mret tt else replay_claimed entry approvedBy
    | None => replay_claimed entry approvedBy
    end.

(** The loop of [Worker.drainOnce], which stops when the context is done. *)
Fixpoint drain (entries : list QuarantineEntry) : prog unit :=
  match entries with
  | [] => mret tt
  | entry :: rest =>
      done ← call CCtxErr;
      if (done : bool) then mret tt
      else _ ← processClaimed entry; drain rest
  end.

(** [Worker.drainOnce] *)
Definition drainOnce : prog unit :=
  claimed ← call (CClaim (wk_batchSize wk));
  match (claimed : result (list QuarantineEntry)) with
  | Err _ => mret tt
  | Ok entries => drain entries
  end.

(** [Store.WithReplayLock]: the lock is released when the callback has returned. *)
Definition WithReplayLock (replay : prog (option error)) : prog (bool * option error) :=
  cancelled ← call CCtxErr;
  if (cancelled : bool) then mret (false, Some (mkErr (Some SCanceled) "context canceled"))
  else
    begun ← call CBeginTx;
    match (begun : option error) with
    | Some err => mret (false, Some (errorf_w "begin replay lock transaction" err))
    | None =>
        acquired ← call CTryLock;
        match (acquired : result bool) with
        | Err err => mret (false, Some (errorf_w "acquire replay lock" err))
        | Ok false => mret (false, None)
        | Ok true =>
            err ← replay;
            _ ← call CUnlock;
            mret (true, err)
        end
    end.

(** [Worker.ProcessOnce] *)
Definition ProcessOnce : prog unit :=
  _ ← WithReplayLock
        (recovered ← call CRecover;
         match (recovered : result Z) with
         | Err err => mret (Some (errorf_w "recover stuck replays" err))
         | Ok _ => _ ← drainOnce; mret None
         end);
  mret tt.

(** [Worker.Run] for the ticks that fire before the context ends. *)
Fixpoint Run (ticks : nat) : prog unit :=
  match ticks with
  | O => ProcessOnce
  | S n => _ ← Run n; ProcessOnce
  end.

(** ** Runs of one replay *)

(** A recheck only evaluates: it sends, records and moves nothing. *)
Definition only_evaluates (recheck : string → string → Header → prog (result ProxyDecision)) : Prop :=
  ∀ agent payload headers tr d, runs (recheck agent payload headers) tr d →
    upstream tr = [] ∧ appended tr = [] ∧ moves tr = [].

Lemma runs_replay_append entry by_ decision tr x :
  runs (appendLedger entry by_ decision) tr x →
  (wk_ledger wk = true ∧ tr = [Ev (CAppend (replay_entry entry by_ decision)) x])
  ∨ (wk_ledger wk = false ∧ tr = [] ∧ x = None).
Proof.
  unfold appendLedger. destruct (wk_ledger wk).
  - intros R. left. destruct R as (y & t & -> & -> & ->). done.
  - intros [-> ->]. by right.
Qed.

Lemma runs_recordLedger entry by_ decision tr u :
  runs (recordLedger entry by_ decision) tr u → upstream tr = [] ∧ moves tr = [].
Proof.
  intros R. apply runs_bind in R as (t1 & t2 & x & -> & R & [-> ->]). rewrite app_nil_r.
  by apply runs_replay_append in R as [[_ ->]|(_ & -> & _)].
Qed.

(** The request a replay sends. *)
Definition replay_request (entry : QuarantineEntry) (by_ : string) (url : URL) (stored : Header) : OutRequest :=
  mkOut "POST" url (replay_headers entry by_ stored) (qe_Payload entry).

Lemma runs_doReplay entry by_ tr outcome err :
  runs (doReplay entry by_) tr (outcome, err) →
  (tr = [] ∧ err ≠ None)
  ∨ ∃ url stored (x : result Z),
      wk_target wk = Ok url ∧ DecodeReplayHeaders unmarshal_message (qe_RequestHeaders entry) = Ok stored
      ∧ tr = [Ev (CSend (replay_request entry by_ url stored)) x]
      ∧ (err = None ↔ ∃ status, x = Ok status ∧ 200 <= status < 300).
Proof.
  unfold doReplay. destruct (wk_target wk) as [url|]; [|intros [-> [= -> ->]]; by left].
  destruct (DecodeReplayHeaders _ _) as [stored|]; [|intros [-> [= -> ->]]; by left].
  intros R. apply runs_call in R as (x & t & -> & R). right. exists url, stored, x.
  destruct x as [status|]; [|destruct R as [-> [= -> ->]]; naive_solver].
  cbn [prog_mbind prog_bind] in R.
  destruct (Z.ltb_spec status 200), (Z.leb_spec 300 status); cbn [orb] in R; destruct R as [-> [= -> ->]];
    split_and!; try done; (split; [intros E; (discriminate E || eauto)|intros (s & [= <-] & ?); (lia || done)]).
Qed.

Definition started (entry : QuarantineEntry) (by_ : string) : list event :=
  if wk_ledger wk then [Ev (CAppend (replay_entry entry by_ "replay_started")) None] else [].

Lemma runs_call_ret {A} c (v : A) tr a :
  runs (_ ← call c; mret v) tr a → a = v ∧ ∃ x, tr = [Ev c x].
Proof. intros (x & t & -> & -> & ->). eauto. Qed.

Lemma runs_replay_claimed entry by_ tr u :
  runs (replay_claimed entry by_) tr u →
  (wk_ledger wk = true ∧ upstream tr = [] ∧ ∃ x, moves tr = [(ToApproved, qe_ID entry, x)])
  ∨ ∃ t1 t2 outcome err m x,
      tr = started entry by_ ++ t1 ++ t2 ∧ runs (doReplay entry by_) t1 (outcome, err)
      ∧ upstream t2 = [] ∧ moves t2 = [(m, qe_ID entry, x)]
      ∧ (m = ToReplayed ↔ err = None)
      ∧ (m = ToReplayFailed ↔ err ≠ None ∧ wk_maxReplayAttempts wk <= qe_Attempts entry).
Proof.
  unfold replay_claimed. intros R. apply runs_bind in R as (t0 & t & x & -> & R0 & R).
  destruct x as [e|].
  - left. apply runs_replay_append in R0 as [[L ->]|(_ & _ & ?)]; [|done].
    apply runs_call_ret in R as [_ [x ->]]. split_and!; [done..|]. by exists x.
  - right. assert (t0 = started entry by_) as ->.
    { unfold started. by apply runs_replay_append in R0 as [[-> ->]|(-> & -> & _)]. }
    apply runs_bind in R as (t1 & t2 & [outcome err] & -> & R1 & R2). exists t1, t2, outcome, err.
    destruct err as [e|].
    + apply runs_bind in R2 as (t3 & t4 & y & -> & R3 & R4). apply runs_recordLedger in R3 as [U3 M3].
      destruct (Z.geb_spec (qe_Attempts entry) (wk_maxReplayAttempts wk)) as [G|G];
        apply runs_call_ret in R4 as [_ [z ->]].
      * exists ToReplayFailed, z. rewrite upstream_app, moves_app, U3, M3. naive_solver.
      * exists ToApproved, z. rewrite upstream_app, moves_app, U3, M3. split_and!; try done. split; [done|].
        intros [_ ?]. lia.
    + apply runs_call in R2 as (y & t3 & -> & R3). exists ToReplayed, y.
      assert (upstream t3 = [] ∧ moves t3 = []) as [U M].
      { destruct y; [by destruct R3 as [-> _]|]. by apply runs_recordLedger in R3. }
      change (upstream (Ev (CMarkReplayed (qe_ID entry)) y :: t3)) with (upstream t3).
      change (moves (Ev (CMarkReplayed (qe_ID entry)) y :: t3)) with ((ToReplayed, qe_ID entry, y) :: moves t3).
      rewrite U, M. naive_solver.
Qed.

Lemma runs_blocked recheck entry by_ tr (b : bool) :
  only_evaluates recheck →
  runs (blockedByCurrentPolicy recheck entry by_) tr b →
  upstream tr = []
  ∧ if b then ∃ x, moves tr = [(ToReplayFailed, qe_ID entry, x)]
    else moves tr = [] ∧ appended tr = []
         ∧ ∃ stored d, DecodeReplayHeaders unmarshal_message (qe_RequestHeaders entry) = Ok stored
             ∧ runs (recheck (qe_AgentID entry) (qe_Payload entry) stored) tr (Ok d)
             ∧ pd_Action d ≠ ActionDeny.
Proof.
  intros Q R. unfold blockedByCurrentPolicy in R. apply runs_bind in R as (t1 & t2 & d & -> & R1 & R2).
  assert (upstream t1 = [] ∧ appended t1 = [] ∧ moves t1 = []
    ∧ (pd_Action d ≠ ActionDeny → ∃ stored,
         DecodeReplayHeaders unmarshal_message (qe_RequestHeaders entry) = Ok stored
         ∧ runs (recheck (qe_AgentID entry) (qe_Payload entry) stored) t1 (Ok d))) as (U & A & M & Hd).
  { destruct (DecodeReplayHeaders _ _) as [stored|]; [|destruct R1 as [-> ->]; done].
    apply runs_bind in R1 as (t3 & t4 & c & -> & R3 & R4). destruct (Q _ _ _ _ _ R3) as (U & A & M).
    destruct c as [d'|err]; destruct R4 as [-> ->]; rewrite app_nil_r; split_and!; try done.
    intros _. by exists stored. }
  rewrite upstream_app, moves_app, appended_app, U, M, A. cbn [app].
  destruct (String.eqb_spec (pd_Action d) ActionDeny) as [D|D]; cbn [negb] in R2.
  - apply runs_call in R2 as (x & t & -> & R2).
    assert (t = [] ∧ b = true ∨ upstream t = [] ∧ moves t = [] ∧ b = true) as Ht.
    { destruct x; [destruct R2 as [-> ->]; by left|]. cbn [prog_mbind prog_bind] in R2.
      destruct (wk_ledger wk); [|destruct R2 as [-> ->]; by left].
      right. apply runs_call_ret in R2 as [-> [y ->]]. done. }
    change (upstream (Ev (CMarkReplayFailed (qe_ID entry)) x :: t)) with (upstream t).
    change (moves (Ev (CMarkReplayFailed (qe_ID entry)) x :: t)) with ((ToReplayFailed, qe_ID entry, x) :: moves t).
    destruct Ht as [[-> ->]|(-> & -> & ->)]; (split; [done|]); by exists x.
  - destruct R2 as [-> ->]. rewrite app_nil_r. destruct (Hd D) as (stored & E & R). eauto 10.
Qed.

Definition rechecked (entry : QuarantineEntry) (pre : list event) : Prop :=
  ∀ recheck, wk_recheck wk = Some recheck →
  ∃ stored t d rest, pre = t ++ rest
    ∧ DecodeReplayHeaders unmarshal_message (qe_RequestHeaders entry) = Ok stored
    ∧ runs (recheck (qe_AgentID entry) (qe_Payload entry) stored) t (Ok d) ∧ pd_Action d ≠ ActionDeny.

(** One run: parked without a send, or checked and then replayed. *)
Lemma runs_processClaimed entry tr u :
  (∀ recheck, wk_recheck wk = Some recheck → only_evaluates recheck) →
  runs (processClaimed entry) tr u →
  (upstream tr = [] ∧ ∃ x, moves tr = [(ToReplayFailed, qe_ID entry, x)])
  ∨ ∃ t0 t1, tr = t0 ++ t1 ∧ qe_Attempts entry <= wk_maxReplayAttempts wk
      ∧ upstream t0 = [] ∧ moves t0 = [] ∧ appended t0 = [] ∧ rechecked entry t0
      ∧ runs (replay_claimed entry (approved_by entry)) t1 u.
Proof.
  intros Q R. unfold processClaimed in R.
  destruct (Z.gtb_spec (qe_Attempts entry) (wk_maxReplayAttempts wk)) as [G|G].
  - left. apply runs_call in R as (x & t & -> & R).
    assert (upstream t = [] ∧ moves t = []) as [U M].
    { destruct x; [by destruct R as [-> _]|]. by apply runs_recordLedger in R. }
    change (upstream (Ev (CMarkReplayFailed (qe_ID entry)) x :: t)) with (upstream t).
    change (moves (Ev (CMarkReplayFailed (qe_ID entry)) x :: t)) with ((ToReplayFailed, qe_ID entry, x) :: moves t).
    rewrite U, M. eauto.
  - destruct (wk_recheck wk) as [recheck|] eqn:K.
    + apply runs_bind in R as (t1 & t2 & b & -> & R1 & R2).
      apply runs_blocked in R1 as [U B]; [|by apply Q]. destruct b.
      * left. destruct R2 as [-> ->]. rewrite app_nil_r. done.
      * right. destruct B as (M & A & stored & d & E & R & N). exists t1, t2. split_and!; try done.
        intros r Hr. assert (r = recheck) as -> by congruence.
        exists stored, t1, d, []. by rewrite app_nil_r.
    + right. exists [], tr. split_and!; try done. intros r Hr. congruence.
Qed.

(** A send in a run of [processClaimed]: the parts of the run around it. *)
Lemma sent_split entry tr pre post u out (x : ans (CSend out)) :
  (∀ recheck, wk_recheck wk = Some recheck → only_evaluates recheck) →
  runs (processClaimed entry) tr u → tr = pre ++ Ev (CSend out) x :: post →
  ∃ t0 url stored, pre = t0 ++ started entry (approved_by entry)
    ∧ upstream t0 = [] ∧ moves t0 = [] ∧ appended t0 = [] ∧ upstream post = []
    ∧ qe_Attempts entry <= wk_maxReplayAttempts wk ∧ rechecked entry t0
    ∧ wk_target wk = Ok url ∧ DecodeReplayHeaders unmarshal_message (qe_RequestHeaders entry) = Ok stored
    ∧ out = replay_request entry (approved_by entry) url stored.
Proof.
  intros Q R E. assert (upstream tr ≠ []) as Ne.
  { rewrite E, upstream_app. simpl. change (upstream pre ++ out :: upstream post ≠ []). by destruct (upstream pre). }
  apply runs_processClaimed in R as [[U _]|(t0 & t1 & -> & G & U0 & M0 & A0 & K & R)]; [done| |done].
  apply runs_replay_claimed in R as [(_ & U & _)|(t2 & t3 & o & e & m & y & -> & R & U3 & _)].
  { by rewrite upstream_app, U0, U in Ne. }
  assert (upstream (started entry (approved_by entry)) = []) as Us by (unfold started; by destruct (wk_ledger wk)).
  apply runs_doReplay in R as [[-> _]|(url & stored & z & Tg & Dc & -> & _)].
  { rewrite !upstream_app, U0, Us, U3 in Ne. done. }
  cbn [app] in E. rewrite app_assoc in E.
  apply upstream_unique in E as (-> & -> & -> & _); [|by rewrite upstream_app, U0, Us|done].
  by exists t0, url, stored.
Qed.

Lemma replay_header entry by_ url stored k v :
  (k, v) ∈ [("Idempotency-Key", "kiterail-quarantine-" +:+ qe_ID entry); ("X-Elodea-Agent", qe_AgentID entry);
            ("X-Elodea-Approved-By", by_)] →
  out_Header (replay_request entry by_ url stored) !! k = Some [v].
Proof.
  rewrite !elem_of_cons. cbn [replay_request out_Header]. unfold replay_headers.
  intros [[= -> ->]|[[= -> ->]|[[= -> ->]|[]%not_elem_of_nil]]];
    destruct (String.eqb _ ""); rewrite ?Proxy.header_set_lookup; reflexivity.
Qed.

(** C15: nothing is replayed that was not rechecked, within its attempts, and written
    ahead to the ledger.  Whatever everything answers: a run of [processClaimed] sends
    at most one request; before it, current policy (when rechecks are configured)
    evaluated the stored request and did not deny it, the entry's attempts were within
    the limit, the ledger accepted a [replay_started] entry with the hash of the stored
    payload and the approver, and the row was not moved; the request carries the stored
    payload, the item's stable idempotency key, its agent and its approver. *)
Theorem replay_write_ahead (entry : QuarantineEntry) (tr pre post : list event) (u : unit)
    (out : OutRequest) (x : ans (CSend out)) :
  (∀ recheck, wk_recheck wk = Some recheck → only_evaluates recheck) →
  runs (processClaimed entry) tr u → tr = pre ++ Ev (CSend out) x :: post →
  upstream pre = [] ∧ upstream post = []
  ∧ qe_Attempts entry <= wk_maxReplayAttempts wk
  ∧ rechecked entry pre
  ∧ moves pre = []
  ∧ appended pre = (if wk_ledger wk then [replay_entry entry (approved_by entry) "replay_started"] else [])
  ∧ out_Body out = qe_Payload entry
  ∧ out_Header out !! "Idempotency-Key" = Some ["kiterail-quarantine-" +:+ qe_ID entry]
  ∧ out_Header out !! "X-Elodea-Agent" = Some [qe_AgentID entry]
  ∧ out_Header out !! "X-Elodea-Approved-By" = Some [approved_by entry].
Proof.
  intros Q R E. destruct (sent_split _ _ _ _ _ _ _ Q R E) as (t0 & url & stored & -> & U & M & A & Up & G & K & _ & _ & ->).
  assert (upstream (started entry (approved_by entry)) = [] ∧ moves (started entry (approved_by entry)) = []) as [Us Ms]
    by (unfold started; by destruct (wk_ledger wk)).
  rewrite upstream_app, moves_app, appended_app, U, M, A, Us, Ms. split_and!; try done; try (apply replay_header; set_solver).
  - intros r Hr. destruct (K r Hr) as (s & t & d & rest & -> & Rest). exists s, t, d, (rest ++ started entry (approved_by entry)).
    by rewrite app_assoc.
  - unfold started. by destruct (wk_ledger wk).
Qed.

(** A claimed entry is always moved on, and as its replay went.  Every run of
    [processClaimed] asks the store for exactly one transition of that entry: to
    'replayed' exactly when the upstream answered 2xx, otherwise back to 'approved' or,
    when it was parked by the limit, by policy or on its last attempt, to
    'replay_failed'. *)
Theorem replay_moves_once (entry : QuarantineEntry) (tr : list event) (u : unit) :
  (∀ recheck, wk_recheck wk = Some recheck → only_evaluates recheck) →
  runs (processClaimed entry) tr u →
  ∃ m x, moves tr = [(m, qe_ID entry, x)]
    ∧ (m = ToReplayed ↔ ∃ out status pre post, tr = pre ++ Ev (CSend out) (Ok status) :: post ∧ 200 <= status < 300)
    ∧ (m = ToApproved → qe_Attempts entry <= wk_maxReplayAttempts wk).
Proof.
  intros Q R. assert (∀ t, upstream t = [] → ¬ ∃ out status pre post,
    t = pre ++ Ev (CSend out) (Ok status) :: post ∧ 200 <= status < 300) as NoSend.
  { intros t U (out & s & pre & post & -> & _). rewrite upstream_app in U.
    change (upstream (Ev (CSend out) (Ok s) :: post)) with (out :: upstream post) in U. by destruct (upstream pre). }
  apply runs_processClaimed in R as [[U [x M]]|(t0 & t1 & -> & G & U0 & M0 & A0 & K & R)]; [| |done].
  { exists ToReplayFailed, x. split_and!; [done| |done]. split; [done|]. intros S. by destruct (NoSend tr U). }
  apply runs_replay_claimed in R as [(_ & U & [x M])|(t2 & t3 & o & e & m & y & -> & R & U3 & M3 & Hm & _)].
  { exists ToApproved, x. rewrite moves_app, M0, M. split_and!; try done. split; [done|]. intros S.
    destruct (NoSend (t0 ++ t1)); [|done]. by rewrite upstream_app, U0, U. }
  assert (upstream (started entry (approved_by entry)) = [] ∧ moves (started entry (approved_by entry)) = [])
    as [Us Ms] by (unfold started; by destruct (wk_ledger wk)).
  exists m, y. rewrite !moves_app, M0, Ms, M3, Hm.
  apply runs_doReplay in R as [[-> Ne]|(url & stored & z & _ & _ & -> & Ok2)].
  - split_and!; [done| |lia]. split; [done|]. intros S. destruct (NoSend (t0 ++ started entry (approved_by entry) ++ [] ++ t3)); [|done].
    by rewrite !upstream_app, U0, Us, U3.
  - split_and!; [done| |lia]. rewrite Ok2. split.
    + intros (s & -> & B). eexists _, s, (t0 ++ started entry (approved_by entry)), t3. by rewrite <- app_assoc.
    + intros (out & s & pre & post & E & B). cbn [app] in E. rewrite app_assoc in E.
      apply upstream_unique in E as (_ & _ & _ & <-); [eauto|by rewrite upstream_app, U0, Us|done].
Qed.

(** ** Sends of the loop *)

(** A send of the loop: it belongs to the replay of an item of an earlier claim. *)
Definition claimed_send (pre : list event) (out : OutRequest) (x : ans (CSend out)) : Prop :=
  ∃ p0 limit es p1 item p2 q u, pre = p0 ++ Ev (CClaim limit) (Ok es) :: p1 ++ p2 ∧ item ∈ es
    ∧ runs (processClaimed item) (p2 ++ Ev (CSend out) x :: q) u.

Lemma claimed_send_app p pre out x : claimed_send pre out x → claimed_send (p ++ pre) out x.
Proof.
  intros (p0 & limit & es & p1 & item & p2 & q & u & -> & I & R). exists (p ++ p0), limit, es, p1, item, p2, q, u.
  by rewrite <- app_assoc.
Qed.

Lemma runs_drain items tr u pre out x post :
  runs (drain items) tr u → tr = pre ++ Ev (CSend out) x :: post →
  ∃ p1 item p2 q u', pre = p1 ++ p2 ∧ item ∈ items ∧ runs (processClaimed item) (p2 ++ Ev (CSend out) x :: q) u'.
Proof.
  revert tr pre. induction items as [|item items IH]; intros tr pre R E.
  { destruct R as [-> _]. by destruct pre. }
  destruct R as (b & t & -> & R). destruct pre as [|e pre]; [done|]. cbn in E. injection E as <- E.
  destruct b; [destruct R as [-> _]; by destruct pre|].
  change (runs (processClaimed item ≫= λ _, drain items) t u) in R. apply runs_bind in R as (t1 & t2 & u1 & -> & R1 & R2).
  destruct (split_call _ _ _ _ _ E) as [(q & -> & _)|(p & -> & ->)].
  - exists [Ev CCtxErr false], item, pre, q, u1. split_and!; [done|by left|done].
  - destruct (IH _ p R2 eq_refl) as (p1 & it & p2 & q & u' & -> & I & R). exists (Ev CCtxErr false :: t1 ++ p1), it, p2, q, u'.
    split_and!; [by rewrite <- app_comm_cons, <- app_assoc|by right|done].
Qed.

Lemma runs_WithReplayLock replay tr r :
  runs (WithReplayLock replay) tr r →
  (∃ b, tr = [Ev CCtxErr b]) ∨ (∃ err, tr = [Ev CCtxErr false; Ev CBeginTx (Some err)])
  ∨ (∃ x, tr = [Ev CCtxErr false; Ev CBeginTx None; Ev CTryLock x])
  ∨ ∃ t err, tr = [Ev CCtxErr false; Ev CBeginTx None; Ev CTryLock (Ok true)] ++ t ++ [Ev CUnlock tt] ∧ runs replay t err.
Proof.
  intros (b & t & -> & R). destruct b; [left; destruct R as [-> _]; eauto|]. right.
  destruct R as (begun & t0 & -> & R). destruct begun as [e|]; [left; destruct R as [-> _]; eauto|]. right.
  destruct R as (x & t' & -> & R). destruct x as [[|]|]; try (left; destruct R as [-> _]; eauto; done). right.
  change (runs (replay ≫= λ err, _ ← call CUnlock; mret (true, err)) t' r) in R.
  apply runs_bind in R as (t1 & t2 & err & -> & R & R2). destruct R2 as ([] & t3 & -> & -> & _). eauto.
Qed.

Lemma runs_drainOnce tr u pre out x post :
  runs drainOnce tr u → tr = pre ++ Ev (CSend out) x :: post → claimed_send pre out x.
Proof.
  intros (c & t & -> & R) E. destruct pre as [|e pre]; [done|]. cbn in E. injection E as <- E.
  destruct c as [es|]; [|destruct R as [-> _]; by destruct pre].
  destruct (runs_drain _ _ _ _ _ _ _ R E) as (p1 & item & p2 & q & u' & -> & I & R').
  by exists [], (wk_batchSize wk), es, p1, item, p2, q, u'.
Qed.

Lemma runs_ProcessOnce_send tr u pre out x post :
  runs ProcessOnce tr u → tr = pre ++ Ev (CSend out) x :: post → claimed_send pre out x.
Proof.
  unfold ProcessOnce. intros R E. apply runs_bind in R as (t & t' & r & -> & R & [-> _]). rewrite app_nil_r in E.
  apply runs_WithReplayLock in R as [[b ->]|[[y ->]|[[y ->]|(t1 & err & -> & R)]]];
    [by destruct pre as [|? []]|by destruct pre as [|? [|? []]]|by destruct pre as [|? [|? [|? []]]]|].
  destruct (split_call _ _ _ _ _ E) as [(q & E1 & _)|(p & -> & E1)]; [by destruct pre as [|? [|? [|? []]]]|].
  destruct (split_call _ _ _ _ _ E1) as [(q & -> & _)|(p' & -> & E2)]; [|by destruct p' as [|? []]].
  apply claimed_send_app. destruct R as (n & t2 & E2 & R). destruct p as [|e p]; [done|]. cbn in E2. injection E2 as -> <-.
  apply (claimed_send_app [_]). destruct n; [|destruct R as [R _]; by destruct p].
  change (runs (drainOnce ≫= λ _, mret None) (p ++ Ev (CSend out) x :: q) err) in R.
  apply runs_bind in R as (t3 & t4 & u' & E3 & R & [-> _]). rewrite app_nil_r in E3. by eapply runs_drainOnce.
Qed.

Lemma runs_Run_send ticks tr u pre out x post :
  runs (Run ticks) tr u → tr = pre ++ Ev (CSend out) x :: post → claimed_send pre out x.
Proof.
  revert tr u pre post. induction ticks as [|n IH]; intros tr u pre post R E; [by eapply runs_ProcessOnce_send|].
  apply runs_bind in R as (t1 & t2 & u1 & -> & R1 & R2).
  destruct (split_call _ _ _ _ _ E) as [(q & -> & _)|(p & -> & ->)]; [by eapply IH|].
  apply claimed_send_app. by eapply runs_ProcessOnce_send.
Qed.

(** The calls of a replay, and of the worker. *)
Definition replay_call (c : cmd) : Prop :=
  match c with
  | CNow | CEvaluate _ | CAppend _ | CSend _ | CMarkReplayed _ | CMarkReplayFailed _ | CReturnToApproved _ => True
  | _ => False
  end.
Definition worker_call (c : cmd) : Prop :=
  match c with CCtxErr | CBeginTx | CTryLock | CUnlock | CRecover | CClaim _ => True | c => replay_call c end.

Hypothesis recheck_calls : ∀ recheck, wk_recheck wk = Some recheck → ∀ a p h, only replay_call (recheck a p h).

Lemma processClaimed_calls entry : only replay_call (processClaimed entry).
Proof.
  assert (∀ e b d, only replay_call (appendLedger e b d)) as A by (intros; unfold appendLedger; by destruct (wk_ledger wk)).
  assert (∀ e b d, only replay_call (recordLedger e b d)) as Rc by (intros; by apply only_bind).
  assert (∀ e b, only replay_call (doReplay e b)) as Dr.
  { intros e b. unfold doReplay. destruct (wk_target wk); [|done]. destruct (DecodeReplayHeaders _ _); [|done].
    split; [done|]. intros [s|]; [|done]. cbn. by destruct (_ || _). }
  assert (∀ e b, only replay_call (replay_claimed e b)) as Rp.
  { intros e b. apply only_bind; [done|]. intros [err|]; [by split|]. apply only_bind; [done|]. intros [o [err|]].
    - apply only_bind; [done|]. intros _. by destruct (_ >=? _).
    - split; [done|]. intros [|]; [done|]. exact (safe_any _ _ _ _ (Rc e b _)). }
  unfold processClaimed. destruct (_ >? _).
  - split; [done|]. intros [|]; [done|]. exact (safe_any _ _ _ _ (Rc entry _ _)).
  - destruct (wk_recheck wk) as [recheck|] eqn:W; [|done]. apply only_bind; [|by intros [|]].
    unfold blockedByCurrentPolicy. apply only_bind.
    + destruct (DecodeReplayHeaders _ _); [|done]. apply only_bind; [by apply recheck_calls|]. by intros [].
    + intros d. destruct (negb _); [done|]. split; [done|]. intros [|]; [done|]. cbn. by destruct (wk_ledger wk).
Qed.

Lemma Run_calls ticks : only worker_call (Run ticks).
Proof.
  assert (∀ es, only worker_call (drain es)) as Dn.
  { intros es. induction es as [|e es IH]; [done|]. split; [done|]. intros [|]; [done|].
    apply (safe_any _ []). apply (only_bind _ (processClaimed e) (λ _, drain es)); [|intros []; apply IH].
    apply (safe_mono (λ _, replay_call)); [intros ? c; by destruct c|apply processClaimed_calls]. }
  assert (∀ p, only worker_call p → only worker_call (WithReplayLock p)) as Wl.
  { intros p S. split; [done|]. intros [|]; [done|]. split; [done|]. intros [|]; [done|]. split; [done|]. intros [[|]|]; try done.
    apply (safe_any _ []). apply (only_bind _ p (λ err, _ ← call CUnlock; mret (true, err)) S). intros err. by split. }
  assert (only worker_call drainOnce) as Do.
  { split; [done|]. intros [es|]; [|done]. exact (safe_any _ _ _ _ (Dn es)). }
  assert (only worker_call ProcessOnce) as Po.
  { apply only_bind; [|done]. apply Wl. split; [done|]. intros [|]; [|done].
    exact (safe_any _ _ _ _ (only_bind _ drainOnce (λ _, mret None) Do (λ _, I))). }
  induction ticks as [|n IH]; [done|]. by apply only_bind.
Qed.
End worker.

Lemma NewPolicyRecheck_only_evaluates `{Adapter} : only_evaluates Proxy.NewPolicyRecheck.
Proof.
  intros agent payload headers tr d. unfold Proxy.NewPolicyRecheck.
  destruct (Parse headers payload); [|by intros [-> ->]].
  by intros (now & t & -> & x & t' & -> & -> & ->).
Qed.

Lemma NewPolicyRecheck_calls `{Adapter} agent payload headers : only replay_call (Proxy.NewPolicyRecheck agent payload headers).
Proof. unfold Proxy.NewPolicyRecheck. by destruct (Parse headers payload). Qed.

(** ** Witnesses *)

#[local] Existing Instance ascii_tables.
#[local] Existing Instance Ingress.MCPAdapter.

Definition sample_worker : Worker :=
  WithPolicyRecheck Proxy.NewPolicyRecheck (NewWorker true (Ok Proxy.sample_target) []).
Definition sample_claimed : QuarantineEntry :=
  mkQuarantineEntry "q1" "agent-7" "search" Proxy.sample_body QStore.StatusReplaying 0 (Some 5) "rev" ""
    0 None "{}" "rule" "why".
Definition sample_replay : list event * unit * Z :=
  run (Proxy.sample_env ActionQuarantine) (processClaimed (λ s, s) sample_worker sample_claimed) 0.

Lemma sample_recheck recheck : wk_recheck sample_worker = Some recheck → only_evaluates recheck.
Proof. intros [= <-]. apply NewPolicyRecheck_only_evaluates. Qed.

Lemma sample_replay_runs : runs (processClaimed (λ s, s) sample_worker sample_claimed) sample_replay.1.1 sample_replay.1.2.
Proof.
  destruct sample_replay as [[tr a] s] eqn:E. exact (run_runs _ _ 0 tr a s E).
Qed.

Lemma replay_write_ahead_witness :
  ∃ pre out post, sample_replay.1.1 = pre ++ Ev (CSend out) (Ok 200) :: post
    ∧ appended pre = [replay_entry sample_claimed "rev" "replay_started"]
    ∧ out_Header out !! "X-Elodea-Approved-By" = Some ["rev"].
Proof.
  eexists (take 3 sample_replay.1.1), (replay_request sample_worker sample_claimed "rev" Proxy.sample_target ∅), _.
  assert (sample_replay.1.1 = take 3 sample_replay.1.1
    ++ Ev (CSend (replay_request sample_worker sample_claimed "rev" Proxy.sample_target ∅)) (Ok 200)
       :: drop 4 sample_replay.1.1) as E by (vm_compute; reflexivity).
  split; [exact E|].
  destruct (replay_write_ahead (λ s, s) sample_worker sample_claimed _ _ _ _ _ _ sample_recheck sample_replay_runs E)
    as (_ & _ & _ & _ & _ & A & _ & _ & _ & B). by split.
Defined.

Lemma replay_moves_once_witness :
  ∃ x, moves sample_replay.1.1 = [(ToReplayed, "q1", x)].
Proof.
  destruct (replay_moves_once (λ s, s) sample_worker sample_claimed _ _ sample_recheck sample_replay_runs)
    as (m & x & M & I & _).
  assert (m = ToReplayed) as ->; [|by exists x].
  vm_compute in M. by injection M.
Defined.
End QWorker.
