(* ===== verification/QPass.v ===== *)
(** * Passes of the replay worker

    What the loop of [Worker.Run] achieves while the quarantine table serves it: whatever
    the ledger, the policy engine and the upstream answer, every pass brings each item it
    claims closer to an end, so that after a bounded number of passes nothing is left
    approved or replaying. *)

From S2P Require Import Prelude GoStrings GoTime Types Effects ProxyIngress Proxy QStore QWorker.
From stdpp Require Import base tactics strings list gmap sorting.
From Stdlib Require Import ZArith Lia.

Local Open Scope Z_scope.

Import QStore QWorker.

Module QPass.

(** ** A table that serves the worker *)

Section table.
Context `{UnicodeTables} `{UuidLib}.

(** The lock is free, the process is not stopping, and the statements work. *)
Definition serves (t : table) (e : event) (t' : table) : Prop :=
  match e with
  | Ev CCtxErr x => x = false ∧ t' = t
  | Ev CBeginTx x => x = None ∧ t' = t
  | Ev CTryLock x => x = Ok true ∧ t' = t
  | Ev CRecover x => (x, t') = RecoverStuckReplays Good t
  | Ev (CClaim limit) x => ∃ y, (y, t') = ClaimApproved Good limit ∅ t ∧ listed x y
  | Ev (CMarkReplayed id) x => ∃ now, (x, t') = MarkReplayed now Good id t
  | Ev (CMarkReplayFailed id) x => (x, t') = MarkReplayFailed Good id t
  | Ev (CReturnToApproved id) x => (x, t') = ReturnToApproved Good id t
  | _ => t' = t
  end.
Fixpoint served (t : table) (tr : list event) (t' : table) : Prop :=
  match tr with
  | [] => t' = t
  | e :: tr => ∃ t1, serves t e t1 ∧ served t1 tr t'
  end.

Lemma served_app t tr1 tr2 t' : served t (tr1 ++ tr2) t' ↔ ∃ t1, served t tr1 t1 ∧ served t1 tr2 t'.
Proof.
  revert t. induction tr1 as [|e tr1 IH]; intros t; cbn; [naive_solver|]. setoid_rewrite IH. naive_solver.
Qed.

(** Only the transitions of a replay change the table. *)
Lemma serves_still t c x t' : replay_call c → moves_of (Ev c x) = [] → serves t (Ev c x) t' → t' = t.
Proof. by destruct c. Qed.

Lemma served_still t tr t' :
  (∀ c x, Ev c x ∈ tr → replay_call c) → moves tr = [] → served t tr t' → t' = t.
Proof.
  revert t. induction tr as [|[c x] tr IH]; intros t C M S; [done|]. destruct S as (t1 & S & S').
  unfold moves in M. cbn in M. apply app_eq_nil in M as [M M'].
  apply serves_still in S as ->; [|apply (C c x); by left|done]. apply IH; [|done|done]. intros c' x' J. apply (C c' x'). by right.
Qed.

Lemma moves_one tr m : moves tr = [m] → ∃ pre e post, tr = pre ++ e :: post ∧ moves pre = [] ∧ moves_of e = [m] ∧ moves post = [].
Proof.
  induction tr as [|e tr IH]; intros M; [done|]. unfold moves in M. cbn in M. destruct (moves_of e) as [|m' l] eqn:E.
  - destruct (IH M) as (pre & e' & post & -> & P & E' & Q). exists (e :: pre), e', post. split_and!; try done.
    unfold moves in *. cbn. by rewrite E.
  - injection M as -> M. apply app_eq_nil in M as [-> M]. by exists [], e, tr.
Qed.

(** ** The work that is left *)

Variable max : Z.

Abbreviation active := (in_status [StatusApproved; StatusReplaying]).
Definition effort (q : Quarantine) : nat := if active q then S (Z.to_nat (max + 1 - q_Attempts q)) else O.
Definition work (t : table) : nat := map_fold (λ _ q n, effort q + n)%nat O t.

Lemma work_insert t id q : t !! id = None → work (<[id := q]> t) = (effort q + work t)%nat.
Proof. intros L. unfold work. apply (map_fold_insert_L (λ _ q n, effort q + n)%nat); [|done]. intros. lia. Qed.

Lemma work_delete t id q : t !! id = Some q → work t = (effort q + work (delete id t))%nat.
Proof. intros L. unfold work. apply (map_fold_delete_L (λ _ q n, effort q + n)%nat); [|done]. intros. lia. Qed.

Lemma work_update t id q q' : t !! id = Some q → (work (<[id := q']> t) + effort q = work t + effort q')%nat.
Proof.
  intros L. rewrite <- insert_delete_eq, work_insert by apply lookup_delete_eq. rewrite (work_delete t id q L). lia.
Qed.

Abbreviation effort_at t id := (from_option effort O (t !! id)).

Lemma work_mono t t' : (∀ id : string, effort_at t' id ≤ effort_at t id)%nat → (work t' ≤ work t)%nat.
Proof.
  revert t. induction t' as [|id q t' L IH] using map_ind; intros t E; [unfold work; rewrite map_fold_empty; lia|].
  rewrite work_insert by done. pose proof (E id) as Ei. rewrite lookup_insert_eq in Ei. cbn in Ei.
  assert (∀ s, (∀ i, i ≠ id → s !! i = t !! i) → (work t' ≤ work s)%nat) as K.
  { intros s F. apply IH. intros i. destruct (decide (i = id)) as [->|N]; [rewrite L; cbn; lia|].
    specialize (E i). by rewrite lookup_insert_ne, <- F in E. }
  destruct (t !! id) as [r|] eqn:Lt; cbn in Ei.
  - rewrite (work_delete t id r Lt). pose proof (K (delete id t)) as W. specialize (W ltac:(intros i N; by apply lookup_delete_ne)). lia.
  - specialize (K t ltac:(done)). lia.
Qed.

Lemma work_none t id q : work t = O → t !! id = Some q → active q = false.
Proof.
  intros W L. rewrite (work_delete t id q L) in W. unfold effort in W. destruct (active q); [lia|done].
Qed.

(** ** What a pass may do to a row *)

(** Rows that are not the worker's business stay; the others stay or come to an end. *)
Definition pursues (t t' : table) : Prop :=
  ∀ id, match t !! id with
        | None => t' !! id = None
        | Some q =>
            if active q
            then ∃ q', t' !! id = Some q' ∧ same_request q q'
                   ∧ q_Status q' ∈ [StatusApproved; StatusReplaying; StatusReplayed; StatusReplayFailed]
            else t' !! id = Some q
        end.

Lemma pursues_refl t : pursues t t.
Proof.
  intros id. destruct (t !! id) as [q|]; [|done]. destruct (active q) eqn:A; [|done].
  exists q. apply in_status_true in A. split_and!; [done|by repeat split|set_solver].
Qed.

Lemma pursues_trans t1 t2 t3 : pursues t1 t2 → pursues t2 t3 → pursues t1 t3.
Proof.
  intros P Q id. specialize (P id). specialize (Q id). destruct (t1 !! id) as [q|]; [|by rewrite P in Q].
  destruct (active q) eqn:A; [|by rewrite P, A in Q]. destruct P as (q' & L & R & S). rewrite L in Q.
  destruct (active q').
  - destruct Q as (q2 & L2 & R2 & S2). exists q2. split_and!; [done|unfold same_request in *; naive_solver congruence|done].
  - by exists q'.
Qed.

Lemma pursues_update t id q q' :
  t !! id = Some q → active q = true → same_request q q' →
  q_Status q' ∈ [StatusApproved; StatusReplaying; StatusReplayed; StatusReplayFailed] → pursues t (<[id := q']> t).
Proof.
  intros L A R S i. destruct (decide (i = id)) as [->|N].
  - rewrite L, A, lookup_insert_eq. by exists q'.
  - rewrite lookup_insert_ne by done. apply pursues_refl.
Qed.

Lemma pursues_keyed t t' : pursues t t' → table_wf t → table_wf t'.
Proof.
  intros P W id q' L. specialize (P id). destruct (t !! id) as [q|] eqn:Lt; [|congruence].
  destruct (active q); [|rewrite P in L; injection L as <-; by apply W].
  destruct P as (q2 & L2 & (I & _) & _). assert (q2 = q') as -> by congruence. rewrite I. by apply W.
Qed.

Definition canonical (t : table) : Prop := ∀ id : string, is_Some (t !! id) → uuid_Parse id = Some id.

Lemma pursues_canonical t t' : pursues t t' → canonical t → canonical t'.
Proof.
  intros P C id [q' L]. apply C. specialize (P id). destruct (t !! id); [done|congruence].
Qed.

Lemma replaying_active q : q_Status q = StatusReplaying → active q = true.
Proof. intros E. apply in_status_true. rewrite E. set_solver. Qed.

(** The transitions of a claimed row. *)
Lemma move_served t id q m x e t' :
  t !! id = Some q → q_Status q = StatusReplaying → uuid_Parse id = Some id →
  moves_of e = [(m, id, x)] → serves t e t' → (m = ToApproved → q_Attempts q <= max) →
  ∃ q', t' = <[id := q']> t ∧ same_request q q' ∧ (effort q' < effort q)%nat
    ∧ q_Status q' ∈ [StatusApproved; StatusReplaying; StatusReplayed; StatusReplayFailed].
Proof.
  intros L R P M Sv B.
  assert (in_status [StatusReplaying] q = true) as G by (apply in_status_true; rewrite R; by left).
  assert (effort q = S (Z.to_nat (max + 1 - q_Attempts q))) as -> by (unfold effort; by rewrite (replaying_active q R)).
  assert (∀ s a r, s ≠ StatusApproved → s ≠ StatusReplaying → effort (set_status q s a r) = O) as Zero.
  { intros s a r N1 N2. unfold effort. destruct (active _) eqn:A; [|done]. apply in_status_true in A. cbn in A. set_solver. }
  destruct e as [c y]. destruct c; try done; cbn in M; injection M as <- -> ->; cbn in Sv;
    unfold MarkReplayed, MarkReplayFailed, ReturnToApproved, transition in Sv; rewrite P in Sv; try (lazymatch type of Sv with ex _ => destruct Sv as [now Sv] end);
    injection Sv as _ ->; cbn; unfold MarkReplayed_sql, MarkReplayFailed_sql, ReturnToApproved_sql, update_where; rewrite L, G;
    eexists; (split; [reflexivity|]); (split; [by repeat split|]); rewrite ?Zero by done; (split; [|set_solver]); try lia.
  unfold effort. cbn. specialize (B eq_refl). destruct (active _); lia.
Qed.
End table.

Section worker.
Context `{UnicodeTables} `{UuidLib}.
Variable unmarshal_message : string → string.
Variable wk : Worker.
Hypothesis recheck_evaluates : ∀ recheck, wk_recheck wk = Some recheck → only_evaluates recheck.
Hypothesis recheck_calls : ∀ recheck, wk_recheck wk = Some recheck → ∀ a p h, only replay_call (recheck a p h).

Abbreviation max := (wk_maxReplayAttempts wk).
Abbreviation effort := (effort max).
Abbreviation work := (work max).

(** A claimed row, and the entry the worker holds for it. *)
Definition holds_row (t : table) (entry : QuarantineEntry) : Prop :=
  ∃ q, t !! qe_ID entry = Some q ∧ q_Status q = StatusReplaying ∧ q_Attempts q = qe_Attempts entry.

Lemma processClaimed_served entry tr u t t' :
  runs (processClaimed unmarshal_message wk entry) tr u → served t tr t' → holds_row t entry → canonical t →
  ∃ q q', t !! qe_ID entry = Some q ∧ t' = <[qe_ID entry := q']> t ∧ (effort q' < effort q)%nat ∧ pursues t t'.
Proof.
  intros R S (q & L & Q & A) C. pose proof (C _ (mk_is_Some _ _ L)) as P.
  destruct (replay_moves_once _ _ _ _ _ recheck_evaluates R) as (m & x & M & _ & B).
  assert (∀ c y, Ev c y ∈ tr → replay_call c) as K.
  { intros c y. exact (only_runs _ _ _ _ _ _ (processClaimed_calls _ _ recheck_calls entry) R). }
  destruct (moves_one _ _ M) as (pre & e & post & -> & M1 & Me & M2). apply served_app in S as (t1 & S1 & S).
  apply served_still in S1 as ->; [|intros c y J; apply (K c y), elem_of_app; by left|done]. destruct S as (t2 & Se & S2).
  apply served_still in S2 as ->; [|intros c y J; apply (K c y), elem_of_app; right; by right|done].
  destruct (move_served max t _ q m x e t2 L Q P Me Se) as (q' & -> & Sr & E & St); [intros Em; rewrite A; by apply B|].
  exists q, q'. split_and!; try done. by apply pursues_update with q; [|apply replaying_active|..].
Qed.

Lemma drain_served es tr u t t' :
  runs (drain unmarshal_message wk es) tr u → served t tr t' → Forall (holds_row t) es → NoDup (map qe_ID es) → canonical t →
  pursues t t' ∧ (work t' + length es ≤ work t)%nat.
Proof.
  revert t tr. induction es as [|e es IH]; intros t tr R S F N C.
  { destruct R as [-> _]. cbn in S. subst. split; [apply pursues_refl|cbn; lia]. }
  destruct R as (b & tr' & -> & R). destruct S as (t0 & [-> ->] & S).
  change (runs (processClaimed unmarshal_message wk e ≫= λ _, drain unmarshal_message wk es) tr' u) in R.
  apply runs_bind in R as (tr1 & tr2 & u1 & -> & R1 & R2). apply served_app in S as (t1 & S1 & S2).
  apply Forall_cons in F as [He F]. apply NoDup_cons in N as [Ni N].
  destruct (processClaimed_served _ _ _ _ _ R1 S1 He C) as (q & q' & L & -> & E & P).
  destruct (IH _ _ R2 S2) as [P2 W].
  - rewrite Forall_forall in F |- *. intros e' J. destruct (F e' J) as (r & Lr & K). exists r. rewrite lookup_insert_ne; [done|].
    intros Eq. apply Ni. rewrite Eq. by apply list_elem_of_fmap_2.
  - done.
  - by eapply pursues_canonical.
  - split; [by eapply pursues_trans|]. cbn [length]. pose proof (work_update max t _ q q' L). lia.
Qed.

(** Recovery and the claim leave no more work. *)
Lemma recover_pursues t : pursues t (recover_row <$> t).
Proof.
  intros id. rewrite lookup_fmap. destruct (t !! id) as [q|]; [|done]. cbn. unfold recover_row.
  destruct (in_status [StatusReplaying] q) eqn:G.
  - apply claimed_guard in G. rewrite (replaying_active q G). eexists. split; [done|]. split; [by repeat split|set_solver].
  - destruct (in_status [_; _] q) eqn:A; [|done]. exists q. apply in_status_true in A. split_and!; [done|by repeat split|set_solver].
Qed.

Lemma recover_work t : (work (recover_row <$> t) ≤ work t)%nat.
Proof.
  apply work_mono. intros id. rewrite lookup_fmap. destruct (t !! id) as [q|]; [|done]. cbn. unfold recover_row.
  destruct (in_status [StatusReplaying] q) eqn:G; [|done]. apply claimed_guard in G.
  unfold QPass.effort. rewrite (replaying_active q G). cbn. destruct (in_status _ _); lia.
Qed.

Lemma claim_served limit t :
  table_wf t →
  let qs := claim_candidates limit ∅ t in
  pursues t (claim_all qs t) ∧ (work (claim_all qs t) ≤ work t)%nat
  ∧ Forall (holds_row (claim_all qs t)) (map ToQuarantineEntry (map claim_row qs))
  ∧ NoDup (map qe_ID (map ToQuarantineEntry (map claim_row qs))).
Proof.
  intros W qs. assert (∀ q, q ∈ qs → t !! q_ID q = Some q ∧ q_Status q = StatusApproved) as C.
  { intros q J. by destruct (claim_candidates_elem _ _ _ _ W J) as (? & ? & _). }
  assert (∀ id, claim_all qs t !! id = match t !! id with
    | Some q => if bool_decide (q ∈ qs) then Some (claim_row q) else Some q | None => None end) as K.
  { intros id. apply claim_all_lookup; [done|]. intros q J. by apply C. }
  assert (∀ q, q ∈ qs → in_status [StatusApproved; StatusReplaying] q = true) as A.
  { intros q J. apply in_status_true. rewrite (proj2 (C q J)). by left. }
  split_and!.
  - intros id. rewrite K. destruct (t !! id) as [q|] eqn:L; [|done]. case_bool_decide as J.
    + rewrite (A q J). eexists. split; [done|]. split; [by repeat split|set_solver].
    + destruct (in_status _ q) eqn:G; [|done]. exists q. apply in_status_true in G. split_and!; [done|by repeat split|set_solver].
  - apply work_mono. intros id. rewrite K. destruct (t !! id) as [q|] eqn:L; [|done]. case_bool_decide as J; [|done].
    cbn. unfold QPass.effort. rewrite (A q J). done.
  - apply Forall_forall. intros e J. apply list_elem_of_fmap in J as (r & -> & J). apply list_elem_of_fmap in J as (q & -> & J).
    exists (claim_row q). destruct (C q J) as [L _]. split_and!; [|done|done]. cbn. by rewrite K, L, bool_decide_true.
  - rewrite !map_map. by apply NoDup_candidates.
Qed.

Lemma unclaimed_idle limit t : 0 < limit → claim_candidates limit ∅ t = [] → ∀ id q, t !! id = Some q → q_Status q ≠ StatusApproved.
Proof.
  intros B E id q L A. assert (q ∈ rows_with StatusApproved t) as J by (apply rows_with_elem; eauto).
  unfold claim_candidates in E. destruct (Z.to_nat limit) as [|n] eqn:N; [lia|].
  assert (q ∈ List.filter (λ q, negb (bool_decide (q_ID q ∈ (∅ : gset string)))) (rows_with StatusApproved t)) as J'.
  { apply list_elem_of_In, filter_In. split; [by apply list_elem_of_In|]. by rewrite bool_decide_false by set_solver. }
  destruct (List.filter _ _); [by apply not_elem_of_nil in J'|done].
Qed.

Hypothesis batch : 0 < wk_batchSize wk.

(** A pass does some of the work, when there is any. *)
Lemma drainOnce_served tr u t t' :
  runs (drainOnce unmarshal_message wk) tr u → served t tr t' → table_wf t → canonical t →
  (∀ id q, t !! id = Some q → q_Status q ≠ StatusReplaying) → pursues t t' ∧ (work t' ≤ pred (work t))%nat.
Proof.
  intros (c & tr1 & -> & R) (t1 & S1 & S) W C NR. destruct S1 as (y & S1 & Y). cbn in S1. injection S1 as -> ->.
  destruct c as [es|]; cbn in Y; [|done].
  destruct (claim_served (wk_batchSize wk) t W) as (P1 & W1 & F & N). rewrite <- Y in F.
  assert (NoDup (map qe_ID es)) as N' by (rewrite Y; exact N).
  destruct (drain_served _ _ _ _ _ R S F N') as [P2 W2]; [by eapply pursues_canonical|].
  split; [by eapply pursues_trans|]. rewrite Y, !length_map in W2.
  destruct (claim_candidates (wk_batchSize wk) ∅ t) as [|q qs] eqn:E; cbn [length] in W2; [|lia].
  assert (work t ≤ work ∅)%nat as Z.
  { apply work_mono. intros id. destruct (t !! id) as [q|] eqn:L; [|done]. cbn. unfold QPass.effort.
    destruct (in_status _ q) eqn:A; [|done]. apply in_status_true in A. pose proof (unclaimed_idle _ _ batch E _ _ L).
    pose proof (NR _ _ L). set_solver. }
  change (work ∅) with (map_fold (λ (_ : string) q n, effort q + n)%nat O (∅ : table)) in Z. rewrite map_fold_empty in Z.
  cbn in W2. lia.
Qed.

Lemma ProcessOnce_served tr u t t' :
  runs (ProcessOnce unmarshal_message wk) tr u → served t tr t' → table_wf t → canonical t →
  pursues t t' ∧ (work t' ≤ pred (work t))%nat.
Proof.
  intros R S W C. apply runs_bind in R as (tr0 & tr9 & r & -> & R & [-> _]). rewrite app_nil_r in S.
  destruct R as (b & tr1 & -> & R). destruct S as (t0 & [-> ->] & S).
  destruct R as (b & tr2 & -> & R). destruct S as (t0 & [-> ->] & S).
  destruct R as (b & tr10 & -> & R). destruct S as (t0 & [-> ->] & S).
  destruct R as (n & tr3 & -> & R). destruct S as (t0 & S0 & S). cbn in S0. injection S0 as -> ->. cbn in S.
  change (runs ((_ ← drainOnce unmarshal_message wk; mret None) ≫= λ err, _ ← call CUnlock; mret (true, err)) tr3 r) in R.
  apply runs_bind in R as (tr4 & tr5 & err & -> & R & R2). apply served_app in S as (t1 & S1 & S2).
  destruct R2 as ([] & tr6 & -> & -> & _). destruct S2 as (t2 & S2 & S3). cbn in S2, S3. subst.
  apply runs_bind in R as (tr7 & tr8 & u1 & -> & R & [-> _]). rewrite app_nil_r in S1.
  pose proof (recover_pursues t) as P. pose proof (recover_work t) as Wr.
  destruct (drainOnce_served _ _ _ _ R S1) as [P1 W1].
  - by eapply pursues_keyed.
  - by eapply pursues_canonical.
  - intros id q. rewrite lookup_fmap. destruct (t !! id) as [q0|]; [|done]. cbn. intros [= <-]. unfold recover_row.
    destruct (in_status [StatusReplaying] q0) eqn:G; [done|]. intros Q. apply not_true_iff_false in G. apply G, in_status_true.
    rewrite Q. by left.
  - split; [by eapply pursues_trans|]. lia.
Qed.

Lemma Run_served ticks tr u t t' :
  runs (Run unmarshal_message wk ticks) tr u → served t tr t' → table_wf t → canonical t →
  pursues t t' ∧ (work t' ≤ work t - S ticks)%nat.
Proof.
  revert tr t'. revert u. induction ticks as [|n IH]; intros u tr t' R S W C.
  { destruct (ProcessOnce_served _ _ _ _ R S W C) as [P Wk]. split; [done|]. lia. }
  apply runs_bind in R as (tr1 & tr2 & u1 & -> & R1 & R2). apply served_app in S as (t1 & S1 & S2).
  destruct (IH _ _ _ R1 S1 W C) as [P1 W1].
  destruct (ProcessOnce_served _ _ _ _ R2 S2) as [P2 W2]; [by eapply pursues_keyed|by eapply pursues_canonical|].
  split; [by eapply pursues_trans|]. lia.
Qed.

(** C5: every approval comes to an end.  While the quarantine table serves the worker, and
    whatever the ledger, the policy and the upstream answer, the loop settles the whole
    queue: after as many passes as the approved and interrupted items may still have
    attempts, each of them is replayed or parked as failed, with the request that was held,
    and nothing else has changed. *)
Theorem replays_settle (ticks : nat) (tr : list event) (u : unit) (t t' : table) :
  runs (Run unmarshal_message wk ticks) tr u → served t tr t' → table_wf t → canonical t → (work t ≤ S ticks)%nat →
  ∀ id, match t !! id with
        | None => t' !! id = None
        | Some q =>
            if in_status [StatusApproved; StatusReplaying] q
            then ∃ q', t' !! id = Some q' ∧ same_request q q' ∧ (q_Status q' = StatusReplayed ∨ q_Status q' = StatusReplayFailed)
            else t' !! id = Some q
        end.
Proof.
  intros R S W C B id. destruct (Run_served _ _ _ _ _ R S W C) as [P Wk]. specialize (P id).
  destruct (t !! id) as [q|]; [|done]. destruct (in_status _ q); [|done]. destruct P as (q' & L & Sr & St).
  exists q'. split_and!; [done..|]. assert (work t' = O) as Z by lia. pose proof (work_none max _ _ _ Z L) as A.
  apply not_true_iff_false in A. rewrite in_status_true in A. set_solver.
Qed.
End worker.

(** ** Witness: an approved item and an interrupted one, with an upstream that is down *)

Section example.
#[local] Existing Instance ascii_tables.
#[local] Existing Instance plain_uuid.
#[local] Existing Instance Ingress.MCPAdapter.

Definition down_env (c : cmd) (t : table) : ans c * table :=
  match c return ans c * table with
  | CTryLock => (Ok true, t)
  | CRecover => RecoverStuckReplays Good t
  | CClaim limit => ClaimApproved Good limit ∅ t
  | CMarkReplayed id => MarkReplayed 0 Good id t
  | CMarkReplayFailed id => MarkReplayFailed Good id t
  | CReturnToApproved id => ReturnToApproved Good id t
  | CEvaluate _ => (Ok (mkDecision ActionQuarantine "rule" "" "v1"), t)
  | CSend _ => (Ok 503, t)
  | c => (quiet_answer c, t)
  end.

Lemma down_served {A} (p : prog A) t tr a t' : run down_env p t = (tr, a, t') → served t tr t'.
Proof.
  revert t tr. induction p as [a'|c k IH]; intros t tr R; cbn in R; [by simplify_eq|].
  assert (serves t (Ev c (down_env c t).1) (down_env c t).2) as S.
  { destruct c; try done; cbn; try (exists 0; by rewrite <- surjective_pairing); try by rewrite <- surjective_pairing.
    eexists. split; [done|]. cbn. done. }
  destruct (down_env c t) as [x t1]. destruct (run down_env (k x) t1) as [[tr1 a1] t2] eqn:R1. simplify_eq.
  exists t1. split; [done|]. exact (IH x t1 tr1 R1).
Qed.

Definition sample_row (id status : string) (attempts : Z) : Quarantine :=
  mkQuarantine id "agent-7" "search" Proxy.sample_body status 0 (Some 5) (Some "rev") None attempts None "{}" "rule" "why".
Definition sample_queue : table :=
  list_to_map [("q1", sample_row "q1" StatusApproved 0); ("q2", sample_row "q2" StatusReplaying 1);
               ("q3", sample_row "q3" StatusPending 0)].
Definition sample_passes := run down_env (Run (λ s, s) sample_worker 9) sample_queue.

Lemma sample_queue_keys id q : sample_queue !! id = Some q → q_ID q = id ∧ uuid_Parse id = Some id.
Proof.
  intros L. apply elem_of_list_to_map_2 in L. rewrite !elem_of_cons in L.
  destruct L as [L|[L|[L|L]]]; [..|by apply not_elem_of_nil in L]; apply pair_eq in L as [-> ->]; split; reflexivity.
Qed.

Lemma sample_queue_wf : table_wf sample_queue ∧ canonical sample_queue.
Proof. split; [intros id q L|intros id [q L]]; by apply sample_queue_keys in L as [? ?]. Qed.

Lemma sample_queue_work : (work (wk_maxReplayAttempts sample_worker) sample_queue ≤ 10)%nat.
Proof. apply Nat.leb_le. vm_compute. reflexivity. Qed.

Lemma sample_recheck_calls recheck : wk_recheck sample_worker = Some recheck → ∀ a p h, only replay_call (recheck a p h).
Proof. intros [= <-]. apply NewPolicyRecheck_calls. Qed.

Lemma replays_settle_witness :
  ∃ q, sample_passes.2 !! "q1" = Some q ∧ (q_Status q = StatusReplayed ∨ q_Status q = StatusReplayFailed).
Proof.
  destruct sample_queue_wf as [W C]. pose proof (run_eta sample_passes) as E.
  pose proof (replays_settle (λ s, s) sample_worker sample_recheck sample_recheck_calls eq_refl 9 _ _ sample_queue _
    (run_runs _ _ _ _ _ _ E) (down_served _ _ _ _ _ E) W C sample_queue_work "q1") as R.
  cbn in R. destruct R as (q & L & _ & S). exists q. split; [exact L|exact S].
Defined.
End example.
End QPass.
