(* ===== verification/Deployment.v ===== *)
(** * The deployed server

    [main] of [cmd/server/main.go] as it wires the components from a configuration: the
    handlers behind the routes, the identities, the Slack app and the single sign-on
    service when they are enabled, the replay worker and the notification worker.  The
    process serves any number of requests while its workers run, and may be told to stop;
    [task_call] says, for every call of any of them, which component made it and what that
    component had seen.  What encoders, parsers of URLs and the metrics handler return is a
    parameter. *)

From S2P Require Import Prelude GoStrings GoTime Types Mcp GoUrl GoHttp Config Effects Interleave Auth Sso SsoLog ProxyIngress Proxy LedgerHandler QStore QHandler GoMux Notify NotifyConc SlackApp SlackLog PolicyStore Dashboard Server QWorker.
From stdpp Require Import base tactics strings list gmap.
From Stdlib Require Import ZArith QArith Lia.

Local Open Scope Z_scope.

Import GoHttp GoMux Auth.

Module Deployment.

(** ** The wiring *)

(** What the standard library and the client libraries compute. *)
Record Libraries : Type := mkLibraries {
  lib_seconds : Z → string;
  lib_time : Z → string;
  lib_time_json : Z → result string;
  lib_parse_time : string → option Z;
  lib_latency : Z → string;
  lib_percent : Q → string;
  lib_content_length : Request → Z;
  lib_redirect : string → string → Response any;
  lib_decode_message : string → string;
  lib_unmarshal_message : string → string;
  lib_AuthCodeURL : string → string → string → string;
  lib_target : string → result URL;
  lib_metrics : Response any
}.

Section wiring.
Context `{UnicodeTables} `{UrlLib} `{UuidLib}.
#[local] Existing Instance Ingress.MCPAdapter.
Variable lib : Libraries.
Variables (version : string) (startTime : Z).
Variable cfg : Config.Config.

Definition proxyHandler : result Proxy.ProxyHandler :=
  Proxy.NewHandler (lib_target lib (Config.cf_TargetURL cfg)) true
    [Proxy.WithTargetAuthToken (Config.cf_TargetAuthToken cfg); Proxy.WithMaxBodyBytes (Config.cf_MaxRequestBodyBytes cfg);
     Proxy.WithUpstreamHeaderTimeout (Config.cf_WriteTimeout cfg)].
Definition slackApp : option SlackApp.App :=
  if Config.Slack_Enabled (Config.cf_Slack cfg)
  then Some (SlackApp.New (Server.slack_config cfg) (SlackApp.quarantine_decider true)) else None.
Definition ssoService : option Sso.Service :=
  if Config.OIDC_Enabled (Config.cf_OIDC cfg)
  then Some (Sso.New (Config.cf_OIDC cfg) (Config.cf_AllowedOrigins cfg)) else None.

(** [slackHandler] *)
Definition slackHandler : option Handler :=
  (λ a x, SlackApp.interact (lib_decode_message lib) a (in_req x) (in_body x)) <$> slackApp.

Definition httpDeps (ph : Proxy.ProxyHandler) : Server.httpDeps :=
  Server.mkDeps version startTime
    (λ x, Proxy.ServeHTTP ph (in_req x) (in_body x))
    (λ x, QHandler.ServeHTTP true (lib_time lib) (in_req x) (in_body x))
    (λ x, LedgerHandler.ServeHTTP (lib_time lib) (lib_content_length lib) (in_req x) (in_body x))
    (λ x, PolicyStore.ServeHTTP (lib_parse_time lib) (lib_time lib) (lib_latency lib) (in_req x) (in_body x))
    (λ x, Dashboard.ServeHTTP (lib_time lib) (lib_percent lib) (in_req x))
    (Config.identities cfg) (Config.cf_AllowedOrigins cfg) true slackHandler
    ((λ s, Server.sso_provider (lib_redirect lib) s (lib_AuthCodeURL lib)) <$> ssoService)
    (λ _, mret (lib_metrics lib)) (negb (String.eqb (Config.cf_MetricsListenAddr cfg) "")).

Definition finalHandler (ph : Proxy.ProxyHandler) : Handler :=
  Server.buildHTTPHandler (lib_seconds lib) (lib_redirect lib) (httpDeps ph).
Definition replayWorker : QWorker.Worker :=
  QWorker.NewWorker true (lib_target lib (Config.cf_TargetURL cfg))
    [QWorker.WithTargetAuthToken (Config.cf_TargetAuthToken cfg); QWorker.WithPolicyRecheck Proxy.NewPolicyRecheck].
Definition notifyWorker : Notify.Worker :=
  Notify.NewWorker
    (Server.notify_channels (lib_time_json lib) cfg (SlackApp.channel (lib_decode_message lib) <$> slackApp))
    (Config.cf_ConsoleURL cfg).

(** ** What runs in the process *)

Inductive task : Type :=
  | TRequest (x : Inbound)
  | TReplay (ticks : nat)
  | TNotify (ticks : nat)
  | TSso (retries ticks : nat)
  | TReload (signals : nat)
  | TShutdown.

Definition program_of (ph : Proxy.ProxyHandler) (tk : task) : program :=
  match tk with
  | TRequest x => Prog (finalHandler ph x)
  | TReplay ticks => Prog (QWorker.Run (lib_unmarshal_message lib) replayWorker ticks)
  | TNotify ticks => Prog (Notify.Run notifyWorker ticks)
  | TSso retries ticks => Prog (Sso.Run retries ticks)
  | TReload signals => Prog (Server.reloadOnSignal signals)
  | TShutdown => Prog (Server.shutdown cfg)
  end.

(** ** Which component makes a call *)

Variable ph : Proxy.ProxyHandler.
Hypothesis wired : proxyHandler = Ok ph.

Abbreviation sessions := (Server.sessions (httpDeps ph)).
Abbreviation allowOrigin := (Server.allowOrigin (httpDeps ph)).

(** The requests of the single sign-on routes. *)
Definition sso_task (r : Request) (tk : SsoLog.task) : Prop :=
  tk ∈ [SsoLog.TLogin r; SsoLog.TCallback r; SsoLog.TLogout r].

(** The request a reviewer's route serves, and the one the proxy does. *)
Definition review_request (x : Inbound) (id : Identity) : Inbound :=
  strip_request "/api/v1/quarantine" (with_req x (WithIdentity (in_req x) id)).
Definition agent_request (x : Inbound) (id : Identity) : Request := WithIdentity (in_req x) id.

(** A call of a request and what it has done before: a call that leaves tool calls,
    decisions and people alone, or one of the four handlers that do not, past its gate. *)
Inductive reach (x : Inbound) (pre : list event) (c : cmd) (y : ans c) : Prop :=
  | reach_passive : passive c → reach x pre c y
  | reach_sso s tk :
      ssoService = Some s → sso_task (in_req x) tk → SsoLog.call_guard s tk pre c → reach x pre c y
  | reach_slack a h post resp :
      slackApp = Some a → pre = Ev CReady true :: h →
      runs (SlackApp.interact (lib_decode_message lib) a (in_req x) (in_body x)) (h ++ Ev c y :: post) resp →
      reach x pre c y
  | reach_review id gate h :
      pre = Ev CReady true :: gate ++ h →
      authenticates (Config.identities cfg) sessions allowOrigin (in_req x) gate id →
      id_Role id = RoleReviewer ∨ id_Role id = RoleAdmin →
      QHandler.review_guard (in_req (review_request x id)) h c → reach x pre c y
  | reach_agent token id h :
      pre = [Ev CReady true; Ev (CAllow (id_ID id)) true] ++ h →
      header_get (rq_Header (in_req x)) "Authorization" = "Bearer " +:+ token →
      Config.identities cfg !! token = Some id → id_Role id = RoleAgent →
      Proxy.proxy_guard ph (agent_request x id) (in_body x) h c → reach x pre c y.

Lemma ph_ledger_wired : Proxy.ph_ledger ph = true.
Proof. unfold proxyHandler, Proxy.NewHandler in wired. destruct (lib_target lib _); [|done]. by injection wired as <-. Qed.

Lemma session_passive s r : only passive (Sso.AuthenticateSession s r).
Proof.
  unfold Sso.AuthenticateSession. destruct (request_cookie _ _) as [v|]; [|done]. destruct (String.eqb v ""); [done|].
  split; [done|]. intros now. split; [done|]. intros [row|]; [|done]. cbn.
  destruct (negb _ && _); [done|]. by destruct (Sso.touchInterval <? _).
Qed.

Lemma gate_passive r gate id c y :
  authenticates (Config.identities cfg) sessions allowOrigin r gate id → Ev c y ∈ gate → passive c.
Proof.
  intros [[-> _]|(a & S & R & _)] J; [by apply not_elem_of_nil in J|]. unfold Server.sessions, httpDeps in S. cbn in S.
  destruct ssoService as [s|]; [|done]. injection S as <-. eapply only_runs; [apply session_passive|done|done].
Qed.

(** A call of a human route is the gate's, or the handler's past it. *)
Lemma human_split h x pre c y post resp :
  Server.human_served (httpDeps ph) h x (pre ++ Ev c y :: post) resp →
  passive c ∨ ∃ id gate h' post', pre = Ev CReady true :: gate ++ h'
    ∧ authenticates (Config.identities cfg) sessions allowOrigin (in_req x) gate id
    ∧ (id_Role id = RoleReviewer ∨ id_Role id = RoleAdmin)
    ∧ runs (h (with_req x (WithIdentity (in_req x) id))) (h' ++ Ev c y :: post') resp.
Proof.
  intros [[E _]|(tr' & E & K)].
  { left. destruct pre as [|? []]; cbn in E; [by apply head_call in E as ->|done|done]. }
  destruct pre as [|e pre]; cbn in E; [apply head_call in E as ->; by left|]. injection E as -> <-.
  destruct K as [[_ [N|(a & found & S & R)]]|(id & tr1 & tr2 & E & A & Ro & R)].
  - by destruct pre.
  - left. unfold Server.sessions, httpDeps in S. cbn in S. destruct ssoService as [s|]; [|done]. injection S as <-.
    eapply only_runs; [apply session_passive|exact R|]. apply elem_of_app. right. by left.
  - destruct (split_call _ _ _ _ _ (eq_sym E)) as [(q & -> & _)|(p & -> & ->)].
    + left. eapply gate_passive; [exact A|]. apply elem_of_app. right. by left.
    + right. exists id, tr1, p, post. by split_and!.
Qed.

(** Likewise of the agents' route. *)
Lemma agent_split h x pre c y post resp :
  Server.agent_served (httpDeps ph) h x (pre ++ Ev c y :: post) resp →
  passive c ∨ ∃ token id h' post', pre = [Ev CReady true; Ev (CAllow (id_ID id)) true] ++ h'
    ∧ header_get (rq_Header (in_req x)) "Authorization" = "Bearer " +:+ token
    ∧ Config.identities cfg !! token = Some id ∧ id_Role id = RoleAgent
    ∧ runs (h (with_req x (WithIdentity (in_req x) id))) (h' ++ Ev c y :: post') resp.
Proof.
  intros [[E _]|[[E _]|(token & id & tr' & A & L & E & K)]].
  1,2: left; destruct pre as [|? []]; cbn in E; [by apply head_call in E as ->|done|done].
  destruct pre as [|e pre]; cbn in E; [apply head_call in E as ->; by left|]. injection E as -> <-.
  destruct K as [[E _]|(tr2 & E & K)].
  { left. destruct pre as [|? []]; cbn in E; [by apply head_call in E as ->|done|done]. }
  destruct pre as [|e pre]; cbn in E; [apply head_call in E as ->; by left|]. injection E as -> <-.
  destruct K as [(_ & E & _)|[Ro R]]; [by destruct pre|]. right. exists token, id, pre, post. by split_and!.
Qed.

Lemma passive_call {A} (p : prog A) pre c y post a : only passive p → runs p (pre ++ Ev c y :: post) a → passive c.
Proof. intros S R. eapply only_runs; [exact S|exact R|]. apply elem_of_app. right. by left. Qed.

Lemma strip_passive prefix (h : Handler) x : (∀ x, only passive (h x)) → only passive (StripPrefix prefix h x).
Proof. intros S. unfold StripPrefix. by destruct (_ && _). Qed.

(** Every call of a route is accounted for. *)
Definition covers (dm : Server.domain) : Prop :=
  ∀ x pre c y post resp, Server.domain_served (httpDeps ph) dm x (pre ++ Ev c y :: post) resp → reach x pre c y.

Lemma public_passive h : (∀ x, only passive (h x)) → covers (Server.Public h).
Proof. intros S x pre c y post resp R. apply reach_passive. by eapply passive_call. Qed.

Lemma human_passive h : (∀ x, only passive (h x)) → covers (Server.Human h).
Proof.
  intros S x pre c y post resp R. apply reach_passive.
  apply human_split in R as [?|(id & gate & h' & post' & _ & _ & _ & R)]; [done|]. by eapply passive_call.
Qed.

Lemma covers_slack a :
  slackApp = Some a →
  covers (Server.Public (Server.drainMiddleware
            (λ x, SlackApp.interact (lib_decode_message lib) a (in_req x) (in_body x)))).
Proof.
  intros A x pre c y post resp (b & tr & E & R). destruct pre as [|e pre]; cbn in E.
  { apply head_call in E as ->. by apply reach_passive. }
  injection E as -> <-. destruct b; [by eapply reach_slack|]. destruct R as [R _]. by destruct pre.
Qed.

Lemma covers_sso s :
  ssoService = Some s → covers (Server.Public (Server.sso_Routes (lib_redirect lib) s (lib_AuthCodeURL lib))).
Proof.
  intros S x pre c y post resp R. cbn [Server.domain_served] in R. unfold Server.sso_Routes in R.
  apply runs_mux in R as [R|(p & h & I & _ & R)]; [by destruct pre|].
  assert (∃ tk, sso_task (in_req x) tk ∧ safe (SsoLog.call_guard s tk) [] (h x)) as (tk & T & G).
  { rewrite !elem_of_cons in I. unfold sso_task.
    destruct I as [[= _ ->]|[[= _ ->]|[[= _ ->]|[]%not_elem_of_nil]]]; eexists; (split; [|first
      [apply SsoLog.login_safe|apply SsoLog.callback_safe|apply SsoLog.logout_safe]]); set_solver. }
  eapply reach_sso; [done|done|]. exact (safe_runs _ _ [] _ _ _ _ _ _ G R eq_refl).
Qed.

Lemma covers_review path :
  path = "/api/v1/quarantine" → covers (Server.Human (StripPrefix path (Server.hd_quarantine (httpDeps ph)))).
Proof.
  intros -> x pre c y post resp R. apply human_split in R as [?|(id & gate & h & post' & -> & A & Ro & R)]; [by apply reach_passive|].
  unfold StripPrefix in R. destruct (_ && _); [|destruct R as [R _]; by destruct h].
  eapply reach_review; [done|done|done|]. exact (safe_runs _ _ [] _ _ _ _ _ _ (QHandler.reviews_guarded _ _ _ _) R eq_refl).
Qed.

Lemma covers_proxy : covers (Server.Agent (Server.hd_proxy (httpDeps ph))).
Proof.
  intros x pre c y post resp R. apply agent_split in R as [?|(token & id & h & post' & -> & A & L & Ro & R)]; [by apply reach_passive|].
  eapply reach_agent; [done|done|done|done|].
  exact (safe_runs _ _ [] _ _ _ _ _ _ (Proxy.proxy_guarded _ _ _ ph_ledger_wired) R eq_refl).
Qed.

(** A list's elements, one by one. *)
Ltac parts := repeat first [apply Forall_app_2|apply Forall_cons_2|apply Forall_nil_2].

Lemma routes_covered : Forall (λ e, covers e.2) (Server.routes (lib_seconds lib) (httpDeps ph)).
Proof.
  unfold Server.routes, Server.both. parts; cbn [snd].
  - by apply public_passive.
  - unfold httpDeps, slackHandler. cbn. destruct slackApp as [a|] eqn:A; cbn; parts; by apply covers_slack.
  - unfold httpDeps. cbn. destruct ssoService as [s|] eqn:S; cbn; parts;
      [by apply covers_sso|by apply public_passive..].
  - apply public_passive. intros x. split; [done|]. intros [|]; [|done]. split; [done|]. intros [|]; [|done].
    split; [done|]. by intros [|].
  - by apply covers_review.
  - by apply covers_review.
  - apply human_passive. intros x. apply strip_passive. intros x'. apply LedgerHandler.serve_passive.
  - apply human_passive. intros x. apply strip_passive. intros x'. apply LedgerHandler.serve_passive.
  - apply human_passive. intros x. apply strip_passive. intros x'. apply PolicyStore.policies_passive.
  - apply human_passive. intros x. apply strip_passive. intros x'. apply PolicyStore.policies_passive.
  - apply human_passive. intros x. apply Dashboard.dashboard_passive.
  - by apply human_passive.
  - apply covers_proxy.
  - unfold httpDeps. cbn. destruct (negb _); parts. by apply public_passive.
Qed.

Lemma request_reaches x pre c y post resp : runs (finalHandler ph x) (pre ++ Ev c y :: post) resp → reach x pre c y.
Proof.
  intros R. destruct (Server.runs_build (lib_seconds lib) (lib_redirect lib) (httpDeps ph) x _ _ R)
    as [E|(p & dm & resp' & I & _ & _ & _ & S)]; [by destruct pre|].
  pose proof routes_covered as F. rewrite Forall_forall in F. exact (F _ I _ _ _ _ _ _ S).
Qed.

(** ** Every call of the process *)

Definition task_call (tk : task) (pre : list event) (c : cmd) (y : ans c) : Prop :=
  match tk with
  | TRequest x => reach x pre c y
  | TReplay ticks =>
      QWorker.worker_call c
      ∧ ∃ post u, runs (QWorker.Run (lib_unmarshal_message lib) replayWorker ticks) (pre ++ Ev c y :: post) u
  | TNotify _ | TReload _ | TShutdown => passive c
  | TSso retries ticks => ∃ s, SsoLog.call_guard s (SsoLog.TRun retries ticks) pre c
  end.

Lemma channels_wired : map_Forall (λ _ c, NotifyConc.ChannelOk c) (Notify.wk_channels notifyWorker).
Proof.
  assert (∀ channels w, map_Forall (λ _ c, NotifyConc.ChannelOk c) (Notify.wk_channels w) → Forall NotifyConc.ChannelOk channels →
    map_Forall (λ _ c, NotifyConc.ChannelOk c) (Notify.wk_channels
      (foldl (λ w c, Notify.mkWorker (<[Notify.ch_Name c := c]> (Notify.wk_channels w)) (Notify.wk_names w ++ [Notify.ch_Name c])
                       (Notify.wk_consoleURL w)) w channels))) as K.
  { intros channels. induction channels as [|c channels IH]; intros w W F; [done|]. apply Forall_cons in F as [Fc F].
    cbn [foldl]. apply IH; [|done]. by apply map_Forall_insert_2. }
  apply K; [apply map_Forall_empty|]. unfold Server.notify_channels. parts.
  - destruct (String.eqb _ ""); parts; apply NotifyConc.NewSlack_ok.
  - destruct (String.eqb _ ""); parts; apply NotifyConc.NewWebhook_ok.
  - destruct slackApp; cbn; parts; apply SlackApp.channel_ok.
Qed.

Lemma reload_passive n : only passive (Server.reloadOnSignal n).
Proof.
  induction n as [|n IH]; [done|]. split; [done|]. intros [e|]; cbn [prog_mbind prog_bind]; [exact (safe_any _ _ _ _ IH)|].
  split; [done|]. intros v. exact (safe_any _ _ _ _ IH).
Qed.

(** Every call in the log of a deployment, with its task. *)
Lemma calls_accounted tasks log l1 e l2 :
  interleaves (program_of ph) tasks log → log = l1 ++ e :: l2 →
  ∃ tk, tasks !! en_task e = Some tk
    ∧ match en_event e with Ev c y => task_call tk (events_of (en_task e) l1) c y end.
Proof.
  intros I E. destruct (interleaves_runs _ _ _ I _ _ _ E) as (tk & tr & T & R). exists tk. split; [done|].
  destruct (en_event e) as [c y]. destruct tk as [x|ticks|ticks|retries ticks|n|]; destruct R as [a R]; cbn [task_call].
  - by eapply request_reaches.
  - split; [|by exists tr, a]. eapply only_runs; [apply QWorker.Run_calls|exact R|apply elem_of_app; right; by left].
    intros recheck [= <-]. apply QWorker.NewPolicyRecheck_calls.
  - eapply passive_call; [apply NotifyConc.Run_passive, channels_wired|exact R].
  - exists (Sso.New (Config.cf_OIDC cfg) []). exact (safe_runs _ _ [] _ _ _ _ _ _ (SsoLog.Run_safe _ retries ticks) R eq_refl).
  - eapply passive_call; [apply reload_passive|exact R].
  - eapply passive_call; [apply Server.shutdown_passive|exact R].
Qed.
End wiring.
End Deployment.
