(* ===== verification/World.v ===== *)
(** * A closed deployment

    The stores, the policy engine and the identity provider as one state that answers every
    call, and a deployment run against it: an agent's call is held, a reviewer approves it,
    the worker replays it.  The end-to-end theorems are exercised on its log. *)

From S2P Require Import Prelude GoStrings GoTime Types Mcp GoUrl GoHttp Config Ledger LedgerChain LedgerVerify LedgerSpec Effects Interleave LedgerLog Opa PolicyLog Auth Sso SsoLog ProxyIngress Proxy QStore QLog QHandler GoMux SlackApp SlackLog Server QWorker Deployment.
From stdpp Require Import base tactics strings list gmap.
From Stdlib Require Import ZArith Lia.

Local Open Scope Z_scope.

Import GoHttp GoMux Auth Deployment.

Module World.

Section world.
Context `{UnicodeTables} `{UuidLib} {query : Type}.
Variable eval : query → list (string * Opa.inputField) → result (list (list any)).
Variable modules_of : query → list Opa.Module_.
Variable prepare_empty : result query.
Variable prepare_load : string → Opa.policy_dir → result query.
Variable files : Opa.policy_dir.
Variable new_id : string.
Hypothesis new_id_canonical : uuid_Parse new_id = Some new_id.
Variables (provider : IDToken) (random : string).

(** Behind every call, one at a time and at a fixed time. *)
Record world : Type := mkWorld {
  w_table : QStore.table;
  w_cache : SlackLog.emails;
  w_ledger : list LedgerEntry;
  w_engine : Opa.Engine (query := query);
  w_sso : SsoLog.state
}.

Definition set_table {A} (r : A * QStore.table) (w : world) : A * world :=
  (r.1, mkWorld r.2 (w_cache w) (w_ledger w) (w_engine w) (w_sso w)).
Definition world_env (c : cmd) (w : world) : ans c * world :=
  let now := SsoLog.st_now (w_sso w) in
  match c return ans c * world with
  | CCreate a n p h r x => set_table (QStore.Create id QStore.Good new_id now a n p h r x (w_table w)) w
  | CGet i => (QStore.Get None i (w_table w), w)
  | CList s => (QStore.List_ None s (w_table w), w)
  | CApprove i b => set_table (QStore.Approve QStore.Good now i b (w_table w)) w
  | CDeny i b y => set_table (QStore.Deny QStore.Good now i b y (w_table w)) w
  | CClaim n => set_table (QStore.ClaimApproved QStore.Good n ∅ (w_table w)) w
  | CMarkReplayed i => set_table (QStore.MarkReplayed now QStore.Good i (w_table w)) w
  | CMarkReplayFailed i => set_table (QStore.MarkReplayFailed QStore.Good i (w_table w)) w
  | CReturnToApproved i => set_table (QStore.ReturnToApproved QStore.Good i (w_table w)) w
  | CRecover => set_table (QStore.RecoverStuckReplays QStore.Good (w_table w)) w
  | CEmailGet u => (w_cache w !! u, w)
  | CEmailPut u em ex => (tt, mkWorld (w_table w) (<[u := (em, ex)]> (w_cache w)) (w_ledger w) (w_engine w) (w_sso w))
  | CAppend row =>
      let '(r, l) := Ledger.Append (quiet now) (w_ledger w) row in
      (LedgerLog.error_of r, mkWorld (w_table w) (w_cache w) l (w_engine w) (w_sso w))
  | CLedgerPage page => (Ok (Ledger.Page page (w_ledger w)), w)
  | CLedgerHead => (Ledger.Head None (w_ledger w), w)
  | CLedgerStream from => (Ledger.Stream from (λ rows e, (rows ++ [e], None)) no_fail (w_ledger w) [], w)
  | CVerifyChain anchor => (Ledger.VerifyChain anchor no_fail (w_ledger w), w)
  | CQueryLedger => (Ok (Ledger.Query (w_ledger w)), w)
  | CStats => (Ok (Ledger.Stats now (w_ledger w)), w)
  | CEvaluate input => (Opa.Evaluate eval (w_engine w) input, w)
  | CPolicyReload =>
      let '(e, err) := Opa.Reload modules_of prepare_empty prepare_load (w_engine w) files files in
      (err, mkWorld (w_table w) (w_cache w) (w_ledger w) e (w_sso w))
  | CPolicyVersion => (Opa.Version (w_engine w), w)
  | CPolicyReady => (Opa.Ready (w_engine w), w)
  | c =>
      let '(x, s) := SsoLog.calm_env provider random c (w_sso w) in
      (x, mkWorld (w_table w) (w_cache w) (w_ledger w) (w_engine w) s)
  end.

Abbreviation engine_step := (PolicyLog.engine_step eval modules_of prepare_empty prepare_load).

(** It answers as the stores do. *)
Lemma world_answers i c w :
  let e := mkEntry (SsoLog.st_now (w_sso w)) i (Ev c (world_env c w).1) in
  let w' := (world_env c w).2 in
  QLog.store_step id (w_table w) e (w_table w') ∧ SlackLog.cache_step (w_cache w) e (w_cache w')
  ∧ SsoLog.executes_call (w_sso w) e (w_sso w') ∧ SsoLog.st_now (w_sso w') = SsoLog.st_now (w_sso w).
Proof.
  pose proof (SsoLog.calm_answered provider random c (w_sso w)) as [A N]. destruct w as [t cache ledger engine [now at_ se]].
  destruct c; cbn in A, N |- *; unfold QLog.store_step, SlackLog.cache_step, SsoLog.executes_call; cbn;
    try (destruct (SsoLog.CreateLoginAttempt _ _ _); cbn in * );
    try (destruct (SsoLog.ConsumeLoginAttempt _ _ _); cbn in * );
    try (destruct (SsoLog.CreateSession _ _ _ _ _ _ _); cbn in * );
    try (destruct (Ledger.Append _ _ _); cbn in * ); try (destruct (Opa.Reload _ _ _ _ _ _); cbn in * );
    (split_and!; try done; try lia; eauto).
  - exists QStore.Good, new_id, now. split; [done|]. by destruct (QStore.Create _ _ _ _ _ _ _ _ _ _ _).
  - by exists None.
  - exists QStore.Good, now. by destruct (QStore.Approve _ _ _ _ _).
  - exists QStore.Good, now. by destruct (QStore.Deny _ _ _ _ _ _).
  - exists QStore.Good, ∅. eexists. split; [done|]. cbn. done.
  - exists QStore.Good, now. by destruct (QStore.MarkReplayed _ _ _ _).
  - exists QStore.Good. by destruct (QStore.MarkReplayFailed _ _ _).
  - exists QStore.Good. by destruct (QStore.ReturnToApproved _ _ _).
  - by exists QStore.Good.
Qed.

(** It keeps the ledger, and answers as the engine does. *)
Lemma world_records i c w :
  let e := mkEntry (SsoLog.st_now (w_sso w)) i (Ev c (world_env c w).1) in
  let w' := (world_env c w).2 in
  LedgerLog.ledger_step (w_ledger w) e (w_ledger w') ∧ engine_step (w_engine w) e (w_engine w').
Proof.
  destruct w as [t cache ledger engine s]. unfold LedgerLog.ledger_step, PolicyLog.engine_step. cbn [en_event].
  destruct c; cbn [world_env set_table w_ledger w_engine w_table w_cache w_sso fst snd];
    try (destruct (SsoLog.calm_env _ _ _ _)); cbn [w_ledger w_engine fst snd];
    try (split; [|by exists []]); try done; eauto.
  - destruct (Ledger.Append _ _ _) as [r l] eqn:A. cbn. split; [|by exists []].
    exists (quiet (SsoLog.st_now s)), r. by split_and!.
  - destruct (Opa.Reload _ _ _ _ _ _) as [e err] eqn:R. cbn. split; [done|]. by exists [], files, files.
  - split; [|done]. exists no_fail. split; [apply no_fail_scan|done].
Qed.

(** The state behind a log. *)
Record behind (start : Z) (e0 : Opa.Engine) (log : list entry) (w : world) : Prop := mkBehind {
  bh_table : QLog.table_after id log (w_table w);
  bh_cache : SlackLog.cache_after log (w_cache w);
  bh_sso : SsoLog.executes start log (w_sso w);
  bh_ledger : LedgerLog.ledger_after log (w_ledger w);
  bh_engine : after engine_step e0 log (w_engine w)
}.

Lemma world_run {A} start e0 log w i (p : prog A) tr a w' :
  behind start e0 log w → run world_env p w = (tr, a, w') →
  behind start e0 (log ++ map (mkEntry (SsoLog.st_now (w_sso w)) i) tr) w'
  ∧ SsoLog.st_now (w_sso w') = SsoLog.st_now (w_sso w).
Proof.
  revert log w tr. induction p as [a'|c k IH]; intros log w tr B R; cbn in R.
  - simplify_eq. by rewrite app_nil_r.
  - pose proof (world_answers i c w) as (St & Ca & Ex & N). pose proof (world_records i c w) as (Le & En).
    destruct (world_env c w) as [x w1]. cbn in St, Ca, Ex, N, Le, En.
    destruct (run _ (k x) w1) as [[tr1 a1] w2] eqn:R1. simplify_eq. destruct B as [B1 B2 B3 B4 B5].
    destruct (IH x (log ++ [mkEntry (SsoLog.st_now (w_sso w)) i (Ev c x)]) w1 tr1) as [B' N']; [|done|].
    + split; (eapply after_call; [done|done]).
    + rewrite N in B', N'. split; [|done]. cbn. by rewrite <- app_assoc in B'.
Qed.
End world.

Section example.
#[local] Existing Instance ascii_tables.
#[local] Existing Instance plain_urls.
#[local] Existing Instance QStore.plain_uuid.
#[local] Existing Instance Ingress.MCPAdapter.

Definition sample_lib : Libraries :=
  mkLibraries (λ _, "0") (λ _, "") (λ _, Ok "") (λ _, None) (λ _, "0") (λ _, "0") (λ _, 0) Server.sample_redirect id id
    SsoLog.sample_authorize (λ _, Ok Proxy.sample_target) (mkResponse 200 [] BNone).
Definition sample_config : Config.Config :=
  Config.mkConfig ":8080" "https://tools.example.com/mcp" "./policies" "postgres://db.internal/elodea" "info"
    {["agent_token_0123456789abcdef" := "bot@x.io"]} {["review_token_0123456789abcde" := "alice"]} ∅
    ["https://console.example.com"] "production" 0 0 0 0 0 0 4096 25 5 0 (QArith_base.inject_Z 10) 20 "" "" true 0 "" "svc"
    (Config.mkOIDC "" "" "" "" "" "" "" [] [] [] 0 0 "") "https://console.example.com" (Config.mkNotify "" "" "")
    (Config.mkSlack "xoxb-1" "signing" "C1" "T1" ["carol@x.io"] "") [].
Definition sample_valid : Config.Config := Config.normalise sample_config.
Definition sample_proxy : Proxy.ProxyHandler :=
  Proxy.mkHandler Proxy.sample_target "svc" true 4096 (30 * GoTime.second).

Definition sample_inbound (method path tok body : string) : Inbound :=
  mkInbound (mkRequest method path [] {["Authorization" := ["Bearer " +:+ tok]]} body None) (mkStream body None) path "" "".
Definition sample_tasks : list task :=
  [TRequest (sample_inbound "POST" "/" "agent_token_0123456789abcdef" Proxy.sample_body);
   TRequest (sample_inbound "POST" "/api/v1/quarantine/q1/approve" "review_token_0123456789abcde" ""); TReplay 0].

Abbreviation sample_final := (finalHandler sample_lib "v1" 0 sample_valid sample_proxy).

(** A bundle that holds every call. *)
Definition sample_eval (_ : list Opa.Module_) (_ : list (string * Opa.inputField)) : result (list (list any)) :=
  Ok [[AObject [("action", AString ActionQuarantine); ("rule", AString "refunds"); ("explanation", AString "held")]]].
Definition sample_env :=
  world_env sample_eval (λ q, q) (Ok []) Opa.sample_load (Opa.sample_dir "one") "q1" SsoLog.sample_token "tok".
Definition sample_start := mkWorld ∅ ∅ [] (Opa.sample_engine "one") (SsoLog.mkState 0 ∅ ∅).
Definition run_call := run sample_env (sample_final (sample_inbound "POST" "/" "agent_token_0123456789abcdef" Proxy.sample_body)) sample_start.
Definition run_approve :=
  run sample_env (sample_final (sample_inbound "POST" "/api/v1/quarantine/q1/approve" "review_token_0123456789abcde" "")) run_call.2.
Definition run_replay := run sample_env (QWorker.Run id (replayWorker sample_lib sample_valid) 0) run_approve.2.
Definition sample_log : list entry :=
  (map (mkEntry 0 0) run_call.1.1 ++ map (mkEntry 0 1) run_approve.1.1) ++ map (mkEntry 0 2) run_replay.1.1.

Abbreviation sample_state := (behind sample_eval (λ q, q) (Ok []) Opa.sample_load 0 (Opa.sample_engine "one")).

Lemma sample_behind : sample_state sample_log run_replay.2.
Proof.
  pose proof (@world_run _ _ _ sample_eval (λ q, q) (Ok []) Opa.sample_load (Opa.sample_dir "one") "q1" eq_refl SsoLog.sample_token "tok") as K.
  assert (sample_state [] sample_start) as B by (split; apply after_start).
  destruct (K _ 0 _ [] _ 0%nat _ _ _ _ B (run_eta run_call)) as [B0 N0].
  destruct (K _ 0 _ _ _ 1%nat _ _ _ _ B0 (run_eta run_approve)) as [B1 N1]. rewrite N0 in N1, B1.
  destruct (K _ 0 _ _ _ 2%nat _ _ _ _ B1 (run_eta run_replay)) as [B2 _]. rewrite N1 in B2. exact B2.
Qed.

Lemma sample_started :
  Opa.New (λ q, q) (Ok []) Opa.sample_load "policies" (Opa.sample_dir "one") (Opa.sample_dir "one") = Ok (Opa.sample_engine "one").
Proof. vm_compute. reflexivity. Qed.

Lemma deployed_interleaves : interleaves (program_of sample_lib "v1" 0 sample_valid sample_proxy) sample_tasks sample_log.
Proof.
  split.
  - intros e J. unfold sample_log in J. rewrite !elem_of_app in J.
    destruct J as [[J|J]|J]; apply list_elem_of_fmap in J as (ev & -> & _); by eexists.
  - intros i tk T. unfold sample_log. rewrite !events_of_app, !events_of_stamp.
    destruct i as [|[|[|i]]]; [..|done]; injection T as <-; cbn [Nat.eqb app]; rewrite ?app_nil_r; eexists;
      apply runs_steps, (run_runs sample_env _ _ _ _ _ (run_eta _)).
Qed.

Lemma sample_config_valid : Config.Validate false sample_config = Ok sample_valid.
Proof. vm_compute. reflexivity. Qed.

Lemma sample_wired : proxyHandler sample_lib sample_valid = Ok sample_proxy.
Proof. reflexivity. Qed.

(** The one call of the log that goes upstream, and the worker's. *)
Lemma sample_send : ∃ e out, sample_log !! 24%nat = Some e ∧ upstream_of (en_event e) = [out] ∧ en_task e = 2%nat.
Proof.
  assert ((λ e, (en_task e, length (upstream_of (en_event e)))) <$> sample_log !! 24%nat = Some (2%nat, 1%nat)) as F
    by (vm_compute; reflexivity).
  apply fmap_Some in F as (e & L & F). injection F as T U. exists e.
  destruct (upstream_of (en_event e)) as [|out [|]]; [discriminate U| |discriminate U]. exists out.
  split; [exact L|]. split; [reflexivity|symmetry; exact T].
Qed.
End example.
End World.
