(* ===== verification/EndToEnd.v ===== *)
(** * From the agent to the upstream

    The running system as a whole: one log of all calls of a deployment, with the tables
    behind it.  Whatever reaches the upstream is traced back through every component: to
    the policy decision and the ledger entry, to the agent whose token the request
    carried, and, for what had been held, to the person who approved it and how that
    person was known. *)

From S2P Require Import Prelude GoStrings GoTime Types Mcp GoUrl GoHttp Sha256 Config Ledger LedgerChain LedgerVerify LedgerSpec Effects Interleave LedgerLog Opa PolicyLog Auth Sso SsoLog ProxyIngress Proxy QStore QLog QHandler GoMux SlackApp SlackLog Server QWorker Deployment World.
From stdpp Require Import base tactics strings list gmap.
From Stdlib Require Import ZArith Lia.

Local Open Scope Z_scope.

Import GoHttp GoMux Auth Deployment World.

Module EndToEnd.

Section system.
Context `{UnicodeTables} `{UrlLib} `{UuidLib}.
#[local] Existing Instance Ingress.MCPAdapter.
Variable lib : Libraries.
Variables (version : string) (startTime : Z).
Variable jsonb : string → string.
Variable cfg : Config.Config.
Variable ph : Proxy.ProxyHandler.
Variable tasks : list task.

Abbreviation program := (program_of lib version startTime cfg ph).
Abbreviation allow_origin := (Server.allowOrigin (httpDeps lib version startTime cfg ph)).

(** ** What is claimed of a request *)

(** A request with an agent's token, which the agent's limiter let pass, was judged: policy
    answered [d] for the invocation parsed from its body, and the ledger has the entry. *)
Definition judged (x : Inbound) (agent : string) (inv : Invocation) (d : ProxyDecision) (pre : list event) : Prop :=
  ∃ token hist rest,
    header_get (rq_Header (in_req x)) "Authorization" = "Bearer " +:+ token
    ∧ Config.cf_APIKeys cfg !! token = Some agent
    ∧ pre = [Ev CReady true; Ev (CAllow agent) true] ++ hist ++ rest
    ∧ Proxy.decided (agent_request x (mkIdentity agent RoleAgent)) (in_body x) inv d hist.

(** A signed-in person: the cookie of the request names a session that a callback of the
    identity provider opened for [who], which had not expired and not been signed out. *)
Definition signed_in (l : list entry) (i : nat) (x : Inbound) (who : string) : Prop :=
  ∃ s value l1 e l2 l0 c l3 xc subject role expires,
    ssoService cfg = Some s ∧ header_get (rq_Header (in_req x)) "Authorization" = ""
    ∧ csrf_safe allow_origin (in_req x)
    ∧ request_cookie (rq_Header (in_req x)) (Sso.cookieName s) = Some value
    ∧ l = l1 ++ e :: l2 ∧ en_task e = i ∧ l1 = l0 ++ c :: l3
    ∧ tasks !! en_task c = Some (TRequest xc)
    ∧ SsoLog.granted s (in_req xc) (events_of (en_task c) l0) (Sso.hashToken value) subject who role expires
    ∧ (role = RoleReviewer ∨ role = RoleAdmin) ∧ en_at e < expires
    ∧ ∀ r, r ∈ l3 → SsoLog.revokes (Sso.hashToken value) (en_event r) = false.

(** A click in Slack on the button that approves [id], by a listed reviewer. *)
Definition clicked (l : list entry) (i : nat) (x : Inbound) (id who : string) : Prop :=
  ∃ a now u act rest,
    slackApp cfg = Some a ∧ Ev CNow now ∈ events_of i l ∧ SlackApp.signed_by_slack a (in_req x) (in_body x) now
    ∧ SlackApp.read_interaction (bs_bytes (in_body x)) = Some u
    ∧ (SlackApp.sc_TeamID (SlackApp.app_cfg a) = "" ∨ SlackApp.in_Team u = SlackApp.sc_TeamID (SlackApp.app_cfg a))
    ∧ GoDecode.slice_list (SlackApp.in_Actions u) = act :: rest
    ∧ SlackApp.ac_ActionID act = SlackApp.actionApprove ∧ SlackApp.ac_Value act = id
    ∧ who ∈ SlackApp.app_reviewers a ∧ SlackLog.vouched (lib_decode_message lib) a l i (SlackApp.in_User u) who.

(** A POST on the path of the review API that approves [id]. *)
Definition requests_approval (x : Inbound) (id : string) : Prop :=
  rq_Method (in_req x) = "POST"
  ∧ QHandler.asks (trim_prefix (rq_Path (in_req x)) "/api/v1/quarantine") QHandler.Approval id.

(** How a request that approves [id] as [who] proved that it may. *)
Inductive entitled (l : list entry) (i : nat) (x : Inbound) (id who : string) : Prop :=
  | by_token token :
      requests_approval x id →
      header_get (rq_Header (in_req x)) "Authorization" = "Bearer " +:+ token →
      Config.cf_ReviewerAPIKeys cfg !! token = Some who ∨ Config.cf_AdminAPIKeys cfg !! token = Some who →
      entitled l i x id who
  | by_session : requests_approval x id → signed_in l i x who → entitled l i x id who
  | by_click : clicked l i x id who → entitled l i x id who.

(** ** The parts of the trace *)

(** [out] is the call of an agent that policy allowed. *)
Definition allowed (l : list entry) (e : entry) (out : OutRequest) : Prop :=
  ∃ x agent inv d, tasks !! en_task e = Some (TRequest x) ∧ judged x agent inv d (events_of (en_task e) l)
    ∧ pd_Action d = ActionAllow
    ∧ out = Proxy.outbound ph (agent_request x (mkIdentity agent RoleAgent)) (bs_bytes (in_body x)).

(** [item] is the call of an agent that policy quarantined, as the agent made it. *)
Definition held (l : list entry) (c : entry) (item : QuarantineEntry) : Prop :=
  ∃ x inv d, tasks !! en_task c = Some (TRequest x) ∧ judged x (qe_AgentID item) inv d (events_of (en_task c) l)
    ∧ pd_Action d = ActionQuarantine ∧ qe_Payload item = bs_bytes (in_body x)
    ∧ qe_RequestHeaders item
      = jsonb (Mcp.marshal_header (Mcp.CaptureReplayHeaders (Mcp.CaptureReplayHeaders (rq_Header (in_req x))))).

(** [item] was approved by the person it names. *)
Definition approved (l : list entry) (a : entry) (item : QuarantineEntry) : Prop :=
  ∃ x id y, tasks !! en_task a = Some (TRequest x) ∧ en_event a = Ev (CApprove id (qe_ResolvedBy item)) y
    ∧ uuid_Parse id = Some (qe_ID item) ∧ entitled l (en_task a) x id (qe_ResolvedBy item).

(** [out] is the replay of a held call: held, then approved, then claimed, then checked
    against current policy and announced in the ledger. *)
Definition replayed (l : list entry) (e : entry) (out : OutRequest) : Prop :=
  ∃ ticks item n es l0 c l1 a l2 cl l3 p1 p2,
    tasks !! en_task e = Some (TReplay ticks) ∧ l = (l0 ++ c :: l1 ++ a :: l2) ++ cl :: l3
    ∧ en_task cl = en_task e ∧ en_event cl = Ev (CClaim n) (Ok es) ∧ item ∈ es
    ∧ held l0 c item ∧ approved (l0 ++ c :: l1) a item
    ∧ events_of (en_task e) l3 = p1 ++ p2 ∧ upstream p2 = []
    ∧ QWorker.rechecked (lib_unmarshal_message lib) (replayWorker lib cfg) item p2
    ∧ appended p2 = [QWorker.replay_entry item (QWorker.approved_by item) "replay_started"]
    ∧ out_Body out = qe_Payload item ∧ out_Header out !! "X-Elodea-Agent" = Some [qe_AgentID item]
    ∧ out_Header out !! "X-Elodea-Approved-By" = Some [QWorker.approved_by item]
    ∧ out_Header out !! "Idempotency-Key" = Some ["kiterail-quarantine-" +:+ qe_ID item].

(** ** Who makes which call *)

Hypothesis wired : proxyHandler lib cfg = Ok ph.
Hypothesis disjoint : Config.disjoint_tokens cfg.
Variable log : list entry.
Hypothesis I : interleaves program tasks log.

Abbreviation reaches := (reach lib version startTime cfg ph).

(** A call that no worker and no background loop makes is a request's. *)
Lemma request_call l1 e l2 c y :
  log = l1 ++ e :: l2 → en_event e = Ev c y → ¬ passive c → ¬ QWorker.worker_call c →
  (∀ s retries ticks pre, ¬ SsoLog.call_guard s (SsoLog.TRun retries ticks) pre c) →
  ∃ x, tasks !! en_task e = Some (TRequest x) ∧ reaches x (events_of (en_task e) l1) c y.
Proof.
  intros E Ee P W S. destruct (calls_accounted lib version startTime cfg ph wired _ _ _ _ _ I E) as (tk & T & C).
  rewrite Ee in C. destruct tk as [x|ticks|ticks|retries ticks|n|]; cbn in C; [by exists x| | | | |].
  - by destruct C.
  - done.
  - destruct C as [s C]. by destruct (S s retries ticks (events_of (en_task e) l1)).
  - done.
  - done.
Qed.

Lemma slack_wired a : slackApp cfg = Some a → SlackApp.app_decider a = SlackApp.quarantine_decider true.
Proof. unfold slackApp. destruct (Config.Slack_Enabled _); [|done]. by intros [= <-]. Qed.

Lemma slack_calls a x h c y post resp :
  slackApp cfg = Some a →
  runs (SlackApp.interact (lib_decode_message lib) a (in_req x) (in_body x)) (h ++ Ev c y :: post) resp → SlackLog.slack_call c.
Proof.
  intros A R. refine (only_runs _ _ _ _ _ _ (SlackLog.interact_calls _ _ true _ _ (slack_wired a A)) R _). apply elem_of_app. right. by left.
Qed.

Lemma agent_judged x token id pre inv d hist rest :
  header_get (rq_Header (in_req x)) "Authorization" = "Bearer " +:+ token →
  Config.identities cfg !! token = Some id → id_Role id = RoleAgent →
  pre = [Ev CReady true; Ev (CAllow (id_ID id)) true] ++ hist ++ rest →
  Proxy.decided (agent_request x id) (in_body x) inv d hist →
  judged x (id_ID id) inv d pre ∧ id = mkIdentity (id_ID id) RoleAgent.
Proof.
  intros A L R E D. destruct id as [agent role]. cbn in R. subst role. split; [|done].
  apply (Config.identities_spec cfg) in L as [[_ L]|[[? _]|[? _]]]; [|done..]. by exists token, hist, rest.
Qed.

(** What was held. *)
Lemma created_held l1 e l2 agent tool payload headers rule explanation y :
  log = l1 ++ e :: l2 → en_event e = Ev (CCreate agent tool payload headers rule explanation) y →
  ∃ x inv d, tasks !! en_task e = Some (TRequest x) ∧ judged x agent inv d (events_of (en_task e) l1)
    ∧ pd_Action d = ActionQuarantine ∧ payload = bs_bytes (in_body x)
    ∧ headers = Mcp.CaptureReplayHeaders (rq_Header (in_req x)).
Proof.
  intros E Ee. destruct (request_call _ _ _ _ _ E Ee) as (x & T & R); [by intros []..|by intros ? ? ? ? []|].
  destruct R as [[]|s tk _ _ []|a h post resp A _ R|id gate h _ _ _ []|token id h Ep A L Ro G]; [by apply (slack_calls _ _ _ _ _ _ _ A) in R|].
  destruct G as (_ & inv & d & D & Q & -> & _ & -> & -> & _).
  destruct (agent_judged x token id (events_of (en_task e) l1) inv d h [] A L Ro) as [J Ei]; [by rewrite app_nil_r|done|].
  exists x, inv, d. by split_and!.
Qed.

(** What was sent on at once. *)
Lemma forwarded_allowed l1 e l2 out y :
  log = l1 ++ e :: l2 → en_event e = Ev (CForward out) y → allowed l1 e out.
Proof.
  intros E Ee. destruct (request_call _ _ _ _ _ E Ee) as (x & T & R); [by intros []..|by intros ? ? ? ? []|].
  destruct R as [[]|s tk _ _ []|a h post resp A _ R|id gate h _ _ _ []|token id h Ep A L Ro G]; [by apply (slack_calls _ _ _ _ _ _ _ A) in R|].
  destruct G as (-> & _ & inv & d & n & fields & z & hist & -> & D & Q).
  destruct (agent_judged x token id _ inv d hist _ A L Ro Ep D) as [J Ei].
  exists x, (id_ID id), inv, d. rewrite <- Ei. by split_and!.
Qed.

(** Who opens sessions. *)
Lemma session_granted s l1 e l2 h subject email role expires y :
  ssoService cfg = Some s → log = l1 ++ e :: l2 → en_event e = Ev (CCreateSession h subject email role expires) y →
  ∃ x, tasks !! en_task e = Some (TRequest x)
    ∧ SsoLog.granted s (in_req x) (events_of (en_task e) l1) h subject email role expires.
Proof.
  intros S E Ee. destruct (request_call _ _ _ _ _ E Ee) as (x & T & R); [by intros []..|by intros s' r' t' pre (r & ? & _)|].
  exists x. split; [done|].
  destruct R as [[]|s' tk S' K G|a h' post resp A _ R|id gate h' _ _ _ []|token id h' _ _ _ _ []];
    [|by apply (slack_calls _ _ _ _ _ _ _ A) in R].
  destruct G as (r & -> & G). unfold sso_task in K. assert (s' = s) as -> by congruence.
  rewrite !elem_of_cons in K. destruct K as [?|[[= ->]|[?|[]%not_elem_of_nil]]]; done.
Qed.

(** What the email cache holds was put there by the app. *)
Lemma puts_guarded a : slackApp cfg = Some a → SlackLog.puts_guarded (lib_decode_message lib) a log.
Proof.
  intros A l1 e l2 E. destruct (en_event e) as [c y] eqn:Ee. cbn [ev_cmd]. destruct c; try done.
  destruct (request_call _ _ _ _ _ E Ee) as (x & T & R); [by intros []..|by intros ? ? ? ? []|].
  destruct R as [[]|s tk _ _ []|a' h post resp A' Ep R|id gate h _ _ _ []|token id h _ _ _ _ []].
  assert (a' = a) as -> by congruence. rewrite Ep.
  assert (SlackLog.put_guard (lib_decode_message lib) a h (CEmailPut user email expires)) as (pre & v & now & -> & V & X).
  { exact (safe_runs _ _ [] _ _ _ _ _ _ (SlackLog.interact_safe _ _ true _ _ (slack_wired a A)) R eq_refl). }
  by exists (Ev CReady true :: pre), v, now.
Qed.

(** ** Who approves *)

Variables (cache : SlackLog.emails) (start : Z) (st : SsoLog.state) (t : QStore.table).
Hypothesis cached : SlackLog.cache_after log cache.
Hypothesis executed : SsoLog.executes start log st.
Hypothesis stored : QLog.table_after jsonb log t.

(** A session check that succeeded. *)
Lemma session_signed_in l1 l2 i x s gate h id :
  log = l1 ++ l2 → ssoService cfg = Some s → events_of i l1 = Ev CReady true :: gate ++ h →
  runs (Sso.AuthenticateSession s (in_req x)) gate (Some id) →
  header_get (rq_Header (in_req x)) "Authorization" = "" → csrf_safe allow_origin (in_req x) →
  signed_in l1 i x (id_ID id).
Proof.
  intros E S Ei R A C. destruct (SsoLog.runs_AuthenticateSession _ _ _ _ R) as (value & now & row & rest & V & -> & -> & Ro).
  rewrite <- !app_comm_cons in Ei.
  destruct (events_of_split i l1 [Ev CReady true; Ev CNow now] _ _ Ei) as (la & g & lb & -> & _ & Eg & Tg).
  rewrite <- app_assoc in E.
  destruct (SsoLog.session_found _ _ _ _ _ _ _ _ _ executed E Eg) as (l0 & c & l3 & y & -> & Ec & Ex & _ & Rv & _).
  rewrite <- app_assoc in E. destruct (session_granted s _ _ _ _ _ _ _ _ _ S E Ec) as (xc & Tc & G).
  exists s, value, (l0 ++ c :: l3), g, lb, l0, c, l3, xc, (gs_Subject row), (gs_Role row), (gs_ExpiresAt row). by split_and!.
Qed.

(** An approval from a click. *)
Lemma click_clicked l1 e l2 x a h id by_ y post resp :
  log = l1 ++ e :: l2 → slackApp cfg = Some a → events_of (en_task e) l1 = Ev CReady true :: h →
  runs (SlackApp.interact (lib_decode_message lib) a (in_req x) (in_body x)) (h ++ Ev (CApprove id by_) y :: post) resp →
  clicked l1 (en_task e) x id by_.
Proof.
  intros E A Ei R.
  destruct (SlackLog.approved_click _ a true _ _ _ _ _ _ _ _ _ (slack_wired a A) R eq_refl)
    as (now & tr1 & tr2 & u & act & rest & -> & Si & P & Te & Ac & K & V & M & Cf).
  exists a, now, u, act, rest. split_and!; try done; [rewrite Ei; right; by left|].
  destruct (events_of_split_app (en_task e) l1 ([Ev CReady true; Ev CNow now] ++ tr1) tr2) as (la & lb & -> & Ea & _);
    [by rewrite Ei|].
  apply SlackLog.vouched_app. rewrite <- app_assoc in E.
  exact (SlackLog.confirmed_vouched _ _ _ _ _ _ _ _ _ _ _ (puts_guarded a A) cached E Ea Cf).
Qed.

Lemma approval_entitled l1 e l2 id by_ y :
  log = l1 ++ e :: l2 → en_event e = Ev (CApprove id by_) y →
  ∃ x, tasks !! en_task e = Some (TRequest x) ∧ entitled l1 (en_task e) x id by_.
Proof.
  intros E Ee. destruct (request_call _ _ _ _ _ E Ee) as (x & T & R); [by intros []..|by intros ? ? ? ? []|].
  exists x. split; [done|].
  destruct R as [[]|s tk _ _ []|a h post resp A Ep R|ident gate h Ep A Ro G|token ident h _ _ _ _ []].
  - apply by_click. by eapply click_clicked.
  - destruct G as (M & Rid & As & _). assert (requests_approval x id) as Rq by (by split).
    assert (by_ = id_ID ident) as ->.
    { unfold QHandler.reviewerIdentity in Rid. cbn in Rid. destruct (negb _ && negb _); [done|]. by injection Rid. }
    destruct A as [[_ (token & At & L)]|(authenticate & S & R & At & C)].
    + apply (by_token _ _ _ _ _ token Rq At). destruct ident as [who role]. cbn in *.
      apply (Config.identities_spec cfg) in L as [[-> _]|[[_ L]|[_ L]]]; [by destruct Ro|by left|by right|done].
    + unfold Server.sessions, httpDeps in S. cbn in S. destruct (ssoService cfg) as [s|] eqn:Sv; [|done].
      injection S as <-. apply by_session; [done|]. by eapply session_signed_in.
Qed.

(** ** What is replayed *)

Lemma recheck_wired recheck : QWorker.wk_recheck (replayWorker lib cfg) = Some recheck → QWorker.only_evaluates recheck.
Proof. intros [= <-]. apply QWorker.NewPolicyRecheck_only_evaluates. Qed.

(** A send is the worker's, for an item it claimed, checked and announced. *)
Lemma sent_checked l1 e l2 out y :
  log = l1 ++ e :: l2 → en_event e = Ev (CSend out) y →
  ∃ ticks item n es lc cl l3 p1 p2 url hs,
    tasks !! en_task e = Some (TReplay ticks) ∧ l1 = lc ++ cl :: l3 ∧ en_task cl = en_task e
    ∧ en_event cl = Ev (CClaim n) (Ok es) ∧ item ∈ es ∧ events_of (en_task e) l3 = p1 ++ p2 ∧ upstream p2 = []
    ∧ QWorker.rechecked (lib_unmarshal_message lib) (replayWorker lib cfg) item p2
    ∧ appended p2 = [QWorker.replay_entry item (QWorker.approved_by item) "replay_started"]
    ∧ out = QWorker.replay_request (replayWorker lib cfg) item (QWorker.approved_by item) url hs.
Proof.
  intros E Ee. destruct (calls_accounted lib version startTime cfg ph wired _ _ _ _ _ I E) as (tk & T & C). rewrite Ee in C.
  assert (∃ ticks post u, tk = TReplay ticks ∧ runs (QWorker.Run (lib_unmarshal_message lib) (replayWorker lib cfg) ticks)
    (events_of (en_task e) l1 ++ Ev (CSend out) y :: post) u) as (ticks & post & u & -> & R).
  { destruct tk as [x|ticks|ticks|retries ticks|n|]; cbn in C; [|destruct C as [_ (post & u & R)]; eauto|done|by destruct C|done|done].
    destruct C as [[]|s tk _ _ []|a h post resp A Ep R|ident gate h Ep A Ro []|token ident h _ _ _ _ []].
    by apply (slack_calls _ _ _ _ _ _ _ A) in R. }
  destruct (QWorker.runs_Run_send _ _ _ _ _ _ _ _ _ R eq_refl) as (p0 & n & es & p1 & item & p2 & q & u' & Ei & J & Rp).
  destruct (events_of_around _ _ _ _ _ Ei) as (lc & cl & l3 & -> & _ & Ecl & Tcl & E3).
  destruct (QWorker.sent_split _ _ _ _ _ _ _ _ _ recheck_wired Rp eq_refl)
    as (t0 & url & hs & -> & U & _ & Ap & _ & _ & K & _ & _ & ->).
  exists ticks, item, n, es, lc, cl, l3, p1, (t0 ++ QWorker.started (replayWorker lib cfg) item (QWorker.approved_by item)), url, hs.
  split_and!; try done.
  - rewrite upstream_app, U. done.
  - intros r Hr. destruct (K r Hr) as (s & t' & d' & rest & -> & Rest). eexists s, t', d', _. by rewrite <- app_assoc.
  - rewrite appended_app, Ap. done.
Qed.

Lemma sent_replayed l1 e l2 out y : log = l1 ++ e :: l2 → en_event e = Ev (CSend out) y → replayed l1 e out.
Proof.
  intros E Ee. destruct (sent_checked _ _ _ _ _ E Ee)
    as (ticks & item & n & es & lc & cl & l3 & p1 & p2 & url & hs & T & -> & Tcl & Ecl & J & E3 & U & K & Ap & ->).
  rewrite <- app_assoc in E. destruct (QLog.claimed_traced _ _ _ _ _ _ _ _ _ stored E Ecl J)
    as (l0 & c & l4 & a & l5 & tool & headers & rule & explanation & id & by_ & z & w & -> & Ec & Hh & Ea & P & Rb & _).
  assert (log = l0 ++ c :: (l4 ++ a :: l5) ++ cl :: l3 ++ e :: l2) as Elc by (rewrite E; by simplify_list_eq).
  assert (log = (l0 ++ c :: l4) ++ a :: l5 ++ cl :: l3 ++ e :: l2) as Ela by (rewrite E; by simplify_list_eq).
  destruct (created_held _ _ _ _ _ _ _ _ _ _ Elc Ec) as (xc & inv & d & Tc & Jc & Q & Bc & ->).
  destruct (approval_entitled _ _ _ _ _ _ Ela Ea) as (xa & Ta & Ha).
  exists ticks, item, n, es, l0, c, l4, a, l5, cl, l3, p1, p2.
  split_and!; try done; try (apply QWorker.replay_header; set_solver).
  - by exists xc, inv, d.
  - exists xa, id, w. rewrite Rb. by split_and!.
Qed.

(** ** What may run *)

(** A row that may be replayed, or has been: who called, and who approved. *)
Lemma live_traced id q :
  t !! id = Some q → q_Status q ∈ QLog.live →
  ∃ l0 c l1 a l2, log = l0 ++ c :: l1 ++ a :: l2
    ∧ held l0 c (ToQuarantineEntry q) ∧ approved (l0 ++ c :: l1) a (ToQuarantineEntry q).
Proof.
  intros L V. destruct (QLog.table_origins _ _ _ stored) as [W O]. destruct (O _ _ L) as (l0 & c & l1 & E & C & A).
  destruct (A V) as (l2 & a & l3 & -> & Ap).
  destruct (en_event c) as [cc y] eqn:Ec. destruct cc; try done. destruct C as (<- & _ & <- & _ & _ & Hh).
  destruct (en_event a) as [ac z] eqn:Ea. destruct ac; try done. destruct Ap as [P R].
  destruct (created_held _ _ _ _ _ _ _ _ _ _ E Ec) as (xc & inv & d & Tc & Jc & Q & Bc & ->).
  assert (log = (l0 ++ c :: l2) ++ a :: l3) as Ela by (by rewrite E, <- app_assoc).
  destruct (approval_entitled _ _ _ _ _ _ Ela Ea) as (xa & Ta & Ha).
  assert (default "" (q_ResolvedBy q) = approvedBy) as Rb.
  { rewrite R. unfold QStore.null_string. by destruct (String.eqb_spec approvedBy "") as [-> |]. }
  exists l0, c, l2, a, l3. split_and!; [done|by exists xc, inv, d|].
  exists xa, id0, z. cbn. rewrite Rb, (W _ _ L). by split_and!.
Qed.

(** Different people: no token approves an agent's own call, and a click does only for a
    reviewer who is written with surrounding space in the configuration. *)
Definition padded_reviewer (who : string) : Prop :=
  ∃ r, r ∈ Config.sl_Reviewers (Config.cf_Slack cfg) ∧ trim_space r ≠ r ∧ who = to_lower (trim_space r).

Lemma entitled_other allow_dev l i x id who agent token :
  Config.acceptable allow_dev cfg → Config.cf_APIKeys cfg !! token = Some agent → entitled l i x id who →
  who ≠ agent ∨ clicked l i x id who ∧ (who ≠ to_lower agent ∨ padded_reviewer who) ∨ signed_in l i x who.
Proof.
  intros Ac K [tok _ A L|_ S|Cl]; [left|by right; right|right; left].
  - intros ->. by apply (Config.acc_duties _ _ Ac token tok agent K).
  - split; [done|]. destruct Cl as (a & now & u & act & rest & Sa & _ & _ & _ & _ & _ & _ & _ & M & _).
    unfold slackApp in Sa. destruct (Config.Slack_Enabled _) eqn:En; [|done]. injection Sa as <-. cbn in M.
    apply list_elem_of_filter in M as [_ M]. apply list_elem_of_fmap in M as (r & -> & M).
    destruct (decide (trim_space r = r)) as [Tr|Tr]; [left|right; by exists r]. rewrite Tr.
    assert (Config.Slack_anySet (Config.cf_Slack cfg) = true) as Any.
    { unfold Config.Slack_Enabled in En. unfold Config.Slack_anySet. by rewrite En. }
    exact (Config.sa_duties _ _ (Config.acc_slack _ _ Ac Any) r token agent M K).
Qed.
End system.

(** ** What the ledger shows *)

Section audit.
Context `{UnicodeTables} `{UrlLib} `{UuidLib} {query : Type}.
#[local] Existing Instance Ingress.MCPAdapter.
Variable lib : Libraries.
Variables (version : string) (startTime : Z).
Variable cfg : Config.Config.
Variable ph : Proxy.ProxyHandler.
Variable eval : query → list (string * Opa.inputField) → result (list (list any)).
Variable modules_of : query → list Opa.Module_.
Variable prepare_empty : result query.
Variable prepare_load : string → Opa.policy_dir → result query.

(** A published bundle answered [d] for the call in [body], made by [agent]. *)
Definition ruled (agent body : string) (d : ProxyDecision) : Prop :=
  ∃ headers inv now, Parse headers body = inl inv
    ∧ PolicyLog.attributed eval modules_of prepare_empty prepare_load (Proxy.eval_input inv agent now) d.

(** The ledger accounts for [out]: it has a row with the hash of its body, for the ruling
    that let it pass or for the person whose approval it carries. *)
Definition audited (t : list LedgerEntry) (out : OutRequest) : Prop :=
  ∃ row agent d, row ∈ t ∧ le_PayloadHash row = Sha256.hex256 (out_Body out)
    ∧ out_Header out !! "X-Elodea-Agent" = Some [agent] ∧ ruled agent (out_Body out) d
    ∧ (le_Decision row = ActionAllow ∧ pd_Action d = ActionAllow ∧ le_Agent row = agent
         ∧ le_PolicyRule row = pd_Rule d ∧ le_PolicyVersion row = pd_PolicyVersion d
       ∨ le_Decision row = "replay_started" ∧ pd_Action d ≠ ActionDeny
         ∧ out_Header out !! "X-Elodea-Approved-By" = Some [le_Agent row]
         ∧ out_Header out !! "Idempotency-Key" = Some ["kiterail-quarantine-" +:+ le_RequestID row]).

Variables (policyDir : string) (seen0 loaded0 : Opa.policy_dir) (e0 eng : Opa.Engine (query := query)).
Hypothesis started : Opa.New modules_of prepare_empty prepare_load policyDir seen0 loaded0 = Ok e0.
Variables (log : list entry) (t : list LedgerEntry).
Hypothesis engine_behind : after (PolicyLog.engine_step eval modules_of prepare_empty prepare_load) e0 log eng.
Hypothesis ledger_behind : LedgerLog.ledger_after log t.
Hypothesis bounded : Z.of_nat (length log) < max_int64.

(** What a task was told by the engine and by the ledger. *)
Lemma told_ruled i inv headers agent now body d :
  Ev (CEvaluate (Proxy.eval_input inv agent now)) (Ok d) ∈ events_of i log → Parse headers body = inl inv → ruled agent body d.
Proof.
  intros J P. apply events_of_elem in J as (c & J & _ & E). apply list_elem_of_split in J as (l1 & l2 & L).
  exists headers, inv, now. split; [done|]. by eapply PolicyLog.evaluation_attributed.
Qed.

Lemma told_recorded i row : Ev (CAppend row) None ∈ events_of i log → LedgerLog.recorded row t.
Proof.
  intros J. apply events_of_elem in J as (c & J & _ & E). apply list_elem_of_split in J as (l1 & l2 & L).
  by eapply LedgerLog.ledger_records.
Qed.

Lemma allowed_audited tasks e out : allowed cfg ph tasks log e out → audited t out.
Proof.
  intros (x & agent & inv & d & _ & (token & hist & rest & _ & _ & Ep & (P & now & n1 & fields & y & tm & ->)) & A & ->).
  cbn zeta in Ep. destruct (told_recorded (en_task e) (Proxy.decision_entry tm (Proxy.eval_input inv agent now) inv d (bs_bytes (in_body x))))
    as (row & J & Ra & _ & Rd & Rr & Rh & _ & Rv); [rewrite Ep; set_solver|].
  exists row, agent, d. split_and!; [done..|apply Proxy.outbound_agent| |left].
  - eapply (told_ruled (en_task e) inv _ agent now); [|exact P]. rewrite Ep. set_solver.
  - cbn in *. by rewrite Rd.
Qed.

Lemma checked_audited i item p0 p1 p2 url hs :
  events_of i log = p0 ++ p1 ++ p2 →
  QWorker.rechecked (lib_unmarshal_message lib) (replayWorker lib cfg) item p2 →
  appended p2 = [QWorker.replay_entry item (QWorker.approved_by item) "replay_started"] →
  audited t (QWorker.replay_request (replayWorker lib cfg) item (QWorker.approved_by item) url hs).
Proof.
  intros E K A. destruct (K _ eq_refl) as (stored & tr & d & rest & -> & _ & R & N).
  destruct (told_recorded i (QWorker.replay_entry item (QWorker.approved_by item) "replay_started"))
    as (row & J & Ra & _ & Rd & _ & Rh & Ri & _).
  { rewrite E, !elem_of_app. do 2 right. apply elem_of_app, appended_elem. rewrite A. by left. }
  unfold Proxy.NewPolicyRecheck in R. destruct (Parse stored (qe_Payload item)) as [inv|ierr] eqn:P; [|by destruct R].
  destruct R as (now & tr' & -> & y & tr2 & -> & R). destruct R as [_ R]. cbn in R. subst y.
  exists row, (qe_AgentID item), d. split_and!; [done..|apply QWorker.replay_header; set_solver| |right].
  - eapply (told_ruled i inv stored _ now); [|exact P]. rewrite E. set_solver.
  - cbn in Ra, Rd, Ri. rewrite Rd, Ra, Ri. split_and!; [done..| |]; apply QWorker.replay_header; set_solver.
Qed.
End audit.

(** ** The end-to-end guarantees *)

Section theorems.
Context `{UnicodeTables} `{UrlLib} `{UuidLib}.

Lemma validated allow_dev c cfg : Config.Validate allow_dev c = Ok cfg → Config.acceptable allow_dev cfg.
Proof.
  intros [A ->]%Config.Validate_ok. by apply Config.acceptable_normalise.
Qed.

(** C1: whatever reaches the upstream is accounted for.  In a process wired from a validated
    configuration, however its requests, its replay and notification workers and its
    background loops interleave, and whatever the stores lose, a request that goes upstream
    is one of two things.  It is the call of an agent whose token it carried, whose limiter
    let it pass, for which policy answered allow and the ledger took the entry first.  Or it
    is the replay of a call that such an agent had made and policy had quarantined, with the
    same body under the same agent's name, which was then approved by a person entitled to:
    by a POST on that item's approve path with a reviewer's or admin's token or with a
    session that the identity provider's callback opened and nobody signed out, or with a
    signed click of a listed reviewer in Slack on the button of that item; it
    was claimed after that, checked again by policy, and announced in the ledger. *)
Theorem upstream_accounted (lib : Libraries) (version : string) (startTime : Z) (jsonb : string → string) (allow_dev : bool)
    (c cfg : Config.Config) (ph : Proxy.ProxyHandler) (tasks : list task) (log : list entry) (t : QStore.table)
    (cache : SlackLog.emails) (start : Z) (st : SsoLog.state) (l1 : list entry) (e : entry) (l2 : list entry) (out : OutRequest) :
  Config.Validate allow_dev c = Ok cfg → proxyHandler lib cfg = Ok ph →
  interleaves (program_of lib version startTime cfg ph) tasks log →
  QLog.table_after jsonb log t → SlackLog.cache_after log cache → SsoLog.executes start log st →
  log = l1 ++ e :: l2 → upstream_of (en_event e) = [out] →
  allowed cfg ph tasks l1 e out ∨ replayed lib version startTime jsonb cfg ph tasks l1 e out.
Proof.
  intros V W I F C X E U. pose proof (Config.acc_tokens _ _ (validated _ _ _ V)) as D.
  destruct (en_event e) as [cc y] eqn:Ee. destruct cc; try done; cbn in U; injection U as ->.
  - left. by eapply forwarded_allowed.
  - right. by eapply sent_replayed.
Qed.

(** C2: four eyes.  In the same setting, every quarantined item that may run, is running or has
    run was held for an agent as its call came, and was approved later by a person entitled
    to, who is not that agent: the approver's token is of another name, and a reviewer who
    clicked in Slack has another name whatever the case.  There are two exceptions, which
    validation does not exclude: a session of the identity provider may carry the agent's
    name, and so may a Slack reviewer whose entry in the configuration has surrounding
    space, which the Slack app trims. *)
Theorem four_eyes (lib : Libraries) (version : string) (startTime : Z) (jsonb : string → string) (allow_dev : bool)
    (c cfg : Config.Config) (ph : Proxy.ProxyHandler) (tasks : list task) (log : list entry) (t : QStore.table)
    (cache : SlackLog.emails) (start : Z) (st : SsoLog.state) (id : string) (q : Quarantine) :
  Config.Validate allow_dev c = Ok cfg → proxyHandler lib cfg = Ok ph →
  interleaves (program_of lib version startTime cfg ph) tasks log →
  QLog.table_after jsonb log t → SlackLog.cache_after log cache → SsoLog.executes start log st →
  t !! id = Some q → q_Status q ∈ QLog.live →
  ∃ l0 cr l1 ap l2 x id' who, log = l0 ++ cr :: l1 ++ ap :: l2
    ∧ held jsonb cfg tasks l0 cr (ToQuarantineEntry q)
    ∧ tasks !! en_task ap = Some (TRequest x) ∧ (∃ y, en_event ap = Ev (CApprove id' who) y)
    ∧ uuid_Parse id' = Some (q_ID q) ∧ default "" (q_ResolvedBy q) = who
    ∧ entitled lib version startTime cfg ph tasks (l0 ++ cr :: l1) (en_task ap) x id' who
    ∧ (who ≠ q_AgentID q
       ∨ clicked lib cfg (l0 ++ cr :: l1) (en_task ap) x id' who
         ∧ (who ≠ to_lower (q_AgentID q) ∨ padded_reviewer cfg who)
       ∨ signed_in lib version startTime cfg ph tasks (l0 ++ cr :: l1) (en_task ap) x who).
Proof.
  intros V W I F C X L S. pose proof (validated _ _ _ V) as Ac. pose proof (Config.acc_tokens _ _ Ac) as D.
  destruct (live_traced lib version startTime jsonb cfg ph tasks W D log I cache start st t C X F id q L S)
    as (l0 & cr & l1 & ap & l2 & E & Hd & (x & id' & y & T & Ea & P & En)).
  exists l0, cr, l1, ap, l2, x, id', (default "" (q_ResolvedBy q)). split_and!; try done; [by exists y|].
  destruct Hd as (xc & inv & d & _ & (token & _ & _ & _ & K & _) & _). by eapply entitled_other.
Qed.
(** C3: the ledger tells before the upstream is told.  In a process wired from a
    validated configuration, with a policy engine that started, however tasks interleave,
    whatever appends fail and whenever the bundle changes: when a request goes upstream, the ledger as
    it stands is an unbroken chain that verification accepts, and it has a row with the
    SHA-256 of exactly the body that is sent.  For a call let pass the row says allow and
    names the agent of the request, and its rule and version are those of the answer that a
    compiled, published bundle gave for the call in this body; for a replay the row says
    replay_started and carries the approver's name and the item's identifier, as the
    request does, and a published bundle did not deny the call in this body. *)
Theorem upstream_audited {query} (eval : query → list (string * Opa.inputField) → result (list (list any)))
    (modules_of : query → list Opa.Module_) (prepare_empty : result query) (prepare_load : string → Opa.policy_dir → result query)
    (policyDir : string) (seen0 loaded0 : Opa.policy_dir) (e0 eng : Opa.Engine (query := query))
    (lib : Libraries) (version : string) (startTime : Z) (allow_dev : bool) (c cfg : Config.Config)
    (ph : Proxy.ProxyHandler) (tasks : list task) (log l1 : list entry) (e : entry) (l2 : list entry) (t : list LedgerEntry) (out : OutRequest) :
  Config.Validate allow_dev c = Ok cfg → proxyHandler lib cfg = Ok ph →
  interleaves (program_of lib version startTime cfg ph) tasks log →
  Opa.New modules_of prepare_empty prepare_load policyDir seen0 loaded0 = Ok e0 →
  after (PolicyLog.engine_step eval modules_of prepare_empty prepare_load) e0 log eng →
  log = l1 ++ e :: l2 → upstream_of (en_event e) = [out] →
  LedgerLog.ledger_after l1 t → Z.of_nat (length l1) < max_int64 →
  chain_ok t ∧ (∃ r, Ledger.VerifyChain None no_fail t = Ok r ∧ Ledger.vr_Valid r = true)
  ∧ audited eval modules_of prepare_empty prepare_load t out.
Proof.
  intros V W I S G E U F B. pose proof (Config.acc_tokens _ _ (validated _ _ _ V)) as D.
  destruct (LedgerLog.ledger_chain _ _ F B) as [C _].
  split_and!; [done|by apply VerifyChain_complete, chain_ok_verified|].
  rewrite E in G. apply after_prefix in G as [g G].
  destruct (en_event e) as [cc y] eqn:Ee. destruct cc; try done; cbn in U; injection U as ->.
  - apply (allowed_audited cfg ph eval modules_of prepare_empty prepare_load policyDir seen0 loaded0 e0 g S l1 t G F B tasks e).
    by eapply forwarded_allowed.
  - destruct (sent_checked _ _ _ _ _ _ W _ I _ _ _ _ _ E Ee)
      as (ticks & item & n & es & lc & cl & l3 & p1 & p2 & url & hs & _ & -> & Tcl & _ & _ & E3 & _ & K & A & ->).
    apply (checked_audited lib cfg eval modules_of prepare_empty prepare_load policyDir seen0 loaded0 e0 g S _ t G F B
      (en_task e) item (events_of (en_task e) (lc ++ [cl])) p1 p2 url hs); [|exact K|exact A].
    by rewrite <- E3, <- events_of_app, <- app_assoc.
Qed.
End theorems.

(** ** The closed deployment *)

Section example.
#[local] Existing Instance ascii_tables.
#[local] Existing Instance plain_urls.
#[local] Existing Instance QStore.plain_uuid.
#[local] Existing Instance Ingress.MCPAdapter.

Lemma upstream_accounted_witness :
  ∃ l1 e l2 out, sample_log = l1 ++ e :: l2 ∧ upstream_of (en_event e) = [out]
    ∧ replayed sample_lib "v1" 0 id sample_valid sample_proxy sample_tasks l1 e out.
Proof.
  destruct sample_send as (e & out & L & U & T). apply take_drop_middle in L.
  exists (take 24 sample_log), e, (drop 25 sample_log), out. split; [symmetry; exact L|]. split; [exact U|].
  destruct sample_behind as [F C X _ _].
  destruct (upstream_accounted sample_lib "v1" 0 id false sample_config sample_valid sample_proxy sample_tasks sample_log
    _ _ 0 _ _ e _ out sample_config_valid sample_wired deployed_interleaves F C X (eq_sym L) U)
    as [(x & agent & inv & d & Tx & _)|R]; [|exact R].
  rewrite T in Tx. discriminate Tx.
Defined.

Lemma four_eyes_witness :
  ∃ q, w_table run_replay.2 !! "q1" = Some q ∧ q_Status q = QStore.StatusReplayed
    ∧ ∃ x id' who, entitled sample_lib "v1" 0 sample_valid sample_proxy sample_tasks x.1 x.2.1 x.2.2 id' who
        ∧ who = "alice" ∧ q_AgentID q = "bot@x.io".
Proof.
  assert ((λ q, (q_Status q, default "" (q_ResolvedBy q), q_AgentID q)) <$> w_table run_replay.2 !! "q1"
          = Some (QStore.StatusReplayed, "alice", "bot@x.io")) as F0 by (vm_compute; reflexivity).
  apply fmap_Some in F0 as (q & L & F0). injection F0 as S W A.
  exists q. split; [exact L|]. split; [symmetry; exact S|]. destruct sample_behind as [F C X _ _].
  destruct (four_eyes sample_lib "v1" 0 id false sample_config sample_valid sample_proxy sample_tasks sample_log
    (w_table run_replay.2) (w_cache run_replay.2) 0 (w_sso run_replay.2) "q1" q sample_config_valid sample_wired) as (l0 & cr & l1 & ap & l2 & x & id' & who & _ & _ & _ & _ & _ & Wh & En & _).
  - exact deployed_interleaves.
  - exact F.
  - exact C.
  - exact X.
  - exact L.
  - rewrite <- S. by do 2 right; left.
  - exists (l0 ++ cr :: l1, (en_task ap, x)), id', who. split; [exact En|]. split; [congruence|symmetry; exact A].
Defined.

Lemma upstream_audited_witness :
  ∃ e t out, sample_log !! 24%nat = Some e ∧ upstream_of (en_event e) = [out]
    ∧ LedgerLog.ledger_after (take 24 sample_log) t ∧ audited sample_eval (λ q, q) (Ok []) Opa.sample_load t out.
Proof.
  destruct sample_send as (e & out & N & U & _). pose proof (take_drop_middle _ _ _ N) as L.
  destruct sample_behind as [_ _ _ F G]. rewrite <- L in F. apply after_prefix in F as [t F].
  exists e, t, out. split; [exact N|]. split; [exact U|]. split; [exact F|].
  apply (upstream_audited sample_eval (λ q, q) (Ok []) Opa.sample_load "policies" (Opa.sample_dir "one") (Opa.sample_dir "one")
    (Opa.sample_engine "one") _ sample_lib "v1" 0 false sample_config sample_valid sample_proxy sample_tasks sample_log
    (take 24 sample_log) e (drop 25 sample_log) t out sample_config_valid sample_wired deployed_interleaves sample_started G (eq_sym L) U F).
  rewrite length_take. unfold max_int64. lia.
Defined.
End example.
End EndToEnd.
