(* ===== verification/System.v ===== *)
(** * Replays in the running system

    Reviewers, agents and any number of replay workers share the quarantine table.
    A state holds the table and the replay programs in flight; a step is one store
    statement of a reviewer, of the proxy or of recovery, one claim, one call of a
    program in flight, or a crash.  Statements fail or lose their acknowledgement,
    workers die at any call, and the replay lock is not assumed: the bound holds even
    when two workers run at once.  Ghost fields count approvals and tag each claim
    and each upstream send. *)

From S2P Require Import Prelude GoStrings Types Mcp Effects ProxyIngress Proxy QStore QHandler QWorker.
From stdpp Require Import base tactics strings list gmap.
From Stdlib Require Import ZArith Lia.

Local Open Scope Z_scope.

Import QStore QWorker.

Module System.

(** A claim of an item: which approval it serves, and the attempts it found. *)
Record claim : Type := mkClaim { c_id : string; c_epoch : nat; c_attempts : Z }.
#[export] Instance claim_eq_dec : EqDecision claim.
Proof. solve_decision. Defined.

Record state : Type := mkState {
  s_table : table;
  s_running : list (claim * prog unit);
  s_epoch : string → nat;
  s_claims : list claim;
  s_sends : list claim
}.

Definition init : state := mkState ∅ [] (λ _, 0%nat) [] [].

(** An approval is a committed transition from review to 'approved'. *)
Definition approved_between (q q' : Quarantine) : bool :=
  in_status [StatusPending; StatusReplayFailed] q && in_status [StatusApproved] q'.
Definition next_epoch (t t' : table) (ep : string → nat) (id : string) : nat :=
  match t !! id, t' !! id with
  | Some q, Some q' => if approved_between q q' then S (ep id) else ep id
  | _, _ => ep id
  end.

Definition tag (ep : string → nat) (e : QuarantineEntry) : claim := mkClaim (qe_ID e) (ep (qe_ID e)) (qe_Attempts e).

Definition is_send (c : cmd) : bool := match c with CSend _ => true | _ => false end.

(** The operations of the environment: the proxy's, the reviewers', recovery's. *)
Definition environment_op (o : op) : bool :=
  match o with
  | OCreate _ _ _ _ _ _ _ _ _ | OApprove _ _ _ _ | ODeny _ _ _ _ _ | ORecover _ => true
  | _ => false
  end.

Section system.
Context `{UnicodeTables} `{UuidLib}.
Variable jsonb : string → string.
Variable unmarshal_message : string → string.
Variable wk : Worker.

(** The effect on the table, and the answer, of a call of a replay program; a call a
    replay program does not make has none. *)
Definition replay_call (c : cmd) (t : table) (x : ans c) (t' : table) : Prop :=
  match c return ans c → Prop with
  | CMarkReplayed id => λ x, ∃ f now, MarkReplayed now f id t = (x, t')
  | CMarkReplayFailed id => λ x, ∃ f, MarkReplayFailed f id t = (x, t')
  | CReturnToApproved id => λ x, ∃ f, ReturnToApproved f id t = (x, t')
  | CNow | CEvaluate _ | CAppend _ | CSend _ => λ _, t' = t
  | _ => λ _, False
  end x.

Inductive step : state → state → Prop :=
  | st_environment s o :
      environment_op o = true →
      step s (mkState (apply_op jsonb o (s_table s)) (s_running s)
                (next_epoch (s_table s) (apply_op jsonb o (s_table s)) (s_epoch s)) (s_claims s) (s_sends s))
  | st_claim s limit locked es t' :
      ClaimApproved Good limit locked (s_table s) = (Ok es, t') →
      step s (mkState t' (s_running s ++ map (λ e, (tag (s_epoch s) e, processClaimed unmarshal_message wk e)) es)
                (next_epoch (s_table s) t' (s_epoch s)) (s_claims s ++ map (tag (s_epoch s)) es) (s_sends s))
  | st_claim_lost s f limit locked err t' :
      ClaimApproved f limit locked (s_table s) = (Err err, t') →
      step s (mkState t' (s_running s) (next_epoch (s_table s) t' (s_epoch s)) (s_claims s) (s_sends s))
  | st_call s i cl c k x t' :
      s_running s !! i = Some (cl, Do c k) → replay_call c (s_table s) x t' →
      step s (mkState t' (<[i := (cl, k x)]> (s_running s)) (next_epoch (s_table s) t' (s_epoch s)) (s_claims s)
                (if is_send c then s_sends s ++ [cl] else s_sends s))
  | st_crash s i :
      step s (mkState (s_table s) (delete i (s_running s)) (s_epoch s) (s_claims s) (s_sends s)).

Inductive reachable : state → Prop :=
  | reach_init : reachable init
  | reach_step s s' : reachable s → step s s' → reachable s'.

(** ** Programs send at most once *)

Abbreviation sends_le := (calls_le is_send).

Definition silent_recheck : Prop :=
  ∀ recheck, wk_recheck wk = Some recheck → ∀ a p h, sends_le 0 (recheck a p h).

Lemma appendLedger_silent e by_ d : sends_le 0 (appendLedger wk e by_ d).
Proof. unfold appendLedger. by destruct (wk_ledger wk). Qed.
Lemma recordLedger_silent e by_ d : sends_le 0 (recordLedger wk e by_ d).
Proof. apply calls_le_bind_r; [apply appendLedger_silent|done]. Qed.

Lemma doReplay_sends e by_ : sends_le 1 (doReplay unmarshal_message wk e by_).
Proof.
  unfold doReplay. destruct (wk_target wk); [|done]. destruct (Mcp.DecodeReplayHeaders _ _); [|done].
  simpl. intros [s|]; [|done]. by destruct (_ || _).
Qed.

Lemma replay_claimed_sends e by_ : sends_le 1 (replay_claimed unmarshal_message wk e by_).
Proof.
  apply calls_le_bind_r; [apply appendLedger_silent|]. intros [err|]; [done|].
  apply calls_le_bind_l; [apply doReplay_sends|]. intros [o [err|]].
  - apply calls_le_bind_r; [apply recordLedger_silent|]. intros _. by destruct (_ >=? _).
  - intros [y|]; [done|]. apply recordLedger_silent.
Qed.

Lemma blocked_silent recheck e by_ :
  (∀ a p h, sends_le 0 (recheck a p h)) → sends_le 0 (blockedByCurrentPolicy unmarshal_message wk recheck e by_).
Proof.
  intros R. apply calls_le_bind_r.
  - destruct (Mcp.DecodeReplayHeaders _ _); [|done]. apply calls_le_bind_r; [apply R|]. by intros [].
  - intros d. destruct (negb _); [done|]. intros [x|]; [done|]. by simpl; destruct (wk_ledger wk).
Qed.

(** One send at most, and none when the attempts are exhausted. *)
Lemma processClaimed_sends e :
  silent_recheck →
  sends_le (if qe_Attempts e <=? wk_maxReplayAttempts wk then 1 else 0) (processClaimed unmarshal_message wk e).
Proof.
  intros Q. unfold processClaimed.
  destruct (Z.gtb_spec (qe_Attempts e) (wk_maxReplayAttempts wk)) as [G|G].
  - destruct (Z.leb_spec (qe_Attempts e) (wk_maxReplayAttempts wk)); [lia|].
    intros [x|]; [done|]. apply recordLedger_silent.
  - destruct (Z.leb_spec (qe_Attempts e) (wk_maxReplayAttempts wk)); [|lia].
    destruct (wk_recheck wk) as [recheck|] eqn:K; [|apply replay_claimed_sends].
    apply calls_le_bind_r; [apply blocked_silent; by apply Q|]. intros []; [done|apply replay_claimed_sends].
Qed.

(** ** The invariant *)

(** A claim's item exists; of the current approval, the claim found fewer attempts than
    the row has, or as many while the row is no longer up for a claim. *)
Definition claim_ok (t : table) (ep : string → nat) (c : claim) : Prop :=
  0 <= c_attempts c ∧ (1 ≤ c_epoch c)%nat
  ∧ ∃ q, t !! c_id c = Some q ∧ (c_epoch c ≤ ep (c_id c))%nat
      ∧ (c_epoch c = ep (c_id c) →
         c_attempts c < q_Attempts q ∨ c_attempts c = q_Attempts q ∧ q_Status q ≠ StatusApproved).

(** A row that left review has been approved. *)
Definition epoch_ok (t : table) (ep : string → nat) : Prop :=
  map_Forall (λ id q, q_Status q ∈ [StatusApproved; StatusReplaying; StatusReplayed; StatusReplayFailed] →
                      (1 ≤ ep id)%nat) t.

Definition attempts_ok (t : table) : Prop := map_Forall (λ _ q, 0 <= q_Attempts q) t.

(** What a program in flight may still send. *)
Definition running_ok (sends : list claim) (r : claim * prog unit) : Prop :=
  sends_le 0 r.2
  ∨ (r.1 ∉ sends) ∧ c_attempts r.1 <= wk_maxReplayAttempts wk ∧ sends_le 1 r.2.

Record inv (s : state) : Prop := mkInv {
  inv_wf : table_wf (s_table s);
  inv_attempts : attempts_ok (s_table s);
  inv_epoch : epoch_ok (s_table s) (s_epoch s);
  inv_claims : Forall (claim_ok (s_table s) (s_epoch s)) (s_claims s);
  inv_nodup : NoDup (s_claims s);
  inv_running : Forall (running_ok (s_sends s)) (s_running s);
  inv_running_nodup : NoDup (s_running s).*1;
  inv_running_claims : Forall (λ r, r.1 ∈ s_claims s) (s_running s);
  inv_sends : Forall (λ c, c ∈ s_claims s ∧ c_attempts c <= wk_maxReplayAttempts wk) (s_sends s);
  inv_sends_nodup : NoDup (s_sends s)
}.

Lemma moves_attempts t t' : attempts_ok t → table_moves t t' → attempts_ok t'.
Proof.
  intros A M id q' L. specialize (M id). rewrite L in M. destruct (t !! id) as [q|] eqn:E; [|lia].
  pose proof (A id q E) as Aq. simpl in Aq. destruct M as [_ [-> |M]]; [done|]. unfold row_state in M.
  inversion M; lia.
Qed.

Lemma moves_claim t t' ep c : table_moves t t' → claim_ok t ep c → claim_ok t' (next_epoch t t' ep) c.
Proof.
  intros M (A & P & q & L & E & C). split; [done|]. split; [done|]. specialize (M (c_id c)). rewrite L in M.
  destruct (t' !! c_id c) as [q'|] eqn:L'; [|done]. exists q'. split; [done|].
  unfold next_epoch. rewrite L, L'. destruct (approved_between q q') eqn:B; [split; [lia|]; intros; lia|].
  split; [done|]. intros Eq. specialize (C Eq). destruct M as [_ [-> |M]]; [done|]. unfold row_state in M.
  inversion M; (destruct C as [C|[C N]]);
    try (left; lia); try (exfalso; congruence);
    try (right; split; [lia|unfold StatusDenied, StatusApproved, StatusReplayFailed, StatusReplaying in *; congruence]);
    exfalso; (assert (approved_between q q' = true); [|congruence]); unfold approved_between;
    apply andb_true_intro; split; apply in_status_true; set_solver.
Qed.

(** [H : s ∈ ss] is false by evaluation. *)
Ltac not_status H :=
  match type of H with ?P => assert (bool_decide P = false) as NS by (vm_compute; reflexivity);
    apply bool_decide_eq_false in NS; by destruct (NS H) end.

Lemma moves_epoch t t' ep : epoch_ok t ep → table_moves t t' → epoch_ok t' (next_epoch t t' ep).
Proof.
  intros O M id q' L' S. specialize (M id). rewrite L' in M. unfold next_epoch. rewrite L'.
  destruct (t !! id) as [q|] eqn:L; [|exfalso; destruct M as (E & _); rewrite E in S; not_status S].
  destruct (approved_between q q') eqn:B; [lia|]. apply (O id q L).
  destruct M as [_ [-> |M]]; [done|]. unfold row_state in M.
  inversion M as [s a P|s a P E1 E2|a|a|a|a]; try (by set_solver).
  - exfalso. assert (approved_between q q' = true); [|congruence]. unfold approved_between.
    apply andb_true_intro. split; apply in_status_true; set_solver.
  - exfalso. match goal with E : StatusDenied = q_Status q' |- _ => rewrite <- E in S end. not_status S.
Qed.

(** A step that only moves the table keeps the invariant. *)
Lemma inv_moves s t' :
  inv s → table_moves (s_table s) t' →
  inv (mkState t' (s_running s) (next_epoch (s_table s) t' (s_epoch s)) (s_claims s) (s_sends s)).
Proof.
  intros I M. destruct I. constructor; simpl; try done.
  - by eapply moves_wf.
  - by eapply moves_attempts.
  - by apply moves_epoch.
  - eapply Forall_impl; [done|]. intros c. by apply moves_claim.
Qed.

Lemma next_epoch_le t t' ep id : (ep id ≤ next_epoch t t' ep id)%nat.
Proof. unfold next_epoch. repeat case_match; lia. Qed.

(** The tags of a fresh claim: new, distinct, and accounted for. *)
Lemma fresh_claims s limit locked :
  inv s →
  let qs := claim_candidates limit locked (s_table s) in
  let t' := claim_all qs (s_table s) in
  let tags := map (λ q, mkClaim (q_ID q) (s_epoch s (q_ID q)) (q_Attempts q)) qs in
  NoDup (s_claims s ++ tags) ∧ Forall (claim_ok t' (next_epoch (s_table s) t' (s_epoch s))) tags.
Proof.
  intros I qs t' tags. destruct I as [W A O C N _ _ _ _ _].
  assert (∀ q, q ∈ qs → s_table s !! q_ID q = Some q ∧ q_Status q = StatusApproved) as Q.
  { intros q J. by destruct (claim_candidates_elem limit locked _ q W J) as (? & ? & _). }
  assert (∀ c, c ∈ tags → ∃ q, q ∈ qs ∧ c = mkClaim (q_ID q) (s_epoch s (q_ID q)) (q_Attempts q)) as T.
  { intros c J. apply list_elem_of_fmap in J as (q & -> & J). eauto. }
  split.
  - apply NoDup_app. split_and!; [done| |].
    + intros c J K. destruct (T c K) as (q & Jq & ->). destruct (Q q Jq) as [L S].
      rewrite Forall_forall in C. destruct (C _ J) as (_ & _ & q' & L' & _ & D). simpl in *.
      rewrite L in L'. injection L' as <-. destruct (D eq_refl) as [?|[_ ?]]; [lia|done].
    + apply (NoDup_fmap_1 c_id). unfold tags. rewrite <- list_fmap_compose. by apply NoDup_candidates.
  - apply Forall_forall. intros c J. destruct (T c J) as (q & Jq & ->). destruct (Q q Jq) as [L S].
    split; [by apply (A (q_ID q))|]. split; [apply (O _ _ L); rewrite S; set_solver|]. exists (claim_row q). simpl. split.
    + unfold t'. rewrite claim_all_lookup by (done || (intros; by apply Q)). rewrite L. by rewrite bool_decide_true.
    + split; [apply next_epoch_le|]. intros _. by right.
Qed.

Lemma inv_claim s limit locked es t' :
  silent_recheck → inv s → ClaimApproved Good limit locked (s_table s) = (Ok es, t') →
  inv (mkState t' (s_running s ++ map (λ e, (tag (s_epoch s) e, processClaimed unmarshal_message wk e)) es)
         (next_epoch (s_table s) t' (s_epoch s)) (s_claims s ++ map (tag (s_epoch s)) es) (s_sends s)).
Proof.
  intros Q I E. unfold ClaimApproved in E. simpl in E. injection E as <- <-.
  destruct (fresh_claims s limit locked I) as [N F].
  pose proof (inv_moves s _ I (claim_moves limit locked (s_table s) (inv_wf s I))) as J.
  set (qs := claim_candidates limit locked (s_table s)) in *.
  assert (map (tag (s_epoch s)) (map ToQuarantineEntry (map claim_row qs))
          = map (λ q, mkClaim (q_ID q) (s_epoch s (q_ID q)) (q_Attempts q)) qs) as Tags by (by rewrite !map_map).
  destruct J as [W A O C _ R Rn Rc S Sn]. simpl in *.
  constructor; simpl; rewrite ?Tags; try done.
  - by apply Forall_app.
  - apply Forall_app. split; [done|]. apply Forall_map, Forall_forall. intros e J.
    unfold running_ok. simpl. pose proof (processClaimed_sends e Q) as P.
    destruct (Z.leb_spec (qe_Attempts e) (wk_maxReplayAttempts wk)) as [L|L]; [|by left].
    right. split_and!; try done. intros K. apply NoDup_app in N as (_ & N & _).
    rewrite Forall_forall in S. destruct (S _ K) as [K' _].
    apply (N _ K'). rewrite <- Tags. by apply (list_elem_of_fmap_2 (tag (s_epoch s))).
  - rewrite fmap_app. apply NoDup_app. apply NoDup_app in N as (_ & N & Nt). split_and!; [done| |].
    + intros c J K. apply list_elem_of_fmap in J as (r & -> & J). rewrite Forall_forall in Rc.
      apply (N _ (Rc r J)). rewrite <- Tags. apply list_elem_of_fmap in K as (r' & -> & K).
      apply list_elem_of_fmap in K as (e & -> & K).
      by apply (list_elem_of_fmap_2 (tag (s_epoch s))).
    + change ((map (λ e, (tag (s_epoch s) e, processClaimed unmarshal_message wk e))
                 (map ToQuarantineEntry (map claim_row qs))).*1)
        with (map fst (map (λ e, (tag (s_epoch s) e, processClaimed unmarshal_message wk e))
                 (map ToQuarantineEntry (map claim_row qs)))).
      rewrite map_map. change (NoDup (map (tag (s_epoch s)) (map ToQuarantineEntry (map claim_row qs)))).
      by rewrite Tags.
  - apply Forall_app. split; [eapply Forall_impl; [done|]; intros; simpl; apply elem_of_app; by left|].
    apply Forall_map, Forall_forall. intros e J. simpl. apply elem_of_app. right. rewrite <- Tags.
    by apply (list_elem_of_fmap_2 (tag (s_epoch s))).
  - eapply Forall_impl; [done|]. intros c [K L]. split; [|done]. apply elem_of_app. by left.
Qed.

Lemma replay_call_moves c t x t' : table_wf t → replay_call c t x t' → table_moves t t'.
Proof.
  intros W R. destruct c; simpl in R; try done; try (subst; apply table_moves_refl).
  - destruct R as (f & now & E). pose proof (apply_op_moves jsonb (OReplayed f now id) t W) as M. simpl in M.
    by rewrite E in M.
  - destruct R as (f & E). pose proof (apply_op_moves jsonb (OFailed f id) t W) as M. simpl in M. by rewrite E in M.
  - destruct R as (f & E). pose proof (apply_op_moves jsonb (OReturn f id) t W) as M. simpl in M. by rewrite E in M.
Qed.

(** The programs in flight after one of them made a call. *)
Lemma running_call running sends i cl c (k : ans c → prog unit) x :
  Forall (running_ok sends) running → NoDup running.*1 → running !! i = Some (cl, Do c k) →
  Forall (running_ok (if is_send c then sends ++ [cl] else sends)) (<[i := (cl, k x)]> running)
  ∧ (is_send c = true → (cl ∉ sends) ∧ c_attempts cl <= wk_maxReplayAttempts wk).
Proof.
  intros F N L. pose proof (Forall_lookup_1 _ _ _ _ F L) as Ok. unfold running_ok in Ok. simpl in Ok.
  destruct (is_send c) eqn:S.
  - destruct Ok as [[]|(Nc & A & P)]. split; [|done].
    apply Forall_lookup. intros j r Lj. destruct (decide (j = i)) as [->|Ne].
    + rewrite list_lookup_insert_eq in Lj by (by eapply lookup_lt_Some). injection Lj as <-. left. apply P.
    + rewrite list_lookup_insert_ne in Lj by done. pose proof (Forall_lookup_1 _ _ _ _ F Lj) as [Z|(Nr & Ar & Pr)].
      { by left. }
      right. split_and!; try done. rewrite elem_of_app, list_elem_of_singleton. intros [?|E]; [done|].
      apply Ne. eapply (NoDup_lookup running.*1); [done| |]; rewrite list_lookup_fmap.
      * rewrite Lj. simpl. by rewrite E.
      * by rewrite L.
  - split; [|done]. apply Forall_insert; [done|]. unfold running_ok. simpl.
    destruct Ok as [P|(Nc & A & P)]; [left; apply P|right; auto].
Qed.

Lemma inv_call s i cl c (k : ans c → prog unit) x t' :
  inv s → s_running s !! i = Some (cl, Do c k) → replay_call c (s_table s) x t' →
  inv (mkState t' (<[i := (cl, k x)]> (s_running s)) (next_epoch (s_table s) t' (s_epoch s)) (s_claims s)
         (if is_send c then s_sends s ++ [cl] else s_sends s)).
Proof.
  intros I L R. pose proof (inv_moves s t' I (replay_call_moves c _ x t' (inv_wf s I) R)) as [W A O C N _ _ _ _ _].
  destruct I as [_ _ _ _ _ F Rn Rc S Sn]. simpl in *.
  destruct (running_call _ _ _ _ _ k x F Rn L) as [F' New].
  assert (cl ∈ s_claims s) as Cl by (exact (Forall_lookup_1 _ _ _ _ Rc L)).
  constructor; simpl; try done.
  - rewrite list_fmap_insert, list_insert_id; [done|]. by rewrite list_lookup_fmap, L.
  - by apply Forall_insert.
  - destruct (is_send c); [|done]. apply Forall_app. split; [done|]. by apply Forall_singleton; destruct New.
  - destruct (is_send c); [|done]. apply NoDup_app. split_and!; [done| |apply NoDup_singleton].
    intros d J K. apply list_elem_of_singleton in K as ->. by destruct New.
Qed.

Lemma inv_crash s i : inv s → inv (mkState (s_table s) (delete i (s_running s)) (s_epoch s) (s_claims s) (s_sends s)).
Proof.
  intros [W A O C N F Rn Rc S Sn]. constructor; simpl; try done.
  - by apply Forall_delete.
  - eapply sublist_NoDup; [exact Rn|]. apply fmap_sublist, sublist_delete.
  - by apply Forall_delete.
Qed.

Lemma system_inv s : silent_recheck → reachable s → inv s.
Proof.
  intros Q. induction 1 as [|s s' R I St].
  - constructor; simpl; try done; try constructor; by apply map_Forall_empty.
  - inversion St as [? o O|? limit locked es t' E|? f limit locked err t' E|? i cl c k x t' L Rc|? i]; subst.
    + apply inv_moves; [done|]. by apply apply_op_moves, inv_wf.
    + by eapply inv_claim.
    + apply inv_moves; [done|]. unfold ClaimApproved in E.
      pose proof (exec_moves f (ClaimApprovedForReplay limit locked (s_table s)) (s_table s)
        (claim_moves limit locked (s_table s) (inv_wf s I))) as M.
      injection E as _ E2. by rewrite E2 in M.
    + by eapply inv_call.
    + by apply inv_crash.
Qed.

(** Distinct claims of one approval with attempts from 0 to [m] are at most [m + 1]. *)
Lemma claims_counted (l : list claim) id ep m :
  NoDup l → 0 <= m → Forall (λ c, c_id c = id ∧ c_epoch c = ep ∧ 0 <= c_attempts c <= m) l →
  Z.of_nat (length l) <= m + 1.
Proof.
  intros N M F. rewrite Forall_forall in F. replace (m + 1) with (m - 0 + 1) by lia.
  apply (length_bounded c_attempts); [lia|done| |by intros c J; apply F].
  intros [i e a] [i' e' a'] J J'. intros A.
  destruct (F _ J) as (? & ? & _). destruct (F _ J') as (? & ? & _). cbn [c_id c_epoch c_attempts] in *. by subst.
Qed.

(** C4: an approval is good for a bounded number of upstream calls.  In every reachable
    state of the system, whatever the interleaving of reviewers, workers, recovery and
    crashes, whatever statements fail or lose their acknowledgement, and even if two
    workers replay at once: the requests sent for one approval of an item are at most
    one more than the configured retries (four by default), each from its own claim. *)
Theorem replays_bounded (s : state) (id : string) (ep : nat) :
  silent_recheck → 0 <= wk_maxReplayAttempts wk → reachable s →
  Z.of_nat (length (filter (λ c, c_id c = id ∧ c_epoch c = ep) (s_sends s))) <= wk_maxReplayAttempts wk + 1
  ∧ NoDup (s_sends s).
Proof.
  intros Q M R. destruct (system_inv s Q R) as [W A O C N F Rn Rc S Sn]. split; [|done].
  apply (claims_counted _ id ep); [by apply NoDup_filter|done|]. apply Forall_forall. intros c J.
  apply list_elem_of_filter in J as [[-> ->] J]. rewrite Forall_forall in S, C.
  destruct (S c J) as [K L]. destruct (C c K) as [P _]. auto.
Qed.

(** Only approved items are replayed.  Every request ever sent for an item belongs
    to an approval of that item: at least one approval was committed for it before. *)
Theorem replays_need_approval (s : state) :
  silent_recheck → reachable s →
  Forall (λ c, (1 ≤ c_epoch c ≤ s_epoch s (c_id c))%nat) (s_sends s).
Proof.
  intros Q R. destruct (system_inv s Q R) as [W A O C N F Rn Rc S Sn]. apply Forall_forall. intros c J.
  rewrite Forall_forall in S, C. destruct (S c J) as [K _]. destruct (C c K) as (_ & P & q & _ & E & _). done.
Qed.
End system.

(** ** Witnesses: create, approve, claim, send *)

#[local] Existing Instance ascii_tables.
#[local] Existing Instance plain_uuid.

Definition sample_worker : Worker := NewWorker false (Ok Proxy.sample_target) [].
Definition sample_steps : list op := [sample_create; OApprove Good 11 "q1" "rev"].

Lemma sample_silent : silent_recheck sample_worker.
Proof. intros recheck [=]. Qed.

(** A reachable state in which the approved item was sent once. *)
Lemma sample_reachable :
  ∃ s, reachable (λ s, s) (λ s, s) sample_worker s ∧ s_sends s = [mkClaim "q1" 1 0] ∧ s_epoch s "q1" = 1%nat.
Proof.
  eexists. split.
  - eapply reach_step; [eapply reach_step; [eapply reach_step; [eapply reach_step; [apply reach_init|]|]|]|].
    + by apply (st_environment _ _ _ _ sample_create).
    + by apply (st_environment _ _ _ _ (OApprove Good 11 "q1" "rev")).
    + eapply (st_claim _ _ _ _ 10 ∅). reflexivity.
    + eapply (st_call _ _ _ _ 0 _ (CSend _) _ (Ok 500)); [vm_compute; reflexivity|reflexivity].
  - split; vm_compute; reflexivity.
Qed.

Lemma replays_bounded_witness :
  ∃ s, reachable (λ s, s) (λ s, s) sample_worker s ∧ s_sends s ≠ []
    ∧ Z.of_nat (length (filter (λ c, c_id c = "q1" ∧ c_epoch c = 1%nat) (s_sends s))) <= 4.
Proof.
  destruct sample_reachable as (s & R & S & _). exists s. split_and!; [done|by rewrite S|].
  apply (replays_bounded (λ s, s) (λ s, s) sample_worker s "q1" 1 sample_silent); [done|exact R].
Defined.

Lemma replays_need_approval_witness :
  ∃ s, reachable (λ s, s) (λ s, s) sample_worker s ∧ s_sends s ≠ []
    ∧ Forall (λ c, (1 ≤ c_epoch c ≤ s_epoch s (c_id c))%nat) (s_sends s).
Proof.
  destruct sample_reachable as (s & R & S & _). exists s. split_and!; [done|by rewrite S|].
  apply (replays_need_approval (λ s, s) (λ s, s) sample_worker s sample_silent R).
Defined.
End System.
