(* ===== verification/Lifecycle.v ===== *)
(** * The life of the process

    The state [main] and the single sign-on service keep in memory: the readiness flag the
    drain middleware reads, the context of the workers, and the client that discovery of
    the identity provider leaves.  [shutdown] withdraws readiness, ends that context, waits
    and only then stops the listeners; what the requests and the workers of a deployment
    still do from then on is bounded, however they interleave with it. *)

From S2P Require Import Prelude GoStrings GoTime Types GoUrl GoHttp Config Effects Interleave Auth Sso SsoLog ProxyIngress Proxy QStore QHandler GoMux SlackApp SlackLog Server QWorker Deployment World EndToEnd System.
From stdpp Require Import base tactics strings list gmap.
From Stdlib Require Import ZArith Lia.

Local Open Scope Z_scope.

Import GoHttp GoMux Deployment.

Module Lifecycle.

(** ** The flags behind a log *)

Record flags : Type := mkFlags { fl_ready : bool; fl_stopping : bool; fl_client : bool }.

(** [ready] as [main] stores it before it serves; nothing is cancelled or discovered. *)
Definition serving : flags := mkFlags true false false.

(** What a call reads of them: [ready.Load], [ctx.Err] of the workers' context, and the last
    result of [Service.client]. *)
Definition reads (f : flags) (ev : event) : bool :=
  match ev with
  | Ev CReady x => Bool.eqb x (fl_ready f)
  | Ev CCtxErr x => Bool.eqb x (fl_stopping f)
  | Ev CClient x => Bool.eqb x (fl_client f)
  | _ => true
  end.

(** What a call makes of them: [ready.Store(false)], [workerCancel], and [Service.Discover],
    which stores the client when the provider answered. *)
Definition updates (f : flags) (ev : event) : flags :=
  match ev with
  | Ev CDrain _ => mkFlags false (fl_stopping f) (fl_client f)
  | Ev CCancelWorkers _ => mkFlags (fl_ready f) true (fl_client f)
  | Ev CDiscover None => mkFlags (fl_ready f) (fl_stopping f) true
  | _ => f
  end.

Definition flag_step (f : flags) (e : entry) (f' : flags) : Prop :=
  reads f (en_event e) = true ∧ f' = updates f (en_event e).
Abbreviation flags_after := (after flag_step serving).

(** Readiness withdrawn, the workers' context ended, the provider discovered. *)
Definition drains (ev : event) : bool := match ev with Ev CDrain _ => true | _ => false end.
Definition cancels (ev : event) : bool := match ev with Ev CCancelWorkers _ => true | _ => false end.
Definition discovers (ev : event) : bool := match ev with Ev CDiscover None => true | _ => false end.
Definition happened (p : event → bool) (l : list entry) : bool := existsb (λ e, p (en_event e)) l.

Lemma happened_app p l l' : happened p (l ++ l') = happened p l || happened p l'.
Proof. apply existsb_app. Qed.

Lemma happened_around p l1 e l2 : p (en_event e) = true → happened p (l1 ++ e :: l2) = true.
Proof. intros E. rewrite happened_app. cbn. rewrite E. apply orb_true_r. Qed.

(** The flags tell exactly what happened. *)
Lemma flags_tell log f :
  flags_after log f → f = mkFlags (negb (happened drains log)) (happened cancels log) (happened discovers log).
Proof.
  induction 1 as [|log f e f' _ -> [_ ->]]; [done|]. rewrite !happened_app. cbn. rewrite !orb_false_r.
  destruct (en_event e) as [c x]. destruct c; try (destruct x); cbn; by rewrite ?orb_false_r, ?orb_true_r.
Qed.

(** What a program reads of the flags. *)
Definition reads_flags (l1 : list entry) (ev : event) : Prop :=
  match ev with
  | Ev CReady x => x = negb (happened drains l1)
  | Ev CCtxErr x => x = happened cancels l1
  | Ev CClient x => x = happened discovers l1
  | _ => True
  end.
Lemma flag_read log f l1 e l2 : flags_after log f → log = l1 ++ e :: l2 → reads_flags l1 (en_event e).
Proof.
  intros F ->. apply after_split in F as (f1 & f2 & F & S & _). apply flags_tell in F as ->.
  destruct (en_event e) as [c x]. destruct c; try done; by apply eqb_prop in S.
Qed.

(** ** Workers that wind down

    Once the context has ended, every [ctx.Err] says so.  [stopped_le n p]: then [p] sends
    at most [n] requests.  [winds_down p]: one at most, wherever [p] is when it ends. *)

Fixpoint stopped_le {A} (n : nat) (p : prog A) : Prop :=
  match p with
  | Ret _ => True
  | Do c k =>
      if System.is_send c then match n with S m => ∀ x, stopped_le m (k x) | O => False end
      else ∀ x, (∀ y, Ev c x = Ev CCtxErr y → y = true) → stopped_le n (k x)
  end.
Fixpoint winds_down {A} (p : prog A) : Prop :=
  stopped_le 1 p ∧ match p with Ret _ => True | Do _ k => ∀ x, winds_down (k x) end.

Definition sends (tr : list event) : nat := length (List.filter (λ e, System.is_send (ev_cmd e)) tr).

Lemma stopped_le_mono {A} (p : prog A) n m : (n ≤ m)%nat → stopped_le n p → stopped_le m p.
Proof.
  revert n m. induction p as [a|c k IH]; intros n m L S; [done|]. cbn in *. destruct (System.is_send c).
  - destruct n as [|n]; [done|]. destruct m as [|m]; [lia|]. intros x. eapply (IH x n); [lia|apply S].
  - intros x X. eapply IH; [exact L|by apply S].
Qed.

Lemma stopped_le_bind {A B} (p : prog A) (g : A → prog B) n :
  stopped_le n p → (∀ a, stopped_le 0 (g a)) → stopped_le n (p ≫= g).
Proof.
  intros S G. revert n S. induction p as [a|c k IH]; intros n S; cbn in *; [eapply stopped_le_mono; [|apply G]; lia|].
  destruct (System.is_send c); [destruct n; [done|]; intros x; by apply IH|]. intros x X. by apply IH, S.
Qed.

Lemma winds_stopped {A} (p : prog A) : winds_down p → stopped_le 1 p.
Proof. by destruct p as [|c k]; intros []. Qed.

Lemma winds_call {A} c (k : ans c → prog A) : System.is_send c = false → (∀ x, winds_down (k x)) → winds_down (Do c k).
Proof. intros S W. split; [|done]. cbn. rewrite S. intros x _. apply winds_stopped, W. Qed.

Lemma winds_bind {A B} (p : prog A) (g : A → prog B) :
  winds_down p → (∀ a, stopped_le 0 (g a)) → (∀ a, winds_down (g a)) → winds_down (p ≫= g).
Proof.
  intros P G W. induction p as [a|c k IH]; [apply W|]. destruct P as [P K]. split.
  - exact (stopped_le_bind (Do c k) g 1 P G).
  - intros x. apply IH, K.
Qed.

Lemma calls_stopped {A} (p : prog A) n : calls_le System.is_send n p → stopped_le n p.
Proof.
  revert n. induction p as [a|c k IH]; intros n S; [done|]. cbn in *.
  destruct (System.is_send c); [destruct n; [done|]|]; intros x; [|intros _]; apply IH, S.
Qed.

Lemma calls_wind {A} (p : prog A) : calls_le System.is_send 1 p → winds_down p.
Proof.
  induction p as [a|c k IH]; intros S; [done|]. split; [by apply calls_stopped|]. intros x. apply IH. cbn in S.
  destruct (System.is_send c); [eapply calls_le_mono; [|apply S]; lia|apply S].
Qed.

Lemma stopped_steps {A} (p : prog A) n tr p' :
  stopped_le n p → steps p tr p' → (∀ x, Ev CCtxErr x ∈ tr → x = true) → (sends tr ≤ n)%nat.
Proof.
  revert n tr. induction p as [a|c k IH]; intros n tr S T X; cbn in T; destruct T as [[-> _]|T]; try (unfold sends; cbn; lia).
  destruct T as (x & tr' & -> & T). cbn in S. unfold sends. cbn.
  assert (∀ y, Ev CCtxErr y ∈ tr' → y = true) as X' by (intros y J; apply X; by right).
  destruct (System.is_send c).
  - destruct n as [|n]; [done|]. cbn. apply le_n_S. by eapply IH.
  - eapply IH; [|done|done]. apply S. intros y E. apply X. rewrite E. by left.
Qed.

Lemma winds_steps {A} (p : prog A) t1 t2 p' :
  winds_down p → steps p (t1 ++ t2) p' → (∀ x, Ev CCtxErr x ∈ t2 → x = true) → (sends t2 ≤ 1)%nat.
Proof.
  revert t1. induction p as [a|c k IH]; intros t1 W T X; destruct W as [W K].
  - eapply (stopped_steps (Ret a)); [exact W| |done]. destruct T as [[E ->]|[]].
    apply app_eq_nil in E as [_ ->]. cbn. by left.
  - destruct t1 as [|ev t1]; [by eapply (stopped_steps (Do c k))|].
    destruct T as [[E _]|(x & tr & E & T)]; [done|]. injection E as -> <-. by eapply IH.
Qed.

Section worker.
Context `{UnicodeTables}.
Variable unmarshal_message : string → string.
Variable wk : QWorker.Worker.
Hypothesis silent : System.silent_recheck wk.

Lemma drain_winds es : stopped_le 0 (QWorker.drain unmarshal_message wk es) ∧ winds_down (QWorker.drain unmarshal_message wk es).
Proof.
  induction es as [|item es [S W]]; [done|].
  assert (∀ b n, b = true → stopped_le n (if b then mret tt : prog unit
            else _ ← QWorker.processClaimed unmarshal_message wk item; QWorker.drain unmarshal_message wk es)) as St
    by (by intros b n ->).
  split; [|split].
  - intros b Bs. apply St. by apply Bs.
  - intros b Bs. apply St. by apply Bs.
  - intros [|]; [done|]. apply (winds_bind (QWorker.processClaimed unmarshal_message wk item)); [|done|done].
    apply calls_wind. eapply calls_le_mono; [|by apply System.processClaimed_sends]. destruct (_ <=? _); lia.
Qed.

Lemma pass_winds :
  stopped_le 0 (QWorker.ProcessOnce unmarshal_message wk) ∧ winds_down (QWorker.ProcessOnce unmarshal_message wk).
Proof.
  assert (winds_down (QWorker.drainOnce unmarshal_message wk)) as D.
  { apply winds_call; [done|]. intros [es|]; [apply drain_winds|done]. }
  assert (stopped_le 0 (QWorker.drainOnce unmarshal_message wk)) as D0.
  { intros [es|] _; [apply drain_winds|done]. }
  unfold QWorker.ProcessOnce. match goal with |- context [QWorker.WithReplayLock ?b] => set (body := b) end.
  assert (winds_down body) as Wb.
  { apply winds_call; [done|]. intros [n|]; [|done]. by apply (winds_bind (QWorker.drainOnce unmarshal_message wk)). }
  assert (∀ n, stopped_le n (QWorker.WithReplayLock body)) as S.
  { intros n b Bs. by rewrite (Bs b eq_refl). }
  assert (winds_down (QWorker.WithReplayLock body)) as W.
  { split; [apply S|]. intros [|]; [done|]. apply winds_call; [done|]. intros [err|]; [done|].
    apply winds_call; [done|]. intros [[|]|]; try done.
    by apply (winds_bind body (λ err, _ ← call CUnlock; mret (true, err))); [| |intros err; apply winds_call]. }
  split; [by apply (stopped_le_bind (QWorker.WithReplayLock body))|].
  by apply (winds_bind (QWorker.WithReplayLock body)).
Qed.

Lemma Run_winds ticks : winds_down (QWorker.Run unmarshal_message wk ticks).
Proof.
  destruct pass_winds as [S W]. induction ticks as [|n IH]; [done|].
  by apply (winds_bind (QWorker.Run unmarshal_message wk n)).
Qed.
End worker.

(** ** The deployment *)

Section deployment.
Context `{UnicodeTables} `{UrlLib} `{UuidLib}.
#[local] Existing Instance Ingress.MCPAdapter.
Variable lib : Libraries.
Variables (version : string) (startTime : Z).
Variable cfg : Config.Config.
Variable ph : Proxy.ProxyHandler.
Variable tasks : list task.
Variable log : list entry.
Hypothesis wired : proxyHandler lib cfg = Ok ph.
Hypothesis I : interleaves (program_of lib version startTime cfg ph) tasks log.

(** Calls that hold, decide, send or record an action. *)
Definition acts (c : cmd) : Prop :=
  match c with
  | CForward _ | CSend _ | CCreate _ _ _ _ _ _ | CApprove _ _ | CDeny _ _ _ | CAppend _ => True
  | _ => False
  end.

(** Who acts: the replay worker, or a request that had been let in. *)
Lemma acts_admitted l1 e l2 c y :
  log = l1 ++ e :: l2 → en_event e = Ev c y → acts c →
  (∃ x, tasks !! en_task e = Some (TRequest x) ∧ Ev CReady true ∈ events_of (en_task e) l1)
  ∨ ∃ ticks, tasks !! en_task e = Some (TReplay ticks).
Proof.
  intros E Ee A. destruct (calls_accounted lib version startTime cfg ph wired _ _ _ _ _ I E) as (tk & T & C).
  rewrite Ee in C. assert (¬ passive c) as P by (intros P; destruct c; done).
  assert (∀ s tk pre, ¬ SsoLog.call_guard s tk pre c) as N by (intros s tk' pre G; destruct c; done).
  destruct tk as [x|ticks|ticks|retries ticks|n|]; cbn in C; [|right; eauto|done|by destruct C as [s []%N]|done|done].
  left. exists x. split; [done|]. destruct C as [?|s tk _ _ []%N|a h post resp _ -> _|id gate h -> _ _ _|token id h -> _ _ _ _];
    [done|by left..].
Qed.

Variable f : flags.
Hypothesis F : flags_after log f.

(** Let in means before readiness was withdrawn. *)
Lemma admitted_early l0 d l1 l2 i :
  log = (l0 ++ d :: l1) ++ l2 → drains (en_event d) = true →
  Ev CReady true ∈ events_of i (l0 ++ d :: l1) → Ev CReady true ∈ events_of i l0.
Proof.
  intros E D J. rewrite events_of_app in J. apply elem_of_app in J as [J|J]; [done|].
  apply events_of_elem in J as (e & J & _ & Ee). apply elem_of_cons in J as [->|J]; [by rewrite Ee in D|].
  apply list_elem_of_split in J as (m1 & m2 & ->).
  assert (log = (l0 ++ d :: m1) ++ e :: (m2 ++ l2)) as E' by (by rewrite E, <- !app_assoc, <- !app_comm_cons, <- app_assoc).
  pose proof (flag_read _ _ _ _ _ F E') as R. rewrite Ee in R. cbn in R. by rewrite happened_around in R.
Qed.

Lemma deployed_silent : System.silent_recheck (replayWorker lib cfg).
Proof. intros recheck [= <-] a p h. unfold Proxy.NewPolicyRecheck. by destruct (Parse h p). Qed.

(** A replay worker told to stop sends at most the one request it is at. *)
Lemma worker_winds l0 k l1 i ticks :
  log = l0 ++ k :: l1 → cancels (en_event k) = true → tasks !! i = Some (TReplay ticks) → (sends (events_of i l1) ≤ 1)%nat.
Proof.
  intros E K T. destruct I as [_ S]. destruct (S i _ T) as [p' S'].
  change (steps (QWorker.Run (lib_unmarshal_message lib) (replayWorker lib cfg) ticks) (events_of i log) p') in S'.
  assert (events_of i log = events_of i (l0 ++ [k]) ++ events_of i l1) as Ei
    by (by rewrite <- events_of_app, <- app_assoc, E).
  rewrite Ei in S'. eapply winds_steps; [apply (Run_winds (lib_unmarshal_message lib) _ deployed_silent)|exact S'|].
  intros x J. apply events_of_elem in J as (e & J & _ & Ee). apply list_elem_of_split in J as (m1 & m2 & ->).
  assert (log = (l0 ++ k :: m1) ++ e :: m2) as E' by (by rewrite E, <- app_assoc).
  pose proof (flag_read _ _ _ _ _ F E') as R. rewrite Ee in R. cbn in R. by rewrite happened_around in R.
Qed.

(** The steps before the listeners stop, in the log. *)
Lemma shutdown_log l s l3 metrics y :
  log = l ++ s :: l3 → tasks !! en_task s = Some TShutdown → en_event s = Ev (CShutdown metrics) y →
  ∃ l0 d l1 k l2, l = l0 ++ d :: l1 ++ k :: l2 ∧ en_event d = Ev CDrain tt ∧ en_event k = Ev CCancelWorkers tt
    ∧ Ev (CSleep (Config.cf_ShutdownDrainDelay cfg)) tt ∈ events_of (en_task s) l2.
Proof.
  intros E T Es. destruct (interleaves_runs _ _ _ I _ _ _ E) as (tk & tr & T' & R). rewrite T in T'. injection T' as <-.
  rewrite Es in R. destruct R as [r R].
  destruct (Server.shutdown_order _ _ _ _ _ _ _ R eq_refl) as (waited & rest & Ep & J).
  destruct (events_of_around _ _ [] _ _ Ep) as (l0 & d & m & -> & _ & Ed & _ & Ep').
  destruct (events_of_around _ _ [] _ _ Ep') as (l1 & k & l2 & -> & _ & Ek & _ & Ep'').
  exists l0, d, l1, k, l2. rewrite Ed, Ek, Ep''. split_and!; try done. by right.
Qed.
(** A guard that reads the flag after the drain lets nothing through. *)
Lemma late_reads l0 d l1 i b :
  log = l0 ++ d :: l1 → drains (en_event d) = true → events_of i l0 = [] → Ev CReady b ∈ events_of i log → b = false.
Proof.
  intros E D E0 J. destruct b; [|done]. exfalso.
  assert (log = (l0 ++ d :: l1) ++ []) as E' by (by rewrite app_nil_r).
  rewrite E in J. pose proof (admitted_early _ _ _ _ _ E' D J) as J'. rewrite E0 in J'. by apply not_elem_of_nil in J'.
Qed.

Abbreviation deps := (httpDeps lib version startTime cfg ph).
Abbreviation routes := (Server.routes (lib_seconds lib) deps).

Lemma readyz_route h : (pattern "" "/readyz", Server.Public h) ∈ routes → h = Server.readyzHandler deps.
Proof.
  assert (Forall (λ e, e.1 = pattern "" "/readyz" → e.2 = Server.Public (Server.readyzHandler deps)) routes) as K.
  { unfold Server.routes, Server.both.
    destruct (Server.hd_slack _), (Server.hd_sso _), (Server.hd_metricsOnSeparateListener _);
      repeat (apply Forall_app_2 || apply Forall_cons_2 || apply Forall_nil_2); try done; intros Q; vm_compute in Q; discriminate Q. }
  rewrite Forall_forall in K. intros J. specialize (K _ J eq_refl). by injection K as ->.
Qed.

(** What a request gets that comes after readiness was withdrawn: the check of its origin,
    503, or a route that needs no authentication; the readiness probe gets 503. *)
Definition turned_away (x : Inbound) (tr : list event) (resp : Response any) : Prop :=
  tr = [] ∨ tr = [Ev CReady false] ∧ rs_Status resp = 503
  ∨ ∃ p h, match_request routes (rq_Method (in_req x)) (in_EscapedPath x) = Some (p, Server.Public h)
      ∧ p ∈ Server.public_patterns ∧ p ≠ pattern "" "/readyz".

Lemma late_turned_away l0 d l1 i x resp :
  log = l0 ++ d :: l1 → drains (en_event d) = true → events_of i l0 = [] →
  runs (finalHandler lib version startTime cfg ph x) (events_of i log) resp → turned_away x (events_of i log) resp.
Proof.
  intros E D E0 R. pose proof (late_reads _ _ _ i true E D E0) as N. revert R N. generalize (events_of i log). intros tr R N.
  destruct (Server.runs_build (lib_seconds lib) (lib_redirect lib) deps x _ _ R)
    as [->|(p & dm & resp' & J & M & _ & -> & S)]; [by left|]. right.
  assert (∀ tr', tr ≠ Ev CReady true :: tr') as N' by (intros tr' ->; discriminate N; by left).
  destruct dm as [h|h|h].
  - destruct (decide (p = pattern "" "/readyz")) as [->|Np].
    + left. rewrite (readyz_route _ J) in S. destruct S as ([|] & tr' & -> & S); [by destruct (N' tr')|].
      by destruct S as [-> ->].
    + right. exists p, h. split_and!; [done| |done]. by eapply Server.public_routes.
  - left. destruct S as [[-> S]|(tr' & -> & _)]; [done|by destruct (N' tr')].
  - left. destruct S as [[-> S]|[[-> _]|(t & id & tr' & _ & _ & -> & _)]]; [done|by destruct (N' [])|by destruct (N' tr')].
Qed.

(** Nobody begins to sign in, and nobody is signed in, before the provider was discovered. *)
Definition signs_in (c : cmd) : Prop :=
  match c with CCreateLogin _ _ _ _ _ | CCreateSession _ _ _ _ _ => True | _ => False end.

Lemma sign_in_discovered l1 e l2 c y :
  log = l1 ++ e :: l2 → en_event e = Ev c y → signs_in c → happened discovers l1 = true.
Proof.
  intros E Ee Si. destruct (EndToEnd.request_call lib version startTime cfg ph tasks wired log I _ _ _ _ _ E Ee) as (x & T & R).
  - intros P. by destruct c.
  - intros P. by destruct c.
  - intros s retries ticks pre G. destruct c; try done; by destruct G as (r & ? & _).
  - assert (Ev CClient true ∈ events_of (en_task e) l1) as J.
    { destruct R as [P|s tk _ _ G|a h post resp A _ R|id gate h _ _ _ G|token id h _ _ _ _ G];
        [by destruct c| |by apply (EndToEnd.slack_calls lib cfg _ _ _ _ _ _ _ A) in R; destruct c|by destruct c|by destruct c].
      destruct c; try done.
      - destruct G as (r & _ & b1 & b2 & now & -> & _). by left.
      - destruct G as (r & _ & attempt & raw & tok & claims & b & now & -> & _). right. by left. }
    apply events_of_elem in J as (g & J & _ & Eg). apply list_elem_of_split in J as (m1 & m2 & ->).
    rewrite <- app_assoc in E. pose proof (flag_read _ _ _ _ _ F E) as Rd. rewrite Eg in Rd. cbn in Rd.
    by rewrite happened_app, <- Rd.
Qed.
End deployment.

(** ** Stopping the server *)

Section theorems.
Context `{UnicodeTables} `{UrlLib} `{UuidLib}.

(** C7: graceful shutdown.  However the requests, the workers and the loops of a deployment
    interleave with the end of [main]: when it stops a listener, it has withdrawn readiness,
    then ended the workers' context, and waited out the drain delay.  From the moment
    readiness is withdrawn, whatever is held, decided, sent or recorded is the work of a
    request that had been let in before, or of the replay worker; a request that comes
    later is answered 503 with nothing done, as is the readiness probe, or asked for a
    route that needs no authentication.  From the moment the context ends, a replay worker
    sends at most one more request, the one it was at. *)
Theorem graceful_shutdown (lib : Libraries) (version : string) (startTime : Z) (cfg : Config.Config) (ph : Proxy.ProxyHandler)
    (tasks : list task) (log : list entry) (f : flags) (l : list entry) (s : entry) (l3 : list entry)
    (metrics : bool) (y : option error) :
  proxyHandler lib cfg = Ok ph → interleaves (program_of lib version startTime cfg ph) tasks log → flags_after log f →
  log = l ++ s :: l3 → tasks !! en_task s = Some TShutdown → en_event s = Ev (CShutdown metrics) y →
  ∃ l0 d l1 k l2, l = l0 ++ d :: l1 ++ k :: l2 ∧ en_event d = Ev CDrain tt ∧ en_event k = Ev CCancelWorkers tt
    ∧ Ev (CSleep (Config.cf_ShutdownDrainDelay cfg)) tt ∈ events_of (en_task s) l2
    ∧ (∀ m1 e m2 c z, l1 ++ k :: l2 ++ s :: l3 = m1 ++ e :: m2 → en_event e = Ev c z → acts c →
         (∃ x, tasks !! en_task e = Some (TRequest x) ∧ Ev CReady true ∈ events_of (en_task e) l0)
         ∨ ∃ ticks, tasks !! en_task e = Some (TReplay ticks))
    ∧ (∀ i x resp, tasks !! i = Some (TRequest x) → events_of i l0 = [] →
         runs (finalHandler lib version startTime cfg ph x) (events_of i log) resp →
         turned_away lib version startTime cfg ph x (events_of i log) resp)
    ∧ ∀ i ticks, tasks !! i = Some (TReplay ticks) → (sends (events_of i (l2 ++ s :: l3)) ≤ 1)%nat.
Proof.
  intros W I F E T Es. destruct (shutdown_log _ _ _ _ _ _ _ I _ _ _ _ _ E T Es) as (l0 & d & l1 & k & l2 & -> & Ed & Ek & Wt).
  assert (drains (en_event d) = true) as D by (by rewrite Ed). assert (cancels (en_event k) = true) as K by (by rewrite Ek).
  assert (log = l0 ++ d :: l1 ++ k :: l2 ++ s :: l3) as E' by (by rewrite E, <- app_assoc, <- app_comm_cons, <- app_assoc).
  exists l0, d, l1, k, l2. split_and!; try done.
  - intros m1 e m2 c z M Ee A. rewrite M in E'.
    assert (log = (l0 ++ d :: m1) ++ e :: m2) as E2 by (by rewrite E', <- app_assoc).
    destruct (acts_admitted _ _ _ _ _ _ _ W I _ _ _ _ _ E2 Ee A) as [(x & Tx & J)|?]; [left|by right].
    exists x. split; [done|]. by eapply admitted_early.
  - intros i x resp _ E0 R. by eapply late_turned_away.
  - intros i ticks Ti. eapply worker_winds; [done|done| |done|done]. by rewrite E', app_comm_cons, app_assoc.
Qed.
End theorems.

(** ** Witness: the server is stopped while a replay is about to be sent *)

(** The flags after a log, when every read fits. *)
Fixpoint play (f : flags) (l : list entry) : option flags :=
  match l with
  | [] => Some f
  | e :: l => if reads f (en_event e) then play (updates f (en_event e)) l else None
  end.

Lemma play_after l0 f0 l f : flags_after l0 f0 → play f0 l = Some f → flags_after (l0 ++ l) f.
Proof.
  revert l0 f0. induction l as [|e l IH]; intros l0 f0 A P; cbn in P; [injection P as <-; by rewrite app_nil_r|].
  destruct (reads f0 (en_event e)) eqn:R; [|done]. change (e :: l) with ([e] ++ l). rewrite app_assoc.
  eapply IH; [|exact P]. by eapply after_call.
Qed.

Lemma play_start l f : play serving l = Some f → flags_after l f.
Proof. apply (play_after []), after_start. Qed.

Section example.
#[local] Existing Instance ascii_tables.
#[local] Existing Instance plain_urls.
#[local] Existing Instance QStore.plain_uuid.
#[local] Existing Instance Ingress.MCPAdapter.

Definition sample_stop := run (λ c (u : unit), (quiet_answer c, u)) (Server.shutdown World.sample_valid) tt.
Definition stop_log : list entry :=
  take 24 World.sample_log ++ map (mkEntry 0 3) sample_stop.1.1 ++ drop 24 World.sample_log.
Definition stop_tasks : list task := World.sample_tasks ++ [TShutdown].

Lemma stop_interleaves :
  interleaves (program_of World.sample_lib "v1" 0 World.sample_valid World.sample_proxy) stop_tasks stop_log.
Proof.
  destruct World.deployed_interleaves as [D S]. split.
  - intros e J. assert (e ∈ World.sample_log ∨ en_task e = 3%nat) as [K|K]; [|destruct (D e K) as [tk T]; exists tk; by apply lookup_app_l_Some|rewrite K; by eexists].
    unfold stop_log in J. rewrite !elem_of_app in J. rewrite <- (take_drop 24 World.sample_log), elem_of_app.
    destruct J as [J|[J|J]]; [by do 2 left| |by left; right]. right. by apply list_elem_of_fmap in J as (ev & -> & _).
  - intros i tk T. unfold stop_log. rewrite !events_of_app, events_of_stamp.
    destruct (Nat.eqb_spec 3 i) as [<-|N].
    + injection T as <-. pose proof (interleaves_idle _ _ _ 3 World.deployed_interleaves eq_refl) as Id.
      rewrite <- (take_drop 24 World.sample_log), events_of_app in Id. apply app_eq_nil in Id as [-> ->]. rewrite app_nil_r.
      eexists. apply runs_steps, (run_runs _ _ _ _ _ _ (run_eta sample_stop)).
    + cbn [app]. rewrite <- events_of_app, take_drop. apply S. unfold stop_tasks in T.
      apply lookup_app_Some in T as [T|[L T]]; [exact T|].
      apply list_lookup_singleton_Some in T as [Z _]. change (length World.sample_tasks) with 3%nat in L, Z. clear -N L Z. lia.
Qed.

Lemma stop_flags : flags_after stop_log (mkFlags false true false).
Proof. apply play_start. vm_compute. reflexivity. Qed.

(** The shutdown is its last call, with the worker's send and what follows still to come. *)
Lemma stop_last :
  ∃ s, stop_log !! 28%nat = Some s ∧ en_task s = 3%nat ∧ en_event s = Ev (CShutdown false) None
    ∧ sends (events_of 2 (drop 29 stop_log)) = 1%nat.
Proof.
  assert ((λ e, (en_task e, match en_event e with Ev (CShutdown false) None => true | _ => false end)) <$> stop_log !! 28%nat
          = Some (3%nat, true)) as K by (vm_compute; reflexivity).
  apply fmap_Some in K as (s & L & K). injection K as T E. exists s. split; [exact L|]. split; [symmetry; exact T|].
  split; [|vm_compute; reflexivity]. destruct (en_event s) as [c x].
  destruct c; try discriminate E. destruct metrics, x; try discriminate E. reflexivity.
Qed.

Lemma graceful_shutdown_witness :
  ∃ l s l3 l2, stop_log = l ++ s :: l3 ∧ en_event s = Ev (CShutdown false) None ∧ sends (events_of 2 l3) = 1%nat
    ∧ (sends (events_of 2 (l2 ++ s :: l3)) ≤ 1)%nat.
Proof.
  destruct stop_last as (s & L & T & E & N). apply take_drop_middle in L. symmetry in L.
  exists (take 28 stop_log), s, (drop 29 stop_log).
  destruct (graceful_shutdown World.sample_lib "v1" 0 World.sample_valid World.sample_proxy stop_tasks stop_log
    (mkFlags false true false) (take 28 stop_log) s (drop 29 stop_log) false None World.sample_wired stop_interleaves stop_flags L)
    as (l0 & d & l1 & k & l2 & _ & _ & _ & _ & _ & _ & W).
  - rewrite T. reflexivity.
  - exact E.
  - exists l2. split; [exact L|]. split; [exact E|]. split; [exact N|]. apply (W 2%nat 0%nat). reflexivity.
Defined.
End example.
End Lifecycle.
